(** * vocab-flashcards-backend: scheduler, session composer and sync merge

    A shallow embedding of the core of the backend:
    - [app/services/srs_sm2.py]   the SM-2 scheduler,
    - [app/utils/normalize.py]    term normalisation,
    - [app/services/session.py]   the daily session composer,
    - [app/services/sync_merge.py] and [app/routes/sync.py]  snapshot import
      and export,
    - [app/routes/review.py], [app/routes/vocab.py]  the routes that review,
      create and delete a card,
    - [app/services/typing_judge.py], [app/services/vocab_guard.py],
      [app/services/ai_cache.py]  the judge of typed answers, the guard of
      typed entries and the merge of cached data.

    Conventions of the embedding.
    - A Python [float] is a binary64 number: Rocq's primitive [float], whose
      operations are the IEEE-754 ones Python uses.  The built-ins the code
      calls on floats ([min], [max], [round]) are written out below.
    - A Python [int] is a [Z].
    - A [datetime] is an aware date as Python holds it: the fields of the
      wall clock, counted in microseconds since 1970-01-01T00:00:00, the fold
      and the [tzinfo].  Arithmetic is that of the wall clock, within the
      years 1 to 9999; the instant of a date is its wall clock less its
      offset from UTC.  The program holds no naive date: [now_local] gives
      aware dates, the client reads them aware ([tz_aware=True]) and
      [_parse_datetime] gives a date without a zone the zone UTC.
    - MongoDB keeps of a date its instant in whole milliseconds and gives it
      back in UTC: a document written to the store has its dates in that
      form.  The driver encodes the dates it is given: a date whose instant
      lies outside the years 1 to 9999, which it refuses, is not considered.
    - A raised exception is the [Raise] case of [result].
    - A [dict] with string keys is a [gmap string _] and a [set] a [gset];
      where the order of insertion matters (an [OrderedDict], the word
      family) a dict is the list of its items.
    - A card of the store is a record with every key of the documents that
      the code writes; a record of a snapshot has optional keys. *)

From Stdlib Require Import ZArith Floats Lia Ascii String Sorted.
From stdpp Require Import base option list gmap strings fin_maps pretty.

#[local] Set Warnings "-inexact-float,-register-all,-clear-no-such-hyp".
#[local] Open Scope Z_scope.

(* ===================================================================== *)
(** * Part I.  Definitions                                                *)
(* ===================================================================== *)

(** ** Python values and exceptions *)

Inductive exn :=
  | ValueError (msg : string)
  | OverflowError (msg : string)
  | RequestValidationError (field : string)
  | HTTPException (status_code : Z) (detail : string).

Inductive result (A : Type) :=
  | Ok (a : A)
  | Raise (e : exn).
Arguments Ok {A} a.
Arguments Raise {A} e.

#[export] Instance result_ret : MRet result := fun _ a => Ok a.
#[export] Instance result_bind : MBind result := fun _ _ k r =>
  match r with
  | Ok a => k a
  | Raise e => Raise e
  end.
#[export] Instance result_fmap : FMap result := fun _ _ f r =>
  match r with
  | Ok a => Ok (f a)
  | Raise e => Raise e
  end.

(** ** Dates: [datetime], [timedelta], [tzinfo] *)

(** A [tzinfo]: a fixed offset from UTC in microseconds ([timezone.utc], a
    [timezone(timedelta(...))], the [utc] of [bson]), or the zone of the
    application, the [ZoneInfo] that [LOCAL_TZ] is, given by its
    [utcoffset]: the offset at a wall clock and fold. *)
Inductive tzinfo :=
  | Fixed (offset : Z)
  | Zone (zone_utcoffset : Z -> bool -> Z).

(** An aware [datetime]. *)
Record datetime := {
  wall : Z;
  fold : bool;
  tz : tzinfo;
}.

(** [d.utcoffset()], and the instant of [d] in microseconds since the
    epoch. *)
Definition utcoffset (d : datetime) : Z :=
  match tz d with
  | Fixed offset => offset
  | Zone zone_utcoffset => zone_utcoffset (wall d) (fold d)
  end.

Definition instant (d : datetime) : Z := wall d - utcoffset d.

Definition microseconds_per_day : Z := 86400000000.

(** [datetime.min] and [datetime.max]: 0001-01-01T00:00:00 and
    9999-12-31T23:59:59.999999. *)
Definition min_wall : Z := -62135596800000000.
Definition max_wall : Z := 253402300799999999.

(** [timedelta(days=n)] for an [int] [n], in microseconds: the number of
    days is read as a C [int] and has at most nine digits. *)
Definition timedelta_days (n : Z) : result Z :=
  if (n <? -2147483648) || (2147483647 <? n) then
    Raise (OverflowError "Python int too large to convert to C int")
  else if (n <? -999999999) || (999999999 <? n) then
    Raise (OverflowError ("days=" ++ pretty n ++ "; must have magnitude <= 999999999"))
  else Ok (n * microseconds_per_day).

(** [d + delta] for a [timedelta] of [delta] microseconds: the wall clock
    moves, the zone stays, the fold is 0; a date outside the years 1 to 9999
    is refused. *)
Definition datetime_add (d : datetime) (delta : Z) : result datetime :=
  let w := wall d + delta in
  if (w <? min_wall) || (max_wall <? w) then
    Raise (OverflowError "date value out of range")
  else Ok {| wall := w; fold := false; tz := tz d |}.

(** [a < b]: two dates of the one zone object are compared by their wall
    clocks, any other two by their instants (for equal offsets the two
    orders agree). *)
Definition datetime_ltb (a b : datetime) : bool :=
  match tz a, tz b with
  | Zone _, Zone _ => wall a <? wall b
  | _, _ => instant a <? instant b
  end.

(** [min(a, b)] and [max(a, b)] on dates: the first argument is kept unless
    the second is strictly smaller (resp. strictly larger). *)
Definition datetime_min (a b : datetime) : datetime := if datetime_ltb b a then b else a.
Definition datetime_max (a b : datetime) : datetime := if datetime_ltb a b then b else a.

(** A number of days in microseconds, and the UTC date of an instant, for
    the statements and the examples. *)
Definition days (n : Z) : Z := n * microseconds_per_day.

Definition utc (i : Z) : datetime := {| wall := i; fold := false; tz := Fixed 0 |}.

(** What MongoDB keeps of a date: the milliseconds of its instant since the
    epoch, rounded down ([_datetime_to_millis] of [bson]); and the date it
    gives back for them, in the zone UTC. *)
Definition millis (d : datetime) : Z := instant d / 1000.

Definition mongo_date (d : datetime) : datetime := utc (millis d * 1000).

(** The values stored under the keys of the scheduler's dicts. *)
Inductive pyval :=
  | VFloat (x : float)
  | VInt (n : Z)
  | VDatetime (d : datetime)
  | VNone.

(** ** Built-ins on floats *)

(** [min(a, b)] and [max(a, b)]: the first argument is kept unless the
    second is strictly smaller (resp. strictly larger). *)
Definition py_min (a b : float) : float := if (b <? a)%float then b else a.
Definition py_max (a b : float) : float := if (a <? b)%float then b else a.

(** The binary64 number nearest to the integer [n] (ties to even); an
    infinity when [n] is out of range. *)
Definition float_of_Z (n : Z) : float :=
  SF2Prim (binary_normalize prec emax n 0 false).

(** [float(n)], as performed when an [int] meets a [float] in arithmetic. *)
Definition py_float_of_int (n : Z) : result float :=
  let x := float_of_Z n in
  if is_infinity x then Raise (OverflowError "int too large to convert to float")
  else Ok x.

(** [n * x] for an [int] [n] and a [float] [x]. *)
Definition int_mul_float (n : Z) (x : float) : result float :=
  f ← py_float_of_int n; Ok (f * x)%float.

(** [num / den] rounded to the nearest integer, ties to the even one
    ([den] positive). *)
Definition round_half_even (num den : Z) : Z :=
  let q := num / den in
  let r := num mod den in
  match 2 * r ?= den with
  | Lt => q
  | Gt => q + 1
  | Eq => if Z.even q then q else q + 1
  end.

(** [k * m * 2^e] rounded to the nearest integer, ties to even. *)
Definition scaled_round (k : Z) (m : positive) (e : Z) : Z :=
  match e with
  | Zneg p => round_half_even (k * Zpos m) (2 ^ Zpos p)
  | _ => k * Zpos m * 2 ^ e
  end.

(** [round(x)] with one argument: the nearest [int], ties to even; NaN and
    the infinities raise. *)
Definition py_round (x : float) : result Z :=
  match Prim2SF x with
  | S754_nan => Raise (ValueError "cannot convert float NaN to integer")
  | S754_infinity _ => Raise (OverflowError "cannot convert float infinity to integer")
  | S754_zero _ => Ok 0
  | S754_finite s m e => Ok (cond_Zopp s (scaled_round 1 m e))
  end.

(** [round(x, 2)]: the exact value of [x] is rounded to two decimals (ties
    to even) and the decimal result is read back as the nearest binary64
    number.  NaN, infinities and zeros round to themselves.  From [2^46] on
    the spacing of binary64 numbers exceeds [0.01] and the result is [x]
    itself; below, the scaled integer is under [2^53], so it converts exactly
    and the correctly rounded division by [100] is the nearest number. *)
Definition py_round2 (x : float) : float :=
  match Prim2SF x with
  | S754_finite s m e =>
      if -6 <=? e then x
      else
        let n := scaled_round 100 m e in
        let q := (float_of_Z n / 100.0)%float in
        if s then (- q)%float else q
  | _ => x
  end.

(** ** The scheduler: [app/services/srs_sm2.py] *)

Definition clamp (value min_value max_value : float) : float :=
  py_max min_value (py_min max_value value).

Record Sm2State := {
  easeFactor : float;
  intervalDays : Z;
  repetitions : Z;
  lapses : Z;
}.

Definition initial_state (now : datetime) : gmap string pyval :=
  {[ "easeFactor" := VFloat 2.5%float;
     "intervalDays" := VInt 0;
     "repetitions" := VInt 0;
     "lapses" := VInt 0;
     "dueAt" := VDatetime now;
     "lastReviewedAt" := VNone ]}.

Definition apply_review (state : Sm2State) (grade : Z) (now : datetime)
  : result (gmap string pyval) :=
  if (grade <? 0) || (grade >? 5) then
    Raise (ValueError "SM-2 grade must be in range 0..5")
  else
    let ease := easeFactor state in
    let interval := intervalDays state in
    let repetitions := repetitions state in
    let lapses := lapses state in
    '(ease, interval, repetitions, lapses, due_at) ←
      (if grade <? 3 then
         let repetitions := 0 in
         let interval := 0 in
         let lapses := lapses + 1 in
         let ease := clamp (ease - 0.2)%float 1.3%float 3.0%float in
         let due_at := now in
         Ok (ease, interval, repetitions, lapses, due_at)
       else
         interval ←
           (if repetitions =? 0 then Ok 1
            else if repetitions =? 1 then Ok 6
            else
              p ← int_mul_float interval ease;
              r ← py_round p;
              Ok (Z.max 1 r));
         let repetitions := repetitions + 1 in
         a ← int_mul_float (5 - grade) 0.02%float;
         b ← int_mul_float (5 - grade) (0.08 + a)%float;
         let delta := (0.1 - b)%float in
         let ease := clamp (ease + delta)%float 1.3%float 3.0%float in
         days_ahead ← timedelta_days interval;
         due_at ← datetime_add now days_ahead;
         Ok (ease, interval, repetitions, lapses, due_at));
    Ok ({[ "easeFactor" := VFloat (py_round2 ease);
           "intervalDays" := VInt interval;
           "repetitions" := VInt repetitions;
           "lapses" := VInt lapses;
           "dueAt" := VDatetime due_at;
           "lastReviewedAt" := VDatetime now ]} : gmap string pyval).

Definition apply_readd_penalty (state : Sm2State) (now : datetime)
  : gmap string pyval :=
  {[ "easeFactor" :=
       VFloat (py_round2 (clamp (easeFactor state - 0.2)%float 1.3%float 3.0%float));
     "repetitions" := VInt 0;
     "intervalDays" := VInt 0;
     "dueAt" := VDatetime now ]}.

(** The [$set] update operator on a stored document: the keys of the update
    are written, every other key of the document is kept. *)
Definition mongo_set (update doc : gmap string pyval) : gmap string pyval :=
  update ∪ doc.

(** ** Term normalisation: [app/utils/normalize.py]

    A Python [str] is a sequence of code points.  The functions below are
    written over any type of characters, given the classes and the case
    mapping of Python's Unicode database:
    - [is_space c]: [c.isspace()], which is also the class [\s] of [re];
    - [is_alnum c]: [c.isalnum()]; with the underscore it is the class [\w];
    - [lower s]: [s.lower()];
    - [space]: the character of the replacement string [" "]. *)

Section Normalize.
Context {char : Type}.
Variable is_space : char -> bool.
Variable is_alnum : char -> bool.
Variable is_underscore : char -> bool.
Variable lower : list char -> list char.
Variable space : char.

(** The class [\w], and the class [[\W_]] of the pattern below. *)
Definition is_word (c : char) : bool := is_alnum c || is_underscore c.
Definition is_surrounding_punct (c : char) : bool :=
  negb (is_word c) || is_underscore c.

(** The longest prefix, resp. suffix, of characters in a class, removed. *)
Fixpoint lstrip_while (p : char -> bool) (s : list char) : list char :=
  match s with
  | [] => []
  | c :: s' => if p c then lstrip_while p s' else s
  end.

Fixpoint rstrip_while (p : char -> bool) (s : list char) : list char :=
  match s with
  | [] => []
  | c :: s' =>
      match rstrip_while p s' with
      | [] => if p c then [] else [c]
      | r => c :: r
      end
  end.

(** [s.strip()]. *)
Definition strip (s : list char) : list char :=
  rstrip_while is_space (lstrip_while is_space s).

(** [_MULTI_SPACE.sub(" ", s)] with [_MULTI_SPACE = re.compile(r"\s+")]:
    each maximal run of white space becomes one space.  [in_run] tells
    that the previous character belonged to the current run. *)
Fixpoint multi_space_sub_from (in_run : bool) (s : list char) : list char :=
  match s with
  | [] => []
  | c :: s' =>
      if is_space c then
        if in_run then multi_space_sub_from true s'
        else space :: multi_space_sub_from true s'
      else c :: multi_space_sub_from false s'
  end.

Definition _MULTI_SPACE_sub (s : list char) : list char :=
  multi_space_sub_from false s.

(** [_SURROUNDING_PUNCT.sub("", s)] with
    [_SURROUNDING_PUNCT = re.compile(r"^[\W_]+|[\W_]+$")]: the first
    alternative matches the leading run of the class at the start of the
    string, the second the run that reaches its end. *)
Definition _SURROUNDING_PUNCT_sub (s : list char) : list char :=
  rstrip_while is_surrounding_punct (lstrip_while is_surrounding_punct s).

Definition normalize_term (term : list char) : list char :=
  let normalized := _MULTI_SPACE_sub (lower (strip term)) in
  let normalized := _SURROUNDING_PUNCT_sub normalized in
  strip (_MULTI_SPACE_sub normalized).

(** A string that neither starts nor ends with a character of a class. *)
Definition starts_clean (p : char -> bool) (s : list char) : Prop :=
  match s with
  | [] => True
  | c :: _ => p c = false
  end.

Definition ends_clean (p : char -> bool) (s : list char) : Prop :=
  match last s with
  | None => True
  | Some c => p c = false
  end.

(** A string in which white space occurs only as single [space]
    characters ([after_space]: the previous character was white space). *)
Fixpoint collapsed (after_space : bool) (s : list char) : Prop :=
  match s with
  | [] => True
  | c :: s' =>
      if is_space c then c = space /\ after_space = false /\ collapsed true s'
      else collapsed false s'
  end.

(** The shape of a normalised term: only characters that [lower] produces
    and leaves alone (the class [is_lowered]), single spaces, and no
    character of [[\W_]] at either end. *)
Definition normal_form (is_lowered : char -> bool) (r : list char) : Prop :=
  Forall (fun c => is_lowered c = true) r /\
  collapsed false r /\
  starts_clean is_surrounding_punct r /\
  ends_clean is_surrounding_punct r.
End Normalize.

(** *** Strings of code points below 256

    The terms of the store are Rocq strings, whose characters stand for the
    code points 0 to 255 with Python's classes and case mapping there. *)

Definition latin1_is_space (c : ascii) : bool :=
  let n := nat_of_ascii c in
  ((9 <=? n) && (n <=? 13) || (28 <=? n) && (n <=? 32) || (n =? 133) || (n =? 160))%nat.

Definition latin1_is_alnum (c : ascii) : bool :=
  let n := nat_of_ascii c in
  ((48 <=? n) && (n <=? 57) || (65 <=? n) && (n <=? 90) || (97 <=? n) && (n <=? 122)
   || (n =? 170) || (n =? 178) || (n =? 179) || (n =? 181) || (n =? 185) || (n =? 186)
   || (188 <=? n) && (n <=? 190)
   || (192 <=? n) && (n <=? 214) || (216 <=? n) && (n <=? 246) || (248 <=? n))%nat.

Definition latin1_is_underscore (c : ascii) : bool :=
  (nat_of_ascii c =? 95)%nat.

Definition latin1_lower_char (c : ascii) : ascii :=
  let n := nat_of_ascii c in
  if ((65 <=? n) && (n <=? 90) || (192 <=? n) && (n <=? 214) || (216 <=? n) && (n <=? 222))%nat
  then ascii_of_nat (n + 32) else c.

Definition latin1_lower (s : list ascii) : list ascii := map latin1_lower_char s.

(** The characters without an upper case of their own. *)
Definition latin1_is_lowered (c : ascii) : bool :=
  Ascii.eqb (latin1_lower_char c) c.

Definition normalize_term_str (term : string) : string :=
  string_of_list_ascii
    (normalize_term latin1_is_space latin1_is_alnum latin1_is_underscore latin1_lower
       " "%char (list_ascii_of_string term)).

(** ** The document store

    The store holds three collections.  A collection is the list of its
    documents in insertion order, each one as a query gives it back: the
    dates of a document are the [mongo_date]s of the dates that were
    written, which every write below sees to, and the queries compare and
    sort dates by their milliseconds.  The [ObjectId] of a document is
    written as the text that [str] gives of it, hexadecimal digits in lower
    case. *)

Abbreviation ObjectId := string (only parsing).

(** JSON values: what [stable_hash] digests and what an event carries. *)
Inductive json :=
  | JNull
  | JBool (b : bool)
  | JInt (n : Z)
  | JFloat (x : float)
  | JStr (s : string)
  | JList (items : list json)
  | JDict (items : list (string * json)).

Module Vocab.
(** The keys of a card document other than [_id]. *)
Record body := {
  term : string;
  termNormalized : string;
  meanings : list string;
  ipa : option string;
  exampleEn : option string;
  exampleVi : option string;
  mnemonic : option string;
  tags : list string;
  collocations : list string;
  phrases : list string;
  wordFamily : list (string * list string);
  topics : list string;
  cefrLevel : option string;
  ieltsBand : option float;
  createdAt : datetime;
  updatedAt : datetime;
  easeFactor : float;
  intervalDays : Z;
  repetitions : Z;
  lapses : Z;
  dueAt : datetime;
  lastReviewedAt : option datetime;
  readdCount : Z;
  lastReaddAt : option datetime;
}.

Record doc := {
  _id : ObjectId;
  fields : body;
}.
End Vocab.

Module Log.
Record doc := {
  vocabId : ObjectId;
  mode : string;
  questionType : string;
  grade : Z;
  userAnswer : option string;
  isNearCorrect : option bool;
  createdAt : datetime;
}.
End Log.

Module Event.
Record doc := {
  type : string;
  payload : json;
  createdAt : datetime;
}.
End Event.

Record Store := {
  vocabs : list Vocab.doc;
  review_logs : list Log.doc;
  events : list Event.doc;
}.

(** A card, a log and an event as the store keeps them once written: the
    dates become [mongo_date]s, the other keys are kept. *)
Definition mongo_body (b : Vocab.body) : Vocab.body :=
  {| Vocab.term := Vocab.term b;
     Vocab.termNormalized := Vocab.termNormalized b;
     Vocab.meanings := Vocab.meanings b;
     Vocab.ipa := Vocab.ipa b;
     Vocab.exampleEn := Vocab.exampleEn b;
     Vocab.exampleVi := Vocab.exampleVi b;
     Vocab.mnemonic := Vocab.mnemonic b;
     Vocab.tags := Vocab.tags b;
     Vocab.collocations := Vocab.collocations b;
     Vocab.phrases := Vocab.phrases b;
     Vocab.wordFamily := Vocab.wordFamily b;
     Vocab.topics := Vocab.topics b;
     Vocab.cefrLevel := Vocab.cefrLevel b;
     Vocab.ieltsBand := Vocab.ieltsBand b;
     Vocab.createdAt := mongo_date (Vocab.createdAt b);
     Vocab.updatedAt := mongo_date (Vocab.updatedAt b);
     Vocab.easeFactor := Vocab.easeFactor b;
     Vocab.intervalDays := Vocab.intervalDays b;
     Vocab.repetitions := Vocab.repetitions b;
     Vocab.lapses := Vocab.lapses b;
     Vocab.dueAt := mongo_date (Vocab.dueAt b);
     Vocab.lastReviewedAt := mongo_date <$> Vocab.lastReviewedAt b;
     Vocab.readdCount := Vocab.readdCount b;
     Vocab.lastReaddAt := mongo_date <$> Vocab.lastReaddAt b |}.

Definition mongo_log (l : Log.doc) : Log.doc :=
  {| Log.vocabId := Log.vocabId l;
     Log.mode := Log.mode l;
     Log.questionType := Log.questionType l;
     Log.grade := Log.grade l;
     Log.userAnswer := Log.userAnswer l;
     Log.isNearCorrect := Log.isNearCorrect l;
     Log.createdAt := mongo_date (Log.createdAt l) |}.

Definition mongo_event (e : Event.doc) : Event.doc :=
  {| Event.type := Event.type e;
     Event.payload := Event.payload e;
     Event.createdAt := mongo_date (Event.createdAt e) |}.

(** A value of an update as the store keeps it. *)
Definition mongo_value (v : pyval) : pyval :=
  match v with
  | VDatetime d => VDatetime (mongo_date d)
  | _ => v
  end.

(** [cursor.sort(...)]: a stable sort, by insertion, for an order given as a
    boolean [le]. *)
Fixpoint insert_sorted {A} (le : A -> A -> bool) (x : A) (l : list A) : list A :=
  match l with
  | [] => [x]
  | y :: l' => if le x y then x :: l else y :: insert_sorted le x l'
  end.

Definition sort_by {A} (le : A -> A -> bool) (l : list A) : list A :=
  foldr (insert_sorted le) [] l.

(** ** The session composer: [app/services/session.py] *)

Section Session.
(** [LOCAL_TZ]: the zone of the application, a [ZoneInfo] or, when the zone
    is not found, the fixed offset of seven hours. *)
Variable LOCAL_TZ : tzinfo.

(** [day_bounds(target)]: midnight of the day of [target] on the clock of
    [LOCAL_TZ], and that clock one day later. *)
Definition day_bounds (target : datetime) : result (datetime * datetime) :=
  let start :=
    {| wall := wall target - wall target mod microseconds_per_day;
       fold := false; tz := LOCAL_TZ |} in
  one_day ← timedelta_days 1;
  end_ ← datetime_add start one_day;
  Ok (start, end_).

Definition today_bounds (now : datetime) : result (datetime * datetime) := day_bounds now.

Definition yesterday_bounds (now : datetime) : result (datetime * datetime) :=
  one_day ← timedelta_days 1;
  yesterday ← datetime_add now (- one_day);
  day_bounds yesterday.

(** The filter [{"$gte": lo, "$lt": hi}] on a stored date; an absent date
    fails it. *)
Definition in_bounds (bounds : datetime * datetime) (d : datetime) : bool :=
  (millis bounds.1 <=? millis d) && (millis d <? millis bounds.2).

Definition opt_in_bounds (bounds : datetime * datetime) (d : option datetime) : bool :=
  match d with
  | Some d => in_bounds bounds d
  | None => false
  end.

Definition _to_output (docs : list Vocab.doc) : list Vocab.doc := docs.

(** The inner loop over one bucket: [ordered_review] is the [OrderedDict],
    its entries in insertion order; a [break] ends the loop. *)
Fixpoint add_bucket (limit : nat) (bucket : list Vocab.doc)
    (ordered_review : list (string * Vocab.doc)) : list (string * Vocab.doc) :=
  match bucket with
  | [] => ordered_review
  | doc :: rest =>
      let key := Vocab._id doc in
      if bool_decide (key ∈ ordered_review.*1) then add_bucket limit rest ordered_review
      else
        let ordered_review := ordered_review ++ [(key, doc)] in
        if (limit <=? length ordered_review)%nat then ordered_review
        else add_bucket limit rest ordered_review
  end.

(** The outer loop over the buckets. *)
Fixpoint add_buckets (limit : nat) (buckets : list (list Vocab.doc))
    (ordered_review : list (string * Vocab.doc)) : list (string * Vocab.doc) :=
  match buckets with
  | [] => ordered_review
  | bucket :: rest =>
      let ordered_review := add_bucket limit bucket ordered_review in
      if (limit <=? length ordered_review)%nat then ordered_review
      else add_buckets limit rest ordered_review
  end.

(** The queries, for the bounds [today] of today and [yesterday] of
    yesterday. *)
Definition today_new_docs (today : datetime * datetime) (db : Store) : list Vocab.doc :=
  sort_by (fun a b => millis (Vocab.createdAt (Vocab.fields a))
                      <=? millis (Vocab.createdAt (Vocab.fields b)))
    (filter (fun d => in_bounds today (Vocab.createdAt (Vocab.fields d)) = true) (vocabs db)).

Definition today_ids (today : datetime * datetime) (db : Store) : list ObjectId :=
  Vocab._id <$> today_new_docs today db.

(** The three queries end in [.limit(limit).to_list(length=limit)]: at most
    [limit] documents, where [limit] is a length (the route admits 1 to 200;
    Motor's [to_list] refuses a negative one). *)
Definition due_docs (today : datetime * datetime) (db : Store) (now : datetime) (limit : nat)
  : list Vocab.doc :=
  take limit
    (sort_by (fun a b => millis (Vocab.dueAt (Vocab.fields a))
                         <=? millis (Vocab.dueAt (Vocab.fields b)))
       (filter (fun d => (millis (Vocab.dueAt (Vocab.fields d)) <=? millis now) = true
                         /\ (Vocab._id d ∉ today_ids today db)) (vocabs db))).

(** [db.review_logs.distinct("vocabId", ...)]: the cards with a grade under
    3 in yesterday's bounds. *)
Definition low_grade_ids (yesterday : datetime * datetime) (db : Store) : list ObjectId :=
  remove_dups
    (Log.vocabId <$>
       filter (fun l => in_bounds yesterday (Log.createdAt l) = true
                        /\ (Log.grade l <? 3) = true) (review_logs db)).

Definition yesterday_not_mastered_docs (today yesterday : datetime * datetime) (db : Store)
    (limit : nat) : list Vocab.doc :=
  take limit
    (sort_by (fun a b => default 0 (millis <$> Vocab.lastReviewedAt (Vocab.fields a))
                         <=? default 0 (millis <$> Vocab.lastReviewedAt (Vocab.fields b)))
       (filter (fun d =>
                  opt_in_bounds yesterday (Vocab.lastReviewedAt (Vocab.fields d)) = true
                  /\ (Vocab._id d ∉ today_ids today db)
                  /\ ((Vocab._id d ∈ low_grade_ids yesterday db)
                      \/ 0 < Vocab.readdCount (Vocab.fields d)
                      \/ (0 < Vocab.lapses (Vocab.fields d)
                          /\ in_bounds yesterday (Vocab.updatedAt (Vocab.fields d)) = true)))
          (vocabs db))).

Definition struggle_docs (today : datetime * datetime) (db : Store) (limit : nat)
  : list Vocab.doc :=
  take limit
    (sort_by (fun a b =>
                (Vocab.readdCount (Vocab.fields b) <? Vocab.readdCount (Vocab.fields a))
                || ((Vocab.readdCount (Vocab.fields a) =? Vocab.readdCount (Vocab.fields b))
                    && (millis (Vocab.dueAt (Vocab.fields a))
                        <=? millis (Vocab.dueAt (Vocab.fields b)))))
       (filter (fun d => 0 < Vocab.readdCount (Vocab.fields d)
                         /\ (Vocab._id d ∉ today_ids today db)) (vocabs db))).

Record SessionOut := {
  todayNew : list Vocab.doc;
  review : list Vocab.doc;
}.

(** The lists of the session once the bounds are there. *)
Definition session_lists (today yesterday : datetime * datetime) (db : Store)
    (now : datetime) (limit : nat) : SessionOut :=
  let ordered_review :=
    add_buckets limit
      [due_docs today db now limit; yesterday_not_mastered_docs today yesterday db limit;
       struggle_docs today db limit] [] in
  {| todayNew := _to_output (today_new_docs today db);
     review := _to_output (ordered_review.*2) |}.

Definition get_today_session (db : Store) (now : datetime) (limit : nat)
  : result SessionOut :=
  today ← today_bounds now;
  yesterday ← yesterday_bounds now;
  Ok (session_lists today yesterday db now limit).
End Session.

(** ** Snapshot import: [app/services/sync_merge.py], [app/routes/sync.py]

    A snapshot arrives as JSON.  Its records are dicts; a key may be absent or
    null ([None] below), and a present value has the type the exporter
    writes: a string for a text or a date, a number for a counter, a list of
    strings for a list.  The counters, the ease factor and the grade are read
    with [int(d.get(k, default))] or [float(...)], which raise on a null:
    for them [None] stands for an absent key only. *)

Module RawVocab.
Record t := {
  _id : option string;
  term : option string;
  termNormalized : option string;
  meanings : option (list string);
  ipa : option string;
  exampleEn : option string;
  exampleVi : option string;
  mnemonic : option string;
  tags : option (list string);
  collocations : option (list string);
  phrases : option (list string);
  wordFamily : option (list (string * list string));
  topics : option (list string);
  cefrLevel : option string;
  ieltsBand : option float;
  createdAt : option string;
  updatedAt : option string;
  easeFactor : option float;
  intervalDays : option Z;
  repetitions : option Z;
  lapses : option Z;
  dueAt : option string;
  lastReviewedAt : option string;
  readdCount : option Z;
  lastReaddAt : option string;
}.
End RawVocab.

Module RawLog.
Record t := {
  vocabId : option string;
  mode : option string;
  questionType : option string;
  grade : option Z;
  userAnswer : option string;
  isNearCorrect : option bool;
  createdAt : option string;
}.
End RawLog.

Module RawEvent.
Record t := {
  type : option string;
  payload : option json;
  createdAt : option string;
}.
End RawEvent.

(** [SyncExport] of [app/models/sync.py], as the request body carries it. *)
Module Payload.
Record t := {
  schemaVersion : string;
  exportedAt : option string;
  vocabs : list RawVocab.t;
  review_logs : list RawLog.t;
  events : list RawEvent.t;
}.
End Payload.

(** [SyncImportReport]. *)
Record Report := {
  addedVocabs : Z;
  updatedVocabs : Z;
  addedLogs : Z;
  conflicts : Z;
}.

(** *** Strings *)

Definition str_strip (s : string) : string :=
  string_of_list_ascii (strip latin1_is_space (list_ascii_of_string s)).

Definition str_lower (s : string) : string :=
  string_of_list_ascii (latin1_lower (list_ascii_of_string s)).

(** Truth value of a string, and of a string or [None]. *)
Definition str_truthy (s : string) : bool := negb (String.eqb s "").

Definition opt_truthy (o : option string) : bool :=
  match o with
  | Some s => str_truthy s
  | None => false
  end.

(** [x or y] for a string or [None] [x]. *)
Definition opt_or (x : option string) (y : string) : string :=
  match x with
  | Some s => if str_truthy s then s else y
  | None => y
  end.

(** [x or None]. *)
Definition opt_or_none (x : option string) : option string :=
  if opt_truthy x then x else None.

(** [s.endswith("Z")] and [s[:-1]]. *)
Definition str_endswith_Z (s : string) : bool :=
  match last (list_ascii_of_string s) with
  | Some c => Ascii.eqb c "Z"
  | None => false
  end.

Definition str_drop_last (s : string) : string :=
  string_of_list_ascii (removelast (list_ascii_of_string s)).

(** [ObjectId.is_valid(s)] and [ObjectId(s)] of [bson] for a [str]: a text
    of 24 characters that [bytes.fromhex] reads.  [bytes.fromhex] skips ASCII
    white space between the bytes and wants two hexadecimal digits for each
    byte; [str] of the [ObjectId] is [hexlify] of the bytes, the digits in
    lower case. *)
Definition is_hex_digit (c : ascii) : bool :=
  let n := nat_of_ascii c in
  ((48 <=? n) && (n <=? 57) || (65 <=? n) && (n <=? 70) || (97 <=? n) && (n <=? 102))%nat.

(** [Py_ISSPACE]. *)
Definition is_ascii_space (c : ascii) : bool :=
  let n := nat_of_ascii c in
  ((9 <=? n) && (n <=? 13) || (n =? 32))%nat.

(** The digits of [hexlify(bytes.fromhex(s))]; [top] is the first digit of
    a byte that lacks its second one. *)
Fixpoint hex_digits_from (top : option ascii) (s : list ascii) : option (list ascii) :=
  match s with
  | [] => match top with None => Some [] | Some _ => None end
  | c :: s' =>
      match top with
      | None =>
          if is_ascii_space c then hex_digits_from None s'
          else if is_hex_digit c then hex_digits_from (Some c) s'
          else None
      | Some t =>
          if is_hex_digit c then
            rest ← hex_digits_from None s';
            Some (latin1_lower_char t :: latin1_lower_char c :: rest)
          else None
      end
  end.

Definition ObjectId_is_valid (s : string) : bool :=
  (String.length s =? 24)%nat
  && bool_decide (is_Some (hex_digits_from None (list_ascii_of_string s))).

Definition ObjectId_of_str (s : string) : ObjectId :=
  string_of_list_ascii (default [] (hex_digits_from None (list_ascii_of_string s))).

(** *** Dicts in insertion order *)

Fixpoint dict_get {V} (k : string) (d : list (string * V)) : option V :=
  match d with
  | [] => None
  | (k', v) :: d' => if String.eqb k' k then Some v else dict_get k d'
  end.

(** [d[k] = v]: the value of an existing key is replaced in place, a new key
    goes to the end. *)
Fixpoint dict_set {V} (k : string) (v : V) (d : list (string * V)) : list (string * V) :=
  match d with
  | [] => [(k, v)]
  | (k', v') :: d' => if String.eqb k' k then (k, v) :: d' else (k', v') :: dict_set k v d'
  end.

Section SyncMerge.
(** The libraries behind [stable_hash] and the dates: [hashlib.sha256] of
    the text of [json.dumps] with sorted keys, [datetime.fromisoformat]
    ([None] where it raises [ValueError], or else the wall clock it reads
    and the offset from UTC, if the text has one) and [datetime.isoformat],
    which writes the wall clock and the offset of a date. *)
Variable sha256 : string -> string.
Variable json_dumps : json -> string.
Variable fromisoformat : string -> option (Z * option Z).
Variable isoformat : datetime -> string.
(** The identity [insert_one] gives a card, from the collection it joins. *)
Variable new_object_id : list Vocab.doc -> ObjectId.

(** [app/utils/hash.py]. *)
Definition stable_hash (data : json) : string := sha256 (json_dumps data).

(** A value handed to [_parse_datetime]: a date, a string, or neither. *)
Inductive any_date :=
  | ADatetime (d : datetime)
  | AStr (s : string)
  | AOther.

Definition raw_date (o : option string) : any_date :=
  match o with
  | Some s => AStr s
  | None => AOther
  end.

Definition _parse_datetime (value : any_date) (default : datetime) : datetime :=
  match value with
  | ADatetime d => d
  | AStr s =>
      let candidate := str_strip s in
      let candidate :=
        if str_endswith_Z candidate then (str_drop_last candidate ++ "+00:00")%string
        else candidate in
      match fromisoformat candidate with
      | Some (parsed_wall, Some offset) =>
          {| wall := parsed_wall; fold := false; tz := Fixed offset |}
      | Some (parsed_wall, None) =>
          {| wall := parsed_wall; fold := false; tz := Fixed 0 |}
      | None => default
      end
  | AOther => default
  end.

(** The loop of [_merge_unique_strings] over the concatenated lists. *)
Fixpoint unique_strings_into (merged : list string) (items : list string) : list string :=
  match items with
  | [] => merged
  | item :: items' =>
      let text := str_strip item in
      if str_truthy text && negb (bool_decide (text ∈ merged))
      then unique_strings_into (merged ++ [text]) items'
      else unique_strings_into merged items'
  end.

Definition _merge_unique_strings (a b : list string) : list string :=
  unique_strings_into [] (a ++ b).

Definition _normalize_word_family (data : list (string * list string))
  : list (string * list string) :=
  foldl (fun out kv =>
           let role := str_lower (str_strip kv.1) in
           if str_truthy role then dict_set role (_merge_unique_strings kv.2 []) out
           else out)
    [] data.

Definition _merge_word_family (left right : list (string * list string))
  : list (string * list string) :=
  foldl (fun merged kv =>
           dict_set kv.1 (_merge_unique_strings (default [] (dict_get kv.1 merged)) kv.2) merged)
    (_normalize_word_family left) (_normalize_word_family right).

Definition opt_json {A} (f : A -> json) (o : option A) : json :=
  match o with
  | Some a => f a
  | None => JNull
  end.

Definition json_strings (l : list string) : json := JList (JStr <$> l).

(** [_serialize_doc] of a card without its [_id]. *)
Definition _serialize_doc (b : Vocab.body) : json :=
  JDict
    [ ("term", JStr (Vocab.term b));
      ("termNormalized", JStr (Vocab.termNormalized b));
      ("meanings", json_strings (Vocab.meanings b));
      ("ipa", opt_json JStr (Vocab.ipa b));
      ("exampleEn", opt_json JStr (Vocab.exampleEn b));
      ("exampleVi", opt_json JStr (Vocab.exampleVi b));
      ("mnemonic", opt_json JStr (Vocab.mnemonic b));
      ("tags", json_strings (Vocab.tags b));
      ("collocations", json_strings (Vocab.collocations b));
      ("phrases", json_strings (Vocab.phrases b));
      ("wordFamily", JDict (prod_map id json_strings <$> Vocab.wordFamily b));
      ("topics", json_strings (Vocab.topics b));
      ("cefrLevel", opt_json JStr (Vocab.cefrLevel b));
      ("ieltsBand", opt_json JFloat (Vocab.ieltsBand b));
      ("createdAt", JStr (isoformat (Vocab.createdAt b)));
      ("updatedAt", JStr (isoformat (Vocab.updatedAt b)));
      ("easeFactor", JFloat (Vocab.easeFactor b));
      ("intervalDays", JInt (Vocab.intervalDays b));
      ("repetitions", JInt (Vocab.repetitions b));
      ("lapses", JInt (Vocab.lapses b));
      ("dueAt", JStr (isoformat (Vocab.dueAt b)));
      ("lastReviewedAt", opt_json (fun d => JStr (isoformat d)) (Vocab.lastReviewedAt b));
      ("readdCount", JInt (Vocab.readdCount b));
      ("lastReaddAt", opt_json (fun d => JStr (isoformat d)) (Vocab.lastReaddAt b)) ].

Definition _log_dedup_hash (log : Log.doc) : string :=
  stable_hash
    (JDict
       [ ("vocabId", JStr (Log.vocabId log));
         ("createdAt", JStr (isoformat (Log.createdAt log)));
         ("grade", JInt (Log.grade log));
         ("mode", JStr (Log.mode log));
         ("questionType", JStr (Log.questionType log)) ]).

Definition _safe_min_datetime (left right : option datetime) (fallback : datetime)
  : datetime :=
  match left, right with
  | None, None => fallback
  | None, Some r => r
  | Some l, None => l
  | Some l, Some r => datetime_min l r
  end.

Definition _safe_max_datetime (left right : option datetime) : option datetime :=
  match left, right with
  | None, _ => right
  | _, None => left
  | Some l, Some r => Some (datetime_max l r)
  end.

(** *** The loop over the incoming cards *)

(** The key of the sort and of the match with a local card. *)
Definition incoming_term_norm (incoming : RawVocab.t) : string :=
  normalize_term_str
    (opt_or (RawVocab.termNormalized incoming) (opt_or (RawVocab.term incoming) "")).

(** The dict [incoming_doc]: the incoming record, typed field by field. *)
Definition incoming_doc (now : datetime) (incoming : RawVocab.t) (term_norm : string)
  : Vocab.body :=
  let incoming_updated := _parse_datetime (raw_date (RawVocab.updatedAt incoming)) now in
  let incoming_created := _parse_datetime (raw_date (RawVocab.createdAt incoming)) now in
  {| Vocab.term := opt_or (RawVocab.term incoming) term_norm;
     Vocab.termNormalized := term_norm;
     Vocab.meanings := _merge_unique_strings (default [] (RawVocab.meanings incoming)) [];
     Vocab.ipa := str_strip <$> RawVocab.ipa incoming;
     Vocab.exampleEn := opt_or_none (RawVocab.exampleEn incoming);
     Vocab.exampleVi := opt_or_none (RawVocab.exampleVi incoming);
     Vocab.mnemonic := opt_or_none (RawVocab.mnemonic incoming);
     Vocab.tags := _merge_unique_strings (default [] (RawVocab.tags incoming)) [];
     Vocab.collocations :=
       _merge_unique_strings (default [] (RawVocab.collocations incoming)) [];
     Vocab.phrases := _merge_unique_strings (default [] (RawVocab.phrases incoming)) [];
     Vocab.wordFamily := _normalize_word_family (default [] (RawVocab.wordFamily incoming));
     Vocab.topics := _merge_unique_strings (default [] (RawVocab.topics incoming)) [];
     Vocab.cefrLevel := RawVocab.cefrLevel incoming;
     Vocab.ieltsBand := RawVocab.ieltsBand incoming;
     Vocab.createdAt := incoming_created;
     Vocab.updatedAt := incoming_updated;
     Vocab.easeFactor := default 2.5%float (RawVocab.easeFactor incoming);
     Vocab.intervalDays := default 0 (RawVocab.intervalDays incoming);
     Vocab.repetitions := default 0 (RawVocab.repetitions incoming);
     Vocab.lapses := default 0 (RawVocab.lapses incoming);
     Vocab.dueAt := _parse_datetime (raw_date (RawVocab.dueAt incoming)) now;
     Vocab.lastReviewedAt :=
       if opt_truthy (RawVocab.lastReviewedAt incoming)
       then Some (_parse_datetime (raw_date (RawVocab.lastReviewedAt incoming)) now)
       else None;
     Vocab.readdCount := default 0 (RawVocab.readdCount incoming);
     Vocab.lastReaddAt :=
       if opt_truthy (RawVocab.lastReaddAt incoming)
       then Some (_parse_datetime (raw_date (RawVocab.lastReaddAt incoming)) now)
       else None |}.

(** One round of the loop over [text_fields], when the incoming record is
    not older: the value kept, and whether a conflict is counted. *)
Definition text_conflict (existing_value incoming_value : option string) : Z :=
  if opt_truthy existing_value && opt_truthy incoming_value
     && negb (bool_decide (existing_value = incoming_value))
  then 1 else 0.

Definition text_merged (existing_value incoming_value : option string) : option string :=
  if opt_truthy incoming_value then incoming_value else existing_value.

(** The dict [merged] of a local card [existing] and an incoming record, and
    the conflicts counted on the way. *)
Definition merge_vocab (now : datetime) (existing incoming_doc : Vocab.body)
  : Vocab.body * Z :=
  let existing_updated := _parse_datetime (ADatetime (Vocab.updatedAt existing)) now in
  let incoming_updated := Vocab.updatedAt incoming_doc in
  let incoming_created := Vocab.createdAt incoming_doc in
  let newer := negb (datetime_ltb incoming_updated existing_updated) in
  let text (field : Vocab.body -> option string) :=
    if newer then text_merged (field existing) (field incoming_doc) else field existing in
  let conflict (field : Vocab.body -> option string) :=
    if newer then text_conflict (field existing) (field incoming_doc) else 0 in
  let term_of b := Some (Vocab.term b) in
  ({| Vocab.term := default (Vocab.term existing) (text term_of);
      Vocab.termNormalized := Vocab.termNormalized existing;
      Vocab.meanings :=
        _merge_unique_strings (Vocab.meanings existing) (Vocab.meanings incoming_doc);
      Vocab.ipa := text Vocab.ipa;
      Vocab.exampleEn := text Vocab.exampleEn;
      Vocab.exampleVi := text Vocab.exampleVi;
      Vocab.mnemonic := text Vocab.mnemonic;
      Vocab.tags := _merge_unique_strings (Vocab.tags existing) (Vocab.tags incoming_doc);
      Vocab.collocations :=
        _merge_unique_strings (Vocab.collocations existing) (Vocab.collocations incoming_doc);
      Vocab.phrases :=
        _merge_unique_strings (Vocab.phrases existing) (Vocab.phrases incoming_doc);
      Vocab.wordFamily :=
        _merge_word_family (Vocab.wordFamily existing) (Vocab.wordFamily incoming_doc);
      Vocab.topics :=
        _merge_unique_strings (Vocab.topics existing) (Vocab.topics incoming_doc);
      Vocab.cefrLevel :=
        if opt_truthy (Vocab.cefrLevel incoming_doc) then Vocab.cefrLevel incoming_doc
        else Vocab.cefrLevel existing;
      Vocab.ieltsBand :=
        match Vocab.ieltsBand incoming_doc with
        | Some band => Some band
        | None => Vocab.ieltsBand existing
        end;
      Vocab.createdAt :=
        datetime_min (_parse_datetime (ADatetime (Vocab.createdAt existing)) now)
          incoming_created;
      Vocab.updatedAt := datetime_max existing_updated incoming_updated;
      Vocab.repetitions := Z.min (Vocab.repetitions existing) (Vocab.repetitions incoming_doc);
      Vocab.intervalDays :=
        Z.min (Vocab.intervalDays existing) (Vocab.intervalDays incoming_doc);
      Vocab.easeFactor := py_min (Vocab.easeFactor existing) (Vocab.easeFactor incoming_doc);
      Vocab.dueAt :=
        _safe_min_datetime (Some (Vocab.dueAt existing)) (Some (Vocab.dueAt incoming_doc)) now;
      Vocab.lapses := Z.max (Vocab.lapses existing) (Vocab.lapses incoming_doc);
      Vocab.readdCount := Z.max (Vocab.readdCount existing) (Vocab.readdCount incoming_doc);
      Vocab.lastReviewedAt :=
        _safe_max_datetime (Vocab.lastReviewedAt existing) (Vocab.lastReviewedAt incoming_doc);
      Vocab.lastReaddAt :=
        _safe_max_datetime (Vocab.lastReaddAt existing) (Vocab.lastReaddAt incoming_doc) |},
   conflict term_of + conflict Vocab.ipa + conflict Vocab.exampleEn
   + conflict Vocab.exampleVi + conflict Vocab.mnemonic).

(** [db.vocabs.find_one({"termNormalized": term_norm})]. *)
Definition find_one_term (term_norm : string) (docs : list Vocab.doc) : option Vocab.doc :=
  List.find (fun d => String.eqb (Vocab.termNormalized (Vocab.fields d)) term_norm) docs.

(** [db.vocabs.update_one({"_id": id}, {"$set": body})], with every key of
    the body set: [b] is the body as the store keeps it. *)
Fixpoint update_one (id : ObjectId) (b : Vocab.body) (docs : list Vocab.doc)
  : list Vocab.doc :=
  match docs with
  | [] => []
  | d :: docs' =>
      if String.eqb (Vocab._id d) id
      then {| Vocab._id := Vocab._id d; Vocab.fields := b |} :: docs'
      else d :: update_one id b docs'
  end.

(** The variables of the first loop. *)
Record VocabLoop := {
  loop_vocabs : list Vocab.doc;
  source_vocab_to_local : gmap string ObjectId;
  added_vocabs : Z;
  updated_vocabs : Z;
  loop_conflicts : Z;
}.

Definition import_vocab (now : datetime) (st : VocabLoop) (incoming : RawVocab.t)
  : VocabLoop :=
  let term_norm := incoming_term_norm incoming in
  if negb (str_truthy term_norm) then st
  else
    let source_vocab_id := opt_or (RawVocab._id incoming) "" in
    let doc := incoming_doc now incoming term_norm in
    match find_one_term term_norm (loop_vocabs st) with
    | None =>
        let inserted_id := new_object_id (loop_vocabs st) in
        {| loop_vocabs :=
             loop_vocabs st
             ++ [{| Vocab._id := inserted_id; Vocab.fields := mongo_body doc |}];
           source_vocab_to_local :=
             <[source_vocab_id := inserted_id]> (source_vocab_to_local st);
           added_vocabs := added_vocabs st + 1;
           updated_vocabs := updated_vocabs st;
           loop_conflicts := loop_conflicts st |}
    | Some existing =>
        let '(merged, conflicts) := merge_vocab now (Vocab.fields existing) doc in
        let changed :=
          negb (String.eqb (stable_hash (_serialize_doc (Vocab.fields existing)))
                  (stable_hash (_serialize_doc merged))) in
        {| loop_vocabs :=
             if changed
             then update_one (Vocab._id existing) (mongo_body merged) (loop_vocabs st)
             else loop_vocabs st;
           source_vocab_to_local :=
             <[source_vocab_id := Vocab._id existing]> (source_vocab_to_local st);
           added_vocabs := added_vocabs st;
           updated_vocabs := updated_vocabs st + (if changed then 1 else 0);
           loop_conflicts := loop_conflicts st + conflicts |}
    end.

(** The variables before the loop. *)
Definition vocab_loop_start (docs : list Vocab.doc) : VocabLoop :=
  {| loop_vocabs := docs; source_vocab_to_local := ∅; added_vocabs := 0;
     updated_vocabs := 0; loop_conflicts := 0 |}.

Definition import_vocabs (now : datetime) (docs : list Vocab.doc)
    (incoming_vocabs : list RawVocab.t) : VocabLoop :=
  foldl (import_vocab now) (vocab_loop_start docs)
    (sort_by (fun a b => String.leb (incoming_term_norm a) (incoming_term_norm b))
       incoming_vocabs).

(** *** The loop over the incoming review logs *)

(** The local card of an incoming log: the card its source identity was
    matched to, or else the local card of that very identity. *)
Definition resolve_vocab_id (docs : list Vocab.doc) (mapping : gmap string ObjectId)
    (incoming_log : RawLog.t) : option ObjectId :=
  let source_vocab_id := opt_or (RawLog.vocabId incoming_log) "" in
  match mapping !! source_vocab_id with
  | Some local_vocab_id => Some local_vocab_id
  | None =>
      if ObjectId_is_valid source_vocab_id then
        let candidate := ObjectId_of_str source_vocab_id in
        if bool_decide (candidate ∈ Vocab._id <$> docs) then Some candidate else None
      else None
  end.

Definition normalized_log (now : datetime) (local_vocab_id : ObjectId)
    (incoming_log : RawLog.t) : Log.doc :=
  {| Log.vocabId := local_vocab_id;
     Log.mode := opt_or (RawLog.mode incoming_log) "flip";
     Log.questionType := opt_or (RawLog.questionType incoming_log) "term_to_meaning";
     Log.grade := default 0 (RawLog.grade incoming_log);
     Log.userAnswer := RawLog.userAnswer incoming_log;
     Log.isNearCorrect := RawLog.isNearCorrect incoming_log;
     Log.createdAt := _parse_datetime (raw_date (RawLog.createdAt incoming_log)) now |}.

(** One round: [(existing_hashes, logs_to_insert)] before and after. *)
Definition import_log (now : datetime) (docs : list Vocab.doc)
    (mapping : gmap string ObjectId) (st : gset string * list Log.doc)
    (incoming_log : RawLog.t) : gset string * list Log.doc :=
  let '(existing_hashes, logs_to_insert) := st in
  match resolve_vocab_id docs mapping incoming_log with
  | None => st
  | Some local_vocab_id =>
      let log := normalized_log now local_vocab_id incoming_log in
      let dedup_key := _log_dedup_hash log in
      if bool_decide (dedup_key ∈ existing_hashes) then st
      else ({[dedup_key]} ∪ existing_hashes, logs_to_insert ++ [log])
  end.

Definition import_logs (now : datetime) (docs : list Vocab.doc)
    (mapping : gmap string ObjectId) (existing_logs : list Log.doc)
    (incoming_logs : list RawLog.t) : list Log.doc :=
  let existing_hashes : gset string := list_to_set (_log_dedup_hash <$> existing_logs) in
  snd (foldl (import_log now docs mapping) (existing_hashes, [])
         (sort_by (fun a b => String.leb (opt_or (RawLog.createdAt a) "")
                                (opt_or (RawLog.createdAt b) ""))
            incoming_logs)).

(** An incoming log whose date is read as the store keeps it: its
    [createdAt] is a string that [fromisoformat] reads, in UTC and in whole
    milliseconds, as [export_payload] writes it.  The date does not depend on
    the default then, and the store gives it back as it was read. *)
Definition well_dated (incoming_log : RawLog.t) : Prop :=
  forall now now' : datetime,
    mongo_date (_parse_datetime (raw_date (RawLog.createdAt incoming_log)) now)
    = _parse_datetime (raw_date (RawLog.createdAt incoming_log)) now'.

(** *** Events, and the whole import *)

Definition json_truthy (j : json) : bool :=
  match j with
  | JNull => false
  | JBool b => b
  | JInt n => negb (n =? 0)
  | JFloat x => negb (x =? 0)%float
  | JStr s => str_truthy s
  | JList items => negb (bool_decide (items = []))
  | JDict items => negb (bool_decide (items = []))
  end.

Definition import_event (now : datetime) (incoming_event : RawEvent.t) : Event.doc :=
  {| Event.type := opt_or (RawEvent.type incoming_event) "IMPORT";
     Event.payload :=
       match RawEvent.payload incoming_event with
       | Some j => if json_truthy j then j else JDict []
       | None => JDict []
       end;
     Event.createdAt := _parse_datetime (raw_date (RawEvent.createdAt incoming_event)) now |}.

Definition import_payload (db : Store) (payload : Payload.t) (now : datetime)
  : Report * Store :=
  let st := import_vocabs now (vocabs db) (Payload.vocabs payload) in
  let logs_to_insert :=
    import_logs now (loop_vocabs st) (source_vocab_to_local st) (review_logs db)
      (Payload.review_logs payload) in
  let added_logs := Z.of_nat (length logs_to_insert) in
  let event_docs := import_event now <$> Payload.events payload in
  let report :=
    {| addedVocabs := added_vocabs st; updatedVocabs := updated_vocabs st;
       addedLogs := added_logs; conflicts := loop_conflicts st |} in
  let import_event_doc :=
    {| Event.type := "IMPORT";
       Event.payload :=
         JDict [ ("addedVocabs", JInt (addedVocabs report));
                 ("updatedVocabs", JInt (updatedVocabs report));
                 ("addedLogs", JInt (addedLogs report));
                 ("conflicts", JInt (conflicts report));
                 ("sourceSchemaVersion", JStr (Payload.schemaVersion payload)) ];
       Event.createdAt := now |} in
  (report,
   {| vocabs := loop_vocabs st;
      review_logs := review_logs db ++ (mongo_log <$> logs_to_insert);
      events := events db ++ (mongo_event <$> event_docs ++ [import_event_doc]) |}).

(** *** The route [POST /sync/import] *)

(** What pydantic accepts for the required field [exportedAt]. *)
Variable valid_exportedAt : option string -> bool.

(** The request body against the model [SyncExport], whose [schemaVersion]
    is [Literal["v1"]]. *)
Definition SyncExport_validate (body : Payload.t) : result Payload.t :=
  if negb (String.eqb (Payload.schemaVersion body) "v1") then
    Raise (RequestValidationError "schemaVersion")
  else if negb (valid_exportedAt (Payload.exportedAt body)) then
    Raise (RequestValidationError "exportedAt")
  else Ok body.

(** The handler [import_sync], called with a payload that passed the model. *)
Definition import_sync (db : Store) (payload : Payload.t) (now : datetime)
  : result Report * Store :=
  if negb (String.eqb (Payload.schemaVersion payload) "v1") then
    (Raise (HTTPException 400 "Unsupported schemaVersion"), db)
  else
    let '(report, db') := import_payload db payload now in
    (Ok report, db').

(** The route: the body is checked against the model, then handled. *)
Definition post_sync_import (db : Store) (body : Payload.t) (now : datetime)
  : result Report * Store :=
  match SyncExport_validate body with
  | Raise e => (Raise e, db)
  | Ok payload => import_sync db payload now
  end.
End SyncMerge.

(** ** Specification-side definitions for the session composer *)

(** The documents of a list whose identity occurs neither in [seen] nor
    earlier in the list. *)
Fixpoint first_occurrences (seen : list ObjectId) (l : list Vocab.doc) : list Vocab.doc :=
  match l with
  | [] => []
  | d :: l' =>
      if bool_decide (Vocab._id d ∈ seen) then first_occurrences seen l'
      else d :: first_occurrences (seen ++ [Vocab._id d]) l'
  end.

(** The window of a day on the clock of a zone: the midnight at or before
    the wall clock [w], and the same clock one day later. *)
Definition day_window (zone : tzinfo) (w : Z) : datetime * datetime :=
  ({| wall := w - w mod microseconds_per_day; fold := false; tz := zone |},
   {| wall := w - w mod microseconds_per_day + microseconds_per_day; fold := false;
      tz := zone |}).

(** A time of the first or of the last day that a [datetime] holds: the
    same time one day earlier, or the midnight that ends its day, is no
    date. *)
Definition on_edge_day (now : datetime) : Prop :=
  wall now < min_wall + microseconds_per_day
  \/ max_wall - microseconds_per_day < wall now - wall now mod microseconds_per_day.

(** ** Views of the card collection used by the proofs *)

(** The identity and the normalised term of a card. *)
Definition doc_key (d : Vocab.doc) : ObjectId * string :=
  (Vocab._id d, Vocab.termNormalized (Vocab.fields d)).

(** The identity of the card that [find_one] returns for a normalised term. *)
Definition find_id (term_norm : string) (docs : list Vocab.doc) : option ObjectId :=
  Vocab._id <$> find_one_term term_norm docs.

(** The mapping from source identities to local ones that the first loop
    builds, read off a collection that holds a card for every term. *)
Definition mapping_of (docs : list Vocab.doc) (incoming : list RawVocab.t)
    (start : gmap string ObjectId) : gmap string ObjectId :=
  foldl (fun m r =>
           if str_truthy (incoming_term_norm r) then
             match find_id (incoming_term_norm r) docs with
             | Some i => <[opt_or (RawVocab._id r) "" := i]> m
             | None => m
             end
           else m)
    start incoming.

(** ** Specification-side definitions for the merge *)

(** A date, a card, a log and an event in the form the store gives them
    back: written once more, they are as they were. *)
Definition stored_date (d : datetime) : Prop := mongo_date d = d.

Definition stored_body (b : Vocab.body) : Prop := mongo_body b = b.

Definition stored_log (l : Log.doc) : Prop := mongo_log l = l.

Definition stored_event (e : Event.doc) : Prop := mongo_event e = e.

(** Cards, and a store, that the writes of the program have filled. *)
Definition stored_cards (docs : list Vocab.doc) : Prop :=
  Forall (fun d => stored_body (Vocab.fields d)) docs.

Definition stored (db : Store) : Prop :=
  stored_cards (vocabs db)
  /\ Forall stored_log (review_logs db)
  /\ Forall stored_event (events db).

(** The later of two optional dates, an absent one counting as the other. *)
Definition max_or_other (a b : option datetime) : option datetime :=
  match a, b with
  | Some x, Some y => Some (datetime_max x y)
  | Some x, None => Some x
  | None, y => y
  end.

(** The earlier of two optional dates, an absent one counting as the other. *)
Definition min_or_other (a b : option datetime) : option datetime :=
  match a, b with
  | Some x, Some y => Some (datetime_min x y)
  | Some x, None => Some x
  | None, y => y
  end.

(** The five fields of a review log that its fingerprint covers, the date
    as the instant it names. *)
Definition log_identity (log : Log.doc) : ObjectId * Z * Z * string * string :=
  (Log.vocabId log, instant (Log.createdAt log), Log.grade log, Log.mode log,
   Log.questionType log).

(** ** Specification-side definitions for the scheduler *)

(** Membership in the interval of ease factors, decided on floats. *)
Definition ease_in_range (x : float) : bool :=
  (1.3 <=? x)%float && (x <=? 3.0)%float.

(** The ease increment of a successful review, as the specification writes
    it: [0.1 - (5-grade) * (0.08 + (5-grade) * 0.02)]. *)
Definition sm2_delta (grade : Z) : float :=
  (0.1 - float_of_Z (5 - grade) * (0.08 + float_of_Z (5 - grade) * 0.02))%float.

(** The interval of a successful review, as the specification writes it:
    1 after no repetition, 6 after one, and otherwise
    [max(1, round(intervalDays * easeFactor))], which raises where the
    product does not round to an [int]. *)
Definition success_interval (s : Sm2State) : result Z :=
  if repetitions s =? 0 then Ok 1
  else if repetitions s =? 1 then Ok 6
  else
    p ← int_mul_float (intervalDays s) (easeFactor s);
    r ← py_round p;
    Ok (Z.max 1 r).

(** [now] plus a number of days: [now + timedelta(days=interval)]. *)
Definition days_later (now : datetime) (interval : Z) : result datetime :=
  days_ahead ← timedelta_days interval;
  datetime_add now days_ahead.

(** The dict returned by a review. *)
Definition review_update (ease : float) (interval reps lapses : Z) (due now : datetime)
  : gmap string pyval :=
  {[ "easeFactor" := VFloat ease;
     "intervalDays" := VInt interval;
     "repetitions" := VInt reps;
     "lapses" := VInt lapses;
     "dueAt" := VDatetime due;
     "lastReviewedAt" := VDatetime now ]}.

(** ** Sample data used by the examples *)

Definition state_fresh : Sm2State :=
  {| easeFactor := 2.5; intervalDays := 0; repetitions := 0; lapses := 0 |}.

Definition state_learned : Sm2State :=
  {| easeFactor := 2.5; intervalDays := 6; repetitions := 2; lapses := 0 |}.

(** 2023-11-14T22:13:20 UTC, and the same time of day [n] days later. *)
Definition T0 : datetime := utc 1700000000000000.

Definition sample_date (n : Z) : datetime := utc (1700000000000000 + days n).

(** Asia/Ho_Chi_Minh, seven hours east of UTC at every date of the
    examples, and the time that [now_local] gives at the instant of [T0]. *)
Definition sample_LOCAL_TZ : tzinfo := Zone (fun _ _ => 7 * 3600 * 1000000).

Definition sample_now : datetime :=
  {| wall := 1700000000000000 + 7 * 3600 * 1000000; fold := false; tz := sample_LOCAL_TZ |}.

(** The time of a second import, five seconds after [sample_now]. *)
Definition sample_later : datetime :=
  {| wall := wall sample_now + 5000000; fold := false; tz := sample_LOCAL_TZ |}.

(** A card with the given identity, term, scheduling state and dates. *)
Definition sample_card (id term : string) (state : Sm2State) (created due : datetime)
    (reviewed : option datetime) (readds : Z) : Vocab.doc :=
  {| Vocab._id := id;
     Vocab.fields :=
       {| Vocab.term := term; Vocab.termNormalized := normalize_term_str term;
          Vocab.meanings := []; Vocab.ipa := None; Vocab.exampleEn := None;
          Vocab.exampleVi := None; Vocab.mnemonic := None; Vocab.tags := [];
          Vocab.collocations := []; Vocab.phrases := []; Vocab.wordFamily := [];
          Vocab.topics := []; Vocab.cefrLevel := None; Vocab.ieltsBand := None;
          Vocab.createdAt := created; Vocab.updatedAt := created;
          Vocab.easeFactor := easeFactor state; Vocab.intervalDays := intervalDays state;
          Vocab.repetitions := repetitions state; Vocab.lapses := lapses state;
          Vocab.dueAt := due; Vocab.lastReviewedAt := reviewed;
          Vocab.readdCount := readds; Vocab.lastReaddAt := None |} |}.

(** Three cards created long before [T0]: two of them due, one of these and
    the third re-added. *)
Definition sample_store : Store :=
  {| vocabs :=
       [ sample_card "65a000000000000000000001" "apple" state_learned
           (sample_date (-30)) (sample_date (-2)) None 0;
         sample_card "65a000000000000000000002" "pear" state_fresh
           (sample_date (-30)) (sample_date (-1)) None 2;
         sample_card "65a000000000000000000003" "plum" state_fresh
           (sample_date (-30)) (sample_date 5) None 1 ];
     review_logs := [];
     events := [] |}.

(** Stand-ins for the libraries, for the examples: a digest that is the
    text itself, a printer of JSON, [isoformat] written out, a parser of the
    dates of the examples, and new identities that are longer than the ones
    in the collection. *)
Definition sample_sha256 (text : string) : string := text.

Definition sample_float_text (x : float) : string :=
  match Prim2SF x with
  | S754_zero s => if s then "-0.0" else "0.0"
  | S754_infinity s => if s then "-inf" else "inf"
  | S754_nan => "nan"
  | S754_finite s m e =>
      ((if s then "-" else "") ++ pretty (Zpos m) ++ "p" ++ pretty e)%string
  end.

Fixpoint sample_json_dumps (j : json) : string :=
  match j with
  | JNull => "null"
  | JBool b => if b then "true" else "false"
  | JInt n => pretty n
  | JFloat x => sample_float_text x
  | JStr s => ("'" ++ s ++ "'")%string
  | JList items =>
      ("[" ++ (fix go (l : list json) : string :=
                 match l with
                 | [] => ""
                 | x :: l' => sample_json_dumps x ++ "," ++ go l'
                 end) items ++ "]")%string
  | JDict items =>
      ("{" ++ (fix go (l : list (string * json)) : string :=
                 match l with
                 | [] => ""
                 | (k, v) :: l' => k ++ ":" ++ sample_json_dumps v ++ "," ++ go l'
                 end) items ++ "}")%string
  end.

(** A number in decimal digits, with zeros in front up to a width. *)
Definition zero_padded (width : nat) (n : Z) : string :=
  let digits := pretty n in
  (string_of_list_ascii (replicate (width - String.length digits) "0"%char) ++ digits)%string.

(** The year, month and day of a number of days since 1970-01-01 in the
    proleptic Gregorian calendar. *)
Definition civil_from_days (z : Z) : Z * Z * Z :=
  let z := z + 719468 in
  let era := z / 146097 in
  let doe := z mod 146097 in
  let yoe := (doe - doe / 1460 + doe / 36524 - doe / 146096) / 365 in
  let doy := doe - (365 * yoe + yoe / 4 - yoe / 100) in
  let mp := (5 * doy + 2) / 153 in
  let d := doy - (153 * mp + 2) / 5 + 1 in
  let m := if mp <? 10 then mp + 3 else mp - 9 in
  let y := yoe + era * 400 + (if m <=? 2 then 1 else 0) in
  (y, m, d).

(** [d.isoformat()]: the wall clock, with its microseconds unless they are
    zero, and the offset from UTC, with its seconds unless they are zero. *)
Definition sample_isoformat (d : datetime) : string :=
  let '(year, month, day) := civil_from_days (wall d / microseconds_per_day) in
  let clock := wall d mod microseconds_per_day in
  let offset := Z.abs (utcoffset d) in
  (zero_padded 4 year ++ "-" ++ zero_padded 2 month ++ "-" ++ zero_padded 2 day
   ++ "T" ++ zero_padded 2 (clock / 3600000000)
   ++ ":" ++ zero_padded 2 (clock / 60000000 mod 60)
   ++ ":" ++ zero_padded 2 (clock / 1000000 mod 60)
   ++ (if (clock mod 1000000 =? 0)%Z then ""
       else "." ++ zero_padded 6 (clock mod 1000000))
   ++ (if (utcoffset d <? 0)%Z then "-" else "+")
   ++ zero_padded 2 (offset / 3600000000)
   ++ ":" ++ zero_padded 2 (offset / 60000000 mod 60)
   ++ (if (offset mod 60000000 =? 0)%Z then ""
       else ":" ++ zero_padded 2 (offset / 1000000 mod 60)
            ++ (if (offset mod 1000000 =? 0)%Z then ""
                else "." ++ zero_padded 6 (offset mod 1000000))))%string.

(** The dates that the examples write in a snapshot: those of the sample
    cards, [T0] and the day after, [T0] on a clock seven hours east of UTC,
    and half a millisecond after [T0]. *)
Definition sample_dates : list datetime :=
  [ T0; sample_date 1;
    {| wall := 1700000000000000 + 7 * 3600 * 1000000; fold := false;
       tz := Fixed (7 * 3600 * 1000000) |};
    utc (1700000000000000 + 500);
    sample_date (-30); sample_date (-20); sample_date (-8); sample_date (-2);
    sample_date (-1); sample_date 2; sample_date 5; sample_date 10 ].

(** [fromisoformat] on the texts of these dates. *)
Definition sample_fromisoformat (text : string) : option (Z * option Z) :=
  (fun d => (wall d, Some (utcoffset d)))
    <$> List.find (fun d => String.eqb (sample_isoformat d) text) sample_dates.

(** A text longer than each of the given ones. *)
Fixpoint longer_than (texts : list string) : string :=
  match texts with
  | [] => "f"
  | t :: texts' => (t ++ longer_than texts')%string
  end.

Definition sample_new_object_id (docs : list Vocab.doc) : ObjectId :=
  longer_than (Vocab._id <$> docs).

Definition sample_valid_exportedAt (o : option string) : bool :=
  match o with
  | Some text => bool_decide (is_Some (sample_fromisoformat text))
  | None => false
  end.

(** An incoming card with a term, dates and a scheduling state, and an
    incoming log of a card. *)
Definition sample_raw_vocab (id term : string) (state : Sm2State) (lapsed : Z)
    (updated due : string) : RawVocab.t :=
  {| RawVocab._id := Some id; RawVocab.term := Some term;
     RawVocab.termNormalized := Some (normalize_term_str term);
     RawVocab.meanings := Some ["a fruit"]; RawVocab.ipa := None;
     RawVocab.exampleEn := None; RawVocab.exampleVi := None; RawVocab.mnemonic := None;
     RawVocab.tags := None; RawVocab.collocations := None; RawVocab.phrases := None;
     RawVocab.wordFamily := None; RawVocab.topics := None; RawVocab.cefrLevel := None;
     RawVocab.ieltsBand := None; RawVocab.createdAt := Some updated;
     RawVocab.updatedAt := Some updated;
     RawVocab.easeFactor := Some (easeFactor state);
     RawVocab.intervalDays := Some (intervalDays state);
     RawVocab.repetitions := Some (repetitions state);
     RawVocab.lapses := Some lapsed;
     RawVocab.dueAt := Some due; RawVocab.lastReviewedAt := None;
     RawVocab.readdCount := None; RawVocab.lastReaddAt := None |}.

Definition sample_raw_log (vocab_id : string) (graded : Z) (created : option string)
  : RawLog.t :=
  {| RawLog.vocabId := Some vocab_id; RawLog.mode := Some "flip";
     RawLog.questionType := None; RawLog.grade := Some graded;
     RawLog.userAnswer := None; RawLog.isNearCorrect := None;
     RawLog.createdAt := created |}.

(** A snapshot of another device: the apple, less learned there, a new
    cherry, and a log for each. *)
Definition sample_payload : Payload.t :=
  {| Payload.schemaVersion := "v1";
     Payload.exportedAt := Some "2023-11-15T22:13:20+00:00";
     Payload.vocabs :=
       [ sample_raw_vocab "77c000000000000000000002" "Cherry" state_fresh 0
           "2023-11-14T22:13:20+00:00" "2023-11-15T22:13:20+00:00";
         sample_raw_vocab "77c000000000000000000001" "Apple" state_fresh 1
           "2023-11-14T22:13:20+00:00" "2023-11-14T22:13:20Z" ];
     Payload.review_logs :=
       [ sample_raw_log "77c000000000000000000001" 2 (Some "2023-11-14T22:13:20+00:00");
         sample_raw_log "77c000000000000000000002" 4 (Some "2023-11-15T22:13:20+00:00");
         sample_raw_log "77c000000000000000000001" 2 (Some "2023-11-14T22:13:20Z") ];
     Payload.events := [] |}.


(** A snapshot of a later schema. *)
Definition sample_payload_v2 : Payload.t :=
  {| Payload.schemaVersion := "v2";
     Payload.exportedAt := Payload.exportedAt sample_payload;
     Payload.vocabs := Payload.vocabs sample_payload;
     Payload.review_logs := Payload.review_logs sample_payload;
     Payload.events := [] |}.

(** A store with one review of the apple, and a snapshot of another device
    that carries the same review, dated on a clock seven hours east of
    UTC. *)
Definition sample_store_reviewed : Store :=
  {| vocabs := vocabs sample_store;
     review_logs :=
       [ {| Log.vocabId := "65a000000000000000000001"; Log.mode := "flip";
            Log.questionType := "term_to_meaning"; Log.grade := 2;
            Log.userAnswer := None; Log.isNearCorrect := None; Log.createdAt := T0 |} ];
     events := [] |}.

Definition sample_payload_reviewed : Payload.t :=
  {| Payload.schemaVersion := "v1";
     Payload.exportedAt := Some "2023-11-15T22:13:20+00:00";
     Payload.vocabs := [];
     Payload.review_logs :=
       [ sample_raw_log "65a000000000000000000001" 2 (Some "2023-11-15T05:13:20+07:00") ];
     Payload.events := [] |}.

Definition sample_loop : VocabLoop :=
  {| loop_vocabs := vocabs sample_store; source_vocab_to_local := ∅;
     added_vocabs := 0; updated_vocabs := 0; loop_conflicts := 0 |}.

(** The import with the stand-ins. *)
Definition sample_import (db : Store) (payload : Payload.t) (now : datetime)
  : Report * Store :=
  import_payload sample_sha256 sample_json_dumps sample_fromisoformat sample_isoformat
    sample_new_object_id db payload now.

(** The apple of the sample store and the record of the snapshot matched
    to it. *)
Definition sample_apple : Vocab.doc :=
  sample_card "65a000000000000000000001" "apple" state_learned
    (sample_date (-30)) (sample_date (-2)) None 0.

Definition sample_raw_apple : RawVocab.t :=
  sample_raw_vocab "77c000000000000000000001" "Apple" state_fresh 1
    "2023-11-14T22:13:20+00:00" "2023-11-14T22:13:20Z".

(** The two sides of the merge in the specification's example. *)
Definition sample_local_body : Vocab.body :=
  Vocab.fields
    (sample_card "65a000000000000000000009" "kiwi"
       {| easeFactor := 2.5; intervalDays := 10; repetitions := 3; lapses := 0 |}
       (sample_date (-30)) (sample_date 10) (Some (sample_date (-1))) 0).

Definition sample_incoming_body : Vocab.body :=
  Vocab.fields
    (sample_card "77c000000000000000000009" "kiwi"
       {| easeFactor := 2.3; intervalDays := 2; repetitions := 1; lapses := 1 |}
       (sample_date (-20)) (sample_date 2) None 0).

(** The local side as a card of a store, and a record of the same term that
    carries its texts and nothing of its schedule. *)
Definition sample_kiwi : Vocab.doc :=
  {| Vocab._id := "65a000000000000000000009"; Vocab.fields := sample_local_body |}.

Definition sample_raw_kiwi : RawVocab.t :=
  {| RawVocab._id := Some "77c000000000000000000009"; RawVocab.term := Some "kiwi";
     RawVocab.termNormalized := Some "kiwi";
     RawVocab.meanings := Some ["a fruit"]; RawVocab.ipa := None;
     RawVocab.exampleEn := None; RawVocab.exampleVi := None; RawVocab.mnemonic := None;
     RawVocab.tags := None; RawVocab.collocations := None; RawVocab.phrases := None;
     RawVocab.wordFamily := None; RawVocab.topics := None; RawVocab.cefrLevel := None;
     RawVocab.ieltsBand := None; RawVocab.createdAt := Some "2023-11-14T22:13:20+00:00";
     RawVocab.updatedAt := Some "2023-11-14T22:13:20+00:00";
     RawVocab.easeFactor := None; RawVocab.intervalDays := None;
     RawVocab.repetitions := None; RawVocab.lapses := None;
     RawVocab.dueAt := None; RawVocab.lastReviewedAt := None;
     RawVocab.readdCount := None; RawVocab.lastReaddAt := None |}.

(* ===================================================================== *)
(** * Part I, continued.  The routes and what the properties are stated with *)
(* ===================================================================== *)

(** A list of texts as the merges leave it: no text twice, none empty, each
    one stripped of surrounding white space. *)
Definition clean_strings (l : list string) : Prop :=
  NoDup l /\ Forall (fun x => x <> ""%string /\ str_strip x = x) l.

(** A word family as the merges leave it: each role once, written in lower
    case without surrounding white space and not empty, with a clean list of
    words. *)
Definition clean_family (d : list (string * list string)) : Prop :=
  NoDup d.*1
  /\ Forall (fun kv => kv.1 <> ""%string /\ str_lower (str_strip kv.1) = kv.1
                       /\ clean_strings kv.2) d.

(** One round of the loop of [_merge_word_family]. *)
Definition merge_role (merged : list (string * list string)) (kv : string * list string)
  : list (string * list string) :=
  dict_set kv.1 (_merge_unique_strings (default [] (dict_get kv.1 merged)) kv.2) merged.

(** ** Specification-side definitions for what an import keeps *)

(** An ease factor that is the other one or lies below it. *)
Definition ease_not_above (new old : float) : Prop :=
  new = old \/ (new <? old)%float = true.

(** A date that is present wherever the old one was, and not earlier.
    Dates of the store are compared as the store compares them, by their
    milliseconds. *)
Definition date_not_before (old new : option datetime) : Prop :=
  match old with
  | Some d => exists d', new = Some d' /\ millis d <= millis d'
  | None => True
  end.

(** Every text of the old list is in the new one, as it was or stripped of
    surrounding white space, unless it is blank. *)
Definition kept_texts (old new : list string) : Prop :=
  forall x, x ∈ old -> x ∈ new \/ str_strip x = ""%string \/ str_strip x ∈ new.

(** A card against what it was before: the same identity and normalised
    term, a schedule that is not more advanced, counters and dates of reviews
    that are not lower, and no text of its lists lost. *)
Record more_cautious (old new : Vocab.doc) : Prop := {
  mc_id : Vocab._id new = Vocab._id old;
  mc_term : Vocab.termNormalized (Vocab.fields new) = Vocab.termNormalized (Vocab.fields old);
  mc_repetitions : Vocab.repetitions (Vocab.fields new) <= Vocab.repetitions (Vocab.fields old);
  mc_intervalDays : Vocab.intervalDays (Vocab.fields new) <= Vocab.intervalDays (Vocab.fields old);
  mc_easeFactor :
    ease_not_above (Vocab.easeFactor (Vocab.fields new)) (Vocab.easeFactor (Vocab.fields old));
  mc_dueAt : millis (Vocab.dueAt (Vocab.fields new)) <= millis (Vocab.dueAt (Vocab.fields old));
  mc_createdAt :
    millis (Vocab.createdAt (Vocab.fields new)) <= millis (Vocab.createdAt (Vocab.fields old));
  mc_updatedAt :
    millis (Vocab.updatedAt (Vocab.fields old)) <= millis (Vocab.updatedAt (Vocab.fields new));
  mc_lapses : Vocab.lapses (Vocab.fields old) <= Vocab.lapses (Vocab.fields new);
  mc_readdCount : Vocab.readdCount (Vocab.fields old) <= Vocab.readdCount (Vocab.fields new);
  mc_lastReviewedAt :
    date_not_before (Vocab.lastReviewedAt (Vocab.fields old))
      (Vocab.lastReviewedAt (Vocab.fields new));
  mc_lastReaddAt :
    date_not_before (Vocab.lastReaddAt (Vocab.fields old))
      (Vocab.lastReaddAt (Vocab.fields new));
  mc_meanings : kept_texts (Vocab.meanings (Vocab.fields old)) (Vocab.meanings (Vocab.fields new));
  mc_tags : kept_texts (Vocab.tags (Vocab.fields old)) (Vocab.tags (Vocab.fields new));
  mc_collocations :
    kept_texts (Vocab.collocations (Vocab.fields old)) (Vocab.collocations (Vocab.fields new));
  mc_phrases : kept_texts (Vocab.phrases (Vocab.fields old)) (Vocab.phrases (Vocab.fields new));
  mc_topics : kept_texts (Vocab.topics (Vocab.fields old)) (Vocab.topics (Vocab.fields new));
}.

(** A card with the identity and the normalised term that it had. *)
Definition same_key (old new : Vocab.doc) : Prop := doc_key new = doc_key old.

(** A collection that grew out of another: the old documents, each one
    related to what it was, followed by new ones. *)
Definition grown_from (R : Vocab.doc -> Vocab.doc -> Prop) (old new : list Vocab.doc) : Prop :=
  exists kept added, new = kept ++ added /\ Forall2 R old kept.

(** The normalised terms of a collection. *)
Definition term_keys (docs : list Vocab.doc) : list string :=
  (fun d => Vocab.termNormalized (Vocab.fields d)) <$> docs.

(** A card whose lists and word family are clean. *)
Definition clean_body (b : Vocab.body) : Prop :=
  clean_strings (Vocab.meanings b) /\ clean_strings (Vocab.tags b)
  /\ clean_strings (Vocab.collocations b) /\ clean_strings (Vocab.phrases b)
  /\ clean_strings (Vocab.topics b) /\ clean_family (Vocab.wordFamily b).

(** An incoming card whose dates are read as the store keeps them, as
    [export_payload] writes them: they do not fall back on the time of the
    import, and the store gives the card back as it was read. *)
Definition card_dated (fromisoformat : string -> option (Z * option Z)) (r : RawVocab.t)
  : Prop :=
  forall now now' : datetime,
    mongo_body (incoming_doc fromisoformat now r (incoming_term_norm r))
    = incoming_doc fromisoformat now' r (incoming_term_norm r).

(** The terms of the incoming cards that have one. *)
Definition incoming_keys (incoming : list RawVocab.t) : list string :=
  incoming_term_norm <$> filter (fun r => str_truthy (incoming_term_norm r) = true) incoming.

(** An incoming card that a collection has taken in: the card of its term,
    merged with it once more, has the digest it has. *)
Definition settled (sha256 : string -> string) (json_dumps : json -> string)
    (fromisoformat : string -> option (Z * option Z)) (isoformat : datetime -> string)
    (now : datetime) (docs : list Vocab.doc) (r : RawVocab.t) : Prop :=
  exists d,
    find_one_term (incoming_term_norm r) docs = Some d
    /\ stable_hash sha256 json_dumps (_serialize_doc isoformat (Vocab.fields d))
       = stable_hash sha256 json_dumps
           (_serialize_doc isoformat
              (merge_vocab fromisoformat now (Vocab.fields d)
                 (incoming_doc fromisoformat now r (incoming_term_norm r))).1).

(** ** Writing a scheduler's dict to a card

    [initial_state], [apply_review] and [apply_readd_penalty] return dicts
    that the routes write to a card, on creation or under [$set].  On a
    typed card the keys of the dict that hold a value of the field's type
    replace the field, the others are kept. *)
Definition set_scheduling (update : gmap string pyval) (b : Vocab.body) : Vocab.body :=
  {| Vocab.term := Vocab.term b;
     Vocab.termNormalized := Vocab.termNormalized b;
     Vocab.meanings := Vocab.meanings b;
     Vocab.ipa := Vocab.ipa b;
     Vocab.exampleEn := Vocab.exampleEn b;
     Vocab.exampleVi := Vocab.exampleVi b;
     Vocab.mnemonic := Vocab.mnemonic b;
     Vocab.tags := Vocab.tags b;
     Vocab.collocations := Vocab.collocations b;
     Vocab.phrases := Vocab.phrases b;
     Vocab.wordFamily := Vocab.wordFamily b;
     Vocab.topics := Vocab.topics b;
     Vocab.cefrLevel := Vocab.cefrLevel b;
     Vocab.ieltsBand := Vocab.ieltsBand b;
     Vocab.createdAt := Vocab.createdAt b;
     Vocab.updatedAt := Vocab.updatedAt b;
     Vocab.easeFactor :=
       match update !! "easeFactor" with
       | Some (VFloat x) => x
       | _ => Vocab.easeFactor b
       end;
     Vocab.intervalDays :=
       match update !! "intervalDays" with
       | Some (VInt n) => n
       | _ => Vocab.intervalDays b
       end;
     Vocab.repetitions :=
       match update !! "repetitions" with
       | Some (VInt n) => n
       | _ => Vocab.repetitions b
       end;
     Vocab.lapses :=
       match update !! "lapses" with
       | Some (VInt n) => n
       | _ => Vocab.lapses b
       end;
     Vocab.dueAt :=
       match update !! "dueAt" with
       | Some (VDatetime d) => d
       | _ => Vocab.dueAt b
       end;
     Vocab.lastReviewedAt :=
       match update !! "lastReviewedAt" with
       | Some (VDatetime d) => Some d
       | Some VNone => None
       | _ => Vocab.lastReviewedAt b
       end;
     Vocab.readdCount := Vocab.readdCount b;
     Vocab.lastReaddAt := Vocab.lastReaddAt b |}.

(** [Sm2State.from_doc] of a typed card. *)
Definition Sm2State_from_doc (doc : Vocab.body) : Sm2State :=
  {| easeFactor := Vocab.easeFactor doc;
     intervalDays := Vocab.intervalDays doc;
     repetitions := Vocab.repetitions doc;
     lapses := Vocab.lapses doc |}.

(** [db.vocabs.find_one({"_id": id})]. *)
Definition find_one_id (id : ObjectId) (docs : list Vocab.doc) : option Vocab.doc :=
  List.find (fun d => String.eqb (Vocab._id d) id) docs.

(** ** The fuzzy judge: [app/services/typing_judge.py] *)

Section TypingJudge.
(** The comparison of the libraries ([rapidfuzz], or else [difflib]): that
    the best score of the answer against the candidates reaches the
    threshold. *)
Variable similar : string -> list string -> Z -> bool.

Definition is_near_correct (user_answer : string) (candidates : list string)
    (threshold : Z) : bool :=
  let answer_norm := normalize_term_str user_answer in
  if negb (str_truthy answer_norm) then false
  else
    let candidate_norms :=
      normalize_term_str
        <$> filter (fun item => str_truthy (normalize_term_str item) = true) candidates in
    if bool_decide (candidate_norms = []) then false
    else if bool_decide (answer_norm ∈ candidate_norms) then true
    else similar answer_norm candidate_norms threshold.

End TypingJudge.

(** ** Submitting a review: [app/routes/review.py], [app/models/review.py] *)

Module ReviewCreate.
Record t := {
  vocabId : string;
  mode : string;
  questionType : string;
  grade : Z;
  userAnswer : option string;
}.
End ReviewCreate.

(** The request body against the model [ReviewCreate]; the error names the
    first field that is refused. *)
Definition ReviewCreate_validate (body : ReviewCreate.t) : result ReviewCreate.t :=
  if negb (bool_decide (ReviewCreate.mode body ∈ ["flip"; "mcq"; "typing"]%string)) then
    Raise (RequestValidationError "mode")
  else if negb (bool_decide (ReviewCreate.questionType body
                               ∈ ["term_to_meaning"; "meaning_to_term"]%string)) then
    Raise (RequestValidationError "questionType")
  else if (ReviewCreate.grade body <? 0) || (5 <? ReviewCreate.grade body) then
    Raise (RequestValidationError "grade")
  else Ok body.

Record ReviewResponse := {
  response_vocab : Vocab.doc;
  nextDueAt : datetime;
  response_intervalDays : Z;
  response_easeFactor : float;
  response_repetitions : Z;
  response_lapses : Z;
}.

(** The body of a card after [{"$set": {**sm2_update, "updatedAt": now}}]:
    the keys of the update are written, with their dates as the store keeps
    them, and the other keys stay. *)
Definition reviewed_body (sm2_update : gmap string pyval) (now : datetime) (b : Vocab.body)
  : Vocab.body :=
  let b := set_scheduling (mongo_value <$> sm2_update) b in
  {| Vocab.term := Vocab.term b;
     Vocab.termNormalized := Vocab.termNormalized b;
     Vocab.meanings := Vocab.meanings b;
     Vocab.ipa := Vocab.ipa b;
     Vocab.exampleEn := Vocab.exampleEn b;
     Vocab.exampleVi := Vocab.exampleVi b;
     Vocab.mnemonic := Vocab.mnemonic b;
     Vocab.tags := Vocab.tags b;
     Vocab.collocations := Vocab.collocations b;
     Vocab.phrases := Vocab.phrases b;
     Vocab.wordFamily := Vocab.wordFamily b;
     Vocab.topics := Vocab.topics b;
     Vocab.cefrLevel := Vocab.cefrLevel b;
     Vocab.ieltsBand := Vocab.ieltsBand b;
     Vocab.createdAt := Vocab.createdAt b;
     Vocab.updatedAt := mongo_date now;
     Vocab.easeFactor := Vocab.easeFactor b;
     Vocab.intervalDays := Vocab.intervalDays b;
     Vocab.repetitions := Vocab.repetitions b;
     Vocab.lapses := Vocab.lapses b;
     Vocab.dueAt := Vocab.dueAt b;
     Vocab.lastReviewedAt := Vocab.lastReviewedAt b;
     Vocab.readdCount := Vocab.readdCount b;
     Vocab.lastReaddAt := Vocab.lastReaddAt b |}.

Section ReviewRoute.
Variable similar : string -> list string -> Z -> bool.

(** The document that [submit_review] inserts in [review_logs] for a card:
    [near_correct] is computed for a typed answer that is not empty, against
    the meanings of the card or against its term. *)
Definition review_log (payload : ReviewCreate.t) (now : datetime) (vocab : Vocab.doc)
  : Log.doc :=
  let near_correct :=
    if String.eqb (ReviewCreate.mode payload) "typing"
       && opt_truthy (ReviewCreate.userAnswer payload)
    then
      let candidates :=
        if String.eqb (ReviewCreate.questionType payload) "term_to_meaning"
        then Vocab.meanings (Vocab.fields vocab)
        else [Vocab.term (Vocab.fields vocab)] in
      Some (is_near_correct similar (default ""%string (ReviewCreate.userAnswer payload))
              candidates 85)
    else None in
  {| Log.vocabId := ObjectId_of_str (ReviewCreate.vocabId payload);
     Log.mode := ReviewCreate.mode payload;
     Log.questionType := ReviewCreate.questionType payload;
     Log.grade := ReviewCreate.grade payload;
     Log.userAnswer := ReviewCreate.userAnswer payload;
     Log.isNearCorrect := near_correct;
     Log.createdAt := now |}.

(** The handler [submit_review], called with a payload that passed the
    model: the answer of the route and the store it leaves.  The log is
    written before the scheduler runs; the card read back after the update
    is there, the other case standing for the failure of the handler. *)
Definition submit_review (db : Store) (payload : ReviewCreate.t) (now : datetime)
  : result ReviewResponse * Store :=
  if negb (ObjectId_is_valid (ReviewCreate.vocabId payload)) then
    (Raise (HTTPException 400 "Invalid ObjectId"), db)
  else
    let vocab_id := ObjectId_of_str (ReviewCreate.vocabId payload) in
    match find_one_id vocab_id (vocabs db) with
    | None => (Raise (HTTPException 404 "Vocab not found"), db)
    | Some vocab =>
        let db1 :=
          {| vocabs := vocabs db;
             review_logs := review_logs db ++ [mongo_log (review_log payload now vocab)];
             events := events db |} in
        match apply_review (Sm2State_from_doc (Vocab.fields vocab))
                (ReviewCreate.grade payload) now with
        | Raise e => (Raise e, db1)
        | Ok sm2_update =>
            let docs :=
              update_one vocab_id (reviewed_body sm2_update now (Vocab.fields vocab))
                (vocabs db1) in
            let db2 :=
              {| vocabs := docs; review_logs := review_logs db1; events := events db1 |} in
            match find_one_id vocab_id docs with
            | None => (Raise (HTTPException 500 "Internal Server Error"), db2)
            | Some updated =>
                (Ok {| response_vocab := updated;
                       nextDueAt := Vocab.dueAt (Vocab.fields updated);
                       response_intervalDays := Vocab.intervalDays (Vocab.fields updated);
                       response_easeFactor := Vocab.easeFactor (Vocab.fields updated);
                       response_repetitions := Vocab.repetitions (Vocab.fields updated);
                       response_lapses := Vocab.lapses (Vocab.fields updated) |},
                 db2)
            end
        end
    end.

(** The route: the body is checked against the model, then handled. *)
Definition post_review (db : Store) (body : ReviewCreate.t) (now : datetime)
  : result ReviewResponse * Store :=
  match ReviewCreate_validate body with
  | Raise e => (Raise e, db)
  | Ok payload => submit_review db payload now
  end.
End ReviewRoute.

(** ** Deleting a card: [delete_vocab] of [app/routes/vocab.py] *)

(** [db.vocabs.delete_one({"_id": id})]: the collection without the first
    document of that identity. *)
Fixpoint delete_one (id : ObjectId) (docs : list Vocab.doc) : list Vocab.doc :=
  match docs with
  | [] => []
  | d :: docs' => if String.eqb (Vocab._id d) id then docs' else d :: delete_one id docs'
  end.

(** [db.review_logs.delete_many({"vocabId": id})]. *)
Definition delete_many_logs (id : ObjectId) (logs : list Log.doc) : list Log.doc :=
  filter (fun l => Log.vocabId l <> id) logs.

(** [_parse_object_id]. *)
Definition _parse_object_id (raw : string) : result ObjectId :=
  if negb (ObjectId_is_valid raw) then Raise (HTTPException 400 "Invalid ObjectId")
  else Ok (ObjectId_of_str raw).

Definition delete_vocab (db : Store) (vocab_id : string) : result bool * Store :=
  match _parse_object_id vocab_id with
  | Raise e => (Raise e, db)
  | Ok oid =>
      let docs := delete_one oid (vocabs db) in
      let deleted_count := Z.of_nat (length (vocabs db)) - Z.of_nat (length docs) in
      if deleted_count =? 0 then
        (Raise (HTTPException 404 "Vocab not found"),
         {| vocabs := docs; review_logs := review_logs db; events := events db |})
      else
        (Ok true,
         {| vocabs := docs; review_logs := delete_many_logs oid (review_logs db);
            events := events db |})
  end.

(** ** The guard of typed entries: [app/services/vocab_guard.py] *)

(** The loop of [_normalize_meanings]: [seen] holds the normalised forms of
    the meanings kept so far. *)
Fixpoint normalize_meanings_into (seen : gset string) (out : list string)
    (meanings : list string) : list string :=
  match meanings with
  | [] => out
  | item :: meanings' =>
      let text := str_strip item in
      if negb (str_truthy text) then normalize_meanings_into seen out meanings'
      else
        let key := normalize_term_str text in
        if bool_decide (key ∈ seen) then normalize_meanings_into seen out meanings'
        else normalize_meanings_into ({[key]} ∪ seen) (out ++ [text]) meanings'
  end.

Definition _normalize_meanings (meanings : list string) : list string :=
  normalize_meanings_into ∅ [] meanings.

(** [_unique_strings] of [app/routes/vocab.py].  The module has its own
    [_merge_unique_strings], [_normalize_word_family] and
    [_merge_word_family], written with [_unique_strings]: they compute what
    those of [sync_merge.py] compute, [_unique_strings items] being
    [_merge_unique_strings items []], and the definitions above stand for
    them. *)
Definition _unique_strings (items : list string) : list string :=
  unique_strings_into [] items.

Module VocabCreate.
Record t := {
  term : string;
  meanings : list string;
  ipa : option string;
  exampleEn : option string;
  exampleVi : option string;
  mnemonic : option string;
  tags : list string;
  collocations : list string;
  phrases : list string;
  wordFamily : list (string * list string);
  topics : list string;
  cefrLevel : option string;
  ieltsBand : option float;
  inputMethod : string;
}.
End VocabCreate.

Section VocabRoutes.
(** The verdict on a typed entry, [isTermValid and isMeaningPlausible], as
    the cache of verdicts or else the provider gives it for the stripped
    term and the cleaned meanings.  The collection [ai_cache] that the guard
    reads and writes is not one of those of [Store]. *)
Variable provider_accepts : string -> list string -> bool.

(** The key ["accepted"] of the answer of [validate_typed_vocab_input]. *)
Definition validate_typed_vocab_input (term : string) (meanings : list string)
    (input_method : string) : bool :=
  if negb (String.eqb input_method "typed") then true
  else
    let term_clean := str_strip term in
    let term_normalized := normalize_term_str term_clean in
    let meanings_clean := _normalize_meanings meanings in
    if negb (str_truthy term_normalized) then false
    else provider_accepts term_clean meanings_clean.

(** ** Creating a card: [create_vocab] of [app/routes/vocab.py] *)


Variable new_object_id : list Vocab.doc -> ObjectId.

(** The document [create_doc], whose scheduling keys are those of
    [initial_state(now)]. *)
Definition create_doc (payload : VocabCreate.t) (term_normalized : string) (now : datetime)
  : Vocab.body :=
  set_scheduling (initial_state now)
    {| Vocab.term := str_strip (VocabCreate.term payload);
       Vocab.termNormalized := term_normalized;
       Vocab.meanings := _unique_strings (VocabCreate.meanings payload);
       Vocab.ipa :=
         if opt_truthy (VocabCreate.ipa payload) then str_strip <$> VocabCreate.ipa payload
         else None;
       Vocab.exampleEn := VocabCreate.exampleEn payload;
       Vocab.exampleVi := VocabCreate.exampleVi payload;
       Vocab.mnemonic := VocabCreate.mnemonic payload;
       Vocab.tags := _unique_strings (VocabCreate.tags payload);
       Vocab.collocations := _unique_strings (VocabCreate.collocations payload);
       Vocab.phrases := _unique_strings (VocabCreate.phrases payload);
       Vocab.wordFamily := _normalize_word_family (VocabCreate.wordFamily payload);
       Vocab.topics := _unique_strings (VocabCreate.topics payload);
       Vocab.cefrLevel := VocabCreate.cefrLevel payload;
       Vocab.ieltsBand := VocabCreate.ieltsBand payload;
       Vocab.createdAt := now;
       Vocab.updatedAt := now;
       Vocab.easeFactor := 2.5;
       Vocab.intervalDays := 0;
       Vocab.repetitions := 0;
       Vocab.lapses := 0;
       Vocab.dueAt := now;
       Vocab.lastReviewedAt := None;
       Vocab.readdCount := 0;
       Vocab.lastReaddAt := None |}.

(** The card after the update of the path of a term entered again:
    [$set] of the merged lists, the level, the penalty and the dates, as the
    store keeps them, and [$inc] of [readdCount]. *)
Definition readded_body (payload : VocabCreate.t) (now : datetime) (existing : Vocab.body)
  : Vocab.body :=
  let penalty := apply_readd_penalty (Sm2State_from_doc existing) now in
  set_scheduling (mongo_value <$> penalty)
    {| Vocab.term := Vocab.term existing;
       Vocab.termNormalized := Vocab.termNormalized existing;
       Vocab.meanings :=
         _merge_unique_strings (Vocab.meanings existing) (VocabCreate.meanings payload);
       Vocab.ipa :=
         match VocabCreate.ipa payload with
         | Some ipa => if str_truthy (str_strip ipa) then Some (str_strip ipa)
                       else Vocab.ipa existing
         | None => Vocab.ipa existing
         end;
       Vocab.exampleEn := Vocab.exampleEn existing;
       Vocab.exampleVi := Vocab.exampleVi existing;
       Vocab.mnemonic := Vocab.mnemonic existing;
       Vocab.tags := Vocab.tags existing;
       Vocab.collocations :=
         _merge_unique_strings (Vocab.collocations existing)
           (VocabCreate.collocations payload);
       Vocab.phrases :=
         _merge_unique_strings (Vocab.phrases existing) (VocabCreate.phrases payload);
       Vocab.wordFamily :=
         _merge_word_family (Vocab.wordFamily existing) (VocabCreate.wordFamily payload);
       Vocab.topics :=
         _merge_unique_strings (Vocab.topics existing) (VocabCreate.topics payload);
       Vocab.cefrLevel :=
         if opt_truthy (VocabCreate.cefrLevel payload) then VocabCreate.cefrLevel payload
         else Vocab.cefrLevel existing;
       Vocab.ieltsBand :=
         match VocabCreate.ieltsBand payload with
         | Some band => Some band
         | None => Vocab.ieltsBand existing
         end;
       Vocab.createdAt := Vocab.createdAt existing;
       Vocab.updatedAt := mongo_date now;
       Vocab.easeFactor := Vocab.easeFactor existing;
       Vocab.intervalDays := Vocab.intervalDays existing;
       Vocab.repetitions := Vocab.repetitions existing;
       Vocab.lapses := Vocab.lapses existing;
       Vocab.dueAt := Vocab.dueAt existing;
       Vocab.lastReviewedAt := Vocab.lastReviewedAt existing;
       Vocab.readdCount := Vocab.readdCount existing + 1;
       Vocab.lastReaddAt := Some (mongo_date now) |}.

(** The handler [create_vocab], called with a payload that passed the
    model.  The unique index on [termNormalized] ([create_indexes] of
    [app/db.py]) makes [insert_one] raise [DuplicateKeyError] exactly when a
    card has the term: the handler then takes the path of a term entered
    again.  The card read back after a write is there, the other case
    standing for the failure of the handler. *)
Definition create_vocab (db : Store) (payload : VocabCreate.t) (now : datetime)
  : result Vocab.doc * Store :=
  let term_normalized := normalize_term_str (VocabCreate.term payload) in
  if negb (str_truthy term_normalized) then
    (Raise (HTTPException 422 "Term is empty after normalization"), db)
  else if negb (validate_typed_vocab_input (VocabCreate.term payload)
                  (VocabCreate.meanings payload) (VocabCreate.inputMethod payload)) then
    (Raise (HTTPException 422
              "Input looks incorrect. Please review spelling/meaning before saving."), db)
  else
    match find_one_term term_normalized (vocabs db) with
    | None =>
        let inserted_id := new_object_id (vocabs db) in
        let docs :=
          vocabs db
          ++ [{| Vocab._id := inserted_id;
                 Vocab.fields := mongo_body (create_doc payload term_normalized now) |}] in
        let db' := {| vocabs := docs; review_logs := review_logs db; events := events db |} in
        match find_one_id inserted_id docs with
        | None => (Raise (HTTPException 500 "Internal Server Error"), db')
        | Some doc => (Ok doc, db')
        end
    | Some existing =>
        let docs :=
          update_one (Vocab._id existing) (readded_body payload now (Vocab.fields existing))
            (vocabs db) in
        let event :=
          {| Event.type := "RE_ADD";
             Event.payload :=
               JDict [ ("vocabId", JStr (Vocab._id existing));
                       ("termNormalized", JStr term_normalized) ];
             Event.createdAt := now |} in
        let db' :=
          {| vocabs := docs; review_logs := review_logs db;
             events := events db ++ [mongo_event event] |} in
        match find_one_id (Vocab._id existing) docs with
        | None => (Raise (HTTPException 500 "Internal Server Error"), db')
        | Some updated => (Ok updated, db')
        end
    end.
End VocabRoutes.

(** ** The cache of generated content: [app/services/ai_cache.py] *)

Section AiCache.
Variable sha256 : string -> string.
Variable json_dumps : json -> string.

(** The loop of [_merge_list_unique]: [seen] holds the digests of the
    items kept so far. *)
Fixpoint merge_list_unique_into (seen : gset string) (merged : list json)
    (items : list json) : list json :=
  match items with
  | [] => merged
  | item :: items' =>
      let key := stable_hash sha256 json_dumps item in
      if bool_decide (key ∈ seen) then merge_list_unique_into seen merged items'
      else merge_list_unique_into ({[key]} ∪ seen) (merged ++ [item]) items'
  end.

(** [_merge_list_unique(a, b)], an argument [None] being Python's [None]. *)
Definition _merge_list_unique (a b : option (list json)) : list json :=
  merge_list_unique_into ∅ [] (default [] a ++ default [] b).

(** The dict of the data cached for a term, and of the data a provider
    generates.  A key is absent ([None]) or present with its value: for the
    five lists and the pronunciation the value is [None] or a list, or a
    text; for the verdict of the judge it is any value.  The other keys of
    the dict are kept as they are. *)
Record AiData := {
  ai_examples : option (option (list json));
  ai_mnemonics : option (option (list json));
  ai_meaningVariants : option (option (list json));
  ai_synonymGroups : option (option (list json));
  ai_distractors : option (option (list json));
  ai_judge : option json;
  ai_ipa : option (option string);
  ai_other : list (string * json);
}.

(** One round of the loop over the keys of the lists: [merged.get(key)] is
    [None] for an absent key. *)
Definition merge_ai_list (existing incoming : option (option (list json)))
  : option (option (list json)) :=
  match incoming with
  | Some value => Some (Some (_merge_list_unique (mjoin existing) value))
  | None => existing
  end.

Definition merge_ai_data (existing incoming : AiData) : AiData :=
  {| ai_examples := merge_ai_list (ai_examples existing) (ai_examples incoming);
     ai_mnemonics := merge_ai_list (ai_mnemonics existing) (ai_mnemonics incoming);
     ai_meaningVariants :=
       merge_ai_list (ai_meaningVariants existing) (ai_meaningVariants incoming);
     ai_synonymGroups := merge_ai_list (ai_synonymGroups existing) (ai_synonymGroups incoming);
     ai_distractors := merge_ai_list (ai_distractors existing) (ai_distractors incoming);
     ai_judge :=
       match ai_judge incoming with
       | Some judge => Some judge
       | None => ai_judge existing
       end;
     ai_ipa :=
       match ai_ipa incoming with
       | Some (Some ipa) =>
           if str_truthy (str_strip ipa) then Some (Some (str_strip ipa))
           else ai_ipa existing
       | _ => ai_ipa existing
       end;
     ai_other := ai_other existing |}.
End AiCache.

(** ** Exporting a snapshot: [export_payload], [app/routes/sync.py] *)

Section SnapshotExport.
Variable isoformat : datetime -> string.
(** The text of a date in the JSON body of the answer, as the model
    [SyncExport] writes [exportedAt]. *)
Variable json_datetime : datetime -> string.

(** [_serialize_doc] of a card, of a log and of an event, as the records a
    snapshot carries them. *)
Definition exported_vocab (d : Vocab.doc) : RawVocab.t :=
  let b := Vocab.fields d in
  {| RawVocab._id := Some (Vocab._id d);
     RawVocab.term := Some (Vocab.term b);
     RawVocab.termNormalized := Some (Vocab.termNormalized b);
     RawVocab.meanings := Some (Vocab.meanings b);
     RawVocab.ipa := Vocab.ipa b;
     RawVocab.exampleEn := Vocab.exampleEn b;
     RawVocab.exampleVi := Vocab.exampleVi b;
     RawVocab.mnemonic := Vocab.mnemonic b;
     RawVocab.tags := Some (Vocab.tags b);
     RawVocab.collocations := Some (Vocab.collocations b);
     RawVocab.phrases := Some (Vocab.phrases b);
     RawVocab.wordFamily := Some (Vocab.wordFamily b);
     RawVocab.topics := Some (Vocab.topics b);
     RawVocab.cefrLevel := Vocab.cefrLevel b;
     RawVocab.ieltsBand := Vocab.ieltsBand b;
     RawVocab.createdAt := Some (isoformat (Vocab.createdAt b));
     RawVocab.updatedAt := Some (isoformat (Vocab.updatedAt b));
     RawVocab.easeFactor := Some (Vocab.easeFactor b);
     RawVocab.intervalDays := Some (Vocab.intervalDays b);
     RawVocab.repetitions := Some (Vocab.repetitions b);
     RawVocab.lapses := Some (Vocab.lapses b);
     RawVocab.dueAt := Some (isoformat (Vocab.dueAt b));
     RawVocab.lastReviewedAt := isoformat <$> Vocab.lastReviewedAt b;
     RawVocab.readdCount := Some (Vocab.readdCount b);
     RawVocab.lastReaddAt := isoformat <$> Vocab.lastReaddAt b |}.

Definition exported_log (l : Log.doc) : RawLog.t :=
  {| RawLog.vocabId := Some (Log.vocabId l);
     RawLog.mode := Some (Log.mode l);
     RawLog.questionType := Some (Log.questionType l);
     RawLog.grade := Some (Log.grade l);
     RawLog.userAnswer := Log.userAnswer l;
     RawLog.isNearCorrect := Log.isNearCorrect l;
     RawLog.createdAt := Some (isoformat (Log.createdAt l)) |}.

Definition exported_event (e : Event.doc) : RawEvent.t :=
  {| RawEvent.type := Some (Event.type e);
     RawEvent.payload := Some (Event.payload e);
     RawEvent.createdAt := Some (isoformat (Event.createdAt e)) |}.

(** The order [.sort([("termNormalized", 1), ("createdAt", 1)])]. *)
Definition export_order (a b : Vocab.doc) : bool :=
  let ta := Vocab.termNormalized (Vocab.fields a) in
  let tb := Vocab.termNormalized (Vocab.fields b) in
  if String.eqb ta tb
  then millis (Vocab.createdAt (Vocab.fields a)) <=? millis (Vocab.createdAt (Vocab.fields b))
  else String.leb ta tb.

(** [export_payload] behind the route [GET /sync/export]: the snapshot, as
    the JSON body that an import receives, and the store, which has one more
    event. *)
Definition export_payload (db : Store) (now : datetime) : Payload.t * Store :=
  let event :=
    {| Event.type := "EXPORT";
       Event.payload := JDict [("schemaVersion", JStr "v1")];
       Event.createdAt := now |} in
  let db' :=
    {| vocabs := vocabs db; review_logs := review_logs db;
       events := events db ++ [mongo_event event] |} in
  ({| Payload.schemaVersion := "v1";
      Payload.exportedAt := Some (json_datetime now);
      Payload.vocabs := exported_vocab <$> sort_by export_order (vocabs db');
      Payload.review_logs :=
        exported_log
          <$> sort_by (fun a b => millis (Log.createdAt a) <=? millis (Log.createdAt b))
                (review_logs db');
      Payload.events :=
        exported_event
          <$> sort_by (fun a b => millis (Event.createdAt a) <=? millis (Event.createdAt b))
                (events db') |},
   db').
End SnapshotExport.

(** ** Specification-side definitions for the routes *)

(** Two bodies with the same entry: everything but the schedule, the date
    of the last review and the date of the last change. *)
Definition same_entry (a b : Vocab.body) : Prop :=
  Vocab.term a = Vocab.term b
  /\ Vocab.termNormalized a = Vocab.termNormalized b
  /\ Vocab.meanings a = Vocab.meanings b
  /\ Vocab.ipa a = Vocab.ipa b
  /\ Vocab.exampleEn a = Vocab.exampleEn b
  /\ Vocab.exampleVi a = Vocab.exampleVi b
  /\ Vocab.mnemonic a = Vocab.mnemonic b
  /\ Vocab.tags a = Vocab.tags b
  /\ Vocab.collocations a = Vocab.collocations b
  /\ Vocab.phrases a = Vocab.phrases b
  /\ Vocab.wordFamily a = Vocab.wordFamily b
  /\ Vocab.topics a = Vocab.topics b
  /\ Vocab.cefrLevel a = Vocab.cefrLevel b
  /\ Vocab.ieltsBand a = Vocab.ieltsBand b
  /\ Vocab.createdAt a = Vocab.createdAt b
  /\ Vocab.readdCount a = Vocab.readdCount b
  /\ Vocab.lastReaddAt a = Vocab.lastReaddAt b.

(** A review for the examples: the card of the given identity, seen as a
    flip card and given the grade. *)
Definition sample_review (id : string) (graded : Z) : ReviewCreate.t :=
  {| ReviewCreate.vocabId := id; ReviewCreate.mode := "flip";
     ReviewCreate.questionType := "term_to_meaning"; ReviewCreate.grade := graded;
     ReviewCreate.userAnswer := None |}.

(** A judge of answers for the examples: it accepts nothing that is not a
    candidate. *)
Definition sample_similar (answer : string) (candidates : list string) (threshold : Z)
  : bool := false.

(** A typed entry, and a provider that accepts every entry. *)
Definition sample_create (entry : string) (meanings : list string) : VocabCreate.t :=
  {| VocabCreate.term := entry; VocabCreate.meanings := meanings;
     VocabCreate.ipa := None; VocabCreate.exampleEn := None; VocabCreate.exampleVi := None;
     VocabCreate.mnemonic := None; VocabCreate.tags := []; VocabCreate.collocations := [];
     VocabCreate.phrases := []; VocabCreate.wordFamily := []; VocabCreate.topics := [];
     VocabCreate.cefrLevel := None; VocabCreate.ieltsBand := None;
     VocabCreate.inputMethod := "typed" |}.

Definition sample_provider_accepts (entry : string) (meanings : list string) : bool := true.

(** ** Specification-side definitions for a snapshot brought back *)

(** A card that an export followed by an import gives back as it is: its
    key is a normalised term that is not empty, its term is not empty, its
    lists and word family are clean, its pronunciation is stripped and its
    optional texts are not empty. *)
Definition restorable (b : Vocab.body) : Prop :=
  str_truthy (Vocab.termNormalized b) = true
  /\ normalize_term_str (Vocab.termNormalized b) = Vocab.termNormalized b
  /\ str_truthy (Vocab.term b) = true
  /\ clean_body b
  /\ str_strip <$> Vocab.ipa b = Vocab.ipa b
  /\ opt_or_none (Vocab.exampleEn b) = Vocab.exampleEn b
  /\ opt_or_none (Vocab.exampleVi b) = Vocab.exampleVi b
  /\ opt_or_none (Vocab.mnemonic b) = Vocab.mnemonic b.

(** The store of a new device. *)
Definition empty_store : Store := {| vocabs := []; review_logs := []; events := [] |}.

(** The dates of a card. *)
Definition card_dates (b : Vocab.body) : list datetime :=
  [Vocab.createdAt b; Vocab.updatedAt b; Vocab.dueAt b]
  ++ option_list (Vocab.lastReviewedAt b) ++ option_list (Vocab.lastReaddAt b).

(** A date that survives being written and read: its text is not empty
    and [_parse_datetime] reads it as the date. *)
Definition date_survives (fromisoformat : string -> option (Z * option Z))
    (isoformat : datetime -> string) (d : datetime) : Prop :=
  str_truthy (isoformat d) = true
  /\ forall default : datetime,
       _parse_datetime fromisoformat (raw_date (Some (isoformat d))) default = d.

(** A store with two cards as the routes write them. *)
Definition sample_clean_store : Store :=
  {| vocabs :=
       [ sample_card "65a000000000000000000002" "pear" state_fresh
           (sample_date (-30)) (sample_date (-1)) None 2;
         sample_card "65a000000000000000000001" "apple" state_learned
           (sample_date (-30)) (sample_date (-2)) (Some (sample_date (-8))) 0 ];
     review_logs := [];
     events := [] |}.

(* ===================================================================== *)
(** * Part II.  Properties                                                *)
(* ===================================================================== *)

(** ** Arithmetic of the float built-ins *)

Lemma round_half_even_bounds (num den lo hi : Z) :
  0 < den -> lo * den <= num <= hi * den ->
  lo <= round_half_even num den <= hi.
Proof.
  intros Hden [Hlo Hhi]. unfold round_half_even.
  pose proof (Z.div_mod num den ltac:(lia)) as Hdm.
  pose proof (Z.mod_pos_bound num den Hden) as Hr.
  assert (lo <= num / den) by (apply Z.div_le_lower_bound; lia).
  assert (num / den <= hi) by (apply Z.div_le_upper_bound; lia).
  destruct (Z.eq_dec (num / den) hi) as [Heq|Hne].
  - assert (num mod den = 0) by nia.
    replace (2 * (num mod den) ?= den) with Lt by (symmetry; apply Z.compare_lt_iff; lia).
    lia.
  - destruct (2 * (num mod den) ?= den); [destruct (Z.even _)| |]; lia.
Qed.

(** [digits2_pos m] is the bit length of [m]. *)
Lemma digits2_pos_bounds (m : positive) :
  2 ^ (Zpos (digits2_pos m) - 1) <= Zpos m < 2 ^ Zpos (digits2_pos m).
Proof.
  induction m as [m IH|m IH|]; simpl digits2_pos.
  - rewrite Pos2Z.inj_succ, Z.pow_succ_r by lia.
    replace (Z.succ (Zpos (digits2_pos m)) - 1) with (Z.succ (Zpos (digits2_pos m) - 1)) by lia.
    rewrite Z.pow_succ_r by lia. lia.
  - rewrite Pos2Z.inj_succ, Z.pow_succ_r by lia.
    replace (Z.succ (Zpos (digits2_pos m)) - 1) with (Z.succ (Zpos (digits2_pos m) - 1)) by lia.
    rewrite Z.pow_succ_r by lia. lia.
  - simpl. lia.
Qed.

(** A finite binary64 number in canonical form with exponent above the
    subnormal range has a 53-bit mantissa. *)
Lemma bounded_mantissa (m : positive) (e : Z) :
  bounded prec emax m e = true -> -1074 < e ->
  2 ^ 52 <= Zpos m < 2 ^ 53.
Proof.
  unfold bounded, canonical_mantissa, fexp, SpecFloat.emin, prec, emax.
  intros [Hc _]%andb_true_iff He. apply Z.eqb_eq in Hc.
  assert (Hd : Zpos (digits2_pos m) = 53) by lia.
  pose proof (digits2_pos_bounds m) as Hb.
  rewrite Hd in Hb. exact Hb.
Qed.

(** The binary64 numbers of the two bounds of the ease factor. *)
Lemma Prim2SF_1_3 : Prim2SF 1.3%float = S754_finite false 5854679515581645 (-52).
Proof. vm_compute. reflexivity. Qed.

Lemma Prim2SF_3_0 : Prim2SF 3.0%float = S754_finite false 6755399441055744 (-51).
Proof. vm_compute. reflexivity. Qed.

(** Every multiple of [0.01] from [1.30] to [3.00], read as a binary64
    number, lies between the numbers [1.3] and [3.0]. *)
Lemma hundredths_in_range (n : Z) :
  130 <= n <= 300 -> ease_in_range (float_of_Z n / 100.0) = true.
Proof.
  intros Hn.
  assert (Hall : forallb (fun k => ease_in_range (float_of_Z k / 100.0)) (seqZ 130 171) = true)
    by (vm_compute; reflexivity).
  rewrite forallb_forall in Hall. apply Hall.
  apply list_elem_of_In, elem_of_seqZ. lia.
Qed.

(** The order of two positive finite numbers in canonical form. *)
Lemma SFltb_finite_pos (m1 m2 : positive) (e1 e2 : Z) :
  SFltb (S754_finite false m1 e1) (S754_finite false m2 e2) = true ->
  e1 < e2 \/ (e1 = e2 /\ Zpos m1 < Zpos m2).
Proof.
  unfold SFltb, SFcompare.
  destruct (Z.compare_spec e1 e2) as [He|He|He]; try discriminate; [|now left].
  rewrite Pos.compare_cont_spec. cbn [Pos.switch_Eq].
  destruct (m1 ?= m2)%positive eqn:Hm; try discriminate.
  intros _. right. split; [exact He|].
  apply Pos.compare_lt_iff in Hm. now apply Pos2Z.pos_lt_pos.
Qed.

(** A number strictly between [1.3] and [3.0] rounds, at two decimals, to a
    number between them. *)
Lemma py_round2_between (x : float) :
  (1.3 <? x)%float = true -> (x <? 3.0)%float = true ->
  ease_in_range (py_round2 x) = true.
Proof.
  rewrite !FloatAxioms.ltb_spec, Prim2SF_1_3, Prim2SF_3_0.
  unfold py_round2. pose proof (Prim2SF_valid x) as Hv.
  destruct (Prim2SF x) as [s|s| |s m e]; try discriminate.
  - destruct s; discriminate.
  - destruct s; [discriminate|].
    cbn [valid_binary] in Hv.
    intros Hlo%SFltb_finite_pos Hhi%SFltb_finite_pos.
    assert (He : e = -52 \/ e = -51) by lia.
    pose proof (bounded_mantissa _ _ Hv ltac:(lia)) as Hm.
    destruct He as [-> | ->].
    + change (-6 <=? -52) with false. cbv iota.
      apply hundredths_in_range. unfold scaled_round.
      apply round_half_even_bounds; lia.
    + change (-6 <=? -51) with false. cbv iota.
      apply hundredths_in_range. unfold scaled_round.
      apply round_half_even_bounds; lia.
Qed.

(** The ease factor written by the scheduler: clamped, then rounded. *)
Lemma py_round2_clamp_in_range (x : float) :
  ease_in_range (py_round2 (clamp x 1.3 3.0)) = true.
Proof.
  unfold clamp, py_min, py_max.
  destruct (x <? 3.0)%float eqn:Hhi.
  - destruct (1.3 <? x)%float eqn:Hlo.
    + now apply py_round2_between.
    + vm_compute. reflexivity.
  - vm_compute. reflexivity.
Qed.

(** ** The scheduler *)

Lemma grade_guard_passes (g : Z) :
  0 <= g <= 5 -> (g <? 0) || (g >? 5) = false.
Proof.
  intros Hg. rewrite Z.gtb_ltb. apply orb_false_iff.
  split; apply Z.ltb_ge; lia.
Qed.

(** The small integers of the ease formula convert to floats exactly. *)
Lemma int_mul_float_grade (g : Z) (x : float) :
  3 <= g <= 5 -> int_mul_float (5 - g) x = Ok (float_of_Z (5 - g) * x)%float.
Proof.
  intros Hg. assert (Hc : g = 3 \/ g = 4 \/ g = 5) by lia.
  destruct Hc as [-> | [-> | ->]]; reflexivity.
Qed.

(** The part of a successful review after the choice of the interval. *)
Lemma apply_review_success_unfold (s : Sm2State) (g : Z) (now : datetime) :
  3 <= g <= 5 ->
  apply_review s g now =
    interval ← success_interval s;
    due ← days_later now interval;
    Ok (review_update (py_round2 (clamp (easeFactor s + sm2_delta g) 1.3 3.0))
          interval (repetitions s + 1) (lapses s) due now).
Proof.
  intros Hg. unfold apply_review, success_interval, days_later.
  rewrite grade_guard_passes by lia.
  replace (g <? 3) with false by (symmetry; apply Z.ltb_ge; lia).
  unfold mbind, result_bind.
  destruct (repetitions s =? 0); [|destruct (repetitions s =? 1)].
  - rewrite !int_mul_float_grade by lia.
    destruct (timedelta_days 1) as [days_ahead|e]; [|reflexivity].
    destruct (datetime_add now days_ahead); reflexivity.
  - rewrite !int_mul_float_grade by lia.
    destruct (timedelta_days 6) as [days_ahead|e]; [|reflexivity].
    destruct (datetime_add now days_ahead); reflexivity.
  - destruct (int_mul_float (intervalDays s) (easeFactor s)) as [p|e]; [|reflexivity].
    destruct (py_round p) as [r|e]; [|reflexivity].
    rewrite !int_mul_float_grade by lia.
    destruct (timedelta_days (Z.max 1 r)) as [days_ahead|e]; [|reflexivity].
    destruct (datetime_add now days_ahead); reflexivity.
Qed.

(** A date a number of days later has the wall clock moved by these days,
    in the same zone. *)
Lemma days_later_Ok (now due : datetime) (interval : Z) :
  days_later now interval = Ok due ->
  due = {| wall := wall now + interval * microseconds_per_day; fold := false; tz := tz now |}
  /\ min_wall <= wall due <= max_wall.
Proof.
  unfold days_later, timedelta_days, datetime_add.
  destruct (_ || _); [discriminate|]. destruct (_ || _); [discriminate|].
  cbn [mbind result_bind].
  destruct (_ || _) eqn:Hrange; [discriminate|].
  intros [= <-]. split; [reflexivity|]. cbn [wall].
  apply orb_false_iff in Hrange as [?%Z.ltb_ge ?%Z.ltb_ge]. lia.
Qed.

(** The days of an interval are added whenever the date they lead to is
    one of the years 1 to 9999. *)
Lemma days_later_in_range (now : datetime) (interval : Z) :
  -999999999 <= interval <= 999999999 ->
  min_wall <= wall now + interval * microseconds_per_day <= max_wall ->
  days_later now interval
  = Ok {| wall := wall now + interval * microseconds_per_day; fold := false; tz := tz now |}.
Proof.
  intros Hi Hw. unfold days_later, timedelta_days, datetime_add.
  replace ((interval <? -2147483648) || (2147483647 <? interval)) with false
    by (symmetry; apply orb_false_iff; split; apply Z.ltb_ge; lia).
  replace ((interval <? -999999999) || (999999999 <? interval)) with false
    by (symmetry; apply orb_false_iff; split; apply Z.ltb_ge; lia).
  cbn [mbind result_bind].
  replace ((wall now + interval * microseconds_per_day <? min_wall)
           || (max_wall <? wall now + interval * microseconds_per_day)) with false
    by (symmetry; apply orb_false_iff; split; apply Z.ltb_ge; lia).
  reflexivity.
Qed.

(** The path of a lapse through the review. *)
Lemma apply_review_lapse_unfold (s : Sm2State) (g : Z) (now : datetime) :
  0 <= g <= 2 ->
  apply_review s g now =
    Ok (review_update (py_round2 (clamp (easeFactor s - 0.2) 1.3 3.0))
          0 0 (lapses s + 1) now now).
Proof.
  intros Hg. unfold apply_review.
  rewrite grade_guard_passes by lia.
  replace (g <? 3) with true by (symmetry; apply Z.ltb_lt; lia).
  reflexivity.
Qed.

(** C6.  A lapse (grade 0, 1 or 2) resets the card: for every state the
    review returns repetitions 0, interval 0, one more lapse, the ease factor
    lowered by 0.2, clamped to [1.3, 3.0] and rounded to two decimals, and
    both dueAt and lastReviewedAt set to now. *)
Theorem apply_review_lapse (s : Sm2State) (g : Z) (now : datetime) :
  0 <= g <= 2 ->
  apply_review s g now =
    Ok {[ "easeFactor" := VFloat (py_round2 (clamp (easeFactor s - 0.2) 1.3 3.0));
          "intervalDays" := VInt 0;
          "repetitions" := VInt 0;
          "lapses" := VInt (lapses s + 1);
          "dueAt" := VDatetime now;
          "lastReviewedAt" := VDatetime now ]}.
Proof.
  intros Hg. rewrite apply_review_lapse_unfold by exact Hg. reflexivity.
Qed.

Lemma apply_review_lapse_witness :
  0 <= 1 <= 2 /\
  apply_review state_fresh 1 T0 =
    Ok {[ "easeFactor" := VFloat (py_round2 (clamp (2.5 - 0.2) 1.3 3.0));
          "intervalDays" := VInt 0;
          "repetitions" := VInt 0;
          "lapses" := VInt (0 + 1);
          "dueAt" := VDatetime T0;
          "lastReviewedAt" := VDatetime T0 ]}.
Proof. split; [lia | apply (apply_review_lapse state_fresh 1 T0); lia]. Defined.

(** The lapse of the specification's example: ease 2.5 becomes 2.3. *)
Example lapse_ease_value : py_round2 (clamp (2.5 - 0.2) 1.3 3.0) = 2.3%float.
Proof. vm_compute. reflexivity. Qed.

(** C7.  A success (grade 3, 4 or 5) returns a state exactly when the new
    interval can be computed and the date it leads to exists.  The new
    interval is 1 after no repetition, 6 after one, and otherwise
    [max(1, round(interval * ease))]; the state returned has this interval,
    one more repetition, the ease factor moved by the SM-2 increment, clamped
    and rounded to two decimals, the lapses it had, lastReviewedAt now, and
    dueAt the wall clock of now moved by the new interval in days, in the
    zone of now.  Otherwise the review raises: the error of [round] when the
    product is not a finite number, the error of [timedelta] when the
    interval exceeds 999999999 days, and [OverflowError] when the date lies
    beyond the year 9999. *)
Theorem apply_review_success (s : Sm2State) (g : Z) (now : datetime) :
  3 <= g <= 5 ->
  match apply_review s g now with
  | Ok upd =>
      exists interval due,
        success_interval s = Ok interval
        /\ due = {| wall := wall now + interval * microseconds_per_day;
                    fold := false; tz := tz now |}
        /\ min_wall <= wall due <= max_wall
        /\ upd = review_update (py_round2 (clamp (easeFactor s + sm2_delta g) 1.3 3.0))
                   interval (repetitions s + 1) (lapses s) due now
  | Raise e =>
      success_interval s = Raise e
      \/ exists interval,
           success_interval s = Ok interval /\ days_later now interval = Raise e
  end.
Proof.
  intros Hg. rewrite (apply_review_success_unfold s g now Hg).
  destruct (success_interval s) as [interval|e]; cbn [mbind result_bind]; [|now left].
  destruct (days_later now interval) as [due|e] eqn:Hdue; cbn [mbind result_bind].
  - exists interval, due. apply days_later_Ok in Hdue as [Hdue Hrange]. auto.
  - right. exists interval. auto.
Qed.

Lemma apply_review_success_witness :
  3 <= 4 <= 5 /\
  match apply_review state_learned 4 sample_now with
  | Ok upd =>
      exists interval due,
        success_interval state_learned = Ok interval
        /\ due = {| wall := wall sample_now + interval * microseconds_per_day;
                    fold := false; tz := tz sample_now |}
        /\ min_wall <= wall due <= max_wall
        /\ upd = review_update (py_round2 (clamp (2.5 + sm2_delta 4) 1.3 3.0))
                   interval (2 + 1) 0 due sample_now
  | Raise e =>
      success_interval state_learned = Raise e
      \/ exists interval,
           success_interval state_learned = Ok interval
           /\ days_later sample_now interval = Raise e
  end.
Proof. split; [lia | apply (apply_review_success state_learned 4 sample_now); lia]. Defined.

(** The specification's examples: grade 4 leaves the ease at 2.5, grade 5
    raises it to 2.6, and a third success multiplies the interval. *)
Example success_ease_grade4 : py_round2 (clamp (2.5 + sm2_delta 4) 1.3 3.0) = 2.5%float.
Proof. vm_compute. reflexivity. Qed.

Example success_ease_grade5 : py_round2 (clamp (2.5 + sm2_delta 5) 1.3 3.0) = 2.6%float.
Proof. vm_compute. reflexivity. Qed.

Example success_first_interval :
  apply_review state_fresh 4 T0 = Ok (review_update 2.5 1 1 0 (sample_date 1) T0).
Proof.
  rewrite (apply_review_success_unfold state_fresh 4 T0 ltac:(lia)).
  change (success_interval state_fresh) with (Ok 1 : result Z).
  cbn [mbind result_bind].
  change (days_later T0 1) with (Ok (sample_date 1)).
  cbn [mbind result_bind].
  change (easeFactor state_fresh) with 2.5%float.
  rewrite success_ease_grade4. reflexivity.
Qed.

Example success_third_interval :
  apply_review state_learned 4 T0 = Ok (review_update 2.5 15 3 0 (sample_date 15) T0).
Proof.
  rewrite (apply_review_success_unfold state_learned 4 T0 ltac:(lia)).
  replace (success_interval state_learned) with (Ok 15 : result Z)
    by (vm_compute; reflexivity).
  cbn [mbind result_bind].
  change (days_later T0 15) with (Ok (sample_date 15)).
  cbn [mbind result_bind].
  change (easeFactor state_learned) with 2.5%float.
  rewrite success_ease_grade4. reflexivity.
Qed.

(** A state whose ease factor is infinite makes [round] raise. *)
Example success_raises_on_infinite_ease :
  apply_review {| easeFactor := infinity; intervalDays := 6; repetitions := 2; lapses := 0 |} 4 T0
  = Raise (OverflowError "cannot convert float infinity to integer").
Proof.
  rewrite apply_review_success_unfold by lia. reflexivity.
Qed.

(** A success does not always return a state: a card with an interval of
    four million days, reviewed for the third time with grade 4, gets an
    interval of ten million days, and the date that many days after now lies
    beyond the year 9999. *)
Lemma success_raises_on_far_due_date :
  apply_review {| easeFactor := 2.5; intervalDays := 4000000; repetitions := 2; lapses := 0 |}
    4 sample_now
  = Raise (OverflowError "date value out of range").
Proof.
  rewrite apply_review_success_unfold by lia.
  replace (success_interval _) with (Ok 10000000 : result Z) by (vm_compute; reflexivity).
  reflexivity.
Qed.

Lemma review_update_ease (ease : float) (interval reps lapses : Z) (due now : datetime) :
  review_update ease interval reps lapses due now !! "easeFactor" = Some (VFloat ease).
Proof. reflexivity. Qed.

(** C5.  For every state and every grade from 0 to 5 the ease factor of the
    returned state lies in [1.3, 3.0].  The review returns a state except
    after a success (grade 3 to 5) whose interval cannot be computed, or
    whose due date, now plus the interval in days, is no date that
    [datetime] holds. *)
Theorem apply_review_ease_in_range (s : Sm2State) (g : Z) (now : datetime) :
  0 <= g <= 5 ->
  match apply_review s g now with
  | Ok upd =>
      exists e, upd !! "easeFactor" = Some (VFloat e) /\
                (1.3 <=? e)%float = true /\ (e <=? 3.0)%float = true
  | Raise err =>
      3 <= g /\
      (success_interval s = Raise err
       \/ exists interval,
            success_interval s = Ok interval /\ days_later now interval = Raise err)
  end.
Proof.
  intros Hg.
  assert (Hrange : forall x interval reps lapses due,
             exists e, review_update (py_round2 (clamp x 1.3 3.0)) interval reps lapses due now
                         !! "easeFactor" = Some (VFloat e) /\
                       (1.3 <=? e)%float = true /\ (e <=? 3.0)%float = true).
  { intros x interval reps laps due. eexists. split; [apply review_update_ease|].
    apply andb_true_iff, py_round2_clamp_in_range. }
  destruct (Z.lt_ge_cases g 3) as [Hlow|Hhigh].
  - rewrite apply_review_lapse_unfold by lia. apply Hrange.
  - rewrite apply_review_success_unfold by lia.
    destruct (success_interval s) as [interval|err]; cbn [mbind result_bind]; [|auto].
    destruct (days_later now interval) as [due|err] eqn:Hdue; cbn [mbind result_bind];
      [apply Hrange|].
    split; [exact Hhigh|]. right. exists interval. auto.
Qed.

Lemma apply_review_ease_in_range_witness :
  0 <= 4 <= 5 /\
  match apply_review state_learned 4 sample_now with
  | Ok upd =>
      exists e, upd !! "easeFactor" = Some (VFloat e) /\
                (1.3 <=? e)%float = true /\ (e <=? 3.0)%float = true
  | Raise err =>
      3 <= 4 /\
      (success_interval state_learned = Raise err
       \/ exists interval,
            success_interval state_learned = Ok interval
            /\ days_later sample_now interval = Raise err)
  end.
Proof.
  split; [lia | apply (apply_review_ease_in_range state_learned 4 sample_now); lia].
Defined.

(** Out of range inputs are clamped as well: NaN and the infinities. *)
Example clamp_nan : clamp nan 1.3 3.0 = 3.0%float.
Proof. vm_compute. reflexivity. Qed.

Example clamp_neg_infinity : clamp neg_infinity 1.3 3.0 = 1.3%float.
Proof. vm_compute. reflexivity. Qed.

(** C9.  The re-add penalty lowers the ease factor by 0.2 (clamped, rounded to
    two decimals), resets repetitions and interval, and makes the card due
    now; the update has no other key, so a [$set] with it (together with any
    other keys except lapses) leaves the lapses of the stored card as they
    were. *)
Theorem apply_readd_penalty_spec (s : Sm2State) (now : datetime) :
  apply_readd_penalty s now =
    {[ "easeFactor" := VFloat (py_round2 (clamp (easeFactor s - 0.2) 1.3 3.0));
       "repetitions" := VInt 0;
       "intervalDays" := VInt 0;
       "dueAt" := VDatetime now ]} /\
  dom (apply_readd_penalty s now) =
    ({[ "easeFactor"; "repetitions"; "intervalDays"; "dueAt" ]} : gset string) /\
  apply_readd_penalty s now !! "lapses" = None /\
  forall others doc : gmap string pyval,
    others !! "lapses" = None ->
    mongo_set (apply_readd_penalty s now ∪ others) doc !! "lapses" = doc !! "lapses".
Proof.
  assert (Hnone : apply_readd_penalty s now !! "lapses" = None) by reflexivity.
  split; [reflexivity|]. split; [|split; [exact Hnone|]].
  - unfold apply_readd_penalty. rewrite !dom_insert_L, dom_singleton_L. set_solver.
  - intros others doc Ho. unfold mongo_set.
    rewrite !lookup_union, Hnone, Ho. now destruct (doc !! "lapses").
Qed.

Example readd_penalty_keeps_lapses :
  mongo_set (apply_readd_penalty state_learned T0)
    {[ "lapses" := VInt 4; "repetitions" := VInt 2 ]} !! "lapses" = Some (VInt 4)
  /\ mongo_set (apply_readd_penalty state_learned T0)
    {[ "lapses" := VInt 4; "repetitions" := VInt 2 ]} !! "repetitions" = Some (VInt 0).
Proof. split; reflexivity. Qed.

(** ** Term normalisation *)

Section StripFacts.
Context {char : Type}.
Variable p : char -> bool.

Lemma lstrip_while_starts (s : list char) : starts_clean p (lstrip_while p s).
Proof.
  induction s as [|c s IH]; simpl; [exact I|].
  destruct (p c) eqn:Hc; [exact IH | exact Hc].
Qed.

Lemma lstrip_while_fixed (s : list char) :
  starts_clean p s -> lstrip_while p s = s.
Proof. destruct s as [|c s]; simpl; [reflexivity|]. now intros ->. Qed.

Lemma rstrip_while_ends (s : list char) : ends_clean p (rstrip_while p s).
Proof.
  induction s as [|c s IH]; simpl; [exact I|].
  destruct (rstrip_while p s) as [|d r] eqn:Hr.
  - destruct (p c) eqn:Hc; [exact I | exact Hc].
  - exact IH.
Qed.

Lemma rstrip_while_fixed (s : list char) :
  ends_clean p s -> rstrip_while p s = s.
Proof.
  induction s as [|c s IH]; [reflexivity|].
  destruct s as [|d s].
  - unfold ends_clean. simpl. now intros ->.
  - intros H. change (rstrip_while p (c :: d :: s))
      with (match rstrip_while p (d :: s) with
            | [] => if p c then [] else [c]
            | r => c :: r
            end).
    rewrite IH by exact H. reflexivity.
Qed.

Lemma rstrip_while_starts (s : list char) :
  starts_clean p s -> starts_clean p (rstrip_while p s).
Proof.
  destruct s as [|c s]; simpl; [trivial|]. intros Hc.
  destruct (rstrip_while p s); [rewrite Hc|]; exact Hc.
Qed.

Lemma strip_while_clean (s : list char) :
  starts_clean p (rstrip_while p (lstrip_while p s)) /\
  ends_clean p (rstrip_while p (lstrip_while p s)).
Proof.
  split; [apply rstrip_while_starts, lstrip_while_starts | apply rstrip_while_ends].
Qed.

Lemma strip_while_fixed (s : list char) :
  starts_clean p s -> ends_clean p s -> rstrip_while p (lstrip_while p s) = s.
Proof. intros Hs He. rewrite lstrip_while_fixed by exact Hs. now apply rstrip_while_fixed. Qed.

Lemma Forall_lstrip_while (P : char -> Prop) (s : list char) :
  Forall P s -> Forall P (lstrip_while p s).
Proof.
  induction 1 as [|c s Hc Hs IH]; simpl; [constructor|].
  destruct (p c); [exact IH | now constructor].
Qed.

Lemma Forall_rstrip_while (P : char -> Prop) (s : list char) :
  Forall P s -> Forall P (rstrip_while p s).
Proof.
  induction 1 as [|c s Hc Hs IH]; simpl; [constructor|].
  destruct (rstrip_while p s); [destruct (p c); repeat constructor; exact Hc|].
  now constructor.
Qed.
End StripFacts.

Lemma starts_clean_weaken {char} (p q : char -> bool) (s : list char) :
  (forall c, q c = true -> p c = true) -> starts_clean p s -> starts_clean q s.
Proof.
  intros Hpq. destruct s as [|c s]; simpl; [trivial|].
  intros Hp. destruct (q c) eqn:Hq; [|reflexivity].
  rewrite (Hpq c Hq) in Hp. discriminate.
Qed.

Lemma ends_clean_weaken {char} (p q : char -> bool) (s : list char) :
  (forall c, q c = true -> p c = true) -> ends_clean p s -> ends_clean q s.
Proof.
  intros Hpq. unfold ends_clean. destruct (last s) as [c|]; [|trivial].
  intros Hp. destruct (q c) eqn:Hq; [|reflexivity].
  rewrite (Hpq c Hq) in Hp. discriminate.
Qed.

Section NormalizeFacts.
Context {char : Type}.
Variable is_space : char -> bool.
Variable is_alnum : char -> bool.
Variable is_underscore : char -> bool.
Variable lower : list char -> list char.
Variable space : char.
(** The characters that [lower] produces and leaves alone. *)
Variable is_lowered : char -> bool.

Hypothesis space_is_space : is_space space = true.
Hypothesis space_not_alnum : forall c, is_space c = true -> is_alnum c = false.
Hypothesis lower_lowered : forall s, Forall (fun c => is_lowered c = true) (lower s).
Hypothesis lowered_fixed :
  forall s, Forall (fun c => is_lowered c = true) s -> lower s = s.
Hypothesis space_lowered : is_lowered space = true.

Local Abbreviation punct := (is_surrounding_punct is_alnum is_underscore).
Local Abbreviation msf := (multi_space_sub_from is_space space).
Local Abbreviation coll := (collapsed is_space space).
Local Abbreviation norm := (normalize_term is_space is_alnum is_underscore lower space).
Local Abbreviation lowered := (Forall (fun c => is_lowered c = true)).
Local Abbreviation nf := (normal_form is_space is_alnum is_underscore space is_lowered).

Lemma space_is_punct (c : char) : is_space c = true -> punct c = true.
Proof.
  intros Hc. unfold is_surrounding_punct, is_word.
  rewrite (space_not_alnum c Hc). now destruct (is_underscore c).
Qed.

Lemma collapsed_weaken (b : bool) (s : list char) : coll b s -> coll false s.
Proof.
  destruct b; [|trivial]. destruct s as [|c s]; simpl; [trivial|].
  destruct (is_space c); [|trivial]. now intros (_ & ? & _).
Qed.

Lemma collapsed_multi_space (b : bool) (s : list char) : coll b (msf b s).
Proof.
  revert b. induction s as [|c s IH]; intros b; simpl; [exact I|].
  destruct (is_space c) eqn:Hc.
  - destruct b; [apply IH|]. simpl. rewrite space_is_space. auto.
  - simpl. rewrite Hc. apply IH.
Qed.

Lemma multi_space_fixed (b : bool) (s : list char) : coll b s -> msf b s = s.
Proof.
  revert b. induction s as [|c s IH]; intros b; simpl; [reflexivity|].
  destruct (is_space c).
  - intros (-> & -> & Hs). now rewrite IH.
  - intros Hs. now rewrite IH.
Qed.

Lemma collapsed_lstrip (q : char -> bool) (b : bool) (s : list char) :
  coll b s -> coll false (lstrip_while q s).
Proof.
  revert b. induction s as [|c s IH]; intros b Hs; simpl; [exact I|].
  destruct (q c); [|exact (collapsed_weaken _ _ Hs)].
  simpl in Hs. destruct (is_space c); [destruct Hs as (_ & _ & Hs)|]; exact (IH _ Hs).
Qed.

Lemma collapsed_rstrip (q : char -> bool) (b : bool) (s : list char) :
  coll b s -> coll b (rstrip_while q s).
Proof.
  revert b. induction s as [|c s IH]; intros b Hs; simpl; [exact I|].
  simpl in Hs.
  destruct (rstrip_while q s) as [|d r] eqn:Hr.
  - destruct (q c); simpl; [exact I|].
    destruct (is_space c); [|exact I]. destruct Hs as (? & ? & _). auto.
  - cbn [collapsed]. destruct (is_space c).
    + destruct Hs as (? & ? & Hs). split; [assumption|]. split; [assumption|].
      exact (IH true Hs).
    + exact (IH false Hs).
Qed.

Lemma lowered_multi_space (b : bool) (s : list char) : lowered s -> lowered (msf b s).
Proof.
  intros Hs. revert b. induction Hs as [|c s Hc Hs IH]; intros b; simpl; [constructor|].
  destruct (is_space c); [destruct b|]; try constructor; auto.
Qed.

Lemma normalize_term_normal_form (t : list char) : nf (norm t).
Proof.
  unfold normalize_term, _SURROUNDING_PUNCT_sub, _MULTI_SPACE_sub.
  set (s1 := msf false (lower (strip is_space t))).
  set (s2 := rstrip_while punct (lstrip_while punct s1)).
  assert (Hl : lowered s2).
  { apply Forall_rstrip_while, Forall_lstrip_while, lowered_multi_space, lower_lowered. }
  assert (Hc : coll false s2).
  { apply collapsed_rstrip, (collapsed_lstrip _ false), collapsed_multi_space. }
  destruct (strip_while_clean punct s1) as [Hs He]. fold s2 in Hs, He.
  rewrite (multi_space_fixed false s2 Hc).
  unfold strip. rewrite strip_while_fixed.
  - repeat split; assumption.
  - exact (starts_clean_weaken _ _ _ space_is_punct Hs).
  - exact (ends_clean_weaken _ _ _ space_is_punct He).
Qed.

Lemma normalize_term_fixed (r : list char) : nf r -> norm r = r.
Proof.
  intros (Hl & Hc & Hs & He).
  assert (Hstrip : strip is_space r = r).
  { unfold strip. apply strip_while_fixed.
    - exact (starts_clean_weaken _ _ _ space_is_punct Hs).
    - exact (ends_clean_weaken _ _ _ space_is_punct He). }
  unfold normalize_term, _SURROUNDING_PUNCT_sub, _MULTI_SPACE_sub.
  rewrite Hstrip, (lowered_fixed r Hl), (multi_space_fixed false r Hc).
  rewrite (strip_while_fixed punct r Hs He).
  rewrite (multi_space_fixed false r Hc). exact Hstrip.
Qed.
End NormalizeFacts.

(** *** The instance on code points below 256 *)

Lemma latin1_space_is_space : latin1_is_space " " = true.
Proof. reflexivity. Qed.

Lemma latin1_space_not_alnum (c : ascii) :
  latin1_is_space c = true -> latin1_is_alnum c = false.
Proof.
  destruct c as [b0 b1 b2 b3 b4 b5 b6 b7].
  destruct b0, b1, b2, b3, b4, b5, b6, b7; vm_compute; congruence.
Qed.

Lemma latin1_lower_char_idempotent (c : ascii) :
  latin1_is_lowered (latin1_lower_char c) = true.
Proof.
  destruct c as [b0 b1 b2 b3 b4 b5 b6 b7].
  destruct b0, b1, b2, b3, b4, b5, b6, b7; vm_compute; reflexivity.
Qed.

Lemma latin1_lower_lowered (s : list ascii) :
  Forall (fun c => latin1_is_lowered c = true) (latin1_lower s).
Proof.
  induction s as [|c s IH]; simpl; constructor;
    [apply latin1_lower_char_idempotent | exact IH].
Qed.

Lemma latin1_lowered_fixed (s : list ascii) :
  Forall (fun c => latin1_is_lowered c = true) s -> latin1_lower s = s.
Proof.
  induction 1 as [|c s Hc Hs IH]; simpl; [reflexivity|].
  apply Ascii.eqb_eq in Hc. now rewrite Hc, IH.
Qed.

Lemma latin1_space_lowered : latin1_is_lowered " " = true.
Proof. reflexivity. Qed.

(** Normalising a normalised Rocq string changes nothing. *)
Lemma normalize_term_str_idempotent (t : string) :
  normalize_term_str (normalize_term_str t) = normalize_term_str t.
Proof.
  unfold normalize_term_str. rewrite list_ascii_of_string_of_list_ascii.
  f_equal.
  apply (normalize_term_fixed _ _ _ _ _ latin1_is_lowered
           latin1_space_not_alnum latin1_lowered_fixed).
  apply (normalize_term_normal_form _ _ _ _ _ latin1_is_lowered latin1_space_is_space
           latin1_space_not_alnum latin1_lower_lowered latin1_space_lowered).
Qed.

(** C10.  Term normalisation is idempotent: whatever the term, normalising
    its normal form gives the normal form again.  It holds for every
    alphabet whose white space is not alphanumeric and contains the
    replacement character, and whose lower-casing yields characters that it
    leaves alone, the replacement character among them; Python's classes
    [isspace] and [isalnum] and its [lower] are of this kind. *)
Theorem normalize_term_idempotent {char : Type}
  (is_space is_alnum is_underscore : char -> bool)
  (lower : list char -> list char) (space : char) (is_lowered : char -> bool) :
  is_space space = true ->
  (forall c, is_space c = true -> is_alnum c = false) ->
  (forall s, Forall (fun c => is_lowered c = true) (lower s)) ->
  (forall s, Forall (fun c => is_lowered c = true) s -> lower s = s) ->
  is_lowered space = true ->
  forall t : list char,
    normalize_term is_space is_alnum is_underscore lower space
      (normalize_term is_space is_alnum is_underscore lower space t)
    = normalize_term is_space is_alnum is_underscore lower space t.
Proof.
  intros H1 H2 H3 H4 H5 t.
  apply (normalize_term_fixed _ _ _ _ _ is_lowered H2 H4).
  apply (normalize_term_normal_form _ _ _ _ _ is_lowered H1 H2 H3 H5).
Qed.

Lemma normalize_term_idempotent_witness :
  latin1_is_space " " = true /\
  (forall c, latin1_is_space c = true -> latin1_is_alnum c = false) /\
  (forall s, Forall (fun c => latin1_is_lowered c = true) (latin1_lower s)) /\
  (forall s, Forall (fun c => latin1_is_lowered c = true) s -> latin1_lower s = s) /\
  latin1_is_lowered " " = true /\
  normalize_term latin1_is_space latin1_is_alnum latin1_is_underscore latin1_lower " "%char
    (normalize_term latin1_is_space latin1_is_alnum latin1_is_underscore latin1_lower " "%char
       (list_ascii_of_string "  --Hello,   World!_ "))
  = normalize_term latin1_is_space latin1_is_alnum latin1_is_underscore latin1_lower " "%char
      (list_ascii_of_string "  --Hello,   World!_ ").
Proof.
  split; [reflexivity|].
  split; [exact latin1_space_not_alnum|].
  split; [exact latin1_lower_lowered|].
  split; [exact latin1_lowered_fixed|].
  split; [reflexivity|].
  exact (normalize_term_idempotent latin1_is_space latin1_is_alnum latin1_is_underscore
           latin1_lower " "%char latin1_is_lowered
           latin1_space_is_space latin1_space_not_alnum latin1_lower_lowered
           latin1_lowered_fixed latin1_space_lowered
           (list_ascii_of_string "  --Hello,   World!_ ")).
Defined.

Example normalize_term_hello :
  normalize_term_str "  --Hello,   World!_ " = "hello, world"%string.
Proof. vm_compute. reflexivity. Qed.

Example normalize_term_only_punct : normalize_term_str " ?!_ " = ""%string.
Proof. vm_compute. reflexivity. Qed.

(** ** The session composer *)

Lemma first_occurrences_app (seen : list ObjectId) (l1 l2 : list Vocab.doc) :
  first_occurrences seen (l1 ++ l2) =
    first_occurrences seen l1
    ++ first_occurrences (seen ++ (Vocab._id <$> first_occurrences seen l1)) l2.
Proof.
  revert seen. induction l1 as [|d l1 IH]; intros seen; simpl.
  - now rewrite app_nil_r.
  - case_bool_decide; [apply IH|].
    simpl. rewrite IH. now rewrite <- app_assoc.
Qed.

Lemma first_occurrences_fresh (seen : list ObjectId) (l : list Vocab.doc) :
  NoDup (Vocab._id <$> first_occurrences seen l) /\
  forall i, i ∈ (Vocab._id <$> first_occurrences seen l) -> i ∉ seen.
Proof.
  revert seen. induction l as [|d l IH]; intros seen; simpl.
  - split; [constructor | intros i Hi; inversion Hi].
  - case_bool_decide as Hd; [apply IH|].
    destruct (IH (seen ++ [Vocab._id d])) as [Hnd Hfresh]. simpl. split.
    + constructor; [|exact Hnd].
      intros Hin. apply (Hfresh _ Hin).
      apply elem_of_app. right. apply list_elem_of_singleton. reflexivity.
    + intros i [->|Hi]%elem_of_cons; [exact Hd|].
      intros Hseen. apply (Hfresh i Hi). apply elem_of_app. now left.
Qed.

(** The entries the loop stores for a list of documents. *)
Lemma fmap_entries_fst (l : list Vocab.doc) :
  ((fun d => (Vocab._id d, d)) <$> l).*1 = Vocab._id <$> l.
Proof. rewrite <- list_fmap_compose. reflexivity. Qed.

Lemma fmap_entries_snd (l : list Vocab.doc) :
  ((fun d => (Vocab._id d, d)) <$> l).*2 = l.
Proof. rewrite <- list_fmap_compose. apply list_fmap_id. Qed.

(** One bucket: the loop adds the first occurrences of the bucket and stops
    at [limit] entries. *)
Lemma add_bucket_spec (limit : nat) (bucket : list Vocab.doc)
    (acc : list (string * Vocab.doc)) :
  (length acc < limit)%nat ->
  add_bucket limit bucket acc =
    take limit (acc ++ ((fun d => (Vocab._id d, d)) <$> first_occurrences (acc.*1) bucket)).
Proof.
  revert acc. induction bucket as [|d bucket IH]; intros acc Hlen; simpl.
  - rewrite app_nil_r, take_ge by lia. reflexivity.
  - destruct (decide (Vocab._id d ∈ acc.*1)) as [Hd|Hd].
    { rewrite !bool_decide_eq_true_2 by exact Hd. now apply IH. }
    rewrite !bool_decide_eq_false_2 by exact Hd.
    destruct (Nat.leb_spec limit (length (acc ++ [(Vocab._id d, d)]))) as [Hfull|Hroom].
    + assert (Hlen' : length (acc ++ [(Vocab._id d, d)]) = S (length acc))
        by (rewrite length_app; simpl; lia).
      rewrite fmap_cons.
      rewrite (cons_middle (Vocab._id d, d) acc
                 ((fun d => (Vocab._id d, d)) <$> first_occurrences (acc.*1 ++ [Vocab._id d]) bucket)).
      rewrite app_assoc, take_app_le by lia. rewrite take_ge by lia. reflexivity.
    + rewrite IH by exact Hroom.
      rewrite fmap_app, fmap_cons, <- app_assoc. reflexivity.
Qed.

(** All buckets: the loops compute the first [limit] first occurrences of
    the concatenated buckets. *)
Lemma add_buckets_spec (limit : nat) (buckets : list (list Vocab.doc))
    (acc : list (string * Vocab.doc)) :
  (length acc < limit)%nat ->
  add_buckets limit buckets acc =
    take limit (acc ++ ((fun d => (Vocab._id d, d)) <$> first_occurrences (acc.*1) (concat buckets))).
Proof.
  revert acc. induction buckets as [|bucket buckets IH]; intros acc Hlen; simpl.
  - rewrite app_nil_r, take_ge by lia. reflexivity.
  - rewrite add_bucket_spec by exact Hlen.
    rewrite first_occurrences_app, fmap_app, app_assoc.
    set (full := acc ++ ((fun d => (Vocab._id d, d)) <$> first_occurrences (acc.*1) bucket)).
    destruct (Nat.leb_spec limit (length (take limit full))) as [Hfull|Hroom].
    + rewrite length_take in Hfull.
      rewrite take_app_le by lia. reflexivity.
    + rewrite length_take in Hroom.
      assert (Hall : take limit full = full) by (apply take_ge; lia).
      rewrite Hall. rewrite IH by lia.
      unfold full at 2. rewrite fmap_app, fmap_entries_fst. reflexivity.
Qed.

(** With a limit of zero the queries return nothing. *)
Lemma buckets_limit_zero (today yesterday : datetime * datetime) (db : Store)
    (now : datetime) :
  due_docs today db now 0 = []
  /\ yesterday_not_mastered_docs today yesterday db 0 = []
  /\ struggle_docs today db 0 = [].
Proof. repeat split; reflexivity. Qed.

(** The bounds of a day: the window of the day, unless the midnight that
    ends it is no date. *)
Lemma day_bounds_eq (LOCAL_TZ : tzinfo) (target : datetime) :
  day_bounds LOCAL_TZ target =
    let w := wall target - wall target mod microseconds_per_day + microseconds_per_day in
    if (w <? min_wall) || (max_wall <? w)
    then Raise (OverflowError "date value out of range")
    else Ok (day_window LOCAL_TZ (wall target)).
Proof.
  unfold day_bounds, day_window.
  change (timedelta_days 1) with (Ok microseconds_per_day : result Z).
  cbn [mbind result_bind]. unfold datetime_add. cbn [wall tz].
  destruct (_ || _); reflexivity.
Qed.

Lemma day_before_midnight (w : Z) :
  (w - microseconds_per_day) - (w - microseconds_per_day) mod microseconds_per_day
  = w - w mod microseconds_per_day - microseconds_per_day.
Proof.
  replace (w - microseconds_per_day) with (w + (-1) * microseconds_per_day) by lia.
  rewrite Z_mod_plus_full. lia.
Qed.

(** The session: its lists for the windows of today and of yesterday, unless
    now is a time of the first or of the last day that a date can name. *)
Lemma get_today_session_cases (LOCAL_TZ : tzinfo) (db : Store) (now : datetime)
    (limit : nat) :
  match get_today_session LOCAL_TZ db now limit with
  | Ok out =>
      out = session_lists (day_window LOCAL_TZ (wall now))
              (day_window LOCAL_TZ (wall now - microseconds_per_day)) db now limit
  | Raise e => e = OverflowError "date value out of range" /\ on_edge_day now
  end.
Proof.
  unfold get_today_session, today_bounds, yesterday_bounds, on_edge_day.
  rewrite day_bounds_eq. cbv zeta.
  pose proof (Z.mod_pos_bound (wall now) microseconds_per_day ltac:(reflexivity)) as Hmod.
  destruct (_ || _) eqn:Htoday; cbn [mbind result_bind].
  { split; [reflexivity|].
    apply orb_true_iff in Htoday as [H%Z.ltb_lt|H%Z.ltb_lt]; lia. }
  apply orb_false_iff in Htoday as [Ht1%Z.ltb_ge Ht2%Z.ltb_ge].
  change (timedelta_days 1) with (Ok microseconds_per_day : result Z).
  cbn [mbind result_bind]. unfold datetime_add.
  destruct (_ || _) eqn:Hbefore; cbn [mbind result_bind].
  { split; [reflexivity|].
    apply orb_true_iff in Hbefore as [H%Z.ltb_lt|H%Z.ltb_lt]; lia. }
  apply orb_false_iff in Hbefore as [Hb1%Z.ltb_ge Hb2%Z.ltb_ge].
  rewrite day_bounds_eq. cbv zeta. cbn [wall].
  replace (wall now + - microseconds_per_day) with (wall now - microseconds_per_day) by lia.
  rewrite day_before_midnight.
  destruct (_ || _) eqn:Hyesterday; cbn [mbind result_bind].
  { split; [reflexivity|].
    apply orb_true_iff in Hyesterday as [H%Z.ltb_lt|H%Z.ltb_lt]; lia. }
  reflexivity.
Qed.

(** The review list of the lists of a session. *)
Lemma session_lists_review (today yesterday : datetime * datetime) (db : Store)
    (now : datetime) (limit : nat) :
  let buckets :=
    due_docs today db now limit
    ++ yesterday_not_mastered_docs today yesterday db limit
    ++ struggle_docs today db limit in
  let out := session_lists today yesterday db now limit in
  review out = take limit (first_occurrences [] buckets) /\
  (length (review out) <= limit)%nat /\
  NoDup (Vocab._id <$> review out).
Proof.
  intros buckets out.
  assert (Hrev : review out = take limit (first_occurrences [] buckets)).
  { unfold out, session_lists, _to_output. cbn [review].
    destruct limit as [|n].
    - destruct (buckets_limit_zero today yesterday db now) as (-> & -> & ->). reflexivity.
    - rewrite add_buckets_spec by (simpl; lia).
      cbn [concat app fmap list_fmap]. rewrite app_nil_r.
      rewrite <- fmap_take, fmap_entries_snd. reflexivity. }
  rewrite Hrev. split; [reflexivity|]. split.
  - rewrite length_take. lia.
  - rewrite fmap_take.
    pose proof (proj1 (first_occurrences_fresh [] buckets)) as Hnd.
    rewrite <- (take_drop limit (Vocab._id <$> first_occurrences [] buckets)) in Hnd.
    apply NoDup_app in Hnd. apply Hnd.
Qed.

(** C8.  For every store and every limit the review list is the
    concatenation of the due, yesterday-not-mastered and struggle buckets,
    reduced to the first occurrence of each card and cut at [limit] entries;
    it has at most [limit] entries and no card twice.  The buckets are those
    of the windows of today and of yesterday on the clock of the zone; the
    composer returns its lists unless now is a time of the first or of the
    last day that a date can name. *)
Theorem review_list_spec (LOCAL_TZ : tzinfo) (db : Store) (now : datetime) (limit : nat) :
  match get_today_session LOCAL_TZ db now limit with
  | Ok out =>
      let today := day_window LOCAL_TZ (wall now) in
      let yesterday := day_window LOCAL_TZ (wall now - microseconds_per_day) in
      let buckets :=
        due_docs today db now limit
        ++ yesterday_not_mastered_docs today yesterday db limit
        ++ struggle_docs today db limit in
      review out = take limit (first_occurrences [] buckets) /\
      (length (review out) <= limit)%nat /\
      NoDup (Vocab._id <$> review out)
  | Raise e => e = OverflowError "date value out of range" /\ on_edge_day now
  end.
Proof.
  pose proof (get_today_session_cases LOCAL_TZ db now limit) as Hcases.
  destruct (get_today_session LOCAL_TZ db now limit) as [out|e]; [|exact Hcases].
  subst out. apply session_lists_review.
Qed.

(** On the sample store the re-added pear is both due and a struggle card:
    it appears once, after the longer overdue apple, and the limit of two
    leaves no room for the plum. *)
Example review_list_sample :
  (fun out => Vocab._id <$> review out)
    <$> get_today_session sample_LOCAL_TZ sample_store sample_now 2
  = Ok ["65a000000000000000000001"; "65a000000000000000000002"]
  /\ Vocab._id <$> struggle_docs (day_window sample_LOCAL_TZ (wall sample_now)) sample_store 2
  = ["65a000000000000000000002"; "65a000000000000000000003"].
Proof. split; vm_compute; reflexivity. Qed.

(** The loop alone tests the size of the list after it stores a card: it is
    the queries, cut at [limit] themselves, that leave it nothing to store
    when the limit is zero. *)
Example add_bucket_limit_zero :
  length (add_bucket 0 (vocabs sample_store) []) = 1%nat
  /\ review <$> get_today_session sample_LOCAL_TZ sample_store sample_now 0 = Ok [].
Proof. split; vm_compute; reflexivity. Qed.

(** ** The order of floats *)

Lemma SFcompare_antisym (x y : spec_float) (c : comparison) :
  SFcompare x y = Some c -> SFcompare y x = Some (CompOpp c).
Proof.
  destruct x as [sx|sx| |sx mx ex], y as [sy|sy| |sy my ey]; simpl;
    try discriminate;
    try (destruct sx; intros [= <-]; reflexivity);
    try (destruct sy; intros [= <-]; reflexivity);
    try (destruct sx, sy; intros [= <-]; reflexivity).
  rewrite (Z.compare_antisym ex ey), !Pos.compare_cont_spec. cbn [Pos.switch_Eq].
  rewrite (Pos.compare_antisym mx my).
  destruct sx, sy; intros [= <-]; try reflexivity;
    destruct (ex ?= ey); simpl; try reflexivity;
    destruct (mx ?= my)%positive; reflexivity.
Qed.

Lemma SFcompare_refl (x : spec_float) : x <> S754_nan -> SFcompare x x = Some Eq.
Proof.
  destruct x as [s|s| |s m e]; simpl; try congruence.
  - destruct s; reflexivity.
  - intros _. destruct (Z.compare_spec e e) as [_|?|?]; try lia.
    rewrite Pos.compare_cont_refl. destruct s; reflexivity.
Qed.

Lemma SFcompare_total (x y : spec_float) :
  x <> S754_nan -> y <> S754_nan -> exists c, SFcompare x y = Some c.
Proof.
  destruct x as [sx|sx| |sx mx ex], y as [sy|sy| |sy my ey]; simpl;
    try congruence; eauto.
Qed.

Lemma is_nan_false_spec (x : float) : is_nan x = false -> Prim2SF x <> S754_nan.
Proof.
  unfold is_nan. rewrite FloatAxioms.eqb_spec. intros H Hx. rewrite Hx in H. discriminate.
Qed.

(** On numbers, [min] returns one of its arguments, below both. *)
Lemma py_min_spec (a b : float) :
  is_nan a = false -> is_nan b = false ->
  (py_min a b <=? a)%float = true /\ (py_min a b <=? b)%float = true
  /\ (py_min a b = a \/ py_min a b = b).
Proof.
  intros Ha%is_nan_false_spec Hb%is_nan_false_spec. unfold py_min.
  destruct (b <? a)%float eqn:Hlt; rewrite !FloatAxioms.leb_spec;
    rewrite FloatAxioms.ltb_spec in Hlt.
  - unfold SFltb in Hlt. unfold SFleb.
    rewrite (SFcompare_refl _ Hb).
    destruct (SFcompare (Prim2SF b) (Prim2SF a)) as [[]|]; try discriminate. auto.
  - unfold SFltb in Hlt. unfold SFleb.
    rewrite (SFcompare_refl _ Ha).
    destruct (SFcompare_total _ _ Hb Ha) as [c Hc]. rewrite Hc in Hlt.
    rewrite (SFcompare_antisym _ _ _ Hc).
    destruct c; try discriminate; auto.
Qed.

(** ** Sorting keeps the elements *)

Lemma elem_of_insert_sorted {A} (le : A -> A -> bool) (x y : A) (l : list A) :
  x ∈ insert_sorted le y l <-> x = y \/ x ∈ l.
Proof.
  induction l as [|z l IH]; simpl.
  - rewrite list_elem_of_singleton. split; [auto|]. intros [?|H]; [assumption|inversion H].
  - destruct (le y z); rewrite !elem_of_cons; [tauto|]. rewrite IH. tauto.
Qed.

Lemma elem_of_sort_by {A} (le : A -> A -> bool) (x : A) (l : list A) :
  x ∈ sort_by le l <-> x ∈ l.
Proof.
  unfold sort_by. induction l as [|y l IH]; simpl; [reflexivity|].
  rewrite elem_of_insert_sorted, IH, elem_of_cons. reflexivity.
Qed.

(** ** Counting with distinct images *)

Lemma filter_nil_iff {A} (P : A -> Prop) `{!forall x, Decision (P x)} (l : list A) :
  filter P l = [] <-> forall x, x ∈ l -> ~ P x.
Proof.
  induction l as [|x l IH]; [split; [intros _ y Hy; inversion Hy | reflexivity]|].
  rewrite filter_cons. destruct (decide (P x)) as [Hx|Hx].
  - split; [discriminate|]. intros Hall. destruct (Hall x); [now left | exact Hx].
  - rewrite IH. split.
    + intros Hall y [->|Hy]%elem_of_cons; [exact Hx | now apply Hall].
    + intros Hall y Hy. apply Hall. now right.
Qed.

Lemma filter_at_most_one {A B} (f : A -> B) (P : A -> Prop)
    `{!forall x, Decision (P x)} (l : list A) :
  NoDup (f <$> l) ->
  (forall x y, x ∈ l -> y ∈ l -> P x -> P y -> f x = f y) ->
  (length (filter P l) <= 1)%nat.
Proof.
  induction l as [|x l IH]; [simpl; lia|].
  rewrite fmap_cons, NoDup_cons. intros [Hx Hnd] Hsame.
  rewrite filter_cons. destruct (decide (P x)) as [HPx|HPx].
  - assert (Hnil : filter P l = []).
    { apply filter_nil_iff. intros y Hy HPy. apply Hx.
      rewrite (Hsame x y); [apply list_elem_of_fmap; eauto | now left | now right | | ];
        assumption. }
    rewrite Hnil. simpl. lia.
  - apply IH; [exact Hnd|]. intros y z Hy Hz. apply Hsame; now right.
Qed.

(** ** Dates as the store keeps them *)

Lemma instant_utc (i : Z) : instant (utc i) = i.
Proof. unfold instant, utcoffset, utc. cbn [wall tz]. lia. Qed.

Lemma millis_utc (m : Z) : millis (utc (m * 1000)) = m.
Proof. unfold millis. rewrite instant_utc. apply Z.div_mul. discriminate. Qed.

Lemma millis_mongo_date (d : datetime) : millis (mongo_date d) = millis d.
Proof. unfold mongo_date. apply millis_utc. Qed.

Lemma mongo_date_idemp (d : datetime) : mongo_date (mongo_date d) = mongo_date d.
Proof. unfold mongo_date at 1. now rewrite millis_mongo_date. Qed.

Lemma instant_mongo_date (d : datetime) : instant (mongo_date d) = millis d * 1000.
Proof. unfold mongo_date. apply instant_utc. Qed.

(** The store rounds the instant of a date down, by less than a
    millisecond. *)
Lemma instant_mongo_date_bounds (d : datetime) :
  instant (mongo_date d) <= instant d < instant (mongo_date d) + 1000.
Proof.
  rewrite instant_mongo_date. unfold millis.
  pose proof (Z.div_mod (instant d) 1000 ltac:(discriminate)) as Hdm.
  pose proof (Z.mod_pos_bound (instant d) 1000 ltac:(reflexivity)) as Hmod.
  lia.
Qed.

Lemma millis_le (a b : datetime) : instant a <= instant b -> millis a <= millis b.
Proof. intros H. unfold millis. apply Z.div_le_mono; [reflexivity | exact H]. Qed.

(** A date in the form of the store is the UTC date of its milliseconds:
    two such dates of the same instant are equal. *)
Lemma stored_date_utc (d : datetime) : stored_date d -> d = utc (millis d * 1000).
Proof. intros H. symmetry. exact H. Qed.

Lemma stored_date_instant (d : datetime) : stored_date d -> instant d = millis d * 1000.
Proof. unfold stored_date. intros H. rewrite <- H at 1. apply instant_mongo_date. Qed.

Lemma stored_date_eq (a b : datetime) :
  stored_date a -> stored_date b -> instant a = instant b -> a = b.
Proof.
  intros Ha Hb Hi. rewrite (stored_date_utc a Ha), (stored_date_utc b Hb).
  unfold millis. now rewrite Hi.
Qed.

Lemma stored_mongo_date (d : datetime) : stored_date (mongo_date d).
Proof. apply mongo_date_idemp. Qed.

Lemma mongo_body_idemp (b : Vocab.body) : mongo_body (mongo_body b) = mongo_body b.
Proof.
  unfold mongo_body. cbn [Vocab.createdAt Vocab.updatedAt Vocab.dueAt Vocab.lastReviewedAt
    Vocab.lastReaddAt Vocab.term Vocab.termNormalized Vocab.meanings Vocab.ipa
    Vocab.exampleEn Vocab.exampleVi Vocab.mnemonic Vocab.tags Vocab.collocations
    Vocab.phrases Vocab.wordFamily Vocab.topics Vocab.cefrLevel Vocab.ieltsBand
    Vocab.easeFactor Vocab.intervalDays Vocab.repetitions Vocab.lapses Vocab.readdCount].
  rewrite !mongo_date_idemp.
  destruct (Vocab.lastReviewedAt b), (Vocab.lastReaddAt b); cbn [fmap option_fmap option_map];
    rewrite ?mongo_date_idemp; reflexivity.
Qed.

Lemma mongo_log_idemp (l : Log.doc) : mongo_log (mongo_log l) = mongo_log l.
Proof. unfold mongo_log. cbn [Log.createdAt]. now rewrite mongo_date_idemp. Qed.

Lemma mongo_event_idemp (e : Event.doc) : mongo_event (mongo_event e) = mongo_event e.
Proof. unfold mongo_event. cbn [Event.createdAt]. now rewrite mongo_date_idemp. Qed.

Lemma stored_log_createdAt (l : Log.doc) : stored_log l -> stored_date (Log.createdAt l).
Proof.
  unfold stored_log, stored_date. intros H.
  apply (f_equal Log.createdAt) in H. exact H.
Qed.

(** The dates of a stored card. *)
Lemma stored_body_dates (b : Vocab.body) :
  stored_body b ->
  stored_date (Vocab.createdAt b) /\ stored_date (Vocab.updatedAt b)
  /\ stored_date (Vocab.dueAt b)
  /\ (forall d, Vocab.lastReviewedAt b = Some d -> stored_date d)
  /\ (forall d, Vocab.lastReaddAt b = Some d -> stored_date d).
Proof.
  unfold stored_body, stored_date. intros H.
  repeat split.
  - apply (f_equal Vocab.createdAt) in H. exact H.
  - apply (f_equal Vocab.updatedAt) in H. exact H.
  - apply (f_equal Vocab.dueAt) in H. exact H.
  - intros d Hd. apply (f_equal Vocab.lastReviewedAt) in H.
    cbn [mongo_body Vocab.lastReviewedAt] in H.
    rewrite Hd in H. now injection H.
  - intros d Hd. apply (f_equal Vocab.lastReaddAt) in H.
    cbn [mongo_body Vocab.lastReaddAt] in H.
    rewrite Hd in H. now injection H.
Qed.

(** ** The order of dates *)

Lemma datetime_ltb_irrefl (a : datetime) : datetime_ltb a a = false.
Proof. unfold datetime_ltb. destruct (tz a); apply Z.ltb_irrefl. Qed.

Lemma datetime_ltb_asym (a b : datetime) :
  datetime_ltb a b = true -> datetime_ltb b a = false.
Proof.
  unfold datetime_ltb. destruct (tz a), (tz b); intros H%Z.ltb_lt; apply Z.ltb_ge; lia.
Qed.

(** Against a date in a fixed offset, and so against a date of the store,
    dates are compared by their instants. *)
Lemma datetime_ltb_fixed_l (a b : datetime) (offset : Z) :
  tz a = Fixed offset -> datetime_ltb a b = (instant a <? instant b).
Proof. unfold datetime_ltb. intros ->. now destruct (tz b). Qed.

Lemma datetime_ltb_fixed_r (a b : datetime) (offset : Z) :
  tz b = Fixed offset -> datetime_ltb a b = (instant a <? instant b).
Proof. unfold datetime_ltb. intros ->. now destruct (tz a). Qed.

Lemma stored_date_tz (d : datetime) : stored_date d -> tz d = Fixed 0.
Proof. unfold stored_date. intros H. now rewrite <- H. Qed.

(** ** Snapshot import *)

Section SyncFacts.
Variable sha256 : string -> string.
Variable json_dumps : json -> string.
Variable fromisoformat : string -> option (Z * option Z).
Variable isoformat : datetime -> string.
Variable new_object_id : list Vocab.doc -> ObjectId.
Variable valid_exportedAt : option string -> bool.

Local Abbreviation import_payload' :=
  (import_payload sha256 json_dumps fromisoformat isoformat new_object_id).
Local Abbreviation import_sync' :=
  (import_sync sha256 json_dumps fromisoformat isoformat new_object_id).
Local Abbreviation post_sync_import' :=
  (post_sync_import sha256 json_dumps fromisoformat isoformat new_object_id valid_exportedAt).

(** C3.  A payload whose schemaVersion is not "v1" is refused: the handler
    raises the unsupported-version error, the route refuses the body before
    the handler runs, and either way the store (cards, review logs, events)
    is returned as it was. *)
Theorem import_rejects_other_versions (db : Store) (payload : Payload.t) (now : datetime) :
  Payload.schemaVersion payload <> "v1"%string ->
  import_sync' db payload now = (Raise (HTTPException 400 "Unsupported schemaVersion"), db)
  /\ post_sync_import' db payload now = (Raise (RequestValidationError "schemaVersion"), db).
Proof.
  intros Hv. apply String.eqb_neq in Hv.
  unfold post_sync_import, SyncExport_validate, import_sync.
  rewrite Hv. split; reflexivity.
Qed.

Local Abbreviation stable_hash' := (stable_hash sha256 json_dumps).
Local Abbreviation serialize' := (_serialize_doc isoformat).
Local Abbreviation import_vocab' :=
  (import_vocab sha256 json_dumps fromisoformat isoformat new_object_id).

Lemma _safe_max_datetime_spec (a b : option datetime) :
  _safe_max_datetime a b = max_or_other a b.
Proof. destruct a, b; reflexivity. Qed.

(** C1.  When an incoming record matches a local card by termNormalized,
    the card written back (whenever its digest differs from the local one,
    and with its dates as the store keeps them) is [merged], whose scheduling
    fields combine the two sides with caution.  Repetitions, intervalDays
    and easeFactor are the minimum of the local value and the incoming one,
    lapses and readdCount the maximum, an absent incoming value counting as
    0, and as 2.5 for the ease factor.  dueAt is the earlier of the local
    date and the incoming one, an incoming date that is absent or cannot be
    read counting as the time of the import.  lastReviewedAt and lastReaddAt
    are the later of the two dates, an absent one counting as the other
    side's; an incoming one that is present and cannot be read counts as the
    time of the import.  For the ease factors, two numbers, [min] is below
    both and one of them. *)
Theorem merge_is_conservative (now : datetime) (st : VocabLoop) (incoming : RawVocab.t)
    (existing : Vocab.doc) :
  str_truthy (incoming_term_norm incoming) = true ->
  find_one_term (incoming_term_norm incoming) (loop_vocabs st) = Some existing ->
  let local := Vocab.fields existing in
  let doc := incoming_doc fromisoformat now incoming (incoming_term_norm incoming) in
  let merged := (merge_vocab fromisoformat now local doc).1 in
  let date (text : option string) := _parse_datetime fromisoformat (raw_date text) now in
  let date_if_any (text : option string) :=
    if opt_truthy text then Some (date text) else None in
  let incoming_ease := default 2.5%float (RawVocab.easeFactor incoming) in
  loop_vocabs (import_vocab' now st incoming) =
    (if String.eqb (stable_hash' (serialize' local)) (stable_hash' (serialize' merged))
     then loop_vocabs st
     else update_one (Vocab._id existing) (mongo_body merged) (loop_vocabs st))
  /\ Vocab.repetitions merged
     = Z.min (Vocab.repetitions local) (default 0 (RawVocab.repetitions incoming))
  /\ Vocab.intervalDays merged
     = Z.min (Vocab.intervalDays local) (default 0 (RawVocab.intervalDays incoming))
  /\ Vocab.easeFactor merged = py_min (Vocab.easeFactor local) incoming_ease
  /\ (is_nan (Vocab.easeFactor local) = false -> is_nan incoming_ease = false ->
      (Vocab.easeFactor merged <=? Vocab.easeFactor local)%float = true
      /\ (Vocab.easeFactor merged <=? incoming_ease)%float = true
      /\ (Vocab.easeFactor merged = Vocab.easeFactor local
          \/ Vocab.easeFactor merged = incoming_ease))
  /\ Vocab.dueAt merged = datetime_min (Vocab.dueAt local) (date (RawVocab.dueAt incoming))
  /\ Vocab.lapses merged = Z.max (Vocab.lapses local) (default 0 (RawVocab.lapses incoming))
  /\ Vocab.readdCount merged
     = Z.max (Vocab.readdCount local) (default 0 (RawVocab.readdCount incoming))
  /\ Vocab.lastReviewedAt merged
     = max_or_other (Vocab.lastReviewedAt local)
         (date_if_any (RawVocab.lastReviewedAt incoming))
  /\ Vocab.lastReaddAt merged
     = max_or_other (Vocab.lastReaddAt local) (date_if_any (RawVocab.lastReaddAt incoming)).
Proof.
  intros Hkey Hfind local doc merged date date_if_any incoming_ease.
  split.
  { subst merged doc local. unfold import_vocab. cbv zeta.
    rewrite Hkey, Hfind. cbn [negb].
    destruct (merge_vocab fromisoformat now _ _) as [m c]. cbn [fst loop_vocabs].
    destruct (String.eqb _ _); reflexivity. }
  unfold merged, merge_vocab. cbn [fst Vocab.repetitions Vocab.intervalDays
    Vocab.easeFactor Vocab.dueAt Vocab.lapses Vocab.readdCount Vocab.lastReviewedAt
    Vocab.lastReaddAt _safe_min_datetime].
  rewrite !_safe_max_datetime_spec.
  repeat (split; [reflexivity|]).
  split; [|repeat (split; [reflexivity|]); reflexivity].
  apply py_min_spec.
Qed.


(** *** The loop over the logs *)

Local Abbreviation hash' := (_log_dedup_hash sha256 json_dumps isoformat).
Local Abbreviation import_log' := (import_log sha256 json_dumps fromisoformat isoformat).
Local Abbreviation import_logs' := (import_logs sha256 json_dumps fromisoformat isoformat).
Local Abbreviation normalized_log' := (normalized_log fromisoformat).

(** A log whose fingerprint is known is skipped. *)
Lemma import_log_skips (now : datetime) (docs : list Vocab.doc) (mapping : gmap string ObjectId)
    (hashes : gset string) (logs : list Log.doc) (log : RawLog.t) (id : ObjectId) :
  resolve_vocab_id docs mapping log = Some id ->
  hash' (normalized_log' now id log) ∈ hashes ->
  import_log' now docs mapping (hashes, logs) log = (hashes, logs).
Proof.
  intros Hres Hin. unfold import_log. rewrite Hres.
  now rewrite bool_decide_eq_true_2.
Qed.

Lemma foldl_step {A B} (f : A -> B -> A) (a : A) (x : B) (l : list B) :
  foldl f a (x :: l) = foldl f (f a x) l.
Proof. reflexivity. Qed.

Lemma import_log_unfold (now : datetime) (docs : list Vocab.doc)
    (mapping : gmap string ObjectId) (hashes : gset string) (logs : list Log.doc)
    (log : RawLog.t) :
  import_log' now docs mapping (hashes, logs) log =
    match resolve_vocab_id docs mapping log with
    | None => (hashes, logs)
    | Some id =>
        if bool_decide (hash' (normalized_log' now id log) ∈ hashes) then (hashes, logs)
        else ({[hash' (normalized_log' now id log)]} ∪ hashes,
              logs ++ [normalized_log' now id log])
    end.
Proof. reflexivity. Qed.

(** The loop, from any state: the logs it accepts are new to the hashes it
    started from and to each other, and in the end the hashes hold the
    fingerprint of every incoming log that has a local card. *)
Lemma import_log_fold (now : datetime) (docs : list Vocab.doc) (mapping : gmap string ObjectId)
    (incoming : list RawLog.t) (hashes : gset string) (logs : list Log.doc) :
  exists accepted : list Log.doc,
    foldl (import_log' now docs mapping) (hashes, logs) incoming
    = (list_to_set (hash' <$> accepted) ∪ hashes, logs ++ accepted)
    /\ NoDup (hash' <$> accepted)
    /\ (forall n, n ∈ accepted -> hash' n ∉ hashes)
    /\ (forall log id, log ∈ incoming -> resolve_vocab_id docs mapping log = Some id ->
          hash' (normalized_log' now id log) ∈ list_to_set (hash' <$> accepted) ∪ hashes).
Proof.
  revert hashes logs. induction incoming as [|log incoming IH]; intros hashes logs.
  - exists []. simpl. rewrite app_nil_r, (left_id_L ∅ (∪)).
    repeat split; [constructor | intros n Hn; inversion Hn | intros l i Hl; inversion Hl].
  - rewrite foldl_step, import_log_unfold.
    destruct (resolve_vocab_id docs mapping log) as [id|] eqn:Hres.
    + destruct (decide (hash' (normalized_log' now id log) ∈ hashes)) as [Hin|Hnew].
      * rewrite bool_decide_eq_true_2 by exact Hin.
        destruct (IH hashes logs) as (acc & Hfold & Hnd & Hfresh & Hall).
        exists acc. repeat split; try assumption.
        intros l i [->|Hl]%elem_of_cons Hl'; [|now apply (Hall l i)].
        rewrite Hres in Hl'. injection Hl' as <-. apply elem_of_union. now right.
      * rewrite bool_decide_eq_false_2 by exact Hnew.
        set (n := normalized_log' now id log) in *.
        destruct (IH ({[hash' n]} ∪ hashes) (logs ++ [n]))
          as (acc & Hfold & Hnd & Hfresh & Hall).
        exists (n :: acc). rewrite Hfold, <- app_assoc. cbn [fmap list_fmap list_to_set].
        repeat split.
        -- f_equal. set_solver.
        -- constructor; [|exact Hnd].
           intros (n' & Heq & Hn')%list_elem_of_fmap.
           apply (Hfresh n' Hn'). rewrite <- Heq. set_solver.
        -- intros n' [->|Hn']%elem_of_cons; [exact Hnew|].
           specialize (Hfresh n' Hn'). set_solver.
        -- intros l i [->|Hl]%elem_of_cons Hl'.
           ++ rewrite Hres in Hl'. injection Hl' as <-. fold n. set_solver.
           ++ specialize (Hall l i Hl Hl'). set_solver.
    + destruct (IH hashes logs) as (acc & Hfold & Hnd & Hfresh & Hall).
      exists acc. repeat split; try assumption.
      intros l i [->|Hl]%elem_of_cons Hl'; [congruence | now apply (Hall l i)].
Qed.

(** When every incoming log with a local card has a known fingerprint, the
    loop accepts none. *)
Lemma import_log_fold_known (now : datetime) (docs : list Vocab.doc)
    (mapping : gmap string ObjectId) (incoming : list RawLog.t)
    (hashes : gset string) (logs : list Log.doc) :
  (forall log id, log ∈ incoming -> resolve_vocab_id docs mapping log = Some id ->
     hash' (normalized_log' now id log) ∈ hashes) ->
  foldl (import_log' now docs mapping) (hashes, logs) incoming = (hashes, logs).
Proof.
  induction incoming as [|log incoming IH]; intros Hknown; [reflexivity|].
  rewrite foldl_step.
  destruct (resolve_vocab_id docs mapping log) as [id|] eqn:Hres.
  - rewrite (import_log_skips now docs mapping hashes logs log id Hres).
    + apply IH. intros l i Hl. apply Hknown. now right.
    + apply Hknown; [now left | exact Hres].
  - rewrite import_log_unfold, Hres.
    apply IH. intros l i Hl. apply Hknown. now right.
Qed.


(** The logs that the loop accepts are incoming logs, each with the card
    it was resolved to. *)
Lemma import_log_fold_origin (now : datetime) (docs : list Vocab.doc)
    (mapping : gmap string ObjectId) (incoming : list RawLog.t)
    (hashes : gset string) (logs : list Log.doc) (n : Log.doc) :
  n ∈ (foldl (import_log' now docs mapping) (hashes, logs) incoming).2 ->
  n ∈ logs
  \/ exists log id, log ∈ incoming /\ resolve_vocab_id docs mapping log = Some id
                    /\ n = normalized_log' now id log.
Proof.
  revert hashes logs. induction incoming as [|log incoming IH]; intros hashes logs.
  - simpl. auto.
  - rewrite foldl_step, import_log_unfold.
    destruct (resolve_vocab_id docs mapping log) as [id|] eqn:Hres.
    + case_bool_decide.
      * intros [Hn|(l & i & Hl & Hi & Hn)]%IH; [now left|].
        right. exists l, i. split; [now right | auto].
      * intros [Hn|(l & i & Hl & Hi & Hn)]%IH.
        -- apply elem_of_app in Hn as [Hn|Hn%list_elem_of_singleton]; [now left|].
           right. exists log, id. split; [now left | auto].
        -- right. exists l, i. split; [now right | auto].
    + intros [Hn|(l & i & Hl & Hi & Hn)]%IH; [now left|].
      right. exists l, i. split; [now right | auto].
Qed.

(** A log that is well dated is read, at any time, as the store keeps it. *)
Lemma normalized_log_well_dated (now now' : datetime) (id : ObjectId) (log : RawLog.t) :
  well_dated fromisoformat log ->
  mongo_log (normalized_log' now id log) = normalized_log' now' id log.
Proof.
  intros Hdated. unfold mongo_log, normalized_log. cbn [Log.vocabId Log.mode
    Log.questionType Log.grade Log.userAnswer Log.isNearCorrect Log.createdAt].
  now rewrite (Hdated now now').
Qed.

(** The logs that an import adds. *)
Lemma import_payload_logs (db : Store) (payload : Payload.t) (now : datetime) :
  exists accepted : list Log.doc,
    review_logs (import_payload' db payload now).2
    = review_logs db ++ (mongo_log <$> accepted)
    /\ addedLogs (import_payload' db payload now).1 = Z.of_nat (length accepted)
    /\ NoDup (hash' <$> accepted)
    /\ (forall n l, n ∈ accepted -> l ∈ review_logs db -> hash' n <> hash' l)
    /\ (forall n, n ∈ accepted ->
          exists log id, log ∈ Payload.review_logs payload
                         /\ n = normalized_log' now id log).
Proof.
  unfold import_payload. cbn [fst snd review_logs addedLogs]. unfold import_logs.
  match goal with
  | |- context [foldl ?f (?h, []) ?l] =>
      pose proof (import_log_fold_origin now
                  (loop_vocabs (import_vocabs sha256 json_dumps fromisoformat isoformat
                                  new_object_id now (vocabs db) (Payload.vocabs payload)))
                  (source_vocab_to_local
                     (import_vocabs sha256 json_dumps fromisoformat isoformat
                        new_object_id now (vocabs db) (Payload.vocabs payload)))
                  l h []) as Horigin;
      destruct (import_log_fold now
                  (loop_vocabs (import_vocabs sha256 json_dumps fromisoformat isoformat
                                  new_object_id now (vocabs db) (Payload.vocabs payload)))
                  (source_vocab_to_local
                     (import_vocabs sha256 json_dumps fromisoformat isoformat
                        new_object_id now (vocabs db) (Payload.vocabs payload)))
                  l h []) as (accepted & Hfold & Hnd & Hfresh & _)
  end.
  exists accepted. rewrite Hfold in *. cbn [snd app] in *.
  repeat split; try assumption.
  - intros n l Hn Hl Heq. apply (Hfresh n Hn).
    rewrite Heq. apply elem_of_list_to_set, list_elem_of_fmap. eauto.
  - intros n Hn. destruct (Horigin n Hn) as [Hnil|(log & id & Hlog & _ & Heq)];
      [inversion Hnil|].
    exists log, id. split; [|exact Heq]. now apply elem_of_sort_by in Hlog.
Qed.

(** Two stored logs with the same five fields are the same to the
    fingerprint. *)
Lemma _log_dedup_hash_identity (l1 l2 : Log.doc) :
  stored_log l1 -> stored_log l2 ->
  log_identity l1 = log_identity l2 -> hash' l1 = hash' l2.
Proof.
  intros H1%stored_log_createdAt H2%stored_log_createdAt.
  unfold log_identity, _log_dedup_hash. intros [= -> Hi -> -> ->].
  now rewrite (stored_date_eq _ _ H1 H2 Hi).
Qed.

(** C4.  The logs added by an import have fingerprints that differ from
    those of the local logs and from one another: an incoming log with a
    known fingerprint is skipped.  The fingerprint reads the date of a log as
    [isoformat] writes it, and the store keeps it in UTC and in whole
    milliseconds.  Hence, when the dates of the incoming logs are written
    that way, as those of the local logs are: for any values of the five
    fields (card, instant of createdAt, grade, mode, questionType), if local
    logs carry them their number is unchanged by the import, a log present
    on both sides being stored once; and if none does, at most one log with
    them is added. *)
Theorem log_dedup_once (db : Store) (payload : Payload.t) (now : datetime) :
  Forall (well_dated fromisoformat) (Payload.review_logs payload) ->
  Forall stored_log (review_logs db) ->
  let db' := (import_payload' db payload now).2 in
  (exists accepted : list Log.doc,
     review_logs db' = review_logs db ++ accepted
     /\ NoDup (hash' <$> accepted)
     /\ (forall n l, n ∈ accepted -> l ∈ review_logs db -> hash' n <> hash' l))
  /\ forall k,
       let count (logs : list Log.doc) :=
         length (filter (fun l => log_identity l = k) logs) in
       ((0 < count (review_logs db))%nat -> count (review_logs db') = count (review_logs db))
       /\ (count (review_logs db) = 0%nat -> (count (review_logs db') <= 1)%nat).
Proof.
  intros Hdated Hstored db'. destruct (import_payload_logs db payload now)
    as (accepted & Hlogs & _ & Hnd & Hfresh & Horigin).
  assert (Hacc : Forall stored_log accepted).
  { apply Forall_forall. intros n Hn.
    destruct (Horigin n Hn) as (log & id & Hlog & ->).
    apply normalized_log_well_dated.
    rewrite Forall_forall in Hdated. now apply Hdated. }
  assert (Hmap : mongo_log <$> accepted = accepted).
  { clear -Hacc. induction Hacc as [|n l Hn _ IH]; [reflexivity|].
    rewrite fmap_cons, IH. f_equal. exact Hn. }
  rewrite Hmap in Hlogs. rewrite Forall_forall in Hacc, Hstored.
  split; [exists accepted; auto|].
  intros k count. subst db' count. cbv beta. rewrite Hlogs, filter_app, length_app.
  split.
  - intros Hpos.
    destruct (filter (fun l => log_identity l = k) (review_logs db)) as [|l0 rest] eqn:Hf;
      [simpl in Hpos; lia|].
    assert (Hl0 : l0 ∈ filter (fun l => log_identity l = k) (review_logs db))
      by (rewrite Hf; now left).
    apply list_elem_of_filter in Hl0 as [Hk Hl0].
    assert (Hnil : filter (fun l => log_identity l = k) accepted = []).
    { apply filter_nil_iff. intros n Hn Hnk.
      apply (Hfresh n l0 Hn Hl0). apply _log_dedup_hash_identity; auto. congruence. }
    rewrite Hnil. simpl. lia.
  - intros ->. simpl.
    apply (filter_at_most_one hash'); [exact Hnd|].
    intros x y Hx Hy Hkx Hky. apply _log_dedup_hash_identity; auto. congruence.
Qed.


(** *** The loop over the cards *)

Local Abbreviation import_vocabs' :=
  (import_vocabs sha256 json_dumps fromisoformat isoformat new_object_id).

Lemma find_one_term_Some (t : string) (docs : list Vocab.doc) (d : Vocab.doc) :
  find_one_term t docs = Some d -> d ∈ docs /\ Vocab.termNormalized (Vocab.fields d) = t.
Proof.
  unfold find_one_term. intros [Hin Heq]%List.find_some.
  split; [now apply list_elem_of_In | now apply String.eqb_eq].
Qed.

Lemma find_id_keys (t : string) (docs1 docs2 : list Vocab.doc) :
  doc_key <$> docs1 = doc_key <$> docs2 -> find_id t docs1 = find_id t docs2.
Proof.
  revert docs2. induction docs1 as [|d1 docs1 IH]; intros [|d2 docs2]; try discriminate;
    [reflexivity|].
  rewrite !fmap_cons. intros [= Hid Hterm Hrest].
  unfold find_id, find_one_term in *. simpl. rewrite Hterm.
  destruct (String.eqb _ t); [simpl; now rewrite Hid | now apply IH].
Qed.

Lemma ids_keys (docs1 docs2 : list Vocab.doc) :
  doc_key <$> docs1 = doc_key <$> docs2 -> Vocab._id <$> docs1 = Vocab._id <$> docs2.
Proof.
  intros H. apply (f_equal (fmap fst)) in H.
  now rewrite <- !list_fmap_compose in H.
Qed.

Lemma find_id_app (t : string) (docs extra : list Vocab.doc) :
  is_Some (find_id t docs) -> find_id t (docs ++ extra) = find_id t docs.
Proof.
  unfold find_id, find_one_term. induction docs as [|d docs IH]; simpl.
  - intros [? [=]].
  - destruct (String.eqb _ t); [reflexivity | exact IH].
Qed.

Lemma find_id_snoc (t : string) (docs : list Vocab.doc) (d : Vocab.doc) :
  find_id t docs = None -> Vocab.termNormalized (Vocab.fields d) = t ->
  find_id t (docs ++ [d]) = Some (Vocab._id d).
Proof.
  unfold find_id, find_one_term. intros Hnone Hd.
  induction docs as [|d' docs IH]; simpl in *.
  - now rewrite Hd, String.eqb_refl.
  - destruct (String.eqb _ t); [discriminate | now apply IH].
Qed.

Lemma update_one_ids (id : ObjectId) (b : Vocab.body) (docs : list Vocab.doc) :
  Vocab._id <$> update_one id b docs = Vocab._id <$> docs.
Proof.
  induction docs as [|d docs IH]; cbn [update_one]; [reflexivity|].
  destruct (String.eqb _ id); rewrite !fmap_cons; [reflexivity | now rewrite IH].
Qed.

(** With distinct identities, an update that keeps the normalised term
    keeps the identity and the term of every card. *)
Lemma update_one_keys (existing : Vocab.doc) (b : Vocab.body) (docs : list Vocab.doc) :
  NoDup (Vocab._id <$> docs) -> existing ∈ docs ->
  Vocab.termNormalized b = Vocab.termNormalized (Vocab.fields existing) ->
  doc_key <$> update_one (Vocab._id existing) b docs = doc_key <$> docs.
Proof.
  intros Hnd Hin Hterm. induction docs as [|d docs IH]; cbn [update_one]; [reflexivity|].
  rewrite fmap_cons, NoDup_cons in Hnd. destruct Hnd as [Hd Hnd].
  destruct (String.eqb_spec (Vocab._id d) (Vocab._id existing)) as [Heq|Hne].
  - assert (Hsame : Vocab.termNormalized b = Vocab.termNormalized (Vocab.fields d)).
    { apply elem_of_cons in Hin as [->|Hin]; [exact Hterm|].
      exfalso. apply Hd. rewrite Heq. apply list_elem_of_fmap. eauto. }
    rewrite !fmap_cons. unfold doc_key at 1 3. cbn [Vocab._id Vocab.fields].
    now rewrite Hsame.
  - rewrite !fmap_cons. f_equal. apply IH; [exact Hnd|].
    apply elem_of_cons in Hin as [->|Hin]; [congruence | exact Hin].
Qed.

Lemma merge_vocab_termNormalized (now : datetime) (existing incoming_doc : Vocab.body) :
  Vocab.termNormalized (merge_vocab fromisoformat now existing incoming_doc).1
  = Vocab.termNormalized existing.
Proof. reflexivity. Qed.

Hypothesis new_object_id_fresh :
  forall docs : list Vocab.doc, new_object_id docs ∉ (Vocab._id <$> docs).

(** One round of the first loop, with distinct identities before it:
    identities stay distinct, a term that had a card keeps it, the term of
    the record has a card afterwards, to which its source identity is mapped;
    and if the term had a card already, nothing is inserted. *)
Lemma import_vocab_step (now : datetime) (st : VocabLoop) (r : RawVocab.t) :
  NoDup (Vocab._id <$> loop_vocabs st) ->
  let st1 := import_vocab' now st r in
  NoDup (Vocab._id <$> loop_vocabs st1)
  /\ (forall t, is_Some (find_id t (loop_vocabs st)) ->
        find_id t (loop_vocabs st1) = find_id t (loop_vocabs st))
  /\ (str_truthy (incoming_term_norm r) = false -> st1 = st)
  /\ (str_truthy (incoming_term_norm r) = true ->
        exists i, find_id (incoming_term_norm r) (loop_vocabs st1) = Some i
                  /\ source_vocab_to_local st1
                     = <[opt_or (RawVocab._id r) "" := i]> (source_vocab_to_local st))
  /\ (str_truthy (incoming_term_norm r) = true ->
      is_Some (find_id (incoming_term_norm r) (loop_vocabs st)) ->
        added_vocabs st1 = added_vocabs st
        /\ doc_key <$> loop_vocabs st1 = doc_key <$> loop_vocabs st).
Proof.
  intros Hnd st1. subst st1. unfold import_vocab. cbv zeta.
  destruct (str_truthy (incoming_term_norm r)) eqn:Hkey; cbn [negb].
  2: { repeat split; try assumption; try discriminate; auto. }
  destruct (find_one_term (incoming_term_norm r) (loop_vocabs st)) as [existing|] eqn:Hfind.
  - destruct (find_one_term_Some _ _ _ Hfind) as [Hin Hterm].
    destruct (merge_vocab fromisoformat now (Vocab.fields existing) _) as [merged c] eqn:Hm.
    assert (Hmt : Vocab.termNormalized merged = Vocab.termNormalized (Vocab.fields existing)).
    { rewrite <- (merge_vocab_termNormalized now (Vocab.fields existing)
                    (incoming_doc fromisoformat now r (incoming_term_norm r))).
      now rewrite Hm. }
    cbn [loop_vocabs source_vocab_to_local added_vocabs].
    assert (Hkeys :
      doc_key <$> (if negb (String.eqb (stable_hash' (serialize' (Vocab.fields existing)))
                              (stable_hash' (serialize' merged)))
                   then update_one (Vocab._id existing) (mongo_body merged) (loop_vocabs st)
                   else loop_vocabs st)
      = doc_key <$> loop_vocabs st).
    { destruct (negb _); [|reflexivity]. now apply update_one_keys. }
    repeat split.
    + rewrite (ids_keys _ _ Hkeys). exact Hnd.
    + intros t _. now apply find_id_keys.
    + discriminate.
    + intros _. exists (Vocab._id existing). split; [|reflexivity].
      rewrite (find_id_keys _ _ _ Hkeys). unfold find_id. now rewrite Hfind.
    + exact Hkeys.
  - cbn [loop_vocabs source_vocab_to_local added_vocabs].
    assert (Hnone : find_id (incoming_term_norm r) (loop_vocabs st) = None)
      by (unfold find_id; now rewrite Hfind).
    repeat split.
    + rewrite fmap_app, NoDup_app. repeat split; [exact Hnd| |apply NoDup_singleton].
      intros i Hi [->|Hn]%elem_of_cons; [|inversion Hn].
      now apply (new_object_id_fresh (loop_vocabs st)).
    + intros t Ht. now apply find_id_app.
    + discriminate.
    + intros _. eexists. split; [|reflexivity].
      now apply find_id_snoc.
    + rewrite Hnone in H0. now destruct H0.
    + rewrite Hnone in H0. now destruct H0.
Qed.

(** The first loop from any state with distinct identities. *)
Lemma import_vocab_fold (now : datetime) (incoming : list RawVocab.t) (st : VocabLoop) :
  NoDup (Vocab._id <$> loop_vocabs st) ->
  let st' := foldl (import_vocab' now) st incoming in
  NoDup (Vocab._id <$> loop_vocabs st')
  /\ (forall t, is_Some (find_id t (loop_vocabs st)) ->
        find_id t (loop_vocabs st') = find_id t (loop_vocabs st))
  /\ (forall r, r ∈ incoming -> str_truthy (incoming_term_norm r) = true ->
        is_Some (find_id (incoming_term_norm r) (loop_vocabs st')))
  /\ source_vocab_to_local st'
     = mapping_of (loop_vocabs st') incoming (source_vocab_to_local st).
Proof.
  revert st. induction incoming as [|r incoming IH]; intros st Hnd.
  - simpl. repeat split; auto. intros r Hr. inversion Hr.
  - cbv zeta. rewrite foldl_step.
    destruct (import_vocab_step now st r Hnd) as (Hnd1 & Hkeep1 & Hskip & Hadd & _).
    destruct (IH _ Hnd1) as (Hnd' & Hkeep' & Hall' & Hmap').
    set (st1 := import_vocab' now st r) in *.
    set (st' := foldl (import_vocab' now) st1 incoming) in *.
    split; [exact Hnd'|]. split; [|split].
    + intros t Ht. rewrite Hkeep'; [now apply Hkeep1|]. now rewrite Hkeep1.
    + intros r' [->|Hr']%elem_of_cons Hkey; [|now apply Hall'].
      destruct (Hadd Hkey) as (i & Hi & _).
      rewrite Hkeep'; rewrite Hi; eauto.
    + rewrite Hmap'. unfold mapping_of. rewrite foldl_step. f_equal.
      destruct (str_truthy (incoming_term_norm r)) eqn:Hkey.
      * destruct (Hadd eq_refl) as (i & Hi & Hmap1).
        rewrite Hkeep', Hi by (rewrite Hi; eauto). exact Hmap1.
      * now rewrite (Hskip eq_refl).
Qed.




End SyncFacts.

(** The key of an exported card: the stored [termNormalized], itself a
    normalised term, is the key under which the import looks the card up. *)
Lemma exported_key_is_stable (r : RawVocab.t) (t : string) :
  RawVocab.termNormalized r = Some (normalize_term_str t) ->
  str_truthy (normalize_term_str t) = true ->
  incoming_term_norm r = normalize_term_str t.
Proof.
  intros Hr Ht. unfold incoming_term_norm, opt_or. rewrite Hr, Ht.
  apply normalize_term_str_idempotent.
Qed.

(** *** The theorems on the sample store *)

Lemma merge_is_conservative_witness :
  str_truthy (incoming_term_norm sample_raw_apple) = true
  /\ find_one_term (incoming_term_norm sample_raw_apple) (loop_vocabs sample_loop)
     = Some sample_apple
  /\ Vocab.repetitions
       (merge_vocab sample_fromisoformat sample_now (Vocab.fields sample_apple)
          (incoming_doc sample_fromisoformat sample_now sample_raw_apple
             (incoming_term_norm sample_raw_apple))).1
     = Z.min (Vocab.repetitions (Vocab.fields sample_apple))
         (default 0 (RawVocab.repetitions sample_raw_apple)).
Proof.
  split; [vm_compute; reflexivity|]. split; [vm_compute; reflexivity|].
  exact (proj1 (proj2
    (merge_is_conservative sample_sha256 sample_json_dumps sample_fromisoformat
       sample_isoformat sample_new_object_id sample_now sample_loop sample_raw_apple
       sample_apple ltac:(vm_compute; reflexivity) ltac:(vm_compute; reflexivity)))).
Defined.

(** The specification's example: local repetitions 3, no lapse, due in ten
    days; incoming repetitions 1, one lapse, due in two days. *)
Example merge_spec_example :
  let merged :=
    (merge_vocab sample_fromisoformat sample_now sample_local_body sample_incoming_body).1 in
  Vocab.repetitions merged = 1 /\ Vocab.lapses merged = 1
  /\ Vocab.dueAt merged = sample_date 2
  /\ Vocab.easeFactor merged = 2.3%float
  /\ Vocab.lastReviewedAt merged = Some (sample_date (-1)).
Proof. vm_compute. repeat split; reflexivity. Qed.

(** The merged schedule is not always the minimum of the two sides.  A
    record that carries no dueAt and no repetitions is merged into a local
    card with three repetitions that is due in ten days: the card written
    back has no repetition and is due at the time of the import, neither the
    local date nor a date of the record. *)
Lemma merge_takes_absent_schedule_as_new :
  let st :=
    {| loop_vocabs := [sample_kiwi]; source_vocab_to_local := ∅; added_vocabs := 0;
       updated_vocabs := 0; loop_conflicts := 0 |} in
  let written :=
    Vocab.fields
      <$> loop_vocabs
            (import_vocab sample_sha256 sample_json_dumps sample_fromisoformat
               sample_isoformat sample_new_object_id sample_now st sample_raw_kiwi) in
  find_one_term (incoming_term_norm sample_raw_kiwi) (loop_vocabs st) = Some sample_kiwi
  /\ RawVocab.dueAt sample_raw_kiwi = None
  /\ RawVocab.repetitions sample_raw_kiwi = None
  /\ Vocab.dueAt sample_local_body = sample_date 10
  /\ Vocab.repetitions sample_local_body = 3
  /\ Vocab.dueAt <$> written = [T0]
  /\ Vocab.repetitions <$> written = [0]
  /\ T0 <> sample_date 10.
Proof.
  cbv zeta. repeat split; try (vm_compute; reflexivity).
  intros H. apply (f_equal wall) in H. vm_compute in H. discriminate H.
Qed.

(** With NaN on one side [min] is not a minimum: it returns its first
    argument unless the second compares below it. *)
Example py_min_nan : py_min nan 2.5 = nan /\ py_min 2.5 nan = 2.5%float.
Proof. vm_compute. split; reflexivity. Qed.

Lemma string_length_append (s1 s2 : string) :
  String.length (s1 ++ s2) = (String.length s1 + String.length s2)%nat.
Proof. induction s1 as [|c s1 IH]; simpl; [reflexivity | now rewrite IH]. Qed.

Lemma longer_than_nonempty (texts : list string) :
  (0 < String.length (longer_than texts))%nat.
Proof.
  induction texts as [|t texts IH]; cbn [longer_than]; [simpl; lia|].
  rewrite string_length_append. lia.
Qed.

Lemma length_longer_than (texts : list string) (t : string) :
  t ∈ texts -> (String.length t < String.length (longer_than texts))%nat.
Proof.
  induction texts as [|t' texts IH]; [intros H; inversion H|].
  cbn [longer_than]. rewrite string_length_append.
  intros [->|Hin]%elem_of_cons.
  - pose proof (longer_than_nonempty texts). lia.
  - specialize (IH Hin). lia.
Qed.

Lemma sample_new_object_id_fresh (docs : list Vocab.doc) :
  sample_new_object_id docs ∉ (Vocab._id <$> docs).
Proof.
  intros Hin. apply length_longer_than in Hin. unfold sample_new_object_id in Hin. lia.
Qed.

(** The dates of the sample snapshot are read as the store keeps them. *)
Lemma sample_payload_well_dated :
  Forall (well_dated sample_fromisoformat) (Payload.review_logs sample_payload).
Proof. repeat constructor; intros now now'; reflexivity. Qed.


(** The first import of the sample snapshot inserts the cherry, updates the
    apple and adds two of the three logs, the third being a copy of the
    first; the second import adds nothing. *)
Example sample_import_reports :
  (sample_import sample_store sample_payload sample_now).1
  = {| addedVocabs := 1; updatedVocabs := 1; addedLogs := 2; conflicts := 1 |}
  /\ (sample_import (sample_import sample_store sample_payload sample_now).2 sample_payload
        sample_later).1
  = {| addedVocabs := 0; updatedVocabs := 0; addedLogs := 0; conflicts := 0 |}.
Proof. split; vm_compute; reflexivity. Qed.


Lemma import_rejects_other_versions_witness :
  Payload.schemaVersion sample_payload_v2 <> "v1"%string
  /\ import_sync sample_sha256 sample_json_dumps sample_fromisoformat sample_isoformat
       sample_new_object_id sample_store sample_payload_v2 sample_now
     = (Raise (HTTPException 400 "Unsupported schemaVersion"), sample_store)
  /\ post_sync_import sample_sha256 sample_json_dumps sample_fromisoformat sample_isoformat
       sample_new_object_id sample_valid_exportedAt sample_store sample_payload_v2 sample_now
     = (Raise (RequestValidationError "schemaVersion"), sample_store).
Proof.
  split; [discriminate|].
  exact (import_rejects_other_versions sample_sha256 sample_json_dumps sample_fromisoformat
           sample_isoformat sample_new_object_id sample_valid_exportedAt
           sample_store sample_payload_v2 sample_now ltac:(discriminate)).
Defined.

(** The sample snapshot itself is accepted by the route. *)
Example sample_route_accepts :
  (post_sync_import sample_sha256 sample_json_dumps sample_fromisoformat sample_isoformat
     sample_new_object_id sample_valid_exportedAt sample_store sample_payload sample_now).1
  = Ok {| addedVocabs := 1; updatedVocabs := 1; addedLogs := 2; conflicts := 1 |}.
Proof. vm_compute. reflexivity. Qed.

(** A log present on both sides is not always stored once.  The local log
    and the incoming one are a review of the same card at the same instant,
    with the same grade, mode and question type; the incoming date is written
    with another offset, so that the fingerprints differ, and after the
    import the store holds the log twice. *)
Lemma same_log_is_stored_twice :
  let db' := (sample_import sample_store_reviewed sample_payload_reviewed sample_now).2 in
  let k := ("65a000000000000000000001"%string, 1700000000000000, 2, "flip"%string,
            "term_to_meaning"%string) in
  log_identity
    <$> (normalized_log sample_fromisoformat sample_now "65a000000000000000000001"
           <$> Payload.review_logs sample_payload_reviewed) = [k]
  /\ log_identity <$> review_logs sample_store_reviewed = [k]
  /\ log_identity <$> review_logs db' = [k; k].
Proof. cbv zeta. repeat split; vm_compute; reflexivity. Qed.

Lemma log_dedup_once_witness :
  Forall (well_dated sample_fromisoformat) (Payload.review_logs sample_payload)
  /\ Forall stored_log (review_logs sample_store_reviewed)
  /\ exists accepted : list Log.doc,
       review_logs (sample_import sample_store_reviewed sample_payload sample_now).2
       = review_logs sample_store_reviewed ++ accepted
       /\ NoDup (_log_dedup_hash sample_sha256 sample_json_dumps sample_isoformat
                   <$> accepted)
       /\ (forall n l, n ∈ accepted -> l ∈ review_logs sample_store_reviewed ->
             _log_dedup_hash sample_sha256 sample_json_dumps sample_isoformat n
             <> _log_dedup_hash sample_sha256 sample_json_dumps sample_isoformat l).
Proof.
  split; [exact sample_payload_well_dated|].
  split; [repeat constructor|].
  exact (proj1 (log_dedup_once sample_sha256 sample_json_dumps sample_fromisoformat
                  sample_isoformat sample_new_object_id sample_store_reviewed
                  sample_payload sample_now sample_payload_well_dated
                  ltac:(repeat constructor))).
Defined.

(* ===================================================================== *)
(** * Part III.  Further properties                                       *)
(* ===================================================================== *)

(** ** Further properties of term normalisation *)

Section StripMore.
Context {char : Type}.
Variable p : char -> bool.

Lemma lstrip_while_nil (s : list char) :
  lstrip_while p s = [] <-> Forall (fun c => p c = true) s.
Proof.
  induction s as [|c s IH]; simpl; [split; [constructor | reflexivity]|].
  destruct (p c) eqn:Hc.
  - rewrite IH. split; [now constructor | now inversion 1].
  - split; [discriminate|]. inversion 1; congruence.
Qed.

Lemma rstrip_while_nil (s : list char) :
  rstrip_while p s = [] <-> Forall (fun c => p c = true) s.
Proof.
  induction s as [|c s IH]; simpl; [split; [constructor | reflexivity]|].
  destruct (rstrip_while p s) as [|d r] eqn:Hr.
  - destruct (p c) eqn:Hc.
    + split; [intros _; constructor; [exact Hc | now apply IH] | reflexivity].
    + split; [discriminate | inversion 1; congruence].
  - split; [discriminate|]. inversion 1 as [|? ? _ Hs]. apply IH in Hs. discriminate.
Qed.

End StripMore.

Section StripBoth.
Context {char : Type}.
Variable p : char -> bool.

Lemma strip_while_nil (s : list char) :
  rstrip_while p (lstrip_while p s) = [] <-> Forall (fun c => p c = true) s.
Proof.
  rewrite rstrip_while_nil. split.
  - intros Hall. apply lstrip_while_nil.
    pose proof (lstrip_while_starts p s) as Hs.
    destruct (lstrip_while p s) as [|c r]; [reflexivity|].
    inversion Hall; simpl in Hs; congruence.
  - intros Hall. apply lstrip_while_nil in Hall. rewrite Hall. constructor.
Qed.

End StripBoth.

Section NormalizeEmpty.
Context {char : Type}.
Variable is_space : char -> bool.
Variable is_alnum : char -> bool.
Variable is_underscore : char -> bool.
Variable lower : list char -> list char.
Variable space : char.

Hypothesis space_is_space : is_space space = true.
Hypothesis space_not_alnum : forall c, is_space c = true -> is_alnum c = false.
Hypothesis underscore_not_alnum : forall c, is_underscore c = true -> is_alnum c = false.
Hypothesis lower_alnum :
  forall s, Exists (fun c => is_alnum c = true) (lower s)
            <-> Exists (fun c => is_alnum c = true) s.

Local Abbreviation punct := (is_surrounding_punct is_alnum is_underscore).
Local Abbreviation msf := (multi_space_sub_from is_space space).
Local Abbreviation norm := (normalize_term is_space is_alnum is_underscore lower space).
Local Abbreviation plain := (Forall (fun c => is_alnum c = false)).

Lemma punct_not_alnum (c : char) : punct c = true <-> is_alnum c = false.
Proof.
  unfold is_surrounding_punct, is_word.
  destruct (is_underscore c) eqn:Hu.
  - rewrite (underscore_not_alnum c Hu). simpl. tauto.
  - destruct (is_alnum c); simpl; split; congruence.
Qed.

Lemma plain_punct (s : list char) : Forall (fun c => punct c = true) s <-> plain s.
Proof. apply Forall_iff. intros c. apply punct_not_alnum. Qed.

Lemma plain_space (s : list char) : Forall (fun c => is_space c = true) s -> plain s.
Proof. intros Hs. eapply Forall_impl; [exact Hs | exact space_not_alnum]. Qed.

Lemma plain_lstrip (q : char -> bool) (s : list char) :
  (forall c, q c = true -> is_alnum c = false) ->
  plain (lstrip_while q s) <-> plain s.
Proof.
  intros Hq. induction s as [|c s IH]; simpl; [tauto|].
  destruct (q c) eqn:Hc; [|tauto].
  rewrite IH. split; [intros; constructor; auto | now inversion 1].
Qed.

Lemma plain_rstrip (q : char -> bool) (s : list char) :
  (forall c, q c = true -> is_alnum c = false) ->
  plain (rstrip_while q s) <-> plain s.
Proof.
  intros Hq. induction s as [|c s IH]; simpl; [tauto|].
  destruct (rstrip_while q s) as [|d r] eqn:Hr.
  - assert (Hs : plain s) by (apply IH; constructor).
    destruct (q c) eqn:Hc.
    + split; [intros _; constructor; auto | constructor].
    + split; [inversion 1; now constructor | inversion 1; repeat constructor; auto].
  - rewrite (Forall_cons _ c (d :: r)), (Forall_cons _ c s), IH. tauto.
Qed.

Lemma plain_strip (s : list char) : plain (strip is_space s) <-> plain s.
Proof.
  unfold strip. rewrite plain_rstrip, plain_lstrip by exact space_not_alnum. tauto.
Qed.

Lemma plain_lower (s : list char) : plain (lower s) <-> plain s.
Proof.
  assert (Hne : forall l : list char,
             plain l <-> ~ Exists (fun c => is_alnum c = true) l).
  { intros l. rewrite <- Forall_Exists_neg. apply Forall_iff.
    intros c. destruct (is_alnum c); split; congruence. }
  rewrite !Hne, lower_alnum. tauto.
Qed.

Lemma plain_multi_space (b : bool) (s : list char) : plain (msf b s) <-> plain s.
Proof.
  revert b. induction s as [|c s IH]; intros b; simpl; [tauto|].
  destruct (is_space c) eqn:Hc.
  - pose proof (space_not_alnum c Hc) as Ha.
    destruct b; [rewrite IH | rewrite Forall_cons, IH];
      rewrite Forall_cons; pose proof (space_not_alnum space space_is_space); tauto.
  - rewrite !Forall_cons, IH. tauto.
Qed.

Lemma normalize_term_nil (t : list char) : norm t = [] <-> plain t.
Proof.
  unfold normalize_term, _SURROUNDING_PUNCT_sub, _MULTI_SPACE_sub.
  set (s1 := msf false (lower (strip is_space t))).
  set (s2 := rstrip_while punct (lstrip_while punct s1)).
  assert (H1 : plain s1 <-> plain t).
  { unfold s1. rewrite plain_multi_space, plain_lower, plain_strip. tauto. }
  assert (H2 : s2 = [] <-> plain s1).
  { unfold s2. rewrite strip_while_nil. apply plain_punct. }
  rewrite <- H1, <- H2. split; [|intros ->; reflexivity].
  intros Hnil. unfold strip in Hnil. apply strip_while_nil, plain_space in Hnil.
  apply plain_multi_space, plain_punct in Hnil.
  apply rstrip_while_nil in Hnil.
  rewrite rstrip_while_fixed in Hnil; [exact Hnil|].
  apply rstrip_while_ends.
Qed.
End NormalizeEmpty.

Lemma collapsed_lookup {char} (is_space : char -> bool) (space : char)
    (b : bool) (r : list char) (i : nat) (c : char) :
  collapsed is_space space b r ->
  r !! i = Some c -> is_space c = true ->
  c = space /\ forall d, r !! S i = Some d -> is_space d = false.
Proof.
  revert b i. induction r as [|x r IH]; intros b i Hr Hi Hc; [discriminate|].
  simpl in Hr. destruct i as [|i].
  - injection Hi as ->. rewrite Hc in Hr. destruct Hr as (-> & _ & Hr).
    split; [reflexivity|]. intros d Hd. destruct r as [|y r]; [discriminate|].
    injection Hd as ->. simpl in Hr.
    destruct (is_space d); [destruct Hr as (_ & ? & _); discriminate | reflexivity].
  - destruct (is_space x); [destruct Hr as (_ & _ & Hr)|]; exact (IH _ i Hr Hi Hc).
Qed.

Lemma punct_false_alnum {char} (is_alnum is_underscore : char -> bool) (c : char) :
  is_surrounding_punct is_alnum is_underscore c = false -> is_alnum c = true.
Proof.
  unfold is_surrounding_punct, is_word.
  destruct (is_alnum c), (is_underscore c); simpl; congruence.
Qed.

Lemma latin1_underscore_not_alnum (c : ascii) :
  latin1_is_underscore c = true -> latin1_is_alnum c = false.
Proof.
  destruct c as [b0 b1 b2 b3 b4 b5 b6 b7].
  destruct b0, b1, b2, b3, b4, b5, b6, b7; vm_compute; congruence.
Qed.

Lemma latin1_lower_char_alnum (c : ascii) :
  latin1_is_alnum (latin1_lower_char c) = latin1_is_alnum c.
Proof.
  destruct c as [b0 b1 b2 b3 b4 b5 b6 b7].
  destruct b0, b1, b2, b3, b4, b5, b6, b7; vm_compute; reflexivity.
Qed.

Lemma latin1_lower_alnum (s : list ascii) :
  Exists (fun c => latin1_is_alnum c = true) (latin1_lower s)
  <-> Exists (fun c => latin1_is_alnum c = true) s.
Proof.
  unfold latin1_lower. induction s as [|c s IH]; simpl; [tauto|].
  rewrite !Exists_cons, IH, latin1_lower_char_alnum. tauto.
Qed.

(** X1.  A term has an empty normal form exactly when none of its characters is
    alphanumeric: white space, punctuation and underscores alone leave
    nothing.  It holds for every alphabet whose white space and underscore
    are not alphanumeric and whose lower-casing keeps a string with an
    alphanumeric character one. *)
Theorem normalize_term_empty_iff {char : Type}
  (is_space is_alnum is_underscore : char -> bool)
  (lower : list char -> list char) (space : char) :
  is_space space = true ->
  (forall c, is_space c = true -> is_alnum c = false) ->
  (forall c, is_underscore c = true -> is_alnum c = false) ->
  (forall s, Exists (fun c => is_alnum c = true) (lower s)
             <-> Exists (fun c => is_alnum c = true) s) ->
  forall t : list char,
    normalize_term is_space is_alnum is_underscore lower space t = []
    <-> Forall (fun c => is_alnum c = false) t.
Proof.
  intros H1 H2 H3 H4 t. exact (normalize_term_nil _ _ _ _ _ H1 H2 H3 H4 t).
Qed.

Lemma normalize_term_empty_iff_witness :
  latin1_is_space " " = true
  /\ (forall c, latin1_is_space c = true -> latin1_is_alnum c = false)
  /\ (forall c, latin1_is_underscore c = true -> latin1_is_alnum c = false)
  /\ (forall s, Exists (fun c => latin1_is_alnum c = true) (latin1_lower s)
                <-> Exists (fun c => latin1_is_alnum c = true) s)
  /\ (normalize_term latin1_is_space latin1_is_alnum latin1_is_underscore latin1_lower
        " "%char (list_ascii_of_string " __ -- !? ") = []
      <-> Forall (fun c => latin1_is_alnum c = false) (list_ascii_of_string " __ -- !? ")).
Proof.
  split; [reflexivity|].
  split; [exact latin1_space_not_alnum|].
  split; [exact latin1_underscore_not_alnum|].
  split; [exact latin1_lower_alnum|].
  exact (normalize_term_empty_iff latin1_is_space latin1_is_alnum latin1_is_underscore
           latin1_lower " "%char latin1_space_is_space latin1_space_not_alnum
           latin1_underscore_not_alnum latin1_lower_alnum
           (list_ascii_of_string " __ -- !? ")).
Defined.

(** X2.  The shape of a normalised term: it consists of characters that
    lower-casing leaves alone, its white space is single replacement
    characters, never two in a row, and it begins and ends with an
    alphanumeric character. *)
Theorem normalize_term_shape {char : Type}
  (is_space is_alnum is_underscore : char -> bool)
  (lower : list char -> list char) (space : char) (is_lowered : char -> bool) :
  is_space space = true ->
  (forall c, is_space c = true -> is_alnum c = false) ->
  (forall s, Forall (fun c => is_lowered c = true) (lower s)) ->
  is_lowered space = true ->
  forall t : list char,
    let r := normalize_term is_space is_alnum is_underscore lower space t in
    Forall (fun c => is_lowered c = true) r
    /\ (forall i c, r !! i = Some c -> is_space c = true ->
          c = space /\ forall d, r !! S i = Some d -> is_space d = false)
    /\ (forall c, head r = Some c -> is_alnum c = true)
    /\ (forall c, last r = Some c -> is_alnum c = true).
Proof.
  intros H1 H2 H3 H4 t r.
  pose proof (normalize_term_normal_form is_space is_alnum is_underscore lower space
                is_lowered H1 H2 H3 H4 t) as Hnf.
  fold r in Hnf. clearbody r. destruct Hnf as (Hl & Hc & Hs & He).
  split; [exact Hl|]. split; [|split].
  - intros i c. apply (collapsed_lookup _ _ _ _ _ _ Hc).
  - intros c Hh. destruct r as [|x r']; [discriminate|]. injection Hh as ->.
    simpl in Hs. exact (punct_false_alnum _ _ _ Hs).
  - intros c Hlast. unfold ends_clean in He. rewrite Hlast in He.
    exact (punct_false_alnum _ _ _ He).
Qed.

Lemma normalize_term_shape_witness :
  latin1_is_space " " = true
  /\ (forall c, latin1_is_space c = true -> latin1_is_alnum c = false)
  /\ (forall s, Forall (fun c => latin1_is_lowered c = true) (latin1_lower s))
  /\ latin1_is_lowered " " = true
  /\ Forall (fun c => latin1_is_lowered c = true)
       (normalize_term latin1_is_space latin1_is_alnum latin1_is_underscore latin1_lower
          " "%char (list_ascii_of_string "  --Hello,   World!_ ")).
Proof.
  split; [reflexivity|].
  split; [exact latin1_space_not_alnum|].
  split; [exact latin1_lower_lowered|].
  split; [reflexivity|].
  exact (proj1 (normalize_term_shape latin1_is_space latin1_is_alnum latin1_is_underscore
                  latin1_lower " "%char latin1_is_lowered latin1_space_is_space
                  latin1_space_not_alnum latin1_lower_lowered latin1_space_lowered
                  (list_ascii_of_string "  --Hello,   World!_ "))).
Defined.

(** ** Lists of texts without duplicates *)

Lemma str_truthy_spec (s : string) : str_truthy s = true <-> s <> ""%string.
Proof.
  unfold str_truthy. destruct (String.eqb_spec s ""); simpl; split; congruence.
Qed.

Lemma str_strip_fixed (s : string) : str_strip (str_strip s) = str_strip s.
Proof.
  unfold str_strip. rewrite list_ascii_of_string_of_list_ascii. f_equal.
  unfold strip. apply strip_while_fixed; apply strip_while_clean.
Qed.

Lemma unique_strings_into_app (merged l1 l2 : list string) :
  unique_strings_into merged (l1 ++ l2)
  = unique_strings_into (unique_strings_into merged l1) l2.
Proof.
  revert merged. induction l1 as [|item l1 IH]; intros merged; simpl; [reflexivity|].
  destruct (_ && _); apply IH.
Qed.

Lemma unique_strings_into_prefix (merged items : list string) :
  merged `prefix_of` unique_strings_into merged items.
Proof.
  revert merged. induction items as [|item items IH]; intros merged; simpl; [reflexivity|].
  destruct (_ && _); [|apply IH].
  etransitivity; [|apply IH]. now apply prefix_app_r.
Qed.

Lemma unique_strings_into_elem (merged items : list string) (x : string) :
  x ∈ unique_strings_into merged items
  <-> x ∈ merged \/ (x <> ""%string /\ exists item, item ∈ items /\ str_strip item = x).
Proof.
  revert merged. induction items as [|item items IH]; intros merged; simpl.
  - split; [auto|]. intros [H|(_ & i & Hi & _)]; [exact H | inversion Hi].
  - destruct (str_truthy (str_strip item)) eqn:Ht; simpl.
    + apply str_truthy_spec in Ht.
      destruct (decide (str_strip item ∈ merged)) as [Hin|Hin].
      * rewrite bool_decide_eq_true_2 by exact Hin. simpl. rewrite IH. split.
        -- intros [H|(Hx & i & Hi & Hs)]; [auto|].
           right. split; [exact Hx|]. exists i. split; [now right | exact Hs].
        -- intros [H|(Hx & i & Hi & Hs)]; [auto|].
           apply elem_of_cons in Hi as [-> | Hi]; [left; congruence|].
           right. eauto.
      * rewrite bool_decide_eq_false_2 by exact Hin. simpl. rewrite IH, elem_of_app, list_elem_of_singleton.
        split.
        -- intros [[H | ->] | (Hx & i & Hi & Hs)]; [auto| |].
           ++ right. split; [exact Ht|]. exists item. split; [now left | reflexivity].
           ++ right. split; [exact Hx|]. exists i. split; [now right | exact Hs].
        -- intros [H|(Hx & i & Hi & Hs)]; [auto|].
           apply elem_of_cons in Hi as [-> | Hi]; [left; right; congruence|].
           right. eauto.
    + rewrite IH. split.
      * intros [H|(Hx & i & Hi & Hs)]; [auto|].
        right. split; [exact Hx|]. exists i. split; [now right | exact Hs].
      * intros [H|(Hx & i & Hi & Hs)]; [auto|].
        apply elem_of_cons in Hi as [-> | Hi]; [|right; eauto].
        exfalso. apply Hx. rewrite <- Hs.
        destruct (String.eqb_spec (str_strip item) ""); [assumption|].
        unfold str_truthy in Ht. destruct (String.eqb_spec (str_strip item) ""); simpl in Ht; congruence.
Qed.

Lemma unique_strings_into_clean (merged items : list string) :
  clean_strings merged -> clean_strings (unique_strings_into merged items).
Proof.
  revert merged. induction items as [|item items IH]; intros merged Hm; simpl; [exact Hm|].
  destruct (str_truthy (str_strip item)) eqn:Ht; simpl; [|now apply IH].
  destruct (decide (str_strip item ∈ merged)) as [Hin|Hin].
  - rewrite bool_decide_eq_true_2 by exact Hin. now apply IH.
  - rewrite bool_decide_eq_false_2 by exact Hin. simpl. apply IH.
    destruct Hm as [Hnd Hall]. split.
    + apply NoDup_app. split; [exact Hnd|]. split; [|apply NoDup_singleton].
      intros x Hx ->%list_elem_of_singleton. contradiction.
    + apply Forall_app. split; [exact Hall|]. constructor; [|constructor].
      split; [now apply str_truthy_spec | apply str_strip_fixed].
Qed.

Lemma unique_strings_into_known (merged items : list string) :
  (forall item, item ∈ items -> str_strip item = ""%string \/ str_strip item ∈ merged) ->
  unique_strings_into merged items = merged.
Proof.
  induction items as [|item items IH]; intros Hk; simpl; [reflexivity|].
  assert (Hrest : unique_strings_into merged items = merged)
    by (apply IH; intros i Hi; apply Hk; now right).
  destruct (Hk item ltac:(now left)) as [He|Hin].
  - rewrite He. simpl. exact Hrest.
  - rewrite (bool_decide_eq_true_2 _ Hin), andb_false_r. exact Hrest.
Qed.

Lemma unique_strings_into_self (merged l : list string) :
  clean_strings (merged ++ l) -> unique_strings_into merged l = merged ++ l.
Proof.
  revert merged. induction l as [|x l IH]; intros merged Hc; simpl;
    [now rewrite app_nil_r|].
  destruct Hc as [Hnd Hall].
  assert (Hx : x <> ""%string /\ str_strip x = x).
  { rewrite Forall_app, Forall_cons in Hall. tauto. }
  destruct Hx as [Hne Hs]. rewrite Hs.
  rewrite (proj2 (str_truthy_spec x) Hne).
  assert (Hnin : x ∉ merged).
  { apply NoDup_app in Hnd as (_ & Hd & _). intros Hin. apply (Hd x Hin). now left. }
  rewrite bool_decide_eq_false_2 by exact Hnin. simpl.
  rewrite IH; rewrite <- app_assoc; [reflexivity|]. split; assumption.
Qed.

Lemma clean_strings_nil : clean_strings [].
Proof. split; constructor. Qed.

Lemma _merge_unique_strings_clean_strings (a b : list string) :
  clean_strings (_merge_unique_strings a b).
Proof. apply unique_strings_into_clean, clean_strings_nil. Qed.

Lemma _merge_unique_strings_fixed (r : list string) :
  clean_strings r -> _merge_unique_strings r [] = r.
Proof.
  intros Hr. unfold _merge_unique_strings. rewrite app_nil_r.
  now apply (unique_strings_into_self [] r).
Qed.

Lemma _merge_unique_strings_absorb (r b : list string) :
  clean_strings r ->
  (forall item, item ∈ b -> str_strip item = ""%string \/ str_strip item ∈ r) ->
  _merge_unique_strings r b = r.
Proof.
  intros Hr Hb. unfold _merge_unique_strings.
  rewrite unique_strings_into_app, (unique_strings_into_self [] r Hr).
  now apply unique_strings_into_known.
Qed.

Lemma _merge_unique_strings_elem (a b : list string) (x : string) :
  x ∈ _merge_unique_strings a b
  <-> x <> ""%string /\ exists item, item ∈ a ++ b /\ str_strip item = x.
Proof.
  unfold _merge_unique_strings. rewrite unique_strings_into_elem.
  split; [intros [H|H]; [inversion H | exact H] | auto].
Qed.

Lemma _merge_unique_strings_covers (a b : list string) (item : string) :
  item ∈ a ++ b ->
  str_strip item = ""%string \/ str_strip item ∈ _merge_unique_strings a b.
Proof.
  intros Hin. destruct (decide (str_strip item = ""%string)) as [He|Hne]; [now left|].
  right. apply _merge_unique_strings_elem. eauto.
Qed.


(** ** Dicts in insertion order *)

Lemma dict_get_None {V} (k : string) (d : list (string * V)) :
  dict_get k d = None <-> k ∉ d.*1.
Proof.
  induction d as [|[k' v'] d IH]; simpl; [split; [intros _ H; inversion H | reflexivity]|].
  destruct (String.eqb_spec k' k) as [->|Hne].
  - split; [discriminate|]. intros H. exfalso. apply H. now left.
  - rewrite IH, not_elem_of_cons. split; [intros; split; [congruence | assumption] | tauto].
Qed.

Lemma dict_get_elem {V} (k : string) (v : V) (d : list (string * V)) :
  dict_get k d = Some v -> (k, v) ∈ d.
Proof.
  induction d as [|[k' v'] d IH]; simpl; [discriminate|].
  destruct (String.eqb_spec k' k) as [->|Hne].
  - intros [= ->]. now left.
  - intros H. right. now apply IH.
Qed.

Lemma dict_get_NoDup {V} (k : string) (v : V) (d : list (string * V)) :
  NoDup d.*1 -> (k, v) ∈ d -> dict_get k d = Some v.
Proof.
  induction d as [|[k' v'] d IH]; simpl; [intros _ H; inversion H|].
  intros Hnd Hin. apply NoDup_cons in Hnd as [Hk' Hnd].
  apply elem_of_cons in Hin as [[= -> ->] | Hin].
  - now rewrite String.eqb_refl.
  - destruct (String.eqb_spec k' k) as [->|Hne]; [|now apply IH].
    exfalso. apply Hk'. apply list_elem_of_fmap. exists (k, v). auto.
Qed.

Lemma dict_set_fresh {V} (k : string) (v : V) (d : list (string * V)) :
  k ∉ d.*1 -> dict_set k v d = d ++ [(k, v)].
Proof.
  induction d as [|[k' v'] d IH]; simpl; [reflexivity|].
  intros [Hne Hd]%not_elem_of_cons.
  destruct (String.eqb_spec k' k) as [->|_]; [congruence|]. now rewrite IH.
Qed.

Lemma dict_set_same {V} (k : string) (v : V) (d : list (string * V)) :
  dict_get k d = Some v -> dict_set k v d = d.
Proof.
  induction d as [|[k' v'] d IH]; simpl; [discriminate|].
  destruct (String.eqb_spec k' k) as [->|Hne].
  - now intros [= ->].
  - intros H. now rewrite IH.
Qed.

Lemma dict_set_keys {V} (k : string) (v : V) (d : list (string * V)) :
  (dict_set k v d).*1 = if bool_decide (k ∈ d.*1) then d.*1 else d.*1 ++ [k].
Proof.
  induction d as [|[k' v'] d IH]; [reflexivity|].
  cbn [dict_set]. rewrite fmap_cons. cbn [fst].
  destruct (String.eqb_spec k' k) as [->|Hne].
  - rewrite bool_decide_eq_true_2 by now left. reflexivity.
  - rewrite fmap_cons, IH. cbn [fst]. destruct (decide (k ∈ d.*1)) as [Hin|Hin].
    + rewrite !bool_decide_eq_true_2; [reflexivity | now right | exact Hin].
    + rewrite !bool_decide_eq_false_2; [reflexivity | | exact Hin].
      rewrite not_elem_of_cons. split; congruence.
Qed.

Lemma dict_get_set {V} (k k' : string) (v : V) (d : list (string * V)) :
  dict_get k' (dict_set k v d) = if String.eqb k k' then Some v else dict_get k' d.
Proof.
  induction d as [|[k0 v0] d IH]; simpl.
  - reflexivity.
  - destruct (String.eqb_spec k0 k) as [->|Hne]; simpl.
    + destruct (String.eqb_spec k k'); reflexivity.
    + destruct (String.eqb_spec k0 k') as [->|Hne'].
      * destruct (String.eqb_spec k k'); [congruence | reflexivity].
      * exact IH.
Qed.

Lemma dict_set_NoDup {V} (k : string) (v : V) (d : list (string * V)) :
  NoDup d.*1 -> NoDup (dict_set k v d).*1.
Proof.
  intros Hnd. rewrite dict_set_keys. case_bool_decide as Hk; [exact Hnd|].
  apply NoDup_app. split; [exact Hnd|]. split; [|apply NoDup_singleton].
  intros x Hx ->%list_elem_of_singleton. contradiction.
Qed.

Lemma dict_set_Forall {V} (P : string * V -> Prop) (k : string) (v : V)
    (d : list (string * V)) :
  P (k, v) -> Forall P d -> Forall P (dict_set k v d).
Proof.
  intros Hkv. induction 1 as [|[k' v'] d Hx Hd IH]; simpl; [repeat constructor; exact Hkv|].
  destruct (String.eqb k' k); constructor; assumption.
Qed.

(** ** Word families *)

Lemma lstrip_while_map {A} (p : A -> bool) (f : A -> A) (s : list A) :
  (forall c, p (f c) = p c) -> lstrip_while p (map f s) = map f (lstrip_while p s).
Proof.
  intros Hf. induction s as [|c s IH]; simpl; [reflexivity|].
  rewrite Hf. destruct (p c); [exact IH | reflexivity].
Qed.

Lemma rstrip_while_map {A} (p : A -> bool) (f : A -> A) (s : list A) :
  (forall c, p (f c) = p c) -> rstrip_while p (map f s) = map f (rstrip_while p s).
Proof.
  intros Hf. induction s as [|c s IH]; simpl; [reflexivity|].
  rewrite IH, Hf. destruct (rstrip_while p s); simpl; [destruct (p c)|]; reflexivity.
Qed.

Lemma latin1_lower_char_space (c : ascii) :
  latin1_is_space (latin1_lower_char c) = latin1_is_space c.
Proof.
  destruct c as [b0 b1 b2 b3 b4 b5 b6 b7].
  destruct b0, b1, b2, b3, b4, b5, b6, b7; vm_compute; reflexivity.
Qed.

(** A role, once stripped and lowered, is left alone by both. *)
Lemma role_fixed (k : string) :
  str_lower (str_strip (str_lower (str_strip k))) = str_lower (str_strip k).
Proof.
  unfold str_lower, str_strip. rewrite !list_ascii_of_string_of_list_ascii. f_equal.
  set (l := list_ascii_of_string k).
  assert (Hs : strip latin1_is_space (latin1_lower (strip latin1_is_space l))
               = latin1_lower (strip latin1_is_space l)).
  { unfold strip, latin1_lower.
    rewrite lstrip_while_map, rstrip_while_map by exact latin1_lower_char_space.
    f_equal. apply strip_while_fixed; apply strip_while_clean. }
  rewrite Hs. apply latin1_lowered_fixed, latin1_lower_lowered.
Qed.

Lemma clean_family_nil : clean_family [].
Proof. split; constructor. Qed.

Lemma clean_family_set (k : string) (v : list string) (d : list (string * list string)) :
  k <> ""%string -> str_lower (str_strip k) = k -> clean_strings v ->
  clean_family d -> clean_family (dict_set k v d).
Proof.
  intros Hk Hr Hv [Hnd Hall]. split; [now apply dict_set_NoDup|].
  apply dict_set_Forall; [|exact Hall]. simpl. auto.
Qed.

Lemma foldl_snoc_step {A B} (f : A -> B -> A) (a : A) (l : list B) (x : B) :
  foldl f a (l ++ [x]) = f (foldl f a l) x.
Proof. now rewrite foldl_app. Qed.

Lemma _normalize_word_family_clean (data : list (string * list string)) :
  clean_family (_normalize_word_family data).
Proof.
  unfold _normalize_word_family.
  induction data as [|kv data IH] using rev_ind; [exact clean_family_nil|].
  rewrite foldl_snoc_step. cbv zeta.
  destruct (str_truthy (str_lower (str_strip kv.1))) eqn:Ht; [|exact IH].
  apply clean_family_set; [now apply str_truthy_spec | apply role_fixed | | exact IH].
  apply _merge_unique_strings_clean_strings.
Qed.

Lemma _normalize_word_family_from (out d : list (string * list string)) :
  clean_family (out ++ d) ->
  foldl (fun out kv =>
           let role := str_lower (str_strip kv.1) in
           if str_truthy role then dict_set role (_merge_unique_strings kv.2 []) out
           else out) out d = out ++ d.
Proof.
  revert out. induction d as [|[k v] d IH]; intros out Hc; simpl; [now rewrite app_nil_r|].
  destruct Hc as [Hnd Hall].
  assert (Hkv : k <> ""%string /\ str_lower (str_strip k) = k /\ clean_strings v).
  { rewrite Forall_app, Forall_cons in Hall. simpl in Hall. tauto. }
  destruct Hkv as (Hne & Hr & Hv).
  rewrite Hr, (proj2 (str_truthy_spec k) Hne), (_merge_unique_strings_fixed v Hv).
  assert (Hnin : k ∉ out.*1).
  { rewrite fmap_app in Hnd. apply NoDup_app in Hnd as (_ & Hd & _).
    intros Hin. apply (Hd k Hin). now left. }
  rewrite (dict_set_fresh k v out Hnin).
  rewrite IH; rewrite <- app_assoc; [reflexivity|]. split; assumption.
Qed.

Lemma _normalize_word_family_fixed (d : list (string * list string)) :
  clean_family d -> _normalize_word_family d = d.
Proof. intros Hd. apply (_normalize_word_family_from [] d Hd). Qed.


Lemma _merge_word_family_unfold (left right : list (string * list string)) :
  _merge_word_family left right
  = foldl merge_role (_normalize_word_family left) (_normalize_word_family right).
Proof. reflexivity. Qed.

Lemma merge_roles_clean (merged r : list (string * list string)) :
  clean_family merged -> clean_family r -> clean_family (foldl merge_role merged r).
Proof.
  intros Hm [_ Hr]. revert merged Hm.
  induction Hr as [|[k v] r (Hne & Hrole & Hv) Hr IH]; intros merged Hm; simpl; [exact Hm|].
  apply IH. unfold merge_role. simpl.
  apply clean_family_set; auto. apply _merge_unique_strings_clean_strings.
Qed.

Lemma merge_roles_other (merged r : list (string * list string)) (k : string) :
  k ∉ r.*1 -> dict_get k (foldl merge_role merged r) = dict_get k merged.
Proof.
  revert merged. induction r as [|[k' v'] r IH]; intros merged Hk; simpl; [reflexivity|].
  rewrite fmap_cons in Hk. apply not_elem_of_cons in Hk as [Hne Hk]. simpl in Hne.
  rewrite IH by exact Hk. unfold merge_role. simpl. rewrite dict_get_set.
  destruct (String.eqb_spec k' k); [congruence | reflexivity].
Qed.

Lemma merge_roles_get (merged r : list (string * list string)) (k : string)
    (v : list string) :
  NoDup r.*1 -> (k, v) ∈ r ->
  dict_get k (foldl merge_role merged r)
  = Some (_merge_unique_strings (default [] (dict_get k merged)) v).
Proof.
  revert merged. induction r as [|[k' v'] r IH]; intros merged Hnd Hin; [inversion Hin|].
  rewrite fmap_cons in Hnd. apply NoDup_cons in Hnd as [Hk' Hnd]. simpl in Hk'.
  apply elem_of_cons in Hin as [[= -> ->] | Hin]; simpl.
  - rewrite merge_roles_other by exact Hk'. unfold merge_role. simpl.
    now rewrite dict_get_set, String.eqb_refl.
  - rewrite (IH _ Hnd Hin). unfold merge_role. simpl. rewrite dict_get_set.
    destruct (String.eqb_spec k' k) as [->|Hne]; [|reflexivity].
    exfalso. apply Hk'. apply list_elem_of_fmap. exists (k, v). auto.
Qed.

Lemma merge_roles_fixed (merged r : list (string * list string)) :
  (forall k v, (k, v) ∈ r ->
     exists w, dict_get k merged = Some w /\ _merge_unique_strings w v = w) ->
  foldl merge_role merged r = merged.
Proof.
  induction r as [|[k v] r IH]; intros Hr; simpl; [reflexivity|].
  destruct (Hr k v ltac:(now left)) as (w & Hw & Hm).
  unfold merge_role at 2. simpl. rewrite Hw. simpl. rewrite Hm, (dict_set_same k w merged Hw).
  apply IH. intros k' v' Hin. apply Hr. now right.
Qed.

Lemma _merge_word_family_clean (left right : list (string * list string)) :
  clean_family (_merge_word_family left right).
Proof.
  rewrite _merge_word_family_unfold.
  apply merge_roles_clean; apply _normalize_word_family_clean.
Qed.

Lemma _merge_word_family_absorb (left right : list (string * list string)) :
  _merge_word_family (_merge_word_family left right) right
  = _merge_word_family left right.
Proof.
  rewrite (_merge_word_family_unfold (_merge_word_family left right)).
  rewrite (_normalize_word_family_fixed _ (_merge_word_family_clean left right)).
  apply merge_roles_fixed. intros k v Hin.
  pose proof (_normalize_word_family_clean right) as [Hnd _].
  rewrite _merge_word_family_unfold, (merge_roles_get _ _ k v Hnd Hin).
  eexists. split; [reflexivity|].
  apply _merge_unique_strings_absorb; [apply _merge_unique_strings_clean_strings|].
  intros item Hitem. apply _merge_unique_strings_covers.
  apply elem_of_app. now right.
Qed.

(** ** Merging the same record again *)

Lemma _merge_unique_strings_again (a b : list string) :
  _merge_unique_strings (_merge_unique_strings a b) b = _merge_unique_strings a b.
Proof.
  apply _merge_unique_strings_absorb; [apply _merge_unique_strings_clean_strings|].
  intros item Hitem. apply _merge_unique_strings_covers, elem_of_app. now right.
Qed.

Lemma text_merged_absorb (x y : option string) :
  text_merged (text_merged x y) y = text_merged x y.
Proof. unfold text_merged. destruct (opt_truthy y); reflexivity. Qed.

Lemma text_conflict_absorb (x y : option string) :
  text_conflict (text_merged x y) y = 0.
Proof.
  unfold text_conflict, text_merged. destruct (opt_truthy y) eqn:Hy.
  - rewrite Hy, bool_decide_eq_true_2 by reflexivity. reflexivity.
  - now rewrite andb_false_r.
Qed.

Lemma term_merged_absorb (a b : string) :
  let m := default a (text_merged (Some a) (Some b)) in
  default m (text_merged (Some m) (Some b)) = m
  /\ text_conflict (Some m) (Some b) = 0.
Proof.
  unfold text_merged, text_conflict. cbn [opt_truthy].
  destruct (str_truthy b) eqn:Hb; cbn [default from_option id]; rewrite ?Hb.
  - rewrite bool_decide_eq_true_2 by reflexivity. split; reflexivity.
  - rewrite andb_false_r. split; reflexivity.
Qed.

Lemma ltb_irrefl (x : float) : (x <? x)%float = false.
Proof.
  rewrite FloatAxioms.ltb_spec. unfold SFltb.
  destruct (Prim2SF x) as [s|s| |s m e] eqn:Hx; try reflexivity;
    rewrite SFcompare_refl by discriminate; reflexivity.
Qed.

Lemma py_min_absorb (a b : float) : py_min (py_min a b) b = py_min a b.
Proof.
  unfold py_min. destruct (b <? a)%float eqn:Hlt.
  - now rewrite ltb_irrefl.
  - now rewrite Hlt.
Qed.

Lemma datetime_min_absorb (a b : datetime) :
  datetime_min (datetime_min a b) b = datetime_min a b.
Proof.
  unfold datetime_min. destruct (datetime_ltb b a) eqn:Hlt.
  - now rewrite datetime_ltb_irrefl.
  - now rewrite Hlt.
Qed.

Lemma datetime_max_absorb (a b : datetime) :
  datetime_max (datetime_max a b) b = datetime_max a b.
Proof.
  unfold datetime_max. destruct (datetime_ltb a b) eqn:Hlt.
  - now rewrite datetime_ltb_irrefl.
  - now rewrite Hlt.
Qed.

Lemma _safe_max_datetime_absorb (x y : option datetime) :
  _safe_max_datetime (_safe_max_datetime x y) y = _safe_max_datetime x y.
Proof.
  destruct x, y; simpl; f_equal; [apply datetime_max_absorb|].
  unfold datetime_max. now rewrite datetime_ltb_irrefl.
Qed.

(** The incoming record is not older than the later of the two dates
    exactly when it is not older than the local one. *)
Lemma datetime_ltb_max_r (a b : datetime) :
  datetime_ltb b (datetime_max a b) = datetime_ltb b a.
Proof.
  unfold datetime_max. destruct (datetime_ltb a b) eqn:Hlt; [|reflexivity].
  now rewrite datetime_ltb_irrefl, (datetime_ltb_asym _ _ Hlt).
Qed.

Lemma merge_vocab_absorb (fromisoformat : string -> option (Z * option Z))
    (now now' : datetime) (e i : Vocab.body) :
  merge_vocab fromisoformat now' (merge_vocab fromisoformat now e i).1 i
  = ((merge_vocab fromisoformat now e i).1, 0).
Proof.
  unfold merge_vocab.
  cbn [fst _parse_datetime _safe_min_datetime Vocab.term Vocab.termNormalized
       Vocab.meanings Vocab.ipa Vocab.exampleEn Vocab.exampleVi Vocab.mnemonic Vocab.tags
       Vocab.collocations Vocab.phrases Vocab.wordFamily Vocab.topics Vocab.cefrLevel
       Vocab.ieltsBand Vocab.createdAt Vocab.updatedAt Vocab.easeFactor
       Vocab.intervalDays Vocab.repetitions Vocab.lapses Vocab.dueAt
       Vocab.lastReviewedAt Vocab.readdCount Vocab.lastReaddAt].
  rewrite datetime_ltb_max_r.
  rewrite !_merge_unique_strings_again, _merge_word_family_absorb, py_min_absorb,
    !_safe_max_datetime_absorb, !datetime_min_absorb, datetime_max_absorb.
  replace (Z.min (Z.min (Vocab.repetitions e) (Vocab.repetitions i)) (Vocab.repetitions i))
    with (Z.min (Vocab.repetitions e) (Vocab.repetitions i)) by lia.
  replace (Z.min (Z.min (Vocab.intervalDays e) (Vocab.intervalDays i)) (Vocab.intervalDays i))
    with (Z.min (Vocab.intervalDays e) (Vocab.intervalDays i)) by lia.
  replace (Z.max (Z.max (Vocab.lapses e) (Vocab.lapses i)) (Vocab.lapses i))
    with (Z.max (Vocab.lapses e) (Vocab.lapses i)) by lia.
  replace (Z.max (Z.max (Vocab.readdCount e) (Vocab.readdCount i)) (Vocab.readdCount i))
    with (Z.max (Vocab.readdCount e) (Vocab.readdCount i)) by lia.
  destruct (negb (datetime_ltb (Vocab.updatedAt i) (Vocab.updatedAt e))).
  - rewrite !text_merged_absorb, !text_conflict_absorb.
    destruct (term_merged_absorb (Vocab.term e) (Vocab.term i)) as [-> ->].
    f_equal. f_equal.
    + destruct (opt_truthy (Vocab.cefrLevel i)); reflexivity.
    + destruct (Vocab.ieltsBand i); reflexivity.
  - f_equal. f_equal.
    + destruct (opt_truthy (Vocab.cefrLevel i)); reflexivity.
    + destruct (Vocab.ieltsBand i); reflexivity.
Qed.

(** ** The order of floats, continued *)

Lemma SFcompare_Lt_trans (x y z : spec_float) :
  SFcompare x y = Some Lt -> SFcompare y z = Some Lt -> SFcompare x z = Some Lt.
Proof.
  destruct x as [sx|sx| |sx mx ex], y as [sy|sy| |sy my ey], z as [sz|sz| |sz mz ez];
    simpl; try discriminate;
    repeat match goal with s : bool |- _ => destruct s end;
    try congruence.
  all: rewrite !Pos.compare_cont_spec; cbn [Pos.switch_Eq];
    destruct (Z.compare_spec ex ey), (Z.compare_spec ey ez), (Z.compare_spec ex ez);
    try congruence; try lia; subst;
    destruct (Pos.compare_spec mx my), (Pos.compare_spec my mz), (Pos.compare_spec mx mz);
    simpl; try congruence; try lia.
Qed.

Lemma ltb_trans (x y z : float) :
  (x <? y)%float = true -> (y <? z)%float = true -> (x <? z)%float = true.
Proof.
  rewrite !FloatAxioms.ltb_spec. unfold SFltb.
  destruct (SFcompare (Prim2SF x) (Prim2SF y)) as [[]|] eqn:H1; try discriminate.
  destruct (SFcompare (Prim2SF y) (Prim2SF z)) as [[]|] eqn:H2; try discriminate.
  now rewrite (SFcompare_Lt_trans _ _ _ H1 H2).
Qed.


(** ** What an import keeps *)

Lemma ease_not_above_trans (x y z : float) :
  ease_not_above x y -> ease_not_above y z -> ease_not_above x z.
Proof.
  intros [->|Hxy] [->|Hyz]; [now left | now right | now right|].
  right. exact (ltb_trans _ _ _ Hxy Hyz).
Qed.

Lemma ease_not_above_py_min (a b : float) : ease_not_above (py_min a b) a.
Proof. unfold py_min. destruct (b <? a)%float eqn:H; [now right | now left]. Qed.

Lemma date_not_before_refl (d : option datetime) : date_not_before d d.
Proof. destruct d as [d|]; simpl; [|exact I]. exists d. split; [reflexivity | lia]. Qed.

Lemma date_not_before_trans (a b c : option datetime) :
  date_not_before a b -> date_not_before b c -> date_not_before a c.
Proof.
  destruct a as [a|]; simpl; [|auto]. intros (b' & -> & Hab). simpl.
  intros (c' & -> & Hbc). exists c'. split; [reflexivity | lia].
Qed.

(** Against a date of the store, the earlier and the later of two dates
    are so by their milliseconds. *)
Lemma millis_datetime_min_l (a b : datetime) :
  stored_date a -> millis (datetime_min a b) <= millis a.
Proof.
  intros Ha. unfold datetime_min.
  rewrite (datetime_ltb_fixed_r b a 0 (stored_date_tz a Ha)).
  destruct (Z.ltb_spec (instant b) (instant a)); [apply millis_le; lia | lia].
Qed.

Lemma millis_datetime_max_l (a b : datetime) :
  stored_date a -> millis a <= millis (datetime_max a b).
Proof.
  intros Ha. unfold datetime_max.
  rewrite (datetime_ltb_fixed_l a b 0 (stored_date_tz a Ha)).
  destruct (Z.ltb_spec (instant a) (instant b)); [apply millis_le; lia | lia].
Qed.

Lemma date_not_before_max (a b : option datetime) :
  (forall d, a = Some d -> stored_date d) ->
  date_not_before a (mongo_date <$> _safe_max_datetime a b).
Proof.
  destruct a as [a|], b as [b|]; simpl; try (intros; exact I); intros Ha;
    eexists; (split; [reflexivity|]); rewrite millis_mongo_date;
    [apply millis_datetime_max_l; auto | lia].
Qed.

(** The dates that make a stored card. *)
Lemma stored_body_intro (b : Vocab.body) :
  stored_date (Vocab.createdAt b) -> stored_date (Vocab.updatedAt b) ->
  stored_date (Vocab.dueAt b) ->
  (forall d, Vocab.lastReviewedAt b = Some d -> stored_date d) ->
  (forall d, Vocab.lastReaddAt b = Some d -> stored_date d) ->
  stored_body b.
Proof.
  unfold stored_body, stored_date, mongo_body. destruct b. cbn.
  intros -> -> -> Hr Ha. f_equal.
  - destruct lastReviewedAt as [d|]; [|reflexivity]. cbn. f_equal. now apply Hr.
  - destruct lastReaddAt as [d|]; [|reflexivity]. cbn. f_equal. now apply Ha.
Qed.

Lemma stored_mongo_body (b : Vocab.body) : stored_body (mongo_body b).
Proof. apply mongo_body_idemp. Qed.

Lemma stored_date_min (a b : datetime) :
  stored_date a -> stored_date b -> stored_date (datetime_min a b).
Proof. unfold datetime_min. now destruct (datetime_ltb b a). Qed.

Lemma stored_date_max (a b : datetime) :
  stored_date a -> stored_date b -> stored_date (datetime_max a b).
Proof. unfold datetime_max. now destruct (datetime_ltb a b). Qed.

Lemma stored_date_safe_max (a b : option datetime) (d : datetime) :
  (forall x, a = Some x -> stored_date x) -> (forall x, b = Some x -> stored_date x) ->
  _safe_max_datetime a b = Some d -> stored_date d.
Proof.
  destruct a as [x|], b as [y|]; simpl; intros Ha Hb [= <-]; auto.
  apply stored_date_max; auto.
Qed.

Lemma kept_texts_refl (l : list string) : kept_texts l l.
Proof. intros x Hx. now left. Qed.

Lemma kept_texts_trans (a b c : list string) :
  kept_texts a b -> kept_texts b c -> kept_texts a c.
Proof.
  intros Hab Hbc x Hx. destruct (Hab x Hx) as [Hb|[He|Hb]]; [now apply Hbc | auto |].
  destruct (Hbc _ Hb) as [Hc|[He|Hc]]; rewrite ?str_strip_fixed in *; auto.
Qed.

Lemma kept_texts_merge (a b : list string) : kept_texts a (_merge_unique_strings a b).
Proof. intros x Hx. right. apply _merge_unique_strings_covers, elem_of_app. now left. Qed.

Lemma more_cautious_refl (d : Vocab.doc) : more_cautious d d.
Proof.
  constructor; try reflexivity; try apply kept_texts_refl; try apply date_not_before_refl.
  now left.
Qed.

Lemma more_cautious_trans (a b c : Vocab.doc) :
  more_cautious a b -> more_cautious b c -> more_cautious a c.
Proof.
  intros [] []. constructor; try congruence; try lia;
    eauto using ease_not_above_trans, date_not_before_trans, kept_texts_trans.
Qed.

Ltac simpl_body :=
  cbn [fst snd mongo_body _parse_datetime _safe_min_datetime Vocab._id Vocab.fields
       Vocab.term Vocab.termNormalized
       Vocab.meanings Vocab.ipa Vocab.exampleEn Vocab.exampleVi Vocab.mnemonic Vocab.tags
       Vocab.collocations Vocab.phrases Vocab.wordFamily Vocab.topics Vocab.cefrLevel
       Vocab.ieltsBand Vocab.createdAt Vocab.updatedAt Vocab.easeFactor
       Vocab.intervalDays Vocab.repetitions Vocab.lapses Vocab.dueAt
       Vocab.lastReviewedAt Vocab.readdCount Vocab.lastReaddAt].

(** The card that a merge writes, against the stored card it was. *)
Lemma more_cautious_merge (fromisoformat : string -> option (Z * option Z)) (now : datetime)
    (existing : Vocab.doc) (incoming_doc : Vocab.body) :
  stored_body (Vocab.fields existing) ->
  more_cautious existing
    {| Vocab._id := Vocab._id existing;
       Vocab.fields :=
         mongo_body (merge_vocab fromisoformat now (Vocab.fields existing) incoming_doc).1 |}.
Proof.
  intros (Hc & Hu & Hd & Hr & Ha)%stored_body_dates.
  constructor; unfold merge_vocab; simpl_body; try reflexivity; try lia;
    try apply kept_texts_merge;
    try (apply date_not_before_max; assumption);
    try apply ease_not_above_py_min;
    rewrite millis_mongo_date;
    first [apply millis_datetime_min_l; assumption
          | apply millis_datetime_max_l; assumption].
Qed.

(** The merge of two stored cards is a stored card. *)
Lemma merge_vocab_stored (fromisoformat : string -> option (Z * option Z)) (now : datetime)
    (e i : Vocab.body) :
  stored_body e -> stored_body i -> stored_body (merge_vocab fromisoformat now e i).1.
Proof.
  intros (Hc & Hu & Hd & Hr & Ha)%stored_body_dates
         (Hc' & Hu' & Hd' & Hr' & Ha')%stored_body_dates.
  apply stored_body_intro; unfold merge_vocab; simpl_body.
  - now apply stored_date_min.
  - now apply stored_date_max.
  - now apply stored_date_min.
  - intros d. now apply stored_date_safe_max.
  - intros d. now apply stored_date_safe_max.
Qed.

Lemma same_key_refl (d : Vocab.doc) : same_key d d.
Proof. reflexivity. Qed.

Lemma same_key_trans (a b c : Vocab.doc) : same_key a b -> same_key b c -> same_key a c.
Proof. unfold same_key. congruence. Qed.

Lemma more_cautious_same_key (a b : Vocab.doc) : more_cautious a b -> same_key a b.
Proof. intros []. unfold same_key, doc_key. congruence. Qed.

Lemma grown_from_refl (R : Vocab.doc -> Vocab.doc -> Prop) (docs : list Vocab.doc) :
  (forall d, R d d) -> grown_from R docs docs.
Proof.
  intros HR. exists docs, []. split; [now rewrite app_nil_r|].
  induction docs; constructor; auto.
Qed.

Lemma grown_from_trans (R : Vocab.doc -> Vocab.doc -> Prop) (a b c : list Vocab.doc) :
  (forall x y z, R x y -> R y z -> R x z) ->
  grown_from R a b -> grown_from R b c -> grown_from R a c.
Proof.
  intros HR (k1 & a1 & -> & H1) (k2 & a2 & -> & H2).
  apply Forall2_app_inv_l in H2 as (k2a & k2b & Ha & Hb & ->).
  exists k2a, (k2b ++ a2). split; [now rewrite app_assoc|].
  clear Hb. revert k2a Ha. induction H1 as [|x y a k1 Hxy H1 IH]; intros k2a Ha.
  - inversion Ha. constructor.
  - inversion Ha as [|? z ? k' Hyz Hrest]; subst. constructor; eauto.
Qed.

Lemma grown_from_app (R : Vocab.doc -> Vocab.doc -> Prop) (docs added : list Vocab.doc) :
  (forall d, R d d) -> grown_from R docs (docs ++ added).
Proof.
  intros HR. exists docs, added. split; [reflexivity|].
  induction docs; constructor; auto.
Qed.

Lemma update_one_grown (R : Vocab.doc -> Vocab.doc -> Prop) (id : ObjectId) (b : Vocab.body)
    (docs : list Vocab.doc) :
  (forall d, R d d) ->
  (forall d, d ∈ docs -> Vocab._id d = id -> R d {| Vocab._id := Vocab._id d; Vocab.fields := b |}) ->
  grown_from R docs (update_one id b docs).
Proof.
  intros HR Hb. exists (update_one id b docs), []. split; [now rewrite app_nil_r|].
  induction docs as [|d docs IH]; cbn [update_one]; [constructor|].
  destruct (String.eqb_spec (Vocab._id d) id) as [Heq|Hne].
  - constructor; [apply Hb; [now left | exact Heq]|].
    clear -HR. induction docs; constructor; auto.
  - constructor; [apply HR|]. apply IH. intros d' Hd'. apply Hb. now right.
Qed.

Lemma NoDup_ids_eq (docs : list Vocab.doc) (d e : Vocab.doc) :
  NoDup (Vocab._id <$> docs) -> d ∈ docs -> e ∈ docs -> Vocab._id d = Vocab._id e -> d = e.
Proof.
  induction docs as [|x docs IH]; [intros _ H; inversion H|].
  rewrite fmap_cons, NoDup_cons. intros [Hx Hnd] Hd He Hid.
  apply elem_of_cons in Hd as [->|Hd]; apply elem_of_cons in He as [->|He]; auto.
  - exfalso. apply Hx. rewrite Hid. apply list_elem_of_fmap. eauto.
  - exfalso. apply Hx. rewrite <- Hid. apply list_elem_of_fmap. eauto.
Qed.

Lemma find_one_term_None (t : string) (docs : list Vocab.doc) :
  find_one_term t docs = None -> t ∉ term_keys docs.
Proof.
  unfold find_one_term, term_keys. intros Hnone (d & -> & Hd)%list_elem_of_fmap.
  apply list_elem_of_In in Hd.
  pose proof (List.find_none _ _ Hnone d Hd) as H. simpl in H.
  now rewrite String.eqb_refl in H.
Qed.

Lemma same_key_keys (old kept : list Vocab.doc) :
  Forall2 same_key old kept ->
  term_keys kept = term_keys old /\ Vocab._id <$> kept = Vocab._id <$> old.
Proof.
  unfold term_keys, same_key, doc_key.
  induction 1 as [|x y old kept [= Hid Hterm] _ [IH1 IH2]]; [split; reflexivity|].
  rewrite !fmap_cons. split; congruence.
Qed.

Lemma more_cautious_keys (old kept : list Vocab.doc) :
  Forall2 more_cautious old kept ->
  term_keys kept = term_keys old /\ Vocab._id <$> kept = Vocab._id <$> old.
Proof.
  intros H. apply same_key_keys.
  induction H; constructor; auto using more_cautious_same_key.
Qed.

Lemma update_one_stored (id : ObjectId) (b : Vocab.body) (docs : list Vocab.doc) :
  stored_cards docs -> stored_body b -> stored_cards (update_one id b docs).
Proof.
  unfold stored_cards. intros Hdocs Hb.
  induction Hdocs as [|d docs Hd Hdocs IH]; cbn [update_one]; [constructor|].
  destruct (String.eqb _ id); constructor; auto.
Qed.

Lemma update_one_length (id : ObjectId) (b : Vocab.body) (docs : list Vocab.doc) :
  length (update_one id b docs) = length docs.
Proof.
  rewrite <- (length_fmap Vocab._id), update_one_ids. apply length_fmap.
Qed.

Lemma text_conflict_bounds (x y : option string) : 0 <= text_conflict x y <= 1.
Proof. unfold text_conflict. destruct (_ && _); lia. Qed.

Lemma merge_vocab_conflicts (fromisoformat : string -> option (Z * option Z))
    (now : datetime) (e i : Vocab.body) :
  0 <= (merge_vocab fromisoformat now e i).2 <= 5.
Proof.
  unfold merge_vocab. cbn [snd].
  destruct (negb _); [|lia].
  pose proof (text_conflict_bounds (Some (Vocab.term e)) (Some (Vocab.term i))).
  pose proof (text_conflict_bounds (Vocab.ipa e) (Vocab.ipa i)).
  pose proof (text_conflict_bounds (Vocab.exampleEn e) (Vocab.exampleEn i)).
  pose proof (text_conflict_bounds (Vocab.exampleVi e) (Vocab.exampleVi i)).
  pose proof (text_conflict_bounds (Vocab.mnemonic e) (Vocab.mnemonic i)).
  lia.
Qed.

Lemma length_insert_sorted {A} (le : A -> A -> bool) (x : A) (l : list A) :
  length (insert_sorted le x l) = S (length l).
Proof. induction l as [|y l IH]; simpl; [reflexivity|]. destruct (le x y); simpl; congruence. Qed.

Lemma length_sort_by {A} (le : A -> A -> bool) (l : list A) :
  length (sort_by le l) = length l.
Proof.
  unfold sort_by. induction l as [|x l IH]; simpl; [reflexivity|].
  now rewrite length_insert_sorted, IH.
Qed.

Section SyncMore.
Variable sha256 : string -> string.
Variable json_dumps : json -> string.
Variable fromisoformat : string -> option (Z * option Z).
Variable isoformat : datetime -> string.
Variable new_object_id : list Vocab.doc -> ObjectId.

Hypothesis new_object_id_fresh :
  forall docs : list Vocab.doc, new_object_id docs ∉ (Vocab._id <$> docs).

Local Abbreviation import_vocab' :=
  (import_vocab sha256 json_dumps fromisoformat isoformat new_object_id).
Local Abbreviation import_vocabs' :=
  (import_vocabs sha256 json_dumps fromisoformat isoformat new_object_id).
Local Abbreviation import_payload' :=
  (import_payload sha256 json_dumps fromisoformat isoformat new_object_id).

(** One round of the first loop: what it does to the collection and to the
    counters. *)
Lemma import_vocab_grows (now : datetime) (st : VocabLoop) (r : RawVocab.t) :
  NoDup (Vocab._id <$> loop_vocabs st) ->
  let st1 := import_vocab' now st r in
  grown_from same_key (loop_vocabs st) (loop_vocabs st1)
  /\ (stored_cards (loop_vocabs st) ->
      grown_from more_cautious (loop_vocabs st) (loop_vocabs st1)
      /\ stored_cards (loop_vocabs st1))
  /\ (NoDup (term_keys (loop_vocabs st)) -> NoDup (term_keys (loop_vocabs st1)))
  /\ added_vocabs st1 - added_vocabs st
     = Z.of_nat (length (loop_vocabs st1)) - Z.of_nat (length (loop_vocabs st))
  /\ 0 <= updated_vocabs st1 - updated_vocabs st <= 1
  /\ 0 <= loop_conflicts st1 - loop_conflicts st <= 5.
Proof.
  intros Hnd st1. subst st1. unfold import_vocab. cbv zeta.
  destruct (str_truthy (incoming_term_norm r)) eqn:Hkey; cbn [negb].
  2: { split; [apply grown_from_refl, same_key_refl|].
       split; [intros Hs; split; [apply grown_from_refl, more_cautious_refl | exact Hs]|].
       repeat split; auto; lia. }
  destruct (find_one_term (incoming_term_norm r) (loop_vocabs st)) as [existing|] eqn:Hfind.
  - destruct (find_one_term_Some _ _ _ Hfind) as [Hin Hterm].
    pose proof (merge_vocab_conflicts fromisoformat now (Vocab.fields existing)
                  (incoming_doc fromisoformat now r (incoming_term_norm r))) as Hc.
    pose proof (more_cautious_merge fromisoformat now existing
                  (incoming_doc fromisoformat now r (incoming_term_norm r))) as Hmc.
    pose proof (merge_vocab_termNormalized fromisoformat now (Vocab.fields existing)
                  (incoming_doc fromisoformat now r (incoming_term_norm r))) as Hmt.
    destruct (merge_vocab fromisoformat now (Vocab.fields existing) _) as [merged c].
    cbn [fst snd] in Hc, Hmc, Hmt.
    cbn [loop_vocabs added_vocabs updated_vocabs loop_conflicts].
    assert (Hgrown : grown_from same_key (loop_vocabs st)
                       (update_one (Vocab._id existing) (mongo_body merged) (loop_vocabs st))).
    { apply update_one_grown; [exact same_key_refl|].
      intros d Hd Hid. rewrite (NoDup_ids_eq _ d existing Hnd Hd Hin Hid).
      unfold same_key, doc_key. cbn [Vocab._id Vocab.fields mongo_body Vocab.termNormalized].
      now rewrite Hmt. }
    assert (Hcautious : stored_cards (loop_vocabs st) ->
              grown_from more_cautious (loop_vocabs st)
                (update_one (Vocab._id existing) (mongo_body merged) (loop_vocabs st))
              /\ stored_cards
                   (update_one (Vocab._id existing) (mongo_body merged) (loop_vocabs st))).
    { intros Hs. split; [|apply update_one_stored; [exact Hs | apply stored_mongo_body]].
      apply update_one_grown; [exact more_cautious_refl|].
      intros d Hd Hid. rewrite (NoDup_ids_eq _ d existing Hnd Hd Hin Hid). apply Hmc.
      unfold stored_cards in Hs. rewrite Forall_forall in Hs. now apply Hs. }
    destruct (negb _).
    + split; [exact Hgrown|]. split; [exact Hcautious|].
      split; [|rewrite update_one_length; lia].
      destruct Hgrown as (kept & added & Heq & Hkept).
      assert (added = []) as ->.
      { apply (f_equal length) in Heq. rewrite update_one_length, length_app in Heq.
        apply Forall2_length in Hkept. destruct added; [reflexivity | simpl in Heq; lia]. }
      rewrite app_nil_r in Heq. rewrite Heq.
      now rewrite (proj1 (same_key_keys _ _ Hkept)).
    + split; [apply grown_from_refl, same_key_refl|].
      split; [intros Hs; split; [apply grown_from_refl, more_cautious_refl | exact Hs]|].
      split; [auto | lia].
  - cbn [loop_vocabs added_vocabs updated_vocabs loop_conflicts].
    split; [apply grown_from_app, same_key_refl|].
    split.
    { intros Hs. split; [apply grown_from_app, more_cautious_refl|].
      apply Forall_app. split; [exact Hs|]. constructor; [|constructor].
      apply stored_mongo_body. }
    split; [|rewrite length_app; simpl; lia].
    intros Hkeys. unfold term_keys. rewrite fmap_app. apply NoDup_app.
    split; [exact Hkeys|]. split; [|apply NoDup_singleton].
    intros k Hk ->%list_elem_of_singleton. cbn in Hk.
    now apply (find_one_term_None _ _ Hfind).
Qed.

(** The first loop from any state with distinct identities. *)
Lemma import_vocab_fold_grows (now : datetime) (incoming : list RawVocab.t) (st : VocabLoop) :
  NoDup (Vocab._id <$> loop_vocabs st) ->
  let st' := foldl (import_vocab' now) st incoming in
  NoDup (Vocab._id <$> loop_vocabs st')
  /\ grown_from same_key (loop_vocabs st) (loop_vocabs st')
  /\ (stored_cards (loop_vocabs st) ->
      grown_from more_cautious (loop_vocabs st) (loop_vocabs st')
      /\ stored_cards (loop_vocabs st'))
  /\ (NoDup (term_keys (loop_vocabs st)) -> NoDup (term_keys (loop_vocabs st')))
  /\ added_vocabs st' - added_vocabs st
     = Z.of_nat (length (loop_vocabs st')) - Z.of_nat (length (loop_vocabs st))
  /\ 0 <= updated_vocabs st' - updated_vocabs st <= Z.of_nat (length incoming)
  /\ 0 <= loop_conflicts st' - loop_conflicts st <= 5 * Z.of_nat (length incoming).
Proof.
  revert st. induction incoming as [|r incoming IH]; intros st Hnd.
  - simpl. split; [exact Hnd|]. split; [apply grown_from_refl, same_key_refl|].
    split; [intros Hs; split; [apply grown_from_refl, more_cautious_refl | exact Hs]|].
    repeat split; auto; lia.
  - cbv zeta. rewrite foldl_step.
    destruct (import_vocab_step sha256 json_dumps fromisoformat isoformat new_object_id
                new_object_id_fresh now st r Hnd) as (Hnd1 & _).
    destruct (import_vocab_grows now st r Hnd) as (Hg1 & Hs1 & Hk1 & Ha1 & Hu1 & Hc1).
    destruct (IH _ Hnd1) as (Hnd' & Hg' & Hs' & Hk' & Ha' & Hu' & Hc').
    split; [exact Hnd'|].
    split; [exact (grown_from_trans _ _ _ _ same_key_trans Hg1 Hg')|].
    split.
    { intros Hs. destruct (Hs1 Hs) as [Hm1 Hst1]. destruct (Hs' Hst1) as [Hm' Hst'].
      split; [exact (grown_from_trans _ _ _ _ more_cautious_trans Hm1 Hm') | exact Hst']. }
    split; [auto|]. cbn [length]. repeat split; lia.
Qed.

Lemma import_payload_vocabs (db : Store) (payload : Payload.t) (now : datetime) :
  let st := import_vocabs' now (vocabs db) (Payload.vocabs payload) in
  vocabs (import_payload' db payload now).2 = loop_vocabs st
  /\ addedVocabs (import_payload' db payload now).1 = added_vocabs st
  /\ updatedVocabs (import_payload' db payload now).1 = updated_vocabs st
  /\ conflicts (import_payload' db payload now).1 = loop_conflicts st.
Proof. repeat split. Qed.

(** *** A second import *)

Lemma clean_strings_self (l : list string) :
  clean_strings l -> _merge_unique_strings l l = l.
Proof.
  intros Hl. apply _merge_unique_strings_absorb; [exact Hl|].
  intros x Hx. right. destruct Hl as [_ Hall]. rewrite Forall_forall in Hall.
  destruct (Hall x Hx) as [_ ->]. exact Hx.
Qed.

Lemma clean_family_self (f : list (string * list string)) :
  clean_family f -> _merge_word_family f f = f.
Proof.
  intros Hf. rewrite _merge_word_family_unfold, (_normalize_word_family_fixed f Hf).
  apply merge_roles_fixed. intros k v Hin. exists v.
  destruct Hf as [Hnd Hall]. split; [now apply dict_get_NoDup|].
  rewrite Forall_forall in Hall. destruct (Hall _ Hin) as (_ & _ & Hv).
  now apply clean_strings_self.
Qed.

Lemma text_merged_self (x : option string) : text_merged x x = x.
Proof. unfold text_merged. now destruct (opt_truthy x). Qed.

Lemma text_conflict_self (x : option string) : text_conflict x x = 0.
Proof.
  unfold text_conflict. rewrite bool_decide_eq_true_2 by reflexivity.
  now rewrite andb_false_r.
Qed.

Lemma py_min_self (a : float) : py_min a a = a.
Proof. unfold py_min. now rewrite ltb_irrefl. Qed.

Lemma datetime_min_self (d : datetime) : datetime_min d d = d.
Proof. unfold datetime_min. now rewrite datetime_ltb_irrefl. Qed.

Lemma datetime_max_self (d : datetime) : datetime_max d d = d.
Proof. unfold datetime_max. now rewrite datetime_ltb_irrefl. Qed.

Lemma _safe_max_datetime_self (x : option datetime) : _safe_max_datetime x x = x.
Proof. destruct x; simpl; f_equal; apply datetime_max_self. Qed.

Lemma merge_vocab_self (now : datetime) (b : Vocab.body) :
  clean_body b -> merge_vocab fromisoformat now b b = (b, 0).
Proof.
  intros (Hm & Ht & Hc & Hp & Ho & Hf). unfold merge_vocab.
  cbn [_parse_datetime _safe_min_datetime].
  rewrite !clean_strings_self, clean_family_self, py_min_self, !_safe_max_datetime_self
    by assumption.
  rewrite !text_merged_self, !text_conflict_self, !Z.min_id, !Z.max_id,
    !datetime_min_self, !datetime_max_self.
  destruct b; simpl_body. cbn [default from_option id].
  f_equal; [|now destruct (negb _)]. f_equal.
  - now destruct (negb _).
  - now destruct (negb _).
  - now destruct (negb _).
  - now destruct (negb _).
  - now destruct (negb _).
  - now destruct (opt_truthy _).
  - now destruct ieltsBand.
Qed.

Lemma incoming_doc_clean (now : datetime) (r : RawVocab.t) (k : string) :
  clean_body (incoming_doc fromisoformat now r k).
Proof.
  unfold clean_body, incoming_doc. cbn.
  repeat split; try apply _merge_unique_strings_clean_strings;
    apply _normalize_word_family_clean.
Qed.

Lemma merge_vocab_clean_body (now : datetime) (e i : Vocab.body) :
  clean_body (merge_vocab fromisoformat now e i).1.
Proof.
  unfold clean_body, merge_vocab. cbn.
  repeat split; try apply _merge_unique_strings_clean_strings;
    apply _merge_word_family_clean.
Qed.

Lemma merge_vocab_now (now now' : datetime) (e i : Vocab.body) :
  merge_vocab fromisoformat now e i = merge_vocab fromisoformat now' e i.
Proof. reflexivity. Qed.

Lemma find_one_term_app (t : string) (docs extra : list Vocab.doc) (d : Vocab.doc) :
  find_one_term t docs = Some d -> find_one_term t (docs ++ extra) = Some d.
Proof.
  unfold find_one_term. induction docs as [|x docs IH]; simpl; [discriminate|].
  destruct (String.eqb _ t); [trivial | exact IH].
Qed.

Lemma find_one_term_snoc (t : string) (docs : list Vocab.doc) (d : Vocab.doc) :
  find_one_term t docs = None -> Vocab.termNormalized (Vocab.fields d) = t ->
  find_one_term t (docs ++ [d]) = Some d.
Proof.
  unfold find_one_term. intros Hnone Hd.
  induction docs as [|x docs IH]; simpl in *.
  - now rewrite Hd, String.eqb_refl.
  - destruct (String.eqb _ t); [discriminate | now apply IH].
Qed.

(** An update of a card leaves the search for another term as it was. *)
Lemma find_one_term_update_other (t : string) (existing : Vocab.doc) (b : Vocab.body)
    (docs : list Vocab.doc) :
  NoDup (Vocab._id <$> docs) -> existing ∈ docs ->
  Vocab.termNormalized (Vocab.fields existing) <> t ->
  Vocab.termNormalized b = Vocab.termNormalized (Vocab.fields existing) ->
  find_one_term t (update_one (Vocab._id existing) b docs) = find_one_term t docs.
Proof.
  intros Hnd Hin Hne Hb. unfold find_one_term.
  induction docs as [|d docs IH]; cbn [update_one]; [reflexivity|].
  rewrite fmap_cons, NoDup_cons in Hnd. destruct Hnd as [Hd Hnd].
  destruct (String.eqb_spec (Vocab._id d) (Vocab._id existing)) as [Heq|Hneq].
  - assert (d = existing) as ->.
    { apply elem_of_cons in Hin as [->|Hin]; [reflexivity|].
      exfalso. apply Hd. rewrite Heq. apply list_elem_of_fmap. eauto. }
    simpl. rewrite Hb.
    destruct (String.eqb_spec (Vocab.termNormalized (Vocab.fields existing)) t);
      [contradiction | reflexivity].
  - simpl. destruct (String.eqb _ t); [reflexivity|].
    apply IH; [exact Hnd|].
    apply elem_of_cons in Hin as [->|Hin]; [congruence | exact Hin].
Qed.

(** The update of the card found for a term puts the new body in its
    place. *)
Lemma find_one_term_update_same (t : string) (existing : Vocab.doc) (b : Vocab.body)
    (docs : list Vocab.doc) :
  NoDup (Vocab._id <$> docs) ->
  find_one_term t docs = Some existing ->
  Vocab.termNormalized b = t ->
  find_one_term t (update_one (Vocab._id existing) b docs)
  = Some {| Vocab._id := Vocab._id existing; Vocab.fields := b |}.
Proof.
  intros Hnd Hfind Hb. unfold find_one_term in *.
  induction docs as [|d docs IH]; cbn [update_one]; [discriminate|].
  rewrite fmap_cons, NoDup_cons in Hnd. destruct Hnd as [Hd Hnd].
  simpl in Hfind.
  destruct (String.eqb_spec (Vocab.termNormalized (Vocab.fields d)) t) as [Ht|Ht].
  - injection Hfind as ->. rewrite String.eqb_refl. simpl.
    now rewrite Hb, String.eqb_refl.
  - assert (Hin : existing ∈ docs).
    { apply List.find_some in Hfind as [Hin _]. now apply list_elem_of_In. }
    destruct (String.eqb_spec (Vocab._id d) (Vocab._id existing)) as [Heq|Hneq].
    + exfalso. apply Hd. rewrite Heq. apply list_elem_of_fmap. eauto.
    + simpl. destruct (String.eqb_spec (Vocab.termNormalized (Vocab.fields d)) t);
        [contradiction|]. now apply IH.
Qed.

Local Abbreviation settled' := (settled sha256 json_dumps fromisoformat isoformat).

(** A card that is dated is read, at any time, as the store keeps it. *)
Lemma card_dated_stored (now : datetime) (r : RawVocab.t) :
  card_dated fromisoformat r ->
  stored_body (incoming_doc fromisoformat now r (incoming_term_norm r)).
Proof. intros Hr. exact (Hr now now). Qed.

Lemma card_dated_now (now now' : datetime) (r : RawVocab.t) :
  card_dated fromisoformat r ->
  incoming_doc fromisoformat now r (incoming_term_norm r)
  = incoming_doc fromisoformat now' r (incoming_term_norm r).
Proof. intros Hr. rewrite <- (Hr now now'). symmetry. exact (Hr now now). Qed.

Lemma settled_now (now now' : datetime) (docs : list Vocab.doc) (r : RawVocab.t) :
  card_dated fromisoformat r -> settled' now docs r -> settled' now' docs r.
Proof.
  intros Hr (d & Hd & Hh). exists d. split; [exact Hd|].
  rewrite <- (card_dated_now now now' r Hr). exact Hh.
Qed.

(** One round of the first loop settles its record. *)
Lemma import_vocab_settles (now : datetime) (st : VocabLoop) (r : RawVocab.t) :
  NoDup (Vocab._id <$> loop_vocabs st) ->
  stored_cards (loop_vocabs st) ->
  card_dated fromisoformat r ->
  str_truthy (incoming_term_norm r) = true ->
  settled' now (loop_vocabs (import_vocab' now st r)) r.
Proof.
  intros Hnd Hstored Hdated Hkey. unfold import_vocab. cbv zeta. rewrite Hkey. cbn [negb].
  pose proof (card_dated_stored now r Hdated) as Hdoc.
  set (k := incoming_term_norm r) in *.
  set (doc := incoming_doc fromisoformat now r k) in *.
  destruct (find_one_term k (loop_vocabs st)) as [existing|] eqn:Hfind.
  - destruct (find_one_term_Some _ _ _ Hfind) as [Hin Hterm].
    pose proof (merge_vocab_absorb fromisoformat now now (Vocab.fields existing) doc) as Habs.
    assert (Hkept : stored_body (merge_vocab fromisoformat now (Vocab.fields existing) doc).1).
    { apply merge_vocab_stored; [|exact Hdoc].
      unfold stored_cards in Hstored. rewrite Forall_forall in Hstored. now apply Hstored. }
    destruct (merge_vocab fromisoformat now (Vocab.fields existing) doc) as [merged c] eqn:Hm.
    cbn [fst] in Habs, Hkept. unfold stored_body in Hkept. rewrite Hkept. cbn [loop_vocabs].
    destruct (String.eqb_spec
                (stable_hash sha256 json_dumps (_serialize_doc isoformat (Vocab.fields existing)))
                (stable_hash sha256 json_dumps (_serialize_doc isoformat merged))) as [Heq|Hne];
      cbn [negb].
    + exists existing. split; [exact Hfind|]. fold k doc. now rewrite Hm.
    + exists {| Vocab._id := Vocab._id existing; Vocab.fields := merged |}.
      split.
      * apply find_one_term_update_same; [exact Hnd | exact Hfind|].
        change merged with (merged, c).1. rewrite <- Hm. exact Hterm.
      * fold k doc. cbn [Vocab.fields]. now rewrite Habs.
  - cbn [loop_vocabs]. unfold stored_body in Hdoc. rewrite Hdoc. eexists. split.
    + apply find_one_term_snoc; [exact Hfind | reflexivity].
    + fold k doc. cbn [Vocab.fields].
      now rewrite (merge_vocab_self now doc (incoming_doc_clean now r k)).
Qed.

(** One round of the first loop leaves the records of other terms settled. *)
Lemma import_vocab_keeps_settled (now : datetime) (st : VocabLoop) (r r0 : RawVocab.t) :
  NoDup (Vocab._id <$> loop_vocabs st) ->
  (str_truthy (incoming_term_norm r) = true -> incoming_term_norm r <> incoming_term_norm r0) ->
  settled' now (loop_vocabs st) r0 ->
  settled' now (loop_vocabs (import_vocab' now st r)) r0.
Proof.
  intros Hnd Hother (d & Hd & Hh). exists d. split; [|exact Hh].
  unfold import_vocab. cbv zeta.
  destruct (str_truthy (incoming_term_norm r)) eqn:Hkey; cbn [negb]; [|exact Hd].
  specialize (Hother eq_refl).
  destruct (find_one_term (incoming_term_norm r) (loop_vocabs st)) as [existing|] eqn:Hfind.
  - destruct (find_one_term_Some _ _ _ Hfind) as [Hin Hterm].
    destruct (merge_vocab fromisoformat now (Vocab.fields existing) _) as [merged c] eqn:Hm.
    cbn [loop_vocabs]. destruct (negb _); [|exact Hd].
    rewrite find_one_term_update_other; [exact Hd | exact Hnd | exact Hin | congruence |].
    cbn [mongo_body Vocab.termNormalized].
    change merged with (merged, c).1. now rewrite <- Hm.
  - cbn [loop_vocabs]. now apply find_one_term_app.
Qed.

Lemma import_vocab_fold_keeps_settled (now : datetime) (incoming : list RawVocab.t)
    (st : VocabLoop) (r0 : RawVocab.t) :
  NoDup (Vocab._id <$> loop_vocabs st) ->
  incoming_term_norm r0 ∉ incoming_keys incoming ->
  settled' now (loop_vocabs st) r0 ->
  settled' now (loop_vocabs (foldl (import_vocab' now) st incoming)) r0.
Proof.
  revert st. induction incoming as [|r incoming IH]; intros st Hnd Hk Hs; [exact Hs|].
  rewrite foldl_step.
  destruct (import_vocab_step sha256 json_dumps fromisoformat isoformat new_object_id
              new_object_id_fresh now st r Hnd) as (Hnd1 & _).
  unfold incoming_keys in Hk. rewrite filter_cons in Hk.
  apply IH; [exact Hnd1| |].
  - destruct (decide _) as [Ht|Ht]; [|exact Hk].
    rewrite fmap_cons in Hk. now apply not_elem_of_cons in Hk as [_ Hk].
  - apply import_vocab_keeps_settled; [exact Hnd | | exact Hs].
    intros Ht Heq. destruct (decide _) as [_|Hn]; [|contradiction].
    rewrite fmap_cons in Hk. apply not_elem_of_cons in Hk as [Hk _]. congruence.
Qed.

(** The first loop settles every record, when no two of them share a term. *)
Lemma import_vocab_fold_settles (now : datetime) (incoming : list RawVocab.t) (st : VocabLoop) :
  NoDup (Vocab._id <$> loop_vocabs st) ->
  stored_cards (loop_vocabs st) ->
  Forall (card_dated fromisoformat) incoming ->
  NoDup (incoming_keys incoming) ->
  forall r, r ∈ incoming -> str_truthy (incoming_term_norm r) = true ->
    settled' now (loop_vocabs (foldl (import_vocab' now) st incoming)) r.
Proof.
  revert st.
  induction incoming as [|r incoming IH]; intros st Hnd Hstored Hdated Hkeys r0 Hr0 Ht0;
    [inversion Hr0|].
  rewrite foldl_step.
  destruct (import_vocab_step sha256 json_dumps fromisoformat isoformat new_object_id
              new_object_id_fresh now st r Hnd) as (Hnd1 & _).
  destruct (import_vocab_grows now st r Hnd) as (_ & Hs1 & _).
  destruct (Hs1 Hstored) as [_ Hstored1].
  apply Forall_cons in Hdated as [Hr Hdated].
  unfold incoming_keys in Hkeys. rewrite filter_cons in Hkeys.
  apply elem_of_cons in Hr0 as [->|Hr0].
  - rewrite decide_True in Hkeys by exact Ht0.
    rewrite fmap_cons in Hkeys. apply NoDup_cons in Hkeys as [Hfresh _].
    apply import_vocab_fold_keeps_settled; [exact Hnd1 | exact Hfresh|].
    now apply import_vocab_settles.
  - apply IH; [exact Hnd1 | exact Hstored1 | exact Hdated | | exact Hr0 | exact Ht0].
    destruct (decide _); [|exact Hkeys].
    rewrite fmap_cons in Hkeys. now apply NoDup_cons in Hkeys as [_ Hkeys].
Qed.

(** On settled records the first loop changes neither the collection nor
    the counts of added and updated cards. *)
Lemma import_vocab_fold_quiet (now : datetime) (incoming : list RawVocab.t) (st : VocabLoop) :
  (forall r, r ∈ incoming -> str_truthy (incoming_term_norm r) = true ->
     settled' now (loop_vocabs st) r) ->
  let st' := foldl (import_vocab' now) st incoming in
  loop_vocabs st' = loop_vocabs st
  /\ added_vocabs st' = added_vocabs st
  /\ updated_vocabs st' = updated_vocabs st.
Proof.
  revert st. induction incoming as [|r incoming IH]; intros st Hall; [simpl; auto|].
  cbv zeta. rewrite foldl_step.
  assert (Hstep : loop_vocabs (import_vocab' now st r) = loop_vocabs st
                  /\ added_vocabs (import_vocab' now st r) = added_vocabs st
                  /\ updated_vocabs (import_vocab' now st r) = updated_vocabs st).
  { unfold import_vocab. cbv zeta.
    destruct (str_truthy (incoming_term_norm r)) eqn:Hkey; cbn [negb]; [|auto].
    destruct (Hall r ltac:(now left) Hkey) as (d & Hd & Hh). rewrite Hd.
    destruct (merge_vocab fromisoformat now (Vocab.fields d) _) as [merged c] eqn:Hm.
    cbn [fst] in Hh. cbn [loop_vocabs added_vocabs updated_vocabs].
    rewrite Hh, String.eqb_refl. cbn [negb]. repeat split. lia. }
  destruct Hstep as (Hv & Ha & Hu).
  destruct (IH (import_vocab' now st r)) as (Hv' & Ha' & Hu').
  { intros r' Hr' Ht'. rewrite Hv. apply Hall; [now right | exact Ht']. }
  repeat split; congruence.
Qed.

Lemma insert_sorted_Permutation {A} (le : A -> A -> bool) (x : A) (l : list A) :
  insert_sorted le x l ≡ₚ x :: l.
Proof.
  induction l as [|y l IH]; simpl; [reflexivity|].
  destruct (le x y); [reflexivity|]. rewrite IH. apply Permutation_swap.
Qed.

Lemma sort_by_Permutation {A} (le : A -> A -> bool) (l : list A) : sort_by le l ≡ₚ l.
Proof.
  unfold sort_by. induction l as [|x l IH]; simpl; [reflexivity|].
  now rewrite insert_sorted_Permutation, IH.
Qed.

Lemma incoming_keys_sort_by (le : RawVocab.t -> RawVocab.t -> bool)
    (incoming : list RawVocab.t) :
  incoming_keys (sort_by le incoming) ≡ₚ incoming_keys incoming.
Proof. unfold incoming_keys. now rewrite sort_by_Permutation. Qed.

Local Abbreviation hash' := (_log_dedup_hash sha256 json_dumps isoformat).
Local Abbreviation import_log' := (import_log sha256 json_dumps fromisoformat isoformat).

(** The second of two imports of a snapshot: the cards it finds are those
    the first one left, and it leaves them as they are. *)
Lemma import_vocabs_again (db : Store) (payload : Payload.t) (now1 now2 : datetime) :
  NoDup (Vocab._id <$> vocabs db) ->
  stored_cards (vocabs db) ->
  NoDup (incoming_keys (Payload.vocabs payload)) ->
  Forall (card_dated fromisoformat) (Payload.vocabs payload) ->
  let st1 := import_vocabs' now1 (vocabs db) (Payload.vocabs payload) in
  let st2 := import_vocabs' now2 (loop_vocabs st1) (Payload.vocabs payload) in
  loop_vocabs st2 = loop_vocabs st1
  /\ added_vocabs st2 = 0 /\ updated_vocabs st2 = 0
  /\ source_vocab_to_local st2 = source_vocab_to_local st1.
Proof.
  intros Hnd Hstored Hkeys Hdated. unfold import_vocabs.
  set (cards := sort_by (fun a b => String.leb (incoming_term_norm a) (incoming_term_norm b))
                  (Payload.vocabs payload)).
  assert (Hkeys' : NoDup (incoming_keys cards)).
  { unfold cards. now rewrite incoming_keys_sort_by. }
  assert (Hdated' : Forall (card_dated fromisoformat) cards).
  { apply Forall_forall. intros r Hr. rewrite Forall_forall in Hdated. apply Hdated.
    unfold cards in Hr. now apply elem_of_sort_by in Hr. }
  pose proof (import_vocab_fold_settles now1 cards (vocab_loop_start (vocabs db)) Hnd
                Hstored Hdated' Hkeys') as Hsettled.
  destruct (import_vocab_fold sha256 json_dumps fromisoformat isoformat new_object_id
              new_object_id_fresh now1 cards (vocab_loop_start (vocabs db)) Hnd)
    as (Hnd1 & _ & _ & Hmap1).
  set (st1 := foldl (import_vocab' now1) (vocab_loop_start (vocabs db)) cards) in *.
  destruct (import_vocab_fold_quiet now2 cards (vocab_loop_start (loop_vocabs st1)))
    as (Hv & Ha & Hu).
  { intros r Hr Ht. apply (settled_now now1); [|now apply Hsettled].
    rewrite Forall_forall in Hdated. apply Hdated.
    unfold cards in Hr. now apply elem_of_sort_by in Hr. }
  destruct (import_vocab_fold sha256 json_dumps fromisoformat isoformat new_object_id
              new_object_id_fresh now2 cards (vocab_loop_start (loop_vocabs st1)) Hnd1)
    as (_ & _ & _ & Hmap2).
  cbv zeta.
  set (st2 := foldl (import_vocab' now2) (vocab_loop_start (loop_vocabs st1)) cards) in *.
  split; [exact Hv|]. split; [exact Ha|]. split; [exact Hu|].
  rewrite Hmap2, Hmap1, Hv. reflexivity.
Qed.

Lemma find_id_elem (t : string) (docs : list Vocab.doc) (i : ObjectId) :
  find_id t docs = Some i -> i ∈ Vocab._id <$> docs.
Proof.
  unfold find_id. destruct (find_one_term t docs) as [d|] eqn:Hd; [|discriminate].
  intros [= <-]. apply find_one_term_Some in Hd as [Hd _].
  apply list_elem_of_fmap. eauto.
Qed.

Lemma mapping_of_range (docs : list Vocab.doc) (incoming : list RawVocab.t)
    (start : gmap string ObjectId) :
  (forall k i, start !! k = Some i -> i ∈ Vocab._id <$> docs) ->
  forall k i, mapping_of docs incoming start !! k = Some i -> i ∈ Vocab._id <$> docs.
Proof.
  unfold mapping_of. revert start.
  induction incoming as [|r incoming IH]; intros start Hstart; [exact Hstart|].
  rewrite foldl_step. apply IH.
  destruct (str_truthy (incoming_term_norm r)); [|exact Hstart].
  destruct (find_id (incoming_term_norm r) docs) as [j|] eqn:Hj; [|exact Hstart].
  intros k i. rewrite lookup_insert_Some.
  intros [[_ <-]|[_ Hk]]; [now apply (find_id_elem _ _ _ Hj) | now apply (Hstart k)].
Qed.

Lemma resolve_vocab_id_elem (docs : list Vocab.doc) (mapping : gmap string ObjectId)
    (log : RawLog.t) (id : ObjectId) :
  (forall k i, mapping !! k = Some i -> i ∈ Vocab._id <$> docs) ->
  resolve_vocab_id docs mapping log = Some id -> id ∈ Vocab._id <$> docs.
Proof.
  intros Hmap. unfold resolve_vocab_id.
  destruct (mapping !! _) as [i|] eqn:Hi.
  - intros [= <-]. now apply (Hmap _ _ Hi).
  - destruct (ObjectId_is_valid _); [|discriminate].
    case_bool_decide as Hin; [|discriminate]. now intros [= <-].
Qed.

(** ** What an import does to a store *)

Lemma import_vocabs_grows (now : datetime) (docs : list Vocab.doc) (incoming : list RawVocab.t) :
  NoDup (Vocab._id <$> docs) ->
  let st := import_vocabs' now docs incoming in
  NoDup (Vocab._id <$> loop_vocabs st)
  /\ grown_from same_key docs (loop_vocabs st)
  /\ (stored_cards docs ->
      grown_from more_cautious docs (loop_vocabs st) /\ stored_cards (loop_vocabs st))
  /\ (NoDup (term_keys docs) -> NoDup (term_keys (loop_vocabs st)))
  /\ added_vocabs st = Z.of_nat (length (loop_vocabs st)) - Z.of_nat (length docs)
  /\ 0 <= updated_vocabs st <= Z.of_nat (length incoming)
  /\ 0 <= loop_conflicts st <= 5 * Z.of_nat (length incoming).
Proof.
  intros Hnd. unfold import_vocabs.
  set (cards := sort_by (fun a b => String.leb (incoming_term_norm a) (incoming_term_norm b))
                  incoming).
  destruct (import_vocab_fold_grows now cards (vocab_loop_start docs) Hnd)
    as (H1 & H2 & H2' & H3 & H4 & H5 & H6).
  assert (Hlen : length cards = length incoming) by apply length_sort_by.
  rewrite Hlen in H5, H6.
  cbn [vocab_loop_start loop_vocabs added_vocabs updated_vocabs loop_conflicts] in *.
  cbv zeta. split; [exact H1|]. split; [exact H2|]. split; [exact H2'|].
  split; [exact H3|]. repeat split; lia.
Qed.

(** X7.  An import loses no card.  On a store whose cards have distinct
    identities, the cards after the import are those of before, in their
    order, each one with its identity and term, and then the cards added,
    and the identities stay distinct.  When the dates of the cards are as the
    store keeps them (in UTC and in whole milliseconds, as every write of the
    program leaves them), each card of before has moreover a schedule that is
    not more advanced, counters that are not lower and every text of its
    lists, and the dates after the import are as the store keeps them. *)
Theorem import_keeps_cards (db : Store) (payload : Payload.t) (now : datetime) :
  NoDup (Vocab._id <$> vocabs db) ->
  let db' := (import_payload' db payload now).2 in
  NoDup (Vocab._id <$> vocabs db')
  /\ grown_from same_key (vocabs db) (vocabs db')
  /\ (stored_cards (vocabs db) ->
      grown_from more_cautious (vocabs db) (vocabs db')
      /\ stored_cards (vocabs db')).
Proof.
  intros Hnd db'. subst db'.
  destruct (import_payload_vocabs db payload now) as (-> & _).
  destruct (import_vocabs_grows now (vocabs db) (Payload.vocabs payload) Hnd)
    as (H1 & Hsame & H2 & _).
  auto.
Qed.

(** X8.  An import keeps the terms unique.  On a store where no two cards
    share an identity or a normalised term, no two cards share one after the
    import. *)
Theorem import_keeps_terms_unique (db : Store) (payload : Payload.t) (now : datetime) :
  NoDup (Vocab._id <$> vocabs db) ->
  NoDup (term_keys (vocabs db)) ->
  NoDup (term_keys (vocabs (import_payload' db payload now).2)).
Proof.
  intros Hnd Hterms.
  destruct (import_payload_vocabs db payload now) as (-> & _).
  destruct (import_vocabs_grows now (vocabs db) (Payload.vocabs payload) Hnd)
    as (_ & _ & _ & H3 & _).
  exact (H3 Hterms).
Qed.


(** X10.  The logs an import adds belong to cards of the store: each log of
    the store after the import was there before, or carries the identity of
    a card of the store. *)
Theorem imported_logs_have_cards (db : Store) (payload : Payload.t) (now : datetime) (n : Log.doc) :
  NoDup (Vocab._id <$> vocabs db) ->
  let db' := (import_payload' db payload now).2 in
  n ∈ review_logs db' ->
  n ∈ review_logs db \/ Log.vocabId n ∈ Vocab._id <$> vocabs db'.
Proof.
  intros Hnd db'. subst db'. unfold import_payload. cbn [snd review_logs vocabs].
  unfold import_vocabs.
  set (cards := sort_by (fun a b => String.leb (incoming_term_norm a) (incoming_term_norm b))
                  (Payload.vocabs payload)).
  destruct (import_vocab_fold sha256 json_dumps fromisoformat isoformat new_object_id
              new_object_id_fresh now cards (vocab_loop_start (vocabs db)) Hnd)
    as (_ & _ & _ & Hmap).
  set (st := foldl (import_vocab' now) (vocab_loop_start (vocabs db)) cards) in *.
  intros [Hn|(n0 & -> & Hn)%list_elem_of_fmap]%elem_of_app; [now left|]. right.
  unfold import_logs in Hn.
  apply import_log_fold_origin in Hn as [Hn|(log & id & _ & Hres & ->)]; [inversion Hn|].
  cbn [mongo_log normalized_log Log.vocabId].
  refine (resolve_vocab_id_elem _ _ _ _ _ Hres).
  rewrite Hmap. apply mapping_of_range. intros k i Hk.
  cbn [vocab_loop_start source_vocab_to_local] in Hk. now rewrite lookup_empty in Hk.
Qed.

(** X11.  A snapshot imported a second time changes neither the cards nor
    the logs.  On a store whose cards have distinct identities and dates as
    the store keeps them, for a snapshot whose cards have distinct terms and
    whose cards and logs carry dates that are read as the store keeps them
    (in UTC and in whole milliseconds, as an export writes them), the second
    import leaves the cards and the logs of the first as they are, and
    reports no card added or updated and no log added. *)
Theorem import_again_changes_nothing (db : Store) (payload : Payload.t)
    (now1 now2 : datetime) :
  NoDup (Vocab._id <$> vocabs db) ->
  stored_cards (vocabs db) ->
  NoDup (incoming_keys (Payload.vocabs payload)) ->
  Forall (card_dated fromisoformat) (Payload.vocabs payload) ->
  Forall (well_dated fromisoformat) (Payload.review_logs payload) ->
  let db1 := (import_payload' db payload now1).2 in
  let report2 := (import_payload' db1 payload now2).1 in
  let db2 := (import_payload' db1 payload now2).2 in
  vocabs db2 = vocabs db1 /\ review_logs db2 = review_logs db1
  /\ addedVocabs report2 = 0 /\ updatedVocabs report2 = 0 /\ addedLogs report2 = 0.
Proof.
  intros Hnd Hstored Hkeys Hcards Hlogs db1 report2 db2. subst report2 db2 db1.
  unfold import_payload.
  cbn [fst snd vocabs review_logs addedVocabs updatedVocabs addedLogs].
  destruct (import_vocabs_again db payload now1 now2 Hnd Hstored Hkeys Hcards)
    as (Hv & Ha & Hu & Hmap).
  set (st1 := import_vocabs' now1 (vocabs db) (Payload.vocabs payload)) in *.
  set (st2 := import_vocabs' now2 (loop_vocabs st1) (Payload.vocabs payload)) in *.
  rewrite Hv, Hmap.
  assert (Hnone : import_logs sha256 json_dumps fromisoformat isoformat now2 (loop_vocabs st1)
                    (source_vocab_to_local st1)
                    (review_logs db
                     ++ (mongo_log
                           <$> import_logs sha256 json_dumps fromisoformat isoformat now1
                                 (loop_vocabs st1) (source_vocab_to_local st1) (review_logs db)
                                 (Payload.review_logs payload)))
                    (Payload.review_logs payload) = []).
  { unfold import_logs.
    set (logs := sort_by (fun a b => String.leb (opt_or (RawLog.createdAt a) "")
                                       (opt_or (RawLog.createdAt b) ""))
                   (Payload.review_logs payload)).
    pose proof (import_log_fold_origin sha256 json_dumps fromisoformat isoformat now1
                  (loop_vocabs st1) (source_vocab_to_local st1) logs
                  (list_to_set (hash' <$> review_logs db)) []) as Horigin.
    destruct (import_log_fold sha256 json_dumps fromisoformat isoformat new_object_id now1
                (loop_vocabs st1)
                (source_vocab_to_local st1) logs
                (list_to_set (hash' <$> review_logs db)) [])
      as (accepted & Hfold1 & _ & _ & Hall).
    rewrite Hfold1 in *. cbn [snd app] in *.
    assert (Hkept : mongo_log <$> accepted = accepted).
    { apply list_eq_same_length with (length accepted);
        [reflexivity | now rewrite length_fmap|].
      intros i x y _ Hx Hy. rewrite list_lookup_fmap, Hy in Hx. injection Hx as <-.
      destruct (Horigin y) as [Hnil|(log & id & Hlog & _ & ->)];
        [eapply list_elem_of_lookup_2; exact Hy | inversion Hnil|].
      apply normalized_log_well_dated.
      apply elem_of_sort_by in Hlog. rewrite Forall_forall in Hlogs. now apply Hlogs. }
    rewrite Hkept.
    rewrite import_log_fold_known; [reflexivity|].
    intros log id Hlog Hres. specialize (Hall log id Hlog Hres).
    assert (Hsame : normalized_log fromisoformat now2 id log
                    = normalized_log fromisoformat now1 id log).
    { apply elem_of_sort_by in Hlog. rewrite Forall_forall in Hlogs.
      rewrite <- (normalized_log_well_dated fromisoformat now1 now2 id log (Hlogs log Hlog)).
      apply normalized_log_well_dated. now apply Hlogs. }
    rewrite Hsame.
    apply elem_of_list_to_set. rewrite fmap_app. apply elem_of_app.
    apply elem_of_union in Hall as [Hall|Hall]; apply elem_of_list_to_set in Hall; auto. }
  rewrite Hnone. cbn [fmap list_fmap]. rewrite app_nil_r. auto.
Qed.
End SyncMore.

Lemma sample_store_ids : NoDup (Vocab._id <$> vocabs sample_store).
Proof. apply (bool_decide_unpack _). vm_compute. exact I. Qed.

Lemma sample_store_stored : stored_cards (vocabs sample_store).
Proof. repeat (constructor; [vm_compute; reflexivity|]). constructor. Qed.

Lemma import_keeps_cards_witness :
  NoDup (Vocab._id <$> vocabs sample_store)
  /\ stored_cards (vocabs sample_store)
  /\ grown_from more_cautious (vocabs sample_store)
       (vocabs (sample_import sample_store sample_payload sample_now).2).
Proof.
  split; [exact sample_store_ids|]. split; [exact sample_store_stored|].
  exact (proj1 (proj2 (proj2
           (import_keeps_cards sample_sha256 sample_json_dumps sample_fromisoformat
              sample_isoformat sample_new_object_id sample_new_object_id_fresh
              sample_store sample_payload sample_now sample_store_ids))
           sample_store_stored)).
Defined.

Lemma import_keeps_terms_unique_witness :
  NoDup (term_keys (vocabs sample_store))
  /\ NoDup (term_keys (vocabs (sample_import sample_store sample_payload sample_now).2)).
Proof.
  assert (Hterms : NoDup (term_keys (vocabs sample_store)))
    by (apply (bool_decide_unpack _); vm_compute; exact I).
  split; [exact Hterms|].
  exact (import_keeps_terms_unique sample_sha256 sample_json_dumps sample_fromisoformat
           sample_isoformat sample_new_object_id sample_new_object_id_fresh
           sample_store sample_payload sample_now sample_store_ids Hterms).
Defined.


Lemma imported_logs_have_cards_witness :
  let n := normalized_log sample_fromisoformat sample_now "65a000000000000000000001"
             (sample_raw_log "77c000000000000000000001" 2
                (Some "2023-11-14T22:13:20+00:00")) in
  n ∈ review_logs (sample_import sample_store sample_payload sample_now).2
  /\ (n ∈ review_logs sample_store
      \/ Log.vocabId n
         ∈ Vocab._id <$> vocabs (sample_import sample_store sample_payload sample_now).2).
Proof.
  intros n.
  assert (Hn : n ∈ review_logs (sample_import sample_store sample_payload sample_now).2).
  { apply list_elem_of_In. vm_compute. auto. }
  split; [exact Hn|].
  exact (imported_logs_have_cards sample_sha256 sample_json_dumps sample_fromisoformat
           sample_isoformat sample_new_object_id sample_new_object_id_fresh
           sample_store sample_payload sample_now n sample_store_ids Hn).
Defined.

Lemma sample_payload_card_dated :
  Forall (card_dated sample_fromisoformat) (Payload.vocabs sample_payload).
Proof. repeat constructor; intros now now'; reflexivity. Qed.

Lemma import_again_changes_nothing_witness :
  stored_cards (vocabs sample_store)
  /\ NoDup (incoming_keys (Payload.vocabs sample_payload))
  /\ Forall (card_dated sample_fromisoformat) (Payload.vocabs sample_payload)
  /\ Forall (well_dated sample_fromisoformat) (Payload.review_logs sample_payload)
  /\ vocabs (sample_import (sample_import sample_store sample_payload sample_now).2
               sample_payload sample_later).2
     = vocabs (sample_import sample_store sample_payload sample_now).2.
Proof.
  assert (Hkeys : NoDup (incoming_keys (Payload.vocabs sample_payload)))
    by (apply (bool_decide_unpack _); vm_compute; exact I).
  split; [exact sample_store_stored|].
  split; [exact Hkeys|]. split; [exact sample_payload_card_dated|].
  split; [exact sample_payload_well_dated|].
  exact (proj1 (import_again_changes_nothing sample_sha256 sample_json_dumps
                  sample_fromisoformat sample_isoformat sample_new_object_id
                  sample_new_object_id_fresh sample_store sample_payload sample_now
                  sample_later sample_store_ids sample_store_stored Hkeys
                  sample_payload_card_dated sample_payload_well_dated)).
Defined.

(** ** The days of the session *)

(** The two windows of a session, unless now is a time of the first or of
    the last day that a date can name. *)
Lemma session_bounds_cases (LOCAL_TZ : tzinfo) (now : datetime) :
  on_edge_day now
  \/ (today_bounds LOCAL_TZ now = Ok (day_window LOCAL_TZ (wall now))
      /\ yesterday_bounds LOCAL_TZ now
         = Ok (day_window LOCAL_TZ (wall now - microseconds_per_day))).
Proof.
  unfold today_bounds, yesterday_bounds, on_edge_day.
  pose proof (Z.mod_pos_bound (wall now) microseconds_per_day ltac:(reflexivity)) as Hmod.
  destruct (Z_lt_dec (wall now) (min_wall + microseconds_per_day)) as [Hlo|Hlo]; [auto|].
  destruct (Z_lt_dec (max_wall - microseconds_per_day)
              (wall now - wall now mod microseconds_per_day)) as [Hhi|Hhi]; [auto|].
  right. rewrite day_bounds_eq. cbv zeta.
  replace (_ || _) with false
    by (symmetry; apply orb_false_iff; split; apply Z.ltb_ge; lia).
  split; [reflexivity|].
  change (timedelta_days 1) with (Ok microseconds_per_day : result Z).
  cbn [mbind result_bind]. unfold datetime_add.
  replace (_ || _) with false
    by (symmetry; apply orb_false_iff; split; apply Z.ltb_ge; lia).
  cbn [mbind result_bind]. rewrite day_bounds_eq. cbv zeta. cbn [wall].
  replace (wall now + - microseconds_per_day) with (wall now - microseconds_per_day) by lia.
  rewrite day_before_midnight.
  replace (_ || _) with false
    by (symmetry; apply orb_false_iff; split; apply Z.ltb_ge; lia).
  reflexivity.
Qed.

Lemma day_window_midnight (zone : tzinfo) (w : Z) :
  (wall (day_window zone w).1) mod microseconds_per_day = 0.
Proof.
  unfold day_window. cbn [fst wall].
  rewrite Zminus_mod, Z.mod_mod, Z.sub_diag by discriminate. reflexivity.
Qed.

(** ** Sorting *)

Section SortBy.
Context {A : Type}.
Variable le : A -> A -> bool.
Hypothesis le_total : forall x y, le x y = false -> le y x = true.
Hypothesis le_trans : forall x y z, le x y = true -> le y z = true -> le x z = true.

Local Abbreviation sorted := (StronglySorted (fun a b => le a b = true)).

Lemma insert_sorted_sorted (x : A) (l : list A) : sorted l -> sorted (insert_sorted le x l).
Proof.
  induction 1 as [|y l Hl IH Hy]; simpl; [repeat constructor|].
  destruct (le x y) eqn:Hxy.
  - constructor; [now constructor|]. constructor; [exact Hxy|].
    eapply Forall_impl; [exact Hy|]. intros z Hz. now apply (le_trans x y z).
  - constructor; [exact IH|].
    apply Forall_forall. intros z Hz. apply elem_of_insert_sorted in Hz as [->|Hz].
    + now apply le_total.
    + rewrite Forall_forall in Hy. now apply Hy.
Qed.

Lemma sort_by_sorted (l : list A) : sorted (sort_by le l).
Proof.
  unfold sort_by. induction l as [|x l IH]; simpl; [constructor|].
  now apply insert_sorted_sorted.
Qed.
End SortBy.




(** ** The session composer, continued *)


(** With distinct identities nothing is dropped. *)
Lemma first_occurrences_NoDup (seen : list ObjectId) (l : list Vocab.doc) :
  NoDup (Vocab._id <$> l) -> (forall d, d ∈ l -> Vocab._id d ∉ seen) ->
  first_occurrences seen l = l.
Proof.
  revert seen. induction l as [|x l IH]; intros seen Hnd Hseen; simpl; [reflexivity|].
  rewrite fmap_cons, NoDup_cons in Hnd. destruct Hnd as [Hx Hnd].
  rewrite bool_decide_eq_false_2 by (apply Hseen; now left).
  f_equal. apply IH; [exact Hnd|].
  intros d Hd [Hin|Heq%list_elem_of_singleton]%elem_of_app.
  - apply (Hseen d); [now right | exact Hin].
  - apply Hx. rewrite <- Heq. apply list_elem_of_fmap. eauto.
Qed.












Lemma StronglySorted_weaken {A} (R S : A -> A -> Prop) (l : list A) :
  (forall x y, R x y -> S x y) -> StronglySorted R l -> StronglySorted S l.
Proof.
  intros HRS. induction 1 as [|x l Hl IH Hx]; constructor; [exact IH|].
  eapply Forall_impl; [exact Hx|]. intros y. apply HRS.
Qed.







(** X14.  The bounds of a day are its window on the clock of the zone: they
    start at the midnight of that clock at or before the wall clock of the
    date and end on the same clock one day later, after it; only for a date
    of the last day that a date can name, whose end is no date, is
    [OverflowError] raised.  Yesterday is the window that ends where today
    starts, one day before it on the clock; the two are there unless now is
    a time of the first or of the last day. *)
Theorem day_bounds_window (LOCAL_TZ : tzinfo) (target now : datetime) :
  match day_bounds LOCAL_TZ target with
  | Ok (start, end_) =>
      tz start = LOCAL_TZ /\ tz end_ = LOCAL_TZ
      /\ fold start = false /\ fold end_ = false
      /\ wall start mod microseconds_per_day = 0
      /\ wall start <= wall target < wall end_
      /\ wall end_ = wall start + microseconds_per_day
  | Raise e =>
      e = OverflowError "date value out of range"
      /\ (wall target < min_wall
          \/ max_wall - microseconds_per_day
             < wall target - wall target mod microseconds_per_day)
  end
  /\ (on_edge_day now
      \/ exists today yesterday,
           today_bounds LOCAL_TZ now = Ok today
           /\ yesterday_bounds LOCAL_TZ now = Ok yesterday
           /\ yesterday.2 = today.1
           /\ tz yesterday.1 = LOCAL_TZ /\ fold yesterday.1 = false
           /\ wall yesterday.1 = wall today.1 - microseconds_per_day).
Proof.
  split.
  - rewrite day_bounds_eq. cbv zeta.
    pose proof (Z.mod_pos_bound (wall target) microseconds_per_day ltac:(reflexivity)) as Hmod.
    destruct (_ || _) eqn:Hrange.
    + split; [reflexivity|].
      apply orb_true_iff in Hrange as [H%Z.ltb_lt|H%Z.ltb_lt]; lia.
    + pose proof (day_window_midnight LOCAL_TZ (wall target)) as Hmid.
      unfold day_window in *. cbn [fst wall tz fold] in *.
      repeat split; try assumption; lia.
  - destruct (session_bounds_cases LOCAL_TZ now) as [Hedge|[Htoday Hyesterday]]; [now left|].
    right. eexists _, _. split; [exact Htoday|]. split; [exact Hyesterday|].
    unfold day_window. cbn [fst snd wall tz fold].
    rewrite day_before_midnight.
    repeat split; try reflexivity. f_equal. lia.
Qed.




(** ** The merges of lists and of word families *)

Lemma _merge_unique_strings_left (a b : list string) :
  _merge_unique_strings (_merge_unique_strings a b) a = _merge_unique_strings a b.
Proof.
  apply _merge_unique_strings_absorb; [apply _merge_unique_strings_clean_strings|].
  intros item Hitem. apply _merge_unique_strings_covers, elem_of_app. now left.
Qed.

Lemma _merge_unique_strings_prefix (a b : list string) :
  _merge_unique_strings a [] `prefix_of` _merge_unique_strings a b.
Proof.
  unfold _merge_unique_strings. rewrite app_nil_r, unique_strings_into_app.
  apply unique_strings_into_prefix.
Qed.

(** X3.  [_merge_unique_strings] returns the texts of the two lists
    stripped of surrounding white space, the blank ones left out, each one
    once, those of the first list in front; and the result takes in nothing
    from the lists it was made of: merged again with either of them, or with
    no list, it stays as it is. *)
Theorem merge_unique_strings_spec (a b : list string) (x : string) :
  let merged := _merge_unique_strings a b in
  NoDup merged
  /\ (x ∈ merged <-> x <> ""%string /\ exists item, item ∈ a ++ b /\ str_strip item = x)
  /\ _merge_unique_strings a [] `prefix_of` merged
  /\ _merge_unique_strings merged b = merged
  /\ _merge_unique_strings merged a = merged
  /\ _merge_unique_strings merged [] = merged.
Proof.
  intros merged. subst merged.
  split; [now destruct (_merge_unique_strings_clean_strings a b)|].
  split; [apply _merge_unique_strings_elem|].
  split; [apply _merge_unique_strings_prefix|].
  split; [apply _merge_unique_strings_again|].
  split; [apply _merge_unique_strings_left|].
  apply _merge_unique_strings_fixed, _merge_unique_strings_clean_strings.
Qed.

Lemma normalize_roles_keys (out d : list (string * list string)) (k : string) :
  k ∈ (foldl (fun out kv =>
                let role := str_lower (str_strip kv.1) in
                if str_truthy role then dict_set role (_merge_unique_strings kv.2 []) out
                else out) out d).*1
  <-> k ∈ out.*1
      \/ (k <> ""%string /\ exists kv, kv ∈ d /\ str_lower (str_strip kv.1) = k).
Proof.
  revert out. induction d as [|kv d IH]; intros out.
  - cbn [foldl]. split; [auto|]. intros [H|(_ & kv & Hkv & _)]; [exact H | inversion Hkv].
  - rewrite foldl_step, IH. cbv zeta.
    destruct (str_truthy (str_lower (str_strip kv.1))) eqn:Hrole.
    + rewrite dict_set_keys. apply str_truthy_spec in Hrole.
      split.
      * intros [H|(Hk & kv' & Hkv' & Hr)].
        -- case_bool_decide as Hin; [now left|].
           apply elem_of_app in H as [H|H%list_elem_of_singleton]; [now left|].
           right. subst k. split; [exact Hrole|]. exists kv. split; [left | reflexivity].
        -- right. split; [exact Hk|]. exists kv'. split; [now right | exact Hr].
      * intros [H|(Hk & kv' & [->|Hkv']%elem_of_cons & Hr)].
        -- left. case_bool_decide; [exact H | apply elem_of_app; now left].
        -- left. subst k. case_bool_decide as Hin; [exact Hin|].
           apply elem_of_app. right. now apply list_elem_of_singleton.
        -- right. split; [exact Hk|]. now exists kv'.
    + split.
      * intros [H|(Hk & kv' & Hkv' & Hr)]; [now left|].
        right. split; [exact Hk|]. exists kv'. split; [now right | exact Hr].
      * intros [H|(Hk & kv' & [->|Hkv']%elem_of_cons & Hr)]; [now left | |].
        -- subst k. exfalso. apply str_truthy_spec in Hk. congruence.
        -- right. split; [exact Hk|]. now exists kv'.
Qed.

(** X4.  [_normalize_word_family] returns a word family with each role
    once, the roles being those of its argument in lower case and stripped of
    surrounding white space, the blank ones left out; the words of a role are
    stripped, not blank, each one once; and a family normalised twice is the
    family normalised once. *)
Theorem normalize_word_family_spec (data : list (string * list string)) (k : string) :
  clean_family (_normalize_word_family data)
  /\ (k ∈ (_normalize_word_family data).*1
      <-> k <> ""%string /\ exists kv, kv ∈ data /\ str_lower (str_strip kv.1) = k)
  /\ _normalize_word_family (_normalize_word_family data) = _normalize_word_family data.
Proof.
  split; [apply _normalize_word_family_clean|]. split.
  - unfold _normalize_word_family. rewrite normalize_roles_keys. cbn [fmap list_fmap].
    split; [intros [H|H]; [inversion H | exact H] | auto].
  - apply _normalize_word_family_fixed, _normalize_word_family_clean.
Qed.

Lemma _merge_word_family_get (left right : list (string * list string)) (k : string) :
  dict_get k (_merge_word_family left right)
  = match dict_get k (_normalize_word_family right) with
    | Some words =>
        Some (_merge_unique_strings
                (default [] (dict_get k (_normalize_word_family left))) words)
    | None => dict_get k (_normalize_word_family left)
    end.
Proof.
  rewrite _merge_word_family_unfold.
  pose proof (_normalize_word_family_clean right) as [Hnd _].
  destruct (dict_get k (_normalize_word_family right)) as [words|] eqn:Hk.
  - apply dict_get_elem in Hk. now apply merge_roles_get.
  - apply dict_get_None in Hk. now apply merge_roles_other.
Qed.

(** X5.  [_merge_word_family] returns a clean word family in which a role
    of the right family has the words of the left family for it followed by
    the new ones of the right, and any other role has its words of the left
    family; merged again with the right family, the result stays as it is. *)
Theorem merge_word_family_spec (left right : list (string * list string)) (k : string) :
  let merged := _merge_word_family left right in
  clean_family merged
  /\ dict_get k merged
     = match dict_get k (_normalize_word_family right) with
       | Some words =>
           Some (_merge_unique_strings
                   (default [] (dict_get k (_normalize_word_family left))) words)
       | None => dict_get k (_normalize_word_family left)
       end
  /\ _merge_word_family merged right = merged.
Proof.
  intros merged. subst merged.
  split; [apply _merge_word_family_clean|].
  split; [apply _merge_word_family_get | apply _merge_word_family_absorb].
Qed.

(** X6.  Merging an incoming card into a card a second time changes
    nothing: the card merged once, merged with the same incoming card again
    at any time, is the card merged once, with no conflict counted; and one
    merge counts between 0 and 5 conflicts. *)
Theorem merge_vocab_idempotent (fromisoformat : string -> option (Z * option Z))
    (now now' : datetime)
    (existing incoming : Vocab.body) :
  let merged := (merge_vocab fromisoformat now existing incoming).1 in
  merge_vocab fromisoformat now' merged incoming = (merged, 0)
  /\ 0 <= (merge_vocab fromisoformat now existing incoming).2 <= 5.
Proof.
  intros merged. subst merged.
  split; [apply merge_vocab_absorb | apply merge_vocab_conflicts].
Qed.

(** ** The scheduler, whatever the grade *)

Lemma apply_review_cases (s : Sm2State) (g : Z) (now : datetime) :
  (g < 0 \/ 5 < g) /\ apply_review s g now = Raise (ValueError "SM-2 grade must be in range 0..5")
  \/ 0 <= g <= 2
     /\ apply_review s g now
        = Ok (review_update (py_round2 (clamp (easeFactor s - 0.2) 1.3 3.0))
                0 0 (lapses s + 1) now now)
  \/ 3 <= g <= 5
     /\ apply_review s g now
        = (interval ← success_interval s;
           due ← days_later now interval;
           Ok (review_update (py_round2 (clamp (easeFactor s + sm2_delta g) 1.3 3.0))
                 interval (repetitions s + 1) (lapses s) due now)).
Proof.
  destruct (Z_lt_dec g 0) as [Hneg|Hneg].
  { left. split; [lia|]. unfold apply_review.
    replace (g <? 0) with true by (symmetry; apply Z.ltb_lt; lia). reflexivity. }
  destruct (Z_lt_dec 5 g) as [Hbig|Hbig].
  { left. split; [lia|]. unfold apply_review.
    replace (g >? 5) with true by (symmetry; apply Z.gtb_lt; lia).
    now rewrite orb_true_r. }
  right. destruct (Z_lt_dec g 3) as [Hlow|Hlow].
  { left. split; [lia|]. apply apply_review_lapse_unfold. lia. }
  right. split; [lia|]. apply apply_review_success_unfold. lia.
Qed.

(** The interval of a success is of one day at least. *)
Lemma success_interval_Ok (s : Sm2State) (interval : Z) :
  success_interval s = Ok interval -> 1 <= interval.
Proof.
  unfold success_interval.
  destruct (repetitions s =? 0); [intros [= <-]; lia|].
  destruct (repetitions s =? 1); [intros [= <-]; lia|].
  destruct (int_mul_float _ _) as [p|e]; [|discriminate]. cbn [mbind result_bind].
  destruct (py_round p) as [r|e]; [|discriminate]. cbn [mbind result_bind].
  intros [= <-]. lia.
Qed.

(** When the days of an interval cannot be added: the interval is no C
    [int], or has more than nine digits, or leads out of the years 1 to
    9999. *)
Lemma days_later_Raise (now : datetime) (interval : Z) (e : exn) :
  days_later now interval = Raise e ->
  (interval < -2147483648 \/ 2147483647 < interval)
  /\ e = OverflowError "Python int too large to convert to C int"
  \/ (-2147483648 <= interval < -999999999 \/ 999999999 < interval <= 2147483647)
     /\ e = OverflowError ("days=" ++ pretty interval ++ "; must have magnitude <= 999999999")
  \/ -999999999 <= interval <= 999999999
     /\ (wall now + interval * microseconds_per_day < min_wall
         \/ max_wall < wall now + interval * microseconds_per_day)
     /\ e = OverflowError "date value out of range".
Proof.
  unfold days_later, timedelta_days, datetime_add.
  destruct (_ || _) eqn:Hc.
  { intros [= <-]. left. split; [|reflexivity].
    apply orb_true_iff in Hc as [H%Z.ltb_lt|H%Z.ltb_lt]; lia. }
  apply orb_false_iff in Hc as [Hc1%Z.ltb_ge Hc2%Z.ltb_ge].
  destruct (_ || _) eqn:Hd.
  { intros [= <-]. right. left. split; [|reflexivity].
    apply orb_true_iff in Hd as [H%Z.ltb_lt|H%Z.ltb_lt]; lia. }
  apply orb_false_iff in Hd as [Hd1%Z.ltb_ge Hd2%Z.ltb_ge].
  cbn [mbind result_bind].
  destruct (_ || _) eqn:Hr; [|discriminate].
  intros [= <-]. right. right. split; [lia|]. split; [|reflexivity].
  apply orb_true_iff in Hr as [H%Z.ltb_lt|H%Z.ltb_lt]; lia.
Qed.

(** A date of the zone of another that is not before it on the clock is
    not before it. *)
Lemma datetime_ltb_later (a b : datetime) :
  tz b = tz a -> wall a <= wall b -> datetime_ltb b a = false.
Proof.
  intros Htz Hw. unfold datetime_ltb, instant, utcoffset. rewrite Htz.
  destruct (tz a); apply Z.ltb_ge; lia.
Qed.

(** X18.  [apply_review] refuses a grade outside 0..5 with a [ValueError];
    a dict it returns has the six keys of the schedule, a due date that is
    the time of the review for a grade under 3 and otherwise that time moved
    on its clock by the interval in days, never earlier than the time of the
    review, the time of the review as the date of the last review, and lapses
    that are those of before or one more; a grade of 3 or more gives an
    interval of at least one day and one more repetition.  A grade of 3 or
    more raises where the interval cannot be computed, where it is no C
    [int] or has more than nine digits, and where the due date is not of the
    years 1 to 9999. *)
Theorem apply_review_outcome (s : Sm2State) (g : Z) (now : datetime) :
  match apply_review s g now with
  | Ok update =>
      0 <= g <= 5
      /\ exists ease interval reps lapsed due,
           update = review_update ease interval reps lapsed due now
           /\ 0 <= interval
           /\ wall due = wall now + interval * microseconds_per_day
           /\ tz due = tz now
           /\ datetime_ltb due now = false
           /\ lapses s <= lapsed <= lapses s + 1
           /\ (3 <= g -> 1 <= interval /\ reps = repetitions s + 1 /\ lapsed = lapses s
                         /\ success_interval s = Ok interval
                         /\ fold due = false
                         /\ min_wall <= wall due <= max_wall)
           /\ (g < 3 -> interval = 0 /\ reps = 0 /\ lapsed = lapses s + 1 /\ due = now)
  | Raise e =>
      (g < 0 \/ 5 < g) /\ e = ValueError "SM-2 grade must be in range 0..5"
      \/ 3 <= g <= 5
         /\ (success_interval s = Raise e
             \/ exists interval,
                  success_interval s = Ok interval
                  /\ 1 <= interval
                  /\ days_later now interval = Raise e
                  /\ (2147483647 < interval
                        /\ e = OverflowError "Python int too large to convert to C int"
                      \/ 999999999 < interval <= 2147483647
                         /\ e = OverflowError ("days=" ++ pretty interval
                                               ++ "; must have magnitude <= 999999999")
                      \/ interval <= 999999999
                         /\ (wall now + interval * microseconds_per_day < min_wall
                             \/ max_wall < wall now + interval * microseconds_per_day)
                         /\ e = OverflowError "date value out of range"))
  end.
Proof.
  destruct (apply_review_cases s g now) as [[Hg ->]|[[Hg ->]|[Hg ->]]].
  - left. auto.
  - split; [lia|]. eexists _, 0, 0, (lapses s + 1), now.
    split; [reflexivity|]. split; [lia|]. split; [lia|]. split; [reflexivity|].
    split; [apply datetime_ltb_irrefl|]. split; [lia|]. split; [lia|]. auto.
  - destruct (success_interval s) as [interval|e] eqn:Hi; cbn [mbind result_bind];
      [|right; auto].
    pose proof (success_interval_Ok s interval Hi) as Hpos.
    destruct (days_later now interval) as [due|e] eqn:Hdue; cbn [mbind result_bind].
    + split; [lia|]. eexists _, interval, (repetitions s + 1), (lapses s), due.
      apply days_later_Ok in Hdue as [Hdue Hrange].
      assert (Hwall : wall due = wall now + interval * microseconds_per_day)
        by (rewrite Hdue; reflexivity).
      assert (Htz : tz due = tz now) by (rewrite Hdue; reflexivity).
      assert (Hfold : fold due = false) by (rewrite Hdue; reflexivity).
      split; [reflexivity|]. split; [lia|]. split; [exact Hwall|]. split; [exact Htz|].
      split; [apply datetime_ltb_later; [exact Htz | unfold microseconds_per_day in *; lia]|].
      split; [lia|]. split; [auto 10 | lia].
    + right. split; [lia|]. right. exists interval.
      split; [reflexivity|]. split; [exact Hpos|]. split; [exact Hdue|].
      destruct (days_later_Raise now interval e Hdue) as [[Hc ->]|[[Hc ->]|(Hc & Hw & ->)]].
      * left. split; [lia | reflexivity].
      * right. left. split; [lia | reflexivity].
      * right. right. split; [lia|]. auto.
Qed.

(** ** Reading and writing one card *)

Lemma find_one_id_Some (id : ObjectId) (docs : list Vocab.doc) (d : Vocab.doc) :
  find_one_id id docs = Some d -> d ∈ docs /\ Vocab._id d = id.
Proof.
  unfold find_one_id. intros H. split.
  - apply list_elem_of_In. exact (proj1 (find_some _ _ H)).
  - apply String.eqb_eq. exact (proj2 (find_some _ _ H)).
Qed.

Lemma find_one_id_None (id : ObjectId) (docs : list Vocab.doc) :
  find_one_id id docs = None <-> id ∉ Vocab._id <$> docs.
Proof.
  unfold find_one_id. induction docs as [|d docs IH]; cbn [find].
  - rewrite fmap_nil. split; [intros _ H; inversion H | reflexivity].
  - rewrite (fmap_cons Vocab._id d docs), not_elem_of_cons.
    destruct (String.eqb_spec (Vocab._id d) id) as [Heq|Hne].
    + split; [discriminate | intros [H _]; congruence].
    + rewrite IH. split; [intros H; split; [congruence | exact H] | now intros [_ H]].
Qed.

Lemma find_one_id_NoDup (docs : list Vocab.doc) (d : Vocab.doc) :
  NoDup (Vocab._id <$> docs) -> d ∈ docs -> find_one_id (Vocab._id d) docs = Some d.
Proof.
  intros Hnd Hd.
  destruct (find_one_id (Vocab._id d) docs) as [e|] eqn:He.
  - apply find_one_id_Some in He as [He Hid]. f_equal.
    now apply (NoDup_ids_eq docs).
  - apply find_one_id_None in He. exfalso. apply He, list_elem_of_fmap. eauto.
Qed.

Lemma find_one_id_update_same (id : ObjectId) (b : Vocab.body) (docs : list Vocab.doc)
    (d : Vocab.doc) :
  find_one_id id docs = Some d ->
  find_one_id id (update_one id b docs) = Some {| Vocab._id := id; Vocab.fields := b |}.
Proof.
  unfold find_one_id. induction docs as [|x docs IH]; cbn [find update_one]; [discriminate|].
  destruct (String.eqb_spec (Vocab._id x) id) as [Heq|Hne].
  - intros _. cbn [find Vocab._id]. rewrite Heq, String.eqb_refl. reflexivity.
  - intros H. cbn [find]. destruct (String.eqb_spec (Vocab._id x) id); [contradiction|].
    exact (IH H).
Qed.

Lemma find_one_id_update_other (id i : ObjectId) (b : Vocab.body) (docs : list Vocab.doc) :
  i <> id -> find_one_id i (update_one id b docs) = find_one_id i docs.
Proof.
  intros Hi. unfold find_one_id. induction docs as [|x docs IH]; cbn [find update_one];
    [reflexivity|].
  destruct (String.eqb_spec (Vocab._id x) id) as [Heq|Hne].
  - cbn [find Vocab._id].
    destruct (String.eqb_spec (Vocab._id x) i) as [Hx|Hx]; [congruence | reflexivity].
  - cbn [find]. destruct (String.eqb (Vocab._id x) i); [reflexivity | exact IH].
Qed.

(** An update of the first card of an identity that keeps its term keeps
    the keys of the collection. *)
Lemma update_one_first_keys (id : ObjectId) (b : Vocab.body) (docs : list Vocab.doc)
    (d : Vocab.doc) :
  find_one_id id docs = Some d ->
  Vocab.termNormalized b = Vocab.termNormalized (Vocab.fields d) ->
  doc_key <$> update_one id b docs = doc_key <$> docs.
Proof.
  unfold find_one_id. induction docs as [|x docs IH]; cbn [find update_one]; [discriminate|].
  destruct (String.eqb_spec (Vocab._id x) id) as [Heq|Hne].
  - intros [= <-] Ht. rewrite !fmap_cons. f_equal. unfold doc_key. cbn. now rewrite Ht.
  - intros H Ht. rewrite !fmap_cons. f_equal. exact (IH H Ht).
Qed.

Lemma update_one_other (id : ObjectId) (b : Vocab.body) (docs : list Vocab.doc)
    (d : Vocab.doc) :
  d ∈ docs -> Vocab._id d <> id -> d ∈ update_one id b docs.
Proof.
  intros Hd Hid. induction docs as [|x docs IH]; [inversion Hd|]. cbn [update_one].
  apply elem_of_cons in Hd as [->|Hd].
  - destruct (String.eqb_spec (Vocab._id x) id); [contradiction | left].
  - destruct (String.eqb (Vocab._id x) id); right; [exact Hd | exact (IH Hd)].
Qed.

(** ** What a dict of the scheduler writes *)

Lemma set_scheduling_review (ease : float) (interval reps lapsed : Z) (due now : datetime)
    (b : Vocab.body) :
  let b' := set_scheduling (review_update ease interval reps lapsed due now) b in
  Vocab.easeFactor b' = ease /\ Vocab.intervalDays b' = interval
  /\ Vocab.repetitions b' = reps /\ Vocab.lapses b' = lapsed
  /\ Vocab.dueAt b' = due /\ Vocab.lastReviewedAt b' = Some now.
Proof. cbv zeta. unfold set_scheduling, review_update. cbn. repeat split; reflexivity. Qed.

Lemma set_scheduling_same_entry (update : gmap string pyval) (b : Vocab.body) :
  same_entry (set_scheduling update b) b
  /\ Vocab.updatedAt (set_scheduling update b) = Vocab.updatedAt b.
Proof. unfold same_entry, set_scheduling. cbn. repeat split; reflexivity. Qed.

Lemma reviewed_body_same_entry (update : gmap string pyval) (now : datetime) (b : Vocab.body) :
  same_entry (reviewed_body update now b) b.
Proof. unfold same_entry, reviewed_body, set_scheduling. cbn. repeat split; reflexivity. Qed.

(** ** The route of reviews *)

Section ReviewFacts.
Variable similar : string -> list string -> Z -> bool.

Local Abbreviation submit_review' := (submit_review similar).
Local Abbreviation post_review' := (post_review similar).

Lemma ReviewCreate_validate_Ok (body payload : ReviewCreate.t) :
  ReviewCreate_validate body = Ok payload ->
  payload = body /\ 0 <= ReviewCreate.grade body <= 5.
Proof.
  unfold ReviewCreate_validate.
  destruct (negb (bool_decide (ReviewCreate.mode body ∈ _))); [discriminate|].
  destruct (negb (bool_decide (ReviewCreate.questionType body ∈ _))); [discriminate|].
  destruct (ReviewCreate.grade body <? 0) eqn:Hlo; [discriminate|].
  destruct (5 <? ReviewCreate.grade body) eqn:Hhi; [discriminate|].
  intros [= <-]. apply Z.ltb_ge in Hlo, Hhi. split; [reflexivity | lia].
Qed.

Lemma ReviewCreate_validate_Raise (body : ReviewCreate.t) (e : exn) :
  ReviewCreate_validate body = Raise e -> exists field, e = RequestValidationError field.
Proof.
  unfold ReviewCreate_validate.
  repeat match goal with
         | |- context [if ?c then _ else _] => destruct c
         end; intros [= <-]; eauto.
Qed.

Local Abbreviation review_log' := (review_log similar).

Lemma submit_review_cases (db : Store) (payload : ReviewCreate.t) (now : datetime) :
  let id := ObjectId_of_str (ReviewCreate.vocabId payload) in
  (ObjectId_is_valid (ReviewCreate.vocabId payload) = false
   /\ submit_review' db payload now = (Raise (HTTPException 400 "Invalid ObjectId"), db))
  \/ (ObjectId_is_valid (ReviewCreate.vocabId payload) = true
      /\ find_one_id id (vocabs db) = None
      /\ submit_review' db payload now = (Raise (HTTPException 404 "Vocab not found"), db))
  \/ (exists vocab,
        ObjectId_is_valid (ReviewCreate.vocabId payload) = true
        /\ find_one_id id (vocabs db) = Some vocab
        /\ ((exists e,
               apply_review (Sm2State_from_doc (Vocab.fields vocab))
                 (ReviewCreate.grade payload) now = Raise e
               /\ submit_review' db payload now
                  = (Raise e,
                     {| vocabs := vocabs db;
                        review_logs :=
                          review_logs db ++ [mongo_log (review_log' payload now vocab)];
                        events := events db |}))
            \/ (exists update,
                  apply_review (Sm2State_from_doc (Vocab.fields vocab))
                    (ReviewCreate.grade payload) now = Ok update
                  /\ let updated :=
                       {| Vocab._id := id;
                          Vocab.fields := reviewed_body update now (Vocab.fields vocab) |} in
                     submit_review' db payload now
                     = (Ok {| response_vocab := updated;
                              nextDueAt := Vocab.dueAt (Vocab.fields updated);
                              response_intervalDays := Vocab.intervalDays (Vocab.fields updated);
                              response_easeFactor := Vocab.easeFactor (Vocab.fields updated);
                              response_repetitions := Vocab.repetitions (Vocab.fields updated);
                              response_lapses := Vocab.lapses (Vocab.fields updated) |},
                        {| vocabs :=
                             update_one id (reviewed_body update now (Vocab.fields vocab))
                               (vocabs db);
                           review_logs :=
                             review_logs db ++ [mongo_log (review_log' payload now vocab)];
                           events := events db |})))).
Proof.
  intros id. subst id. unfold submit_review.
  destruct (ObjectId_is_valid (ReviewCreate.vocabId payload)) eqn:Hvalid; cbn [negb];
    [|left; auto].
  right.
  destruct (find_one_id (ObjectId_of_str (ReviewCreate.vocabId payload)) (vocabs db))
    as [vocab|] eqn:Hfind; [|left; auto].
  right. exists vocab. split; [reflexivity|]. split; [reflexivity|].
  cbv zeta. cbn [vocabs review_logs events].
  destruct (apply_review (Sm2State_from_doc (Vocab.fields vocab))
              (ReviewCreate.grade payload) now) as [update|e] eqn:Happly.
  - right. exists update. split; [reflexivity|].
    rewrite (find_one_id_update_same _ _ _ _ Hfind). reflexivity.
  - left. exists e. split; reflexivity.
Qed.

Lemma apply_review_shape (s : Sm2State) (g : Z) (now : datetime) (update : gmap string pyval) :
  apply_review s g now = Ok update ->
  exists ease interval reps lapsed due,
    update = review_update ease interval reps lapsed due now
    /\ wall due = wall now + interval * microseconds_per_day
    /\ tz due = tz now.
Proof.
  intros H.
  destruct (apply_review_cases s g now) as [[_ H']|[[_ H']|[_ H']]];
    rewrite H' in H; try discriminate.
  - injection H as <-.
    exists (py_round2 (clamp (easeFactor s - 0.2) 1.3 3.0)), 0, 0, (lapses s + 1), now.
    split; [reflexivity|]. split; [lia | reflexivity].
  - destruct (success_interval s) as [interval|e]; cbn [mbind result_bind] in H;
      [|discriminate].
    destruct (days_later now interval) as [due|e] eqn:Hdue; cbn [mbind result_bind] in H;
      [|discriminate].
    injection H as <-. apply days_later_Ok in Hdue as [-> _].
    eexists _, interval, _, _, _. split; [reflexivity|]. split; reflexivity.
Qed.

(** The errors of the scheduler. *)
Lemma apply_review_error (s : Sm2State) (g : Z) (now : datetime) (e : exn) :
  apply_review s g now = Raise e ->
  (g < 0 \/ 5 < g) /\ e = ValueError "SM-2 grade must be in range 0..5"
  \/ 3 <= g <= 5
     /\ (success_interval s = Raise e
         \/ exists interval, success_interval s = Ok interval
                             /\ days_later now interval = Raise e).
Proof.
  intros H.
  destruct (apply_review_cases s g now) as [[Hg H']|[[_ H']|[Hg H']]];
    rewrite H' in H; try discriminate.
  - injection H as <-. left. auto.
  - right. split; [exact Hg|].
    destruct (success_interval s) as [interval|e'] eqn:Hi; cbn [mbind result_bind] in H.
    + right. exists interval. split; [reflexivity|].
      destruct (days_later now interval) as [due|e'']; cbn [mbind result_bind] in H;
        [discriminate | now injection H as <-].
    + left. now injection H as <-.
Qed.

Lemma success_interval_error (s : Sm2State) (e : exn) :
  success_interval s = Raise e -> exists msg, e = ValueError msg \/ e = OverflowError msg.
Proof.
  unfold success_interval.
  destruct (repetitions s =? 0); [discriminate|].
  destruct (repetitions s =? 1); [discriminate|].
  unfold int_mul_float, py_float_of_int.
  destruct (is_infinity (float_of_Z _)); cbn; [intros [= <-]; eauto|].
  unfold py_round. destruct (Prim2SF _); cbn; intros [= <-]; eauto.
Qed.

Lemma apply_review_error_kind (s : Sm2State) (g : Z) (now : datetime) (e : exn) :
  apply_review s g now = Raise e -> exists msg, e = ValueError msg \/ e = OverflowError msg.
Proof.
  intros [[_ ->]|[_ [H|(interval & _ & H)]]]%apply_review_error; [eauto | |].
  - now apply success_interval_error in H.
  - apply days_later_Raise in H as [[_ ->]|[[_ ->]|(_ & _ & ->)]]; eauto.
Qed.

(** The dict of a review as the store keeps it. *)
Lemma mongo_review_update (ease : float) (interval reps lapsed : Z) (due now : datetime) :
  mongo_value <$> review_update ease interval reps lapsed due now
  = review_update ease interval reps lapsed (mongo_date due) (mongo_date now).
Proof. unfold review_update. rewrite !fmap_insert, map_fmap_singleton. reflexivity. Qed.

(** X19.  A review never touches another card.  Whatever [submit_review]
    answers, the events are those of before, the cards keep their identities,
    terms and order, every card but the reviewed one is as it was, and the
    logs are those of before, followed by at most one log, of the reviewed
    card, which is a card of the store, dated at the time of the review as
    the store keeps it, cut to the millisecond and in UTC; and the card read
    back after the update is always there. *)
Theorem submit_review_frame (db : Store) (payload : ReviewCreate.t) (now : datetime) :
  let id := ObjectId_of_str (ReviewCreate.vocabId payload) in
  let db' := (submit_review' db payload now).2 in
  events db' = events db
  /\ doc_key <$> vocabs db' = doc_key <$> vocabs db
  /\ (forall i, i <> id -> find_one_id i (vocabs db') = find_one_id i (vocabs db))
  /\ (review_logs db' = review_logs db
      \/ exists log, review_logs db' = review_logs db ++ [log]
                     /\ Log.vocabId log = id /\ id ∈ Vocab._id <$> vocabs db
                     /\ Log.grade log = ReviewCreate.grade payload
                     /\ Log.createdAt log = mongo_date now
                     /\ millis (Log.createdAt log) = millis now)
  /\ (submit_review' db payload now).1 <> Raise (HTTPException 500 "Internal Server Error").
Proof.
  intros id db'. subst id db'.
  destruct (submit_review_cases db payload now)
    as [[_ ->]|[(_ & _ & ->)|(vocab & _ & Hfind & [(e & He & ->)|(update & _ & ->)])]];
    cbn [fst snd vocabs review_logs events].
  - repeat split; auto; discriminate.
  - repeat split; auto; discriminate.
  - split; [reflexivity|]. split; [reflexivity|]. split; [reflexivity|]. split.
    + right. eexists. split; [reflexivity|].
      cbn [mongo_log review_log Log.vocabId Log.grade Log.createdAt].
      rewrite millis_mongo_date.
      repeat split. apply find_one_id_Some in Hfind as [Hin <-].
      apply list_elem_of_fmap. eauto.
    + intros [= ->]. now apply apply_review_error_kind in He as [msg [He|He]].
  - split; [reflexivity|]. split.
    + apply (update_one_first_keys _ _ _ vocab Hfind).
      now destruct (reviewed_body_same_entry update now (Vocab.fields vocab)) as (_ & -> & _).
    + split; [intros i Hi; now apply find_one_id_update_other|]. split; [|discriminate].
      right. eexists. split; [reflexivity|].
      cbn [mongo_log review_log Log.vocabId Log.grade Log.createdAt].
      rewrite millis_mongo_date.
      repeat split. apply find_one_id_Some in Hfind as [Hin <-].
      apply list_elem_of_fmap. eauto.
Qed.

(** X20.  A review that fails.  When the route of reviews answers with an
    error, no card and no event has changed.  The store is the one of before
    when the body failed the model, when the identity is not one that
    [ObjectId.is_valid] accepts (400), and when it is one and no card has it
    (404); the one other error is that of the scheduler on a grade of 3 or
    more, where the interval cannot be computed or its days cannot be added
    to the time of the review, and then the log of the review has been
    written all the same. *)
Theorem post_review_errors (db : Store) (body : ReviewCreate.t) (now : datetime) (e : exn) :
  (post_review' db body now).1 = Raise e ->
  let id := ObjectId_of_str (ReviewCreate.vocabId body) in
  let db' := (post_review' db body now).2 in
  vocabs db' = vocabs db /\ events db' = events db
  /\ ((db' = db
       /\ ((exists field, e = RequestValidationError field)
           \/ (e = HTTPException 400 "Invalid ObjectId"
               /\ ObjectId_is_valid (ReviewCreate.vocabId body) = false)
           \/ (e = HTTPException 404 "Vocab not found"
               /\ ObjectId_is_valid (ReviewCreate.vocabId body) = true
               /\ id ∉ Vocab._id <$> vocabs db)))
      \/ (exists vocab,
            ObjectId_is_valid (ReviewCreate.vocabId body) = true
            /\ find_one_id id (vocabs db) = Some vocab
            /\ 3 <= ReviewCreate.grade body <= 5
            /\ (success_interval (Sm2State_from_doc (Vocab.fields vocab)) = Raise e
                \/ exists interval,
                     success_interval (Sm2State_from_doc (Vocab.fields vocab)) = Ok interval
                     /\ days_later now interval = Raise e)
            /\ (exists msg, e = ValueError msg \/ e = OverflowError msg)
            /\ review_logs db' = review_logs db ++ [mongo_log (review_log' body now vocab)])).
Proof.
  intros He id db'. subst id db'. revert He. unfold post_review.
  destruct (ReviewCreate_validate body) as [payload|e'] eqn:Hbody; cbn [fst snd].
  - apply ReviewCreate_validate_Ok in Hbody as [-> Hgrade].
    destruct (submit_review_cases db body now)
      as [[Hv ->]|[(Hv & Hnone & ->)
                  |(vocab & Hv & Hfind & [(e' & He' & ->)|(update & _ & ->)])]];
      cbn [fst snd vocabs review_logs events]; intros [= <-].
    + split; [reflexivity|]. split; [reflexivity|]. left. auto.
    + split; [reflexivity|]. split; [reflexivity|]. left. split; [reflexivity|].
      right. right. split; [reflexivity|]. split; [exact Hv|]. now apply find_one_id_None.
    + split; [reflexivity|]. split; [reflexivity|]. right. exists vocab.
      split; [exact Hv|]. split; [exact Hfind|].
      pose proof (apply_review_error_kind _ _ _ _ He') as Hkind.
      apply apply_review_error in He' as [[Hg _]|[Hg Hwhy]]; [lia|]. auto.
  - intros [= <-]. split; [reflexivity|]. split; [reflexivity|]. left.
    split; [reflexivity|]. left. now apply ReviewCreate_validate_Raise in Hbody.
Qed.

(** X21.  A review that succeeds.  For an identity that [ObjectId.is_valid]
    accepts, of a card of the store, and a dict returned by the scheduler,
    [submit_review] answers with the card as the store now has it: the entry
    of before, with the schedule of the dict, its due date kept as the store
    keeps dates (cut to the millisecond, in UTC), and the time of the review,
    kept so, as the date of the last review and of the last change; the
    numbers of the answer are those of the card, the next due date being the
    store's form of the time of the review moved on its clock by the interval
    in days; and the store has one more log, that of the review. *)
Theorem submit_review_ok (db : Store) (payload : ReviewCreate.t) (now : datetime)
    (vocab : Vocab.doc) (update : gmap string pyval) :
  let id := ObjectId_of_str (ReviewCreate.vocabId payload) in
  ObjectId_is_valid (ReviewCreate.vocabId payload) = true ->
  find_one_id id (vocabs db) = Some vocab ->
  apply_review (Sm2State_from_doc (Vocab.fields vocab)) (ReviewCreate.grade payload) now
  = Ok update ->
  exists response,
    (submit_review' db payload now).1 = Ok response
    /\ let db' := (submit_review' db payload now).2 in
       let card := response_vocab response in
       find_one_id id (vocabs db') = Some card
       /\ Vocab._id card = id
       /\ same_entry (Vocab.fields card) (Vocab.fields vocab)
       /\ Vocab.updatedAt (Vocab.fields card) = mongo_date now
       /\ Vocab.lastReviewedAt (Vocab.fields card) = Some (mongo_date now)
       /\ (exists due,
             update = review_update (Vocab.easeFactor (Vocab.fields card))
                        (Vocab.intervalDays (Vocab.fields card))
                        (Vocab.repetitions (Vocab.fields card))
                        (Vocab.lapses (Vocab.fields card)) due now
             /\ wall due = wall now + response_intervalDays response * microseconds_per_day
             /\ tz due = tz now
             /\ Vocab.dueAt (Vocab.fields card) = mongo_date due
             /\ nextDueAt response = mongo_date due)
       /\ nextDueAt response = Vocab.dueAt (Vocab.fields card)
       /\ response_intervalDays response = Vocab.intervalDays (Vocab.fields card)
       /\ response_easeFactor response = Vocab.easeFactor (Vocab.fields card)
       /\ response_repetitions response = Vocab.repetitions (Vocab.fields card)
       /\ response_lapses response = Vocab.lapses (Vocab.fields card)
       /\ review_logs db' = review_logs db ++ [mongo_log (review_log' payload now vocab)].
Proof.
  intros id Hvalid Hfind Hupdate. subst id.
  destruct (submit_review_cases db payload now)
    as [[Hv _]|[(_ & Hnone & _)|(vocab' & _ & Hfind' & [(e' & He' & _)|(update' & Hu & ->)])]];
    try congruence.
  rewrite Hfind in Hfind'. injection Hfind' as <-.
  rewrite Hupdate in Hu. injection Hu as <-.
  eexists. split; [reflexivity|].
  cbn [fst snd vocabs review_logs response_vocab nextDueAt response_intervalDays
       response_easeFactor response_repetitions response_lapses Vocab._id Vocab.fields].
  split; [now apply (find_one_id_update_same _ _ _ vocab)|].
  split; [reflexivity|]. split; [apply reviewed_body_same_entry|].
  split; [reflexivity|].
  destruct (apply_review_shape _ _ _ _ Hupdate)
    as (ease & interval & reps & lapsed & due & -> & Hwall & Htz).
  unfold reviewed_body. rewrite mongo_review_update.
  cbn [Vocab.easeFactor Vocab.intervalDays Vocab.repetitions Vocab.lapses Vocab.dueAt
       Vocab.lastReviewedAt].
  destruct (set_scheduling_review ease interval reps lapsed (mongo_date due) (mongo_date now)
              (Vocab.fields vocab)) as (-> & -> & -> & -> & -> & ->).
  split; [reflexivity|].
  split; [exists due; repeat split; assumption|].
  repeat split; reflexivity.
Qed.
End ReviewFacts.

Lemma post_review_errors_witness :
  (post_review sample_similar sample_store (sample_review "no card" 4) sample_now).1
  = Raise (HTTPException 400 "Invalid ObjectId")
  /\ vocabs (post_review sample_similar sample_store (sample_review "no card" 4) sample_now).2
     = vocabs sample_store.
Proof.
  assert (He : (post_review sample_similar sample_store (sample_review "no card" 4)
                  sample_now).1
               = Raise (HTTPException 400 "Invalid ObjectId")) by (vm_compute; reflexivity).
  split; [exact He|].
  exact (proj1 (post_review_errors sample_similar sample_store (sample_review "no card" 4)
                  sample_now _ He)).
Defined.

(** An identity of 24 characters that ends in two spaces is accepted, as
    [bytes.fromhex] reads it: it names no card and the route answers 404. *)
Example review_of_padded_identity :
  (post_review sample_similar sample_store
     (sample_review "65a0000000000000000000  " 4) sample_now).1
  = Raise (HTTPException 404 "Vocab not found").
Proof. vm_compute. reflexivity. Qed.

Lemma submit_review_ok_witness :
  exists response,
    (submit_review sample_similar sample_store
       (sample_review "65a000000000000000000001" 4) sample_now).1 = Ok response
    /\ nextDueAt response = sample_date 15
    /\ response_intervalDays response = 15.
Proof.
  destruct (submit_review_ok sample_similar sample_store
              (sample_review "65a000000000000000000001" 4) sample_now
              (sample_card "65a000000000000000000001" "apple" state_learned
                 (sample_date (-30)) (sample_date (-2)) None 0)
              (review_update (py_round2 (clamp (2.5 + sm2_delta 4) 1.3 3.0))
                 15 3 0
                 {| wall := wall sample_now + 15 * microseconds_per_day; fold := false;
                    tz := sample_LOCAL_TZ |} sample_now)
              ltac:(vm_compute; reflexivity) ltac:(vm_compute; reflexivity)
              ltac:(vm_compute; reflexivity))
    as (response & Hr & _ & _ & _ & _ & _ & (due & Hupd & _ & _ & _ & Hnext) & _ & Hint & _).
  exists response. split; [exact Hr|].
  assert (Hr' := Hr). vm_compute in Hr'. injection Hr' as <-.
  split; vm_compute; reflexivity.
Defined.

(** ** Deleting a card *)

Lemma delete_one_absent (id : ObjectId) (docs : list Vocab.doc) :
  id ∉ Vocab._id <$> docs -> delete_one id docs = docs.
Proof.
  induction docs as [|d docs IH]; [reflexivity|].
  rewrite (fmap_cons Vocab._id d docs), not_elem_of_cons. intros [Hd Hin]. cbn [delete_one].
  destruct (String.eqb_spec (Vocab._id d) id); [congruence|]. now rewrite IH.
Qed.

Lemma delete_one_length (id : ObjectId) (docs : list Vocab.doc) :
  id ∈ Vocab._id <$> docs -> S (length (delete_one id docs)) = length docs.
Proof.
  induction docs as [|d docs IH]; [intros H; inversion H|].
  rewrite (fmap_cons Vocab._id d docs), elem_of_cons. intros Hin. cbn [delete_one].
  destruct (String.eqb_spec (Vocab._id d) id) as [Heq|Hne]; [reflexivity|].
  cbn [length]. f_equal. apply IH. destruct Hin as [Hin|Hin]; [congruence | exact Hin].
Qed.

Lemma delete_one_elem (id : ObjectId) (docs : list Vocab.doc) (x : Vocab.doc) :
  NoDup (Vocab._id <$> docs) ->
  x ∈ delete_one id docs <-> x ∈ docs /\ Vocab._id x <> id.
Proof.
  induction docs as [|d docs IH]; cbn [delete_one].
  - intros _. split; [intros H; inversion H | intros [H _]; inversion H].
  - rewrite (fmap_cons Vocab._id d docs), NoDup_cons. intros [Hd Hnd].
    destruct (String.eqb_spec (Vocab._id d) id) as [Heq|Hne].
    + rewrite elem_of_cons. split.
      * intros Hx. split; [now right|]. intros Hid. apply Hd.
        apply list_elem_of_fmap. exists x. split; [congruence | exact Hx].
      * intros [[->|Hx] Hid]; [congruence | exact Hx].
    + rewrite !elem_of_cons, (IH Hnd). split.
      * intros [->|[Hx Hid]]; auto.
      * intros [[->|Hx] Hid]; auto.
Qed.

(** X22.  Deleting a card takes its logs with it.  On a store whose cards
    have distinct identities, [delete_vocab] answers an identity that
    [ObjectId.is_valid] accepts (24 characters that [bytes.fromhex] reads)
    and that is that of a card by removing this card and every log of it,
    and nothing else; any other identity is refused, with 400 when
    [ObjectId.is_valid] refuses it and 404 when it accepts it and no card
    has it, and the store stays as it is. *)
Theorem delete_vocab_cascade (db : Store) (raw : string) :
  NoDup (Vocab._id <$> vocabs db) ->
  let oid := ObjectId_of_str raw in
  let db' := (delete_vocab db raw).2 in
  match (delete_vocab db raw).1 with
  | Ok _ =>
      ObjectId_is_valid raw = true
      /\ oid ∈ Vocab._id <$> vocabs db
      /\ (forall d, d ∈ vocabs db' <-> d ∈ vocabs db /\ Vocab._id d <> oid)
      /\ (forall l, l ∈ review_logs db' <-> l ∈ review_logs db /\ Log.vocabId l <> oid)
      /\ events db' = events db
  | Raise e =>
      db' = db
      /\ (e = HTTPException 400 "Invalid ObjectId" /\ ObjectId_is_valid raw = false
          \/ e = HTTPException 404 "Vocab not found" /\ ObjectId_is_valid raw = true
             /\ oid ∉ Vocab._id <$> vocabs db)
  end.
Proof.
  intros Hnd oid db'. subst oid db'. unfold delete_vocab, _parse_object_id.
  destruct (ObjectId_is_valid raw) eqn:Hvalid; cbn [negb fst snd]; [|auto].
  destruct (decide (ObjectId_of_str raw ∈ Vocab._id <$> vocabs db)) as [Hin|Hin].
  - pose proof (delete_one_length _ _ Hin) as Hlen.
    destruct (_ =? 0) eqn:Hz; [apply Z.eqb_eq in Hz; lia|].
    cbn [fst snd vocabs review_logs events].
    split; [reflexivity|]. split; [exact Hin|].
    split; [intros d; now apply delete_one_elem|].
    split; [|reflexivity]. intros l. unfold delete_many_logs.
    rewrite list_elem_of_filter. tauto.
  - rewrite (delete_one_absent _ _ Hin), Z.sub_diag. cbn [Z.eqb fst snd].
    split; [now destruct db|]. right. auto.
Qed.

Lemma delete_vocab_cascade_witness :
  NoDup (Vocab._id <$> vocabs sample_store)
  /\ length (vocabs (delete_vocab sample_store "65a000000000000000000002").2) = 2%nat
  /\ forall d, d ∈ vocabs (delete_vocab sample_store "65a000000000000000000002").2
               <-> d ∈ vocabs sample_store /\ Vocab._id d <> "65a000000000000000000002"%string.
Proof.
  split; [exact sample_store_ids|]. split; [vm_compute; reflexivity|].
  pose proof (delete_vocab_cascade sample_store "65a000000000000000000002" sample_store_ids)
    as H.
  cbv zeta in H.
  change ((delete_vocab sample_store "65a000000000000000000002").1) with (@Ok bool true) in H.
  exact (proj1 (proj2 (proj2 H))).
Defined.

(** Identities that [ObjectId.is_valid] accepts: 24 digits in either case,
    and 24 characters of which some are white space between the bytes; a
    digit short, or a character that is none, is refused. *)
Example ObjectId_is_valid_samples :
  ObjectId_is_valid "65A00000000000000000000b" = true
  /\ ObjectId_of_str "65A00000000000000000000b" = "65a00000000000000000000b"%string
  /\ ObjectId_is_valid "65a0000000000000000000  " = true
  /\ ObjectId_of_str "65a0000000000000000000  " = "65a0000000000000000000"%string
  /\ ObjectId_is_valid "65a00000000000000000000" = false
  /\ ObjectId_is_valid "65a0000000000000000 0001" = false
  /\ ObjectId_is_valid "65a00000000000000000000g" = false.
Proof. vm_compute. repeat split; reflexivity. Qed.

(** An identity of 24 characters with white space at its end names no
    card: the answer is 404, and it is 400 for one that is refused. *)
Example delete_vocab_refusals :
  (delete_vocab sample_store "65a0000000000000000000  ").1
  = Raise (HTTPException 404 "Vocab not found")
  /\ (delete_vocab sample_store "65a00000000000000000000g").1
     = Raise (HTTPException 400 "Invalid ObjectId").
Proof. vm_compute. split; reflexivity. Qed.

(** ** Creating a card *)

(** [_unique_strings] is the merge of a list with no other. *)
Lemma _unique_strings_merge (items : list string) :
  _unique_strings items = _merge_unique_strings items [].
Proof. unfold _unique_strings, _merge_unique_strings. now rewrite app_nil_r. Qed.

Lemma _unique_strings_clean (items : list string) : clean_strings (_unique_strings items).
Proof. apply unique_strings_into_clean, clean_strings_nil. Qed.

Lemma term_keys_doc_key (docs1 docs2 : list Vocab.doc) :
  doc_key <$> docs1 = doc_key <$> docs2 -> term_keys docs1 = term_keys docs2.
Proof.
  intros H. apply (f_equal (fmap snd)) in H. rewrite <- !list_fmap_compose in H. exact H.
Qed.

Lemma find_one_id_snoc (docs : list Vocab.doc) (d : Vocab.doc) :
  Vocab._id d ∉ Vocab._id <$> docs -> find_one_id (Vocab._id d) (docs ++ [d]) = Some d.
Proof.
  unfold find_one_id. induction docs as [|x docs IH].
  - intros _. cbn [app find]. now rewrite String.eqb_refl.
  - rewrite (fmap_cons Vocab._id x docs), not_elem_of_cons. intros [Hx Hin].
    cbn [app find]. destruct (String.eqb_spec (Vocab._id x) (Vocab._id d)); [congruence|].
    exact (IH Hin).
Qed.

Section CreateFacts.
Variable provider_accepts : string -> list string -> bool.
Variable new_object_id : list Vocab.doc -> ObjectId.

Local Abbreviation create_vocab' := (create_vocab provider_accepts new_object_id).
Local Abbreviation accepted' := (validate_typed_vocab_input provider_accepts).

(** X23.  A term the store does not have.  When the term of the payload is
    not blank after normalisation, the entry is accepted, no card has the
    term and the new identity is fresh, [create_vocab] adds one card at the
    end of the collection and answers with it, as the store has it: the card
    has the normalised term, the stripped term, lists without blanks or
    repetitions, the schedule of a new card, due at once, and no review and
    no re-add; its dates are now as the store keeps it, cut to the
    millisecond and in UTC; logs and events stay as they are. *)
Theorem create_vocab_new (db : Store) (payload : VocabCreate.t) (now : datetime) :
  let t := normalize_term_str (VocabCreate.term payload) in
  str_truthy t = true ->
  accepted' (VocabCreate.term payload) (VocabCreate.meanings payload)
    (VocabCreate.inputMethod payload) = true ->
  find_one_term t (vocabs db) = None ->
  new_object_id (vocabs db) ∉ Vocab._id <$> vocabs db ->
  exists doc,
    (create_vocab' db payload now).1 = Ok doc
    /\ let db' := (create_vocab' db payload now).2 in
       let b := Vocab.fields doc in
       vocabs db' = vocabs db ++ [doc]
       /\ review_logs db' = review_logs db /\ events db' = events db
       /\ Vocab._id doc = new_object_id (vocabs db)
       /\ Vocab.termNormalized b = t
       /\ Vocab.term b = str_strip (VocabCreate.term payload)
       /\ clean_body b
       /\ Vocab.easeFactor b = 2.5%float /\ Vocab.intervalDays b = 0
       /\ Vocab.repetitions b = 0 /\ Vocab.lapses b = 0
       /\ Vocab.dueAt b = mongo_date now /\ Vocab.lastReviewedAt b = None
       /\ Vocab.readdCount b = 0 /\ Vocab.lastReaddAt b = None
       /\ Vocab.createdAt b = mongo_date now /\ Vocab.updatedAt b = mongo_date now
       /\ stored_body b.
Proof.
  intros t Ht Hacc Hnone Hfresh. subst t. unfold create_vocab.
  rewrite Ht, Hacc, Hnone. cbn [negb].
  assert (Hfind : find_one_id (new_object_id (vocabs db))
                    (vocabs db
                     ++ [{| Vocab._id := new_object_id (vocabs db);
                            Vocab.fields :=
                              mongo_body
                                (create_doc payload
                                   (normalize_term_str (VocabCreate.term payload)) now) |}])
                  = Some {| Vocab._id := new_object_id (vocabs db);
                            Vocab.fields :=
                              mongo_body
                                (create_doc payload
                                   (normalize_term_str (VocabCreate.term payload)) now) |}).
  { exact (find_one_id_snoc (vocabs db) {| Vocab._id := new_object_id (vocabs db) |} Hfresh). }
  cbv zeta. rewrite Hfind. eexists. split; [reflexivity|].
  cbn [fst snd vocabs review_logs events Vocab._id Vocab.fields].
  split; [reflexivity|]. split; [reflexivity|]. split; [reflexivity|].
  split; [reflexivity|]. split; [reflexivity|]. split; [reflexivity|].
  split.
  - unfold clean_body, mongo_body, create_doc, set_scheduling.
    cbn [Vocab.meanings Vocab.tags Vocab.collocations Vocab.phrases Vocab.topics
         Vocab.wordFamily].
    repeat split; try apply _unique_strings_clean; apply _normalize_word_family_clean.
  - repeat (split; [reflexivity|]). apply stored_mongo_body.
Qed.

Lemma readded_body_fields (payload : VocabCreate.t) (now : datetime) (existing : Vocab.body) :
  let b := readded_body payload now existing in
  Vocab.termNormalized b = Vocab.termNormalized existing
  /\ Vocab.term b = Vocab.term existing
  /\ Vocab.createdAt b = Vocab.createdAt existing
  /\ Vocab.lastReviewedAt b = Vocab.lastReviewedAt existing
  /\ Vocab.lapses b = Vocab.lapses existing
  /\ Vocab.readdCount b = Vocab.readdCount existing + 1
  /\ Vocab.lastReaddAt b = Some (mongo_date now)
  /\ Vocab.updatedAt b = mongo_date now
  /\ Vocab.repetitions b = 0 /\ Vocab.intervalDays b = 0 /\ Vocab.dueAt b = mongo_date now
  /\ Vocab.easeFactor b = py_round2 (clamp (Vocab.easeFactor existing - 0.2) 1.3 3.0)
  /\ Vocab.meanings b
     = _merge_unique_strings (Vocab.meanings existing) (VocabCreate.meanings payload).
Proof.
  cbv zeta. unfold readded_body, set_scheduling, apply_readd_penalty, Sm2State_from_doc.
  rewrite !fmap_insert, map_fmap_singleton.
  cbn -[mongo_date]. repeat split; reflexivity.
Qed.


(** X25.  [create_vocab] keeps the store well formed.  On a store whose
    cards have distinct identities and distinct normalised terms, new
    identities being fresh, the cards have distinct identities and distinct
    normalised terms afterwards, the cards of before keep their place,
    identity and term, at most one card is added, and an error leaves the
    store as it is and is the refusal 422. *)
Theorem create_vocab_invariants (db : Store) (payload : VocabCreate.t) (now : datetime) :
  NoDup (Vocab._id <$> vocabs db) ->
  NoDup (term_keys (vocabs db)) ->
  new_object_id (vocabs db) ∉ Vocab._id <$> vocabs db ->
  let db' := (create_vocab' db payload now).2 in
  NoDup (Vocab._id <$> vocabs db')
  /\ NoDup (term_keys (vocabs db'))
  /\ (doc_key <$> vocabs db) `prefix_of` (doc_key <$> vocabs db')
  /\ (length (vocabs db') <= S (length (vocabs db)))%nat
  /\ forall e, (create_vocab' db payload now).1 = Raise e ->
       db' = db /\ exists detail, e = HTTPException 422 detail.
Proof.
  intros Hnd Hterms Hfresh db'. subst db'. unfold create_vocab.
  destruct (str_truthy (normalize_term_str (VocabCreate.term payload))) eqn:Ht; cbn [negb].
  2:{ cbn [fst snd]. split; [exact Hnd|]. split; [exact Hterms|]. split; [reflexivity|].
      split; [lia|]. intros e [= <-]. eauto. }
  destruct (accepted' _ _ _) eqn:Hacc; cbn [negb].
  2:{ cbn [fst snd]. split; [exact Hnd|]. split; [exact Hterms|]. split; [reflexivity|].
      split; [lia|]. intros e [= <-]. eauto. }
  destruct (find_one_term _ (vocabs db)) as [existing|] eqn:Hfind; cbv zeta.
  - pose proof (find_one_term_Some _ _ _ Hfind) as [Hin Hterm].
    pose proof (find_one_id_NoDup _ _ Hnd Hin) as Hid.
    rewrite (find_one_id_update_same _ _ _ _ Hid). cbn [fst snd vocabs].
    pose proof (readded_body_fields payload now (Vocab.fields existing)) as Hb. cbv zeta in Hb.
    assert (Hkeys : doc_key <$> update_one (Vocab._id existing)
                                  (readded_body payload now (Vocab.fields existing)) (vocabs db)
                    = doc_key <$> vocabs db)
      by (apply update_one_keys; [exact Hnd | exact Hin | apply Hb]).
    rewrite update_one_ids, (term_keys_doc_key _ _ Hkeys), Hkeys, update_one_length.
    split; [exact Hnd|]. split; [exact Hterms|]. split; [reflexivity|].
    split; [lia | discriminate].
  - assert (Hread : find_one_id (new_object_id (vocabs db))
                      (vocabs db
                       ++ [{| Vocab._id := new_object_id (vocabs db);
                              Vocab.fields :=
                                mongo_body
                                  (create_doc payload
                                     (normalize_term_str (VocabCreate.term payload)) now) |}])
                    = Some {| Vocab._id := new_object_id (vocabs db);
                              Vocab.fields :=
                                mongo_body
                                  (create_doc payload
                                     (normalize_term_str (VocabCreate.term payload)) now) |}).
    { exact (find_one_id_snoc (vocabs db) {| Vocab._id := new_object_id (vocabs db) |}
               Hfresh). }
    rewrite Hread. cbn [fst snd vocabs].
    unfold term_keys. rewrite !fmap_app, length_app. cbn [fmap list_fmap length].
    split; [apply NoDup_app; split; [exact Hnd|]; split;
            [intros x Hx ->%list_elem_of_singleton; now apply Hfresh | apply NoDup_singleton]|].
    split.
    + apply NoDup_app. split; [exact Hterms|]. split; [|apply NoDup_singleton].
      intros x Hx Hx'%list_elem_of_singleton. apply find_one_term_None in Hfind.
      apply Hfind. rewrite Hx' in Hx. exact Hx.
    + split; [now eexists|]. split; [lia | discriminate].
Qed.
End CreateFacts.

Lemma create_vocab_new_witness :
  exists doc,
    (create_vocab sample_provider_accepts sample_new_object_id sample_store
       (sample_create " Cherry " ["a fruit"; "a fruit "]) sample_now).1 = Ok doc
    /\ Vocab.termNormalized (Vocab.fields doc) = "cherry"%string
    /\ Vocab.dueAt (Vocab.fields doc) = mongo_date sample_now.
Proof.
  destruct (create_vocab_new sample_provider_accepts sample_new_object_id sample_store
              (sample_create " Cherry " ["a fruit"; "a fruit "]) sample_now
              ltac:(vm_compute; reflexivity) ltac:(vm_compute; reflexivity)
              ltac:(vm_compute; reflexivity) (sample_new_object_id_fresh _))
    as (doc & Hdoc & _ & _ & _ & _ & Hterm & _ & _ & _ & _ & _ & _ & Hdue & _).
  exists doc. split; [exact Hdoc|]. split; [exact Hterm | exact Hdue].
Defined.

(** The time of the examples is 05:13:20 in the zone, and the store keeps
    it as 22:13:20 of the day before in UTC. *)
Example mongo_date_sample_now : mongo_date sample_now = T0.
Proof. vm_compute. reflexivity. Qed.


Lemma create_vocab_invariants_witness :
  NoDup (term_keys (vocabs sample_store))
  /\ NoDup (term_keys
              (vocabs (create_vocab sample_provider_accepts sample_new_object_id sample_store
                         (sample_create "Cherry" []) T0).2)).
Proof.
  assert (Hterms : NoDup (term_keys (vocabs sample_store)))
    by (apply (bool_decide_unpack _); vm_compute; exact I).
  split; [exact Hterms|].
  exact (proj1 (proj2 (create_vocab_invariants sample_provider_accepts sample_new_object_id
                         sample_store (sample_create "Cherry" []) T0
                         sample_store_ids Hterms (sample_new_object_id_fresh _)))).
Defined.

(** ** The judge of typed answers *)

Lemma candidate_norms_normalized (candidates : list string) :
  normalize_term_str
    <$> filter (fun item => str_truthy (normalize_term_str item) = true)
          (normalize_term_str <$> candidates)
  = normalize_term_str
      <$> filter (fun item => str_truthy (normalize_term_str item) = true) candidates.
Proof.
  induction candidates as [|c candidates IH]; [reflexivity|].
  rewrite fmap_cons, !filter_cons, normalize_term_str_idempotent.
  destruct (decide (str_truthy (normalize_term_str c) = true)).
  - rewrite !fmap_cons, normalize_term_str_idempotent. now f_equal.
  - exact IH.
Qed.

Section JudgeFacts.
Variable similar : string -> list string -> Z -> bool.

(** X26.  The judge sees normalised texts only: the answer and the
    candidates can be replaced by their normalised forms; and an answer that
    is blank, or an empty list of candidates, is never near correct. *)
Theorem is_near_correct_normalized (user_answer : string) (candidates : list string)
    (threshold : Z) :
  is_near_correct similar user_answer candidates threshold
  = is_near_correct similar (normalize_term_str user_answer)
      (normalize_term_str <$> candidates) threshold
  /\ is_near_correct similar "" candidates threshold = false
  /\ is_near_correct similar user_answer [] threshold = false.
Proof.
  split; [|split].
  - unfold is_near_correct.
    now rewrite normalize_term_str_idempotent, candidate_norms_normalized.
  - reflexivity.
  - unfold is_near_correct. now destruct (negb _).
Qed.

(** X27.  An answer that is not blank and has the normalised form of one of
    the candidates is near correct, whatever the threshold and the measure
    of similarity. *)
Theorem is_near_correct_exact (user_answer : string) (candidates : list string)
    (threshold : Z) (candidate : string) :
  candidate ∈ candidates ->
  str_truthy (normalize_term_str user_answer) = true ->
  normalize_term_str candidate = normalize_term_str user_answer ->
  is_near_correct similar user_answer candidates threshold = true.
Proof.
  intros Hin Ht Heq. unfold is_near_correct. rewrite Ht. cbn [negb].
  assert (Hnorm : normalize_term_str user_answer
                  ∈ normalize_term_str
                      <$> filter (fun item => str_truthy (normalize_term_str item) = true)
                            candidates).
  { apply list_elem_of_fmap. exists candidate. split; [now symmetry|].
    apply list_elem_of_filter. split; [now rewrite Heq | exact Hin]. }
  case_bool_decide as Hnil; [rewrite Hnil in Hnorm; inversion Hnorm|].
  now rewrite bool_decide_eq_true_2.
Qed.
End JudgeFacts.

Lemma is_near_correct_exact_witness :
  is_near_correct sample_similar "  The APPLE! " ["pear"; "the apple"] 85 = true.
Proof.
  apply (is_near_correct_exact sample_similar "  The APPLE! " ["pear"; "the apple"] 85
           "the apple").
  - right. left.
  - vm_compute. reflexivity.
  - vm_compute. reflexivity.
Defined.

(** ** The meanings of a typed entry *)

Lemma normalize_meanings_into_spec (seen : gset string) (out meanings : list string) :
  exists added,
    normalize_meanings_into seen out meanings = out ++ added
    /\ Forall (fun x => x <> ""%string /\ str_strip x = x
                        /\ exists m, m ∈ meanings /\ str_strip m = x) added
    /\ NoDup (normalize_term_str <$> added)
    /\ (forall x, x ∈ added -> normalize_term_str x ∉ seen)
    /\ (forall m, m ∈ meanings -> str_strip m <> ""%string ->
          normalize_term_str (str_strip m) ∈ seen
          \/ normalize_term_str (str_strip m) ∈ normalize_term_str <$> added).
Proof.
  revert seen out. induction meanings as [|item meanings IH]; intros seen out.
  - exists []. cbn [normalize_meanings_into]. rewrite app_nil_r.
    split; [reflexivity|]. split; [constructor|]. split; [constructor|].
    split; intros x Hx; inversion Hx.
  - cbn [normalize_meanings_into].
    destruct (str_truthy (str_strip item)) eqn:Ht; cbn [negb].
    + apply str_truthy_spec in Ht. case_bool_decide as Hseen.
      * destruct (IH seen out) as (added & -> & Hall & Hnd & Hfresh & Hcov).
        exists added. split; [reflexivity|]. split.
        { eapply Forall_impl; [exact Hall|]. intros x (H1 & H2 & m & Hm & H3).
          split; [exact H1|]. split; [exact H2|]. exists m. split; [now right | exact H3]. }
        split; [exact Hnd|]. split; [exact Hfresh|].
        intros m [->|Hm]%elem_of_cons Hne; [now left | now apply Hcov].
      * destruct (IH ({[normalize_term_str (str_strip item)]} ∪ seen) (out ++ [str_strip item]))
          as (added & -> & Hall & Hnd & Hfresh & Hcov).
        exists (str_strip item :: added). split; [now rewrite <- app_assoc|]. split.
        { constructor.
          - split; [exact Ht|]. split; [apply str_strip_fixed|]. exists item.
            split; [left | reflexivity].
          - eapply Forall_impl; [exact Hall|]. intros x (H1 & H2 & m & Hm & H3).
            split; [exact H1|]. split; [exact H2|]. exists m. split; [now right | exact H3]. }
        split.
        { rewrite fmap_cons. apply NoDup_cons. split; [|exact Hnd].
          intros (x & Hx & Hin)%list_elem_of_fmap. apply (Hfresh x Hin).
          rewrite <- Hx. apply elem_of_union_l, elem_of_singleton. reflexivity. }
        split.
        { intros x [->|Hx]%elem_of_cons; [exact Hseen|].
          intros Hin. apply (Hfresh x Hx). now apply elem_of_union_r. }
        intros m [->|Hm]%elem_of_cons Hne.
        { right. rewrite fmap_cons. left. }
        destruct (Hcov m Hm Hne) as [[Hs%elem_of_singleton|Hs]%elem_of_union|Hs].
        -- right. rewrite fmap_cons, Hs. left.
        -- now left.
        -- right. rewrite fmap_cons. now right.
    + destruct (IH seen out) as (added & -> & Hall & Hnd & Hfresh & Hcov).
      exists added. split; [reflexivity|]. split.
      { eapply Forall_impl; [exact Hall|]. intros x (H1 & H2 & m & Hm & H3).
        split; [exact H1|]. split; [exact H2|]. exists m. split; [now right | exact H3]. }
      split; [exact Hnd|]. split; [exact Hfresh|].
      intros m [->|Hm]%elem_of_cons Hne; [|now apply Hcov].
      exfalso. apply Hne. destruct (str_strip item) eqn:E; [reflexivity | discriminate].
Qed.

Lemma normalize_meanings_into_self (seen : gset string) (out l : list string) :
  Forall (fun x => x <> ""%string /\ str_strip x = x) l ->
  NoDup (normalize_term_str <$> l) ->
  (forall x, x ∈ l -> normalize_term_str x ∉ seen) ->
  normalize_meanings_into seen out l = out ++ l.
Proof.
  revert seen out. induction l as [|x l IH]; intros seen out Hall Hnd Hfresh.
  - cbn [normalize_meanings_into]. now rewrite app_nil_r.
  - apply Forall_cons in Hall as [[Hx Hs] Hall].
    rewrite fmap_cons in Hnd. apply NoDup_cons in Hnd as [Hxl Hnd].
    cbn [normalize_meanings_into]. rewrite Hs.
    replace (str_truthy x) with true by (symmetry; now apply str_truthy_spec).
    cbn [negb]. rewrite bool_decide_eq_false_2 by (apply Hfresh; left).
    rewrite IH; [now rewrite <- app_assoc | exact Hall | exact Hnd |].
    intros y Hy [Hin%elem_of_singleton|Hin]%elem_of_union.
    + apply Hxl. rewrite <- Hin. apply list_elem_of_fmap. eauto.
    + apply (Hfresh y); [now right | exact Hin].
Qed.

(** X28.  [_normalize_meanings] keeps, in their order, the meanings stripped
    of surrounding white space that are not blank, one for each normalised
    form: no two of the meanings kept have the same normalised form, each
    meaning that is not blank has its normalised form among those kept, and
    cleaning a cleaned list changes nothing. *)
Theorem normalize_meanings_spec (meanings : list string) :
  let kept := _normalize_meanings meanings in
  Forall (fun x => x <> ""%string /\ str_strip x = x
                   /\ exists m, m ∈ meanings /\ str_strip m = x) kept
  /\ NoDup (normalize_term_str <$> kept)
  /\ (forall m, m ∈ meanings -> str_strip m <> ""%string ->
        normalize_term_str (str_strip m) ∈ normalize_term_str <$> kept)
  /\ _normalize_meanings kept = kept.
Proof.
  intros kept. subst kept. unfold _normalize_meanings.
  destruct (normalize_meanings_into_spec ∅ [] meanings) as (added & -> & Hall & Hnd & _ & Hcov).
  cbn [app]. split; [exact Hall|]. split; [exact Hnd|]. split.
  - intros m Hm Hne. destruct (Hcov m Hm Hne) as [H|H]; [|exact H].
    now apply not_elem_of_empty in H.
  - apply (normalize_meanings_into_self ∅ [] added); [|exact Hnd|].
    + eapply Forall_impl; [exact Hall|]. now intros x (H1 & H2 & _).
    + intros x _. apply not_elem_of_empty.
Qed.

(** ** The cache of generated content *)

Section AiCacheFacts.
Variable sha256 : string -> string.
Variable json_dumps : json -> string.

Local Abbreviation key := (stable_hash sha256 json_dumps).
Local Abbreviation merge_into := (merge_list_unique_into sha256 json_dumps).
Local Abbreviation merge_lists := (_merge_list_unique sha256 json_dumps).
Local Abbreviation merge_data := (merge_ai_data sha256 json_dumps).

Lemma merge_list_unique_into_spec (seen : gset string) (merged items : list json) :
  exists added,
    merge_into seen merged items = merged ++ added
    /\ added ⊆ items
    /\ NoDup (key <$> added)
    /\ (forall x, x ∈ added -> key x ∉ seen)
    /\ (forall x, x ∈ items -> key x ∈ seen \/ key x ∈ key <$> added).
Proof.
  revert seen merged. induction items as [|item items IH]; intros seen merged.
  - exists []. cbn [merge_list_unique_into]. rewrite app_nil_r.
    split; [reflexivity|]. split; [reflexivity|]. split; [constructor|].
    split; intros x Hx; inversion Hx.
  - cbn [merge_list_unique_into]. case_bool_decide as Hseen.
    + destruct (IH seen merged) as (added & -> & Hsub & Hnd & Hfresh & Hcov).
      exists added. split; [reflexivity|].
      split; [intros x Hx; right; now apply Hsub|]. split; [exact Hnd|].
      split; [exact Hfresh|].
      intros x [->|Hx]%elem_of_cons; [now left | now apply Hcov].
    + destruct (IH ({[key item]} ∪ seen) (merged ++ [item]))
        as (added & -> & Hsub & Hnd & Hfresh & Hcov).
      exists (item :: added). split; [now rewrite <- app_assoc|].
      split; [intros x [->|Hx]%elem_of_cons; [left | right; now apply Hsub]|].
      split.
      { rewrite fmap_cons. apply NoDup_cons. split; [|exact Hnd].
        intros (x & Hx & Hin)%list_elem_of_fmap. apply (Hfresh x Hin).
        rewrite <- Hx. apply elem_of_union_l, elem_of_singleton. reflexivity. }
      split.
      { intros x [->|Hx]%elem_of_cons; [exact Hseen|].
        intros Hin. apply (Hfresh x Hx). now apply elem_of_union_r. }
      intros x [->|Hx]%elem_of_cons.
      { right. rewrite fmap_cons. left. }
      destruct (Hcov x Hx) as [[Hs%elem_of_singleton|Hs]%elem_of_union|Hs].
      * right. rewrite fmap_cons, Hs. left.
      * now left.
      * right. rewrite fmap_cons. now right.
Qed.

Lemma merge_list_unique_into_app (seen : gset string) (merged l1 l2 : list json) :
  exists added,
    merge_into seen merged l1 = merged ++ added
    /\ merge_into seen merged (l1 ++ l2)
       = merge_into (list_to_set (key <$> added) ∪ seen) (merged ++ added) l2.
Proof.
  revert seen merged. induction l1 as [|item l1 IH]; intros seen merged.
  - exists []. cbn [merge_list_unique_into app fmap list_fmap list_to_set].
    rewrite app_nil_r. split; [reflexivity|]. f_equal. set_solver.
  - cbn [merge_list_unique_into app]. case_bool_decide as Hseen.
    + apply IH.
    + destruct (IH ({[key item]} ∪ seen) (merged ++ [item])) as (added & -> & ->).
      exists (item :: added). rewrite <- !app_assoc. split; [reflexivity|].
      f_equal. rewrite fmap_cons. cbn [list_to_set]. set_solver.
Qed.

Lemma merge_list_unique_into_known (seen : gset string) (merged items : list json) :
  (forall x, x ∈ items -> key x ∈ seen) -> merge_into seen merged items = merged.
Proof.
  revert seen merged. induction items as [|item items IH]; intros seen merged Hknown;
    [reflexivity|].
  cbn [merge_list_unique_into]. rewrite bool_decide_eq_true_2 by (apply Hknown; left).
  apply IH. intros x Hx. apply Hknown. now right.
Qed.

Lemma merge_list_unique_into_self (seen : gset string) (merged l : list json) :
  NoDup (key <$> l) -> (forall x, x ∈ l -> key x ∉ seen) ->
  merge_into seen merged l = merged ++ l.
Proof.
  revert seen merged. induction l as [|x l IH]; intros seen merged Hnd Hfresh.
  - cbn [merge_list_unique_into]. now rewrite app_nil_r.
  - rewrite fmap_cons in Hnd. apply NoDup_cons in Hnd as [Hxl Hnd].
    cbn [merge_list_unique_into]. rewrite bool_decide_eq_false_2 by (apply Hfresh; left).
    rewrite (IH ({[key x]} ∪ seen) (merged ++ [x]) Hnd); [now rewrite <- app_assoc|].
    intros y Hy [Hin%elem_of_singleton|Hin]%elem_of_union.
    + apply Hxl. rewrite <- Hin. apply list_elem_of_fmap. eauto.
    + apply (Hfresh y); [now right | exact Hin].
Qed.

Lemma _merge_list_unique_again (a b : option (list json)) :
  merge_lists (Some (merge_lists a b)) b = merge_lists a b.
Proof.
  unfold _merge_list_unique. cbn [default].
  destruct (merge_list_unique_into_spec ∅ [] (default [] a ++ default [] b))
    as (added & Hr & _ & Hnd & _ & Hcov).
  rewrite Hr. cbn [app]. change (id added) with added.
  destruct (merge_list_unique_into_app ∅ [] added (default [] b)) as (added' & Ha & ->).
  pose proof (merge_list_unique_into_self ∅ [] added Hnd
                ltac:(intros x _; apply not_elem_of_empty)) as Hself.
  rewrite Hself in Ha. cbn [app] in Ha. subst added'. cbn [app].
  apply merge_list_unique_into_known. intros x Hx.
  destruct (Hcov x) as [H|H]; [apply elem_of_app; now right | now apply not_elem_of_empty in H|].
  apply elem_of_union_l, elem_of_list_to_set. exact H.
Qed.

(** X29.  [_merge_list_unique] keeps, in their order, the items of the two
    lists whose digest has not been met before: the items kept are items of
    the lists, no two of them have the same digest, every item of the lists
    has its digest among theirs, and the result merged with the second list
    again is the result. *)
Theorem merge_list_unique_spec (a b : option (list json)) :
  let merged := merge_lists a b in
  merged ⊆ default [] a ++ default [] b
  /\ NoDup (key <$> merged)
  /\ (forall x, x ∈ default [] a ++ default [] b -> key x ∈ key <$> merged)
  /\ merge_lists (Some merged) b = merged
  /\ merge_lists (Some merged) None = merged.
Proof.
  intros merged. subst merged.
  split; [|split; [|split; [|split]]].
  - unfold _merge_list_unique.
    destruct (merge_list_unique_into_spec ∅ [] (default [] a ++ default [] b))
      as (added & -> & Hsub & _). exact Hsub.
  - unfold _merge_list_unique.
    destruct (merge_list_unique_into_spec ∅ [] (default [] a ++ default [] b))
      as (added & -> & _ & Hnd & _). exact Hnd.
  - unfold _merge_list_unique.
    destruct (merge_list_unique_into_spec ∅ [] (default [] a ++ default [] b))
      as (added & -> & _ & _ & _ & Hcov).
    intros x Hx. destruct (Hcov x Hx) as [H|H]; [now apply not_elem_of_empty in H | exact H].
  - apply _merge_list_unique_again.
  - unfold _merge_list_unique at 1. cbn [default]. rewrite app_nil_r.
    unfold _merge_list_unique.
    destruct (merge_list_unique_into_spec ∅ [] (default [] a ++ default [] b))
      as (added & -> & _ & Hnd & _). cbn [app].
    apply (merge_list_unique_into_self ∅ [] added Hnd). intros x _. apply not_elem_of_empty.
Qed.

Lemma merge_ai_list_again (existing incoming : option (option (list json))) :
  merge_ai_list sha256 json_dumps (merge_ai_list sha256 json_dumps existing incoming) incoming
  = merge_ai_list sha256 json_dumps existing incoming.
Proof.
  unfold merge_ai_list. destruct incoming as [value|]; [|reflexivity].
  cbn [mjoin option_join]. now rewrite _merge_list_unique_again.
Qed.

(** X30.  Merging generated data into cached data a second time changes
    nothing; the keys that the merge does not know are those of the cached
    data, and a key absent from the generated data keeps its cached value. *)
Theorem merge_ai_data_idempotent (existing incoming : AiData) :
  let merged := merge_data existing incoming in
  merge_data merged incoming = merged
  /\ ai_other merged = ai_other existing
  /\ (ai_examples incoming = None -> ai_examples merged = ai_examples existing)
  /\ (ai_judge incoming = None -> ai_judge merged = ai_judge existing)
  /\ (ai_ipa incoming = None -> ai_ipa merged = ai_ipa existing).
Proof.
  intros merged. subst merged. split.
  - unfold merge_ai_data.
    cbn [ai_examples ai_mnemonics ai_meaningVariants ai_synonymGroups ai_distractors
         ai_judge ai_ipa ai_other].
    rewrite !merge_ai_list_again. f_equal.
    + now destruct (ai_judge incoming).
    + destruct (ai_ipa incoming) as [[ipa|]|]; try reflexivity.
      now destruct (str_truthy (str_strip ipa)).
  - unfold merge_ai_data. cbn. split; [reflexivity|].
    split; [now intros -> | split; now intros ->].
Qed.
End AiCacheFacts.

(** ** A snapshot exported and brought back *)

Lemma find_one_term_absent (t : string) (docs : list Vocab.doc) :
  t ∉ term_keys docs -> find_one_term t docs = None.
Proof.
  unfold find_one_term, term_keys. induction docs as [|d docs IH]; [reflexivity|].
  rewrite fmap_cons, not_elem_of_cons. intros [Hd Hin]. cbn [find].
  destruct (String.eqb_spec (Vocab.termNormalized (Vocab.fields d)) t); [congruence|].
  exact (IH Hin).
Qed.

Section ExportFacts.
Variable sha256 : string -> string.
Variable json_dumps : json -> string.
Variable fromisoformat : string -> option (Z * option Z).
Variable isoformat : datetime -> string.
Variable new_object_id : list Vocab.doc -> ObjectId.
Variable json_datetime : datetime -> string.

Local Abbreviation export_payload' := (export_payload isoformat json_datetime).
Local Abbreviation exported_vocab' := (exported_vocab isoformat).
Local Abbreviation import_vocab' :=
  (import_vocab sha256 json_dumps fromisoformat isoformat new_object_id).
Local Abbreviation import_payload' :=
  (import_payload sha256 json_dumps fromisoformat isoformat new_object_id).
Local Abbreviation import_sync' :=
  (import_sync sha256 json_dumps fromisoformat isoformat new_object_id).
Local Abbreviation survives := (date_survives fromisoformat isoformat).

Lemma exported_date (d now : datetime) :
  survives d -> _parse_datetime fromisoformat (raw_date (Some (isoformat d))) now = d.
Proof. intros [_ H]. apply H. Qed.

Lemma exported_optional_date (o : option datetime) (now : datetime) :
  Forall survives (option_list o) ->
  (if opt_truthy (isoformat <$> o)
   then Some (_parse_datetime fromisoformat (raw_date (isoformat <$> o)) now)
   else None) = o.
Proof.
  destruct o as [d|]; [|reflexivity]. cbn [option_list fmap option_fmap option_map].
  intros [[Ht Hd] _]%Forall_cons. cbn [opt_truthy]. rewrite Ht. now rewrite Hd.
Qed.

(** An exported card is read back as the card. *)
Lemma exported_card_doc (d : Vocab.doc) (now : datetime) :
  restorable (Vocab.fields d) ->
  Forall survives (card_dates (Vocab.fields d)) ->
  incoming_term_norm (exported_vocab' d) = Vocab.termNormalized (Vocab.fields d)
  /\ incoming_doc fromisoformat now (exported_vocab' d)
       (Vocab.termNormalized (Vocab.fields d)) = Vocab.fields d.
Proof.
  destruct d as [i b]. cbn [Vocab.fields].
  intros (Hkey & Hnorm & Hterm & (Hm & Ht & Hc & Hp & Ho & Hf) & Hipa & Hen & Hvi & Hmn) Hdates.
  unfold card_dates in Hdates.
  apply Forall_cons in Hdates as [Hcreated Hdates].
  apply Forall_cons in Hdates as [Hupdated Hdates].
  apply Forall_cons in Hdates as [Hdue Hdates].
  apply Forall_app in Hdates as [Hreviewed Hreadd].
  split.
  - unfold incoming_term_norm, exported_vocab. cbn [RawVocab.termNormalized Vocab.fields opt_or].
    now rewrite Hkey.
  - unfold incoming_doc, exported_vocab.
    cbn [RawVocab.term RawVocab.meanings RawVocab.ipa RawVocab.exampleEn RawVocab.exampleVi
         RawVocab.mnemonic RawVocab.tags RawVocab.collocations RawVocab.phrases
         RawVocab.wordFamily RawVocab.topics RawVocab.cefrLevel RawVocab.ieltsBand
         RawVocab.createdAt RawVocab.updatedAt RawVocab.easeFactor RawVocab.intervalDays
         RawVocab.repetitions RawVocab.lapses RawVocab.dueAt RawVocab.lastReviewedAt
         RawVocab.readdCount RawVocab.lastReaddAt Vocab.fields opt_or default from_option id].
    rewrite Hterm, Hipa, Hen, Hvi, Hmn, !exported_date, !exported_optional_date by assumption.
    rewrite !_merge_unique_strings_fixed, _normalize_word_family_fixed by assumption.
    now destruct b.
Qed.

(** The first loop over cards that the collection does not have. *)
Lemma import_fresh_fold (now : datetime) (incoming : list RawVocab.t) (st : VocabLoop) :
  Forall (fun r => str_truthy (incoming_term_norm r) = true) incoming ->
  NoDup (incoming_term_norm <$> incoming) ->
  (forall r, r ∈ incoming -> incoming_term_norm r ∉ term_keys (loop_vocabs st)) ->
  let st' := foldl (import_vocab' now) st incoming in
  Vocab.fields <$> loop_vocabs st'
  = (Vocab.fields <$> loop_vocabs st)
    ++ ((fun r => mongo_body (incoming_doc fromisoformat now r (incoming_term_norm r)))
          <$> incoming)
  /\ added_vocabs st' = added_vocabs st + Z.of_nat (length incoming)
  /\ updated_vocabs st' = updated_vocabs st
  /\ loop_conflicts st' = loop_conflicts st.
Proof.
  revert st. induction incoming as [|r incoming IH]; intros st Htruthy Hnd Hfresh.
  - cbn [foldl fmap list_fmap length]. rewrite app_nil_r. repeat split; lia.
  - apply Forall_cons in Htruthy as [Hr Htruthy].
    rewrite fmap_cons in Hnd. apply NoDup_cons in Hnd as [Hkey Hnd].
    rewrite foldl_step. cbv zeta.
    assert (Hstep : import_vocab' now st r
                    = {| loop_vocabs :=
                           loop_vocabs st
                           ++ [{| Vocab._id := new_object_id (loop_vocabs st);
                                  Vocab.fields :=
                                    mongo_body
                                      (incoming_doc fromisoformat now r
                                         (incoming_term_norm r)) |}];
                         source_vocab_to_local :=
                           <[opt_or (RawVocab._id r) "" := new_object_id (loop_vocabs st)]>
                             (source_vocab_to_local st);
                         added_vocabs := added_vocabs st + 1;
                         updated_vocabs := updated_vocabs st;
                         loop_conflicts := loop_conflicts st |}).
    { unfold import_vocab. rewrite Hr. cbn [negb].
      now rewrite (find_one_term_absent _ _ (Hfresh r ltac:(left))). }
    rewrite Hstep.
    match goal with
    | |- context [foldl _ ?s incoming] => destruct (IH s Htruthy Hnd) as (H1 & H2 & H3 & H4)
    end.
    { intros x Hx. cbn [loop_vocabs]. unfold term_keys. rewrite fmap_app.
      cbn [fmap list_fmap Vocab.fields]. rewrite not_elem_of_app. split.
      - apply (Hfresh x). now right.
      - intros Hin%list_elem_of_singleton. apply Hkey.
        unfold mongo_body, incoming_doc in Hin. cbn [Vocab.termNormalized] in Hin.
        rewrite <- Hin. apply list_elem_of_fmap. eauto. }
    cbv zeta in H1. rewrite H1, H2, H3, H4.
    cbn [loop_vocabs added_vocabs updated_vocabs loop_conflicts length].
    rewrite fmap_app, fmap_cons. cbn [fmap list_fmap Vocab.fields].
    rewrite <- app_assoc. repeat split; try reflexivity. lia.
Qed.

(** X12.  An export changes nothing but the events, which gain one,
    [EXPORT], dated now as the store keeps it (cut to the millisecond, in
    UTC), that is in the snapshot too; the snapshot has the version [v1],
    the time of the export, every card, log and event of the store once, the
    logs and the events by date as the store compares dates, and the route
    of imports accepts it on any store. *)
Theorem export_payload_spec (db : Store) (now : datetime) :
  let snapshot := (export_payload' db now).1 in
  let db' := (export_payload' db now).2 in
  vocabs db' = vocabs db /\ review_logs db' = review_logs db
  /\ events db'
     = events db
       ++ [{| Event.type := "EXPORT"; Event.payload := JDict [("schemaVersion", JStr "v1")];
              Event.createdAt := mongo_date now |}]
  /\ Payload.schemaVersion snapshot = "v1"%string
  /\ Payload.exportedAt snapshot = Some (json_datetime now)
  /\ Payload.vocabs snapshot ≡ₚ exported_vocab' <$> vocabs db
  /\ (exists logs, Payload.review_logs snapshot = exported_log isoformat <$> logs
                   /\ logs ≡ₚ review_logs db
                   /\ StronglySorted (fun a b => millis (Log.createdAt a)
                                                 <= millis (Log.createdAt b)) logs)
  /\ (exists evs, Payload.events snapshot = exported_event isoformat <$> evs
                  /\ evs ≡ₚ events db'
                  /\ StronglySorted (fun a b => millis (Event.createdAt a)
                                                <= millis (Event.createdAt b)) evs)
  /\ forall db2 now2, exists report, (import_sync' db2 snapshot now2).1 = Ok report.
Proof.
  cbv zeta. unfold export_payload.
  cbn [fst snd vocabs review_logs events Payload.schemaVersion Payload.vocabs
       Payload.review_logs Payload.events Payload.exportedAt].
  split; [reflexivity|]. split; [reflexivity|]. split; [reflexivity|].
  split; [reflexivity|]. split; [reflexivity|].
  split; [now rewrite sort_by_Permutation|]. split; [|split].
  - eexists. split; [reflexivity|]. split; [apply sort_by_Permutation|].
    eapply StronglySorted_weaken; [|apply sort_by_sorted].
    + intros a b. apply Z.leb_le.
    + intros x y H. apply Z.leb_gt in H. apply Z.leb_le. lia.
    + intros x y z Hx Hy. apply Z.leb_le in Hx, Hy. apply Z.leb_le. lia.
  - eexists. split; [reflexivity|]. split; [apply sort_by_Permutation|].
    eapply StronglySorted_weaken; [|apply sort_by_sorted].
    + intros a b. apply Z.leb_le.
    + intros x y H. apply Z.leb_gt in H. apply Z.leb_le. lia.
    + intros x y z Hx Hy. apply Z.leb_le in Hx, Hy. apply Z.leb_le. lia.
  - intros db2 now2. unfold import_sync. cbn [Payload.schemaVersion String.eqb negb].
    destruct (import_payload _ _ _ _ _ _ _ _) as [report db3]. eauto.
Qed.

(** X13.  A snapshot brings the cards back.  Suppose that the cards of a
    store have distinct normalised terms and that each card
    - has a normalised term that is not empty and that [normalize_term]
      leaves as it is, and a term that is not empty;
    - has lists of meanings, tags, collocations, phrases and topics in which
      no item is empty, unstripped or repeated, and a word family in which
      each role is there once, not empty, stripped and in lower case, with
      such a list of words;
    - has a pronunciation that, when there is one, is stripped of
      surrounding white space;
    - has an example in English, an example in Vietnamese and a mnemonic
      that are each absent or not empty;
    - has dates as the store keeps them, of whole milliseconds and in UTC;
    - has dates whose text by [isoformat] is not empty and is read back by
      [_parse_datetime] as the date.
    Then the snapshot exported from the store and imported on an empty store
    gives cards with the very bodies of the cards of the store; the report
    counts each of them as added, and no update and no conflict. *)
Theorem export_import_restores_cards (db : Store) (now now2 : datetime) :
  NoDup (term_keys (vocabs db)) ->
  Forall (fun d => restorable (Vocab.fields d)
                   /\ stored_body (Vocab.fields d)
                   /\ Forall survives (card_dates (Vocab.fields d))) (vocabs db) ->
  let snapshot := (export_payload' db now).1 in
  let report := (import_payload' empty_store snapshot now2).1 in
  let db2 := (import_payload' empty_store snapshot now2).2 in
  Vocab.fields <$> vocabs db2 ≡ₚ Vocab.fields <$> vocabs db
  /\ addedVocabs report = Z.of_nat (length (vocabs db))
  /\ updatedVocabs report = 0 /\ conflicts report = 0.
Proof.
  intros Hterms Hcards. cbv zeta.
  unfold import_payload.
  cbn [fst snd vocabs addedVocabs updatedVocabs conflicts empty_store].
  unfold import_vocabs, export_payload. cbn [fst Payload.vocabs vocabs].
  set (cards := sort_by (fun a b => String.leb (incoming_term_norm a) (incoming_term_norm b))
                  (exported_vocab' <$> sort_by export_order (vocabs db))).
  assert (Hperm : cards ≡ₚ exported_vocab' <$> vocabs db).
  { unfold cards. now rewrite !sort_by_Permutation. }
  assert (Hall : forall r, r ∈ cards ->
            exists d, d ∈ vocabs db /\ r = exported_vocab' d
                      /\ incoming_term_norm r = Vocab.termNormalized (Vocab.fields d)
                      /\ incoming_doc fromisoformat now2 r (incoming_term_norm r)
                         = Vocab.fields d).
  { intros r Hr. rewrite Hperm in Hr. apply list_elem_of_fmap in Hr as (d & -> & Hd).
    rewrite Forall_forall in Hcards. destruct (Hcards d Hd) as (Hrest & _ & Hdates).
    destruct (exported_card_doc d now2 Hrest Hdates) as [Hk Hdoc].
    exists d. rewrite Hk. auto. }
  assert (Hkeys : incoming_term_norm <$> cards ≡ₚ term_keys (vocabs db)).
  { rewrite Hperm. unfold term_keys. rewrite <- list_fmap_compose.
    apply eq_subrelation; [apply _|]. apply Forall_fmap_ext_1.
    rewrite Forall_forall in Hcards |- *. intros d Hd.
    destruct (Hcards d Hd) as (Hrest & _ & Hdates).
    apply (exported_card_doc d now2 Hrest Hdates). }
  destruct (import_fresh_fold now2 cards (vocab_loop_start [])) as (H1 & H2 & H3 & H4).
  - apply Forall_forall. intros r Hr. destruct (Hall r Hr) as (d & Hd & _ & -> & _).
    rewrite Forall_forall in Hcards. now destruct (Hcards d Hd) as [(Hk & _) _].
  - now rewrite Hkeys.
  - intros r _ Hin. inversion Hin.
  - cbv zeta in H1, H2, H3, H4.
    cbn [vocabs review_logs events] in *.
    rewrite H1, H2, H3, H4.
    cbn [vocab_loop_start loop_vocabs added_vocabs updated_vocabs loop_conflicts fmap list_fmap
         app].
    split; [|split; [|split; reflexivity]].
    + transitivity ((fun r => mongo_body
                                (incoming_doc fromisoformat now2 r (incoming_term_norm r)))
                      <$> (exported_vocab' <$> vocabs db)); [now rewrite Hperm|].
      rewrite <- list_fmap_compose.
      apply eq_subrelation; [apply _|]. apply Forall_fmap_ext_1.
      rewrite Forall_forall in Hcards |- *. intros d Hd.
      destruct (Hcards d Hd) as (Hrest & Hstored & Hdates).
      destruct (exported_card_doc d now2 Hrest Hdates) as [Hk Hdoc].
      cbn [compose]. rewrite Hk, Hdoc. exact Hstored.
    + rewrite Hperm, length_fmap. lia.
Qed.
End ExportFacts.

Lemma export_import_restores_cards_witness :
  NoDup (term_keys (vocabs sample_clean_store))
  /\ Vocab.fields
       <$> vocabs (import_payload sample_sha256 sample_json_dumps sample_fromisoformat
                     sample_isoformat sample_new_object_id empty_store
                     (export_payload sample_isoformat sample_isoformat sample_clean_store
                        sample_now).1
                     sample_later).2
     ≡ₚ Vocab.fields <$> vocabs sample_clean_store.
Proof.
  assert (Hterms : NoDup (term_keys (vocabs sample_clean_store)))
    by (apply (bool_decide_unpack _); vm_compute; exact I).
  split; [exact Hterms|].
  refine (proj1 (export_import_restores_cards sample_sha256 sample_json_dumps
                   sample_fromisoformat sample_isoformat sample_new_object_id
                   sample_isoformat sample_clean_store sample_now sample_later Hterms _)).
  repeat constructor;
    try (vm_compute; reflexivity);
    try (intros default; vm_compute; reflexivity).
Defined.
